(** * Swap and transfer workflows of the Aptos agent: model and properties

  A shallow embedding of the swap aggregation and execution core
  (swap.subgraph.ts, transfer.subgraph.ts, the three DEX services) with
  the properties its specification states about it.

  Conventions of the embedding.
  - A JavaScript [number] is a [num]: a value held as an exact
    rational, or [NaN].  Comparisons, [Math.floor], [Math.ceil],
    [Math.round] and [Math.min] are exact on the values they are given,
    as they are on doubles.  Where a result that a property quotes
    depends on rounding (slippage, the constant-product quote, the
    scaled swap amount, the gas reserve), sums, differences, products
    and quotients are those of IEEE 754 binary64, module [F64];
    elsewhere the exact operation of [Num] stands for them.
  - [async] functions are computations of the monad [M]: they thread an
    abstract world (ledger, HTTP services, process-wide caches, clock)
    and either return a value or throw.
  - Calls that leave the repository (wallet service, ledger client, DEX
    catalogue, HTTP routers, the host's [interrupt]) are the fields of
    an [Env] record; theorems quantify over every [Env]. *)

From Stdlib Require Import QArith Qround ZArith String Ascii List Bool Lia
  Permutation Sorted.
From Stdlib Require SpecFloat FloatOps.
From Corelib Require PrimFloat.
Import ListNotations.
Local Open Scope string_scope.
Local Open Scope Z_scope.

(** ** JavaScript numbers *)

Module Num.

Inductive num : Type :=
| Fin (q : Q)
| NaN.

Definition ofZ (z : Z) : num := Fin (inject_Z z).

Definition isNaN (a : num) : bool :=
  match a with NaN => true | Fin _ => false end.

Definition lift2 (f : Q -> Q -> Q) (a b : num) : num :=
  match a, b with
  | Fin x, Fin y => Fin (f x y)
  | _, _ => NaN
  end.

Definition add := lift2 Qplus.
Definition sub := lift2 Qminus.
Definition mul := lift2 Qmult.

(** [a / b].  A zero divisor would give an infinity in JavaScript; the
    model has none and answers [NaN] there. *)
Definition div (a b : num) : num :=
  match a, b with
  | Fin x, Fin y => if Qeq_bool y 0 then NaN else Fin (x / y)
  | _, _ => NaN
  end.

(** [10 ** d] for a decimals count [d]. *)
Definition pow10 (d : nat) : num := ofZ (10 ^ Z.of_nat d).

Definition floor (a : num) : num :=
  match a with Fin x => ofZ (Qfloor x) | NaN => NaN end.

Definition ceil (a : num) : num :=
  match a with Fin x => ofZ (Qceiling x) | NaN => NaN end.

(** [Math.round]: nearest integer, halves towards plus infinity. *)
Definition round (a : num) : num :=
  match a with Fin x => ofZ (Qfloor (x + (1 # 2))) | NaN => NaN end.

(** [Math.min] answers [NaN] as soon as one argument is [NaN]. *)
Definition min (a b : num) : num :=
  match a, b with
  | Fin x, Fin y => if Qle_bool x y then Fin x else Fin y
  | _, _ => NaN
  end.

(** Comparisons: every comparison with [NaN] is false. *)
Definition le (a b : num) : bool :=
  match a, b with
  | Fin x, Fin y => Qle_bool x y
  | _, _ => false
  end.

Definition lt (a b : num) : bool :=
  match a, b with
  | Fin x, Fin y => negb (Qle_bool y x)
  | _, _ => false
  end.

Definition gt (a b : num) : bool := lt b a.
Definition ge (a b : num) : bool := le b a.

(** Truthiness of a number: [0] and [NaN] are falsy. *)
Definition truthy (a : num) : bool :=
  match a with Fin x => negb (Qeq_bool x 0) | NaN => false end.

(** [a || b] on numbers. *)
Definition or_else (a b : num) : num := if truthy a then a else b.

(** The array index a number denotes, when it denotes one: a
    non-negative integer. *)
Definition toIndex (a : num) : option nat :=
  match a with
  | Fin x =>
      if Qeq_bool x (inject_Z (Qfloor x)) && (0 <=? Qfloor x)
      then Some (Z.to_nat (Qfloor x)) else None
  | NaN => None
  end.

End Num.
Import Num.

(** ** Double-precision arithmetic

    The four operations of binary64 as the standard library specifies
    them ([SpecFloat], precision 53, round to nearest, ties to even),
    on numbers held as rationals.  An operand is read as the double
    nearest to it, which makes a decimal literal the double JavaScript
    reads it as and leaves a double as it is; the result is the value
    of the double computed.  The two infinities are the rationals
    [2^1024] and [-2^1024], which no double reaches and which compare
    with every double as the infinities do; zero carries no sign. *)

Module F64.

Definition prec : Z := 53.
Definition emax : Z := 1024.

Definition INFINITY : Z := 2 ^ 1024.

(** The value of a double. *)
Definition ofSF (f : SpecFloat.spec_float) : num :=
  match f with
  | SpecFloat.S754_zero _ => ofZ 0
  | SpecFloat.S754_infinity s => ofZ (if s then - INFINITY else INFINITY)
  | SpecFloat.S754_nan => NaN
  | SpecFloat.S754_finite s m e =>
      let n := if s then Zneg m else Zpos m in
      match e with
      | Zneg k => Fin (Qred (n # Pos.shiftl 1 (Npos k)))
      | _ => ofZ (n * 2 ^ e)
      end
  end.

Definition ofInteger (z : Z) : SpecFloat.spec_float :=
  SpecFloat.binary_normalize prec emax z 0 false.

(** The double nearest to a number: a dyadic rational is rounded as it
    stands, any other as the quotient of its numerator by its
    denominator.  The quotient is rounded once, and so is the nearest
    double, when numerator and denominator are below [2^53], as with
    the decimal figures of the source; beyond that the two are rounded
    before they are divided. *)
Definition toSF (a : num) : SpecFloat.spec_float :=
  match a with
  | NaN => SpecFloat.S754_nan
  | Fin q =>
      let n := Qnum (Qred q) in
      let d := Zpos (Qden (Qred q)) in
      let k := Z.log2 d in
      if d =? 2 ^ k then SpecFloat.binary_normalize prec emax n (- k) false
      else SpecFloat.SFdiv prec emax (ofInteger n) (ofInteger d)
  end.

Definition lift2
  (f : SpecFloat.spec_float -> SpecFloat.spec_float -> SpecFloat.spec_float)
  (a b : num) : num :=
  ofSF (f (toSF a) (toSF b)).

Definition add := lift2 (SpecFloat.SFadd prec emax).
Definition sub := lift2 (SpecFloat.SFsub prec emax).
Definition mul := lift2 (SpecFloat.SFmul prec emax).
Definition div := lift2 (SpecFloat.SFdiv prec emax).

End F64.

Declare Scope num_scope.
Delimit Scope num_scope with num.
Bind Scope num_scope with num.
Infix "+" := Num.add : num_scope.
Infix "-" := Num.sub : num_scope.
Infix "*" := Num.mul : num_scope.
Infix "/" := Num.div : num_scope.
Infix "<=?" := Num.le : num_scope.
Infix "<?" := Num.lt : num_scope.
Infix ">?" := Num.gt (at level 70) : num_scope.
Infix ">=?" := Num.ge (at level 70) : num_scope.

(** ** Errors and the computation monad *)

(** Values interpolated into templates keep their structure. *)
Inductive jsval : Type :=
| VUndefined
| VNull
| VBool (b : bool)
| VNum (n : num)
| VStr (s : string)
| VObj.

(** The message of an [Error].  Literal messages are strings; a template
  literal is a constructor carrying its interpolated values. *)
Inductive message : Type :=
| Msg (s : string)
| InputTokenNotFound (asset : option string)
| InsufficientBalanceSwap (balance : num) (decimals : nat) (amount : num)
| InsufficientBalanceApt (balance : num) (amount : num)
  (totalGas maxGas maxSwappable : num)
| InsufficientBalanceToken (balance : num) (amount : num)
| InvalidPoolSelectionRange (selected : jsval) (last : Z)
| InsufficientBalanceTransfer (available required : num)
| HyperionBadFunctionName (name : string)
| HyperionBadFunctionFormat (name : string)
| UnsupportedDex (dexName : string)
| AmountNotInteger (amount : num)
| AmountExceedsU64 (amount : num)
| AmountNotPositive (amount : num)
| TypeError (what : string)
| External (s : string).

Inductive outcome (E A : Type) : Type :=
| Ok (a : A)
| Throw (e : E).
Arguments Ok {E A} a.
Arguments Throw {E A} e.

Section Monad.
Context {W E : Type}.

Definition M (A : Type) : Type := W -> outcome E A * W.

Definition ret {A} (a : A) : M A := fun w => (Ok a, w).

Definition bind {A B} (c : M A) (k : A -> M B) : M B :=
  fun w => match c w with
           | (Ok a, w') => k a w'
           | (Throw e, w') => (Throw e, w')
           end.

Definition throw {A} (e : E) : M A := fun w => (Throw e, w).

(** [try { c } catch (e) { h e }] *)
Definition try_catch {A} (c : M A) (h : E -> M A) : M A :=
  fun w => match c w with
           | (Ok a, w') => (Ok a, w')
           | (Throw e, w') => h e w'
           end.

Definition lift {A} (o : outcome E A) : M A := fun w => (o, w).

(** [for (const x of xs) ys.push(await f x)] *)
Fixpoint mapM {A B} (f : A -> M B) (xs : list A) : M (list B) :=
  match xs with
  | [] => ret []
  | x :: xs' =>
      bind (f x) (fun y => bind (mapM f xs') (fun ys => ret (y :: ys)))
  end.
End Monad.
Arguments M : clear implicits.

Declare Scope monad_scope.
Delimit Scope monad_scope with monad.
Notation "x <- c ;; k" := (bind c (fun x => k))
  (at level 61, c at next level, right associativity) : monad_scope.
Local Open Scope monad_scope.

(** ** The path-routed adapter: constant-product quote
  (pancakeswap.service.ts, [getAmountOut]) *)

Module PancakeMath.

Definition getAmountOut (amount_in reserve_in reserve_out : num)
  : outcome message num :=
  if (amount_in <=? ofZ 0)%num
  then Throw (Msg "ERROR_INSUFFICIENT_INPUT_AMOUNT")
  else if (reserve_in <=? ofZ 0)%num || (reserve_out <=? ofZ 0)%num
  then Throw (Msg "ERROR_INSUFFICIENT_LIQUIDITY")
  else
    let amount_in_with_fee := F64.mul amount_in (Fin 0.9975) in
    let numerator := F64.mul amount_in_with_fee reserve_out in
    let denominator :=
      F64.add (F64.mul reserve_in (ofZ 1)) amount_in_with_fee in
    Ok (Num.floor (F64.div numerator denominator)).

End PancakeMath.

(** ** Strings *)

Module Str.

Definition lower_ascii (c : ascii) : ascii :=
  let n := nat_of_ascii c in
  if (65 <=? n)%nat && (n <=? 90)%nat then ascii_of_nat (n + 32) else c.

(** [s.toLowerCase()] on ASCII text (addresses and type names). *)
Fixpoint toLowerCase (s : string) : string :=
  match s with
  | EmptyString => EmptyString
  | String c s' => String (lower_ascii c) (toLowerCase s')
  end.

(** [s.includes(sub)] *)
Definition includes (s sub : string) : bool :=
  match index 0 sub s with Some _ => true | None => false end.

Definition truthy (s : string) : bool := negb (s =? "")%string.

(** [o || ""] for a string that may be null. *)
Definition or_empty (o : option string) : string :=
  match o with
  | Some s => s
  | None => ""
  end.

(** Truthiness of a string that may be null. *)
Definition truthy_opt (o : option string) : bool := truthy (or_empty o).

(** [[a, b].sort().join(",")]: the default sort orders strings by code
    unit and moves [undefined] last; [join] prints it as nothing. *)
Definition sortPairJoin (a b : option string) : string :=
  match a, b with
  | Some x, Some y =>
      if (y <? x)%string then y ++ "," ++ x else x ++ "," ++ y
  | Some x, None => x ++ ","
  | None, Some y => y ++ ","
  | None, None => ","
  end.

End Str.

Definition APT_ALIAS : string := "0xa".
Definition APT_COIN : string := "0x1::aptos_coin::AptosCoin".
Definition APT_COIN_LOWER : string := "0x1::aptos_coin::aptoscoin".

(** ** Data model (types/dex.types.ts and the two subgraphs) *)

(** A token reference as the adapters hand it over: a string, or an
    object whose [inner] holds the address. *)
Inductive tokref : Type :=
| TRStr (s : string)
| TRObj (inner : option string).

Record DexFunction : Type := {
  functionType : string;
  functionName : string;
  isActive : bool
}.

Record DexInfo : Type := {
  name : string;
  displayName : string;
  methodAddress : string;
  functions : list DexFunction
}.

(** One hop of an external-router path. *)
Record Router : Type := {
  wrapFrom : string;
  wrapTo : string;
  stable : bool;
  poolAddress : string
}.

Record Pool : Type := {
  pool_id : option tokref;
  dex : DexInfo;
  tokenA : option tokref;
  tokenB : option tokref;
  estimatedOutput : option num;
  minAmountOut : option num;
  fee : option num;
  token_a : option tokref;
  token_b : option tokref;
  token_x : option tokref;
  token_y : option tokref;
  fa_coin_x_metadata : option tokref;
  fa_coin_y_metadata : option tokref;
  fa_coin_x_address : option string;
  fa_coin_y_address : option string;
  routeType : option string;
  routePath : option (list string);
  routers : option (list Router)
}.

(** [pool.estimatedOutput = e; pool.minAmountOut = m] *)
Definition set_estimate (p : Pool) (e m : num) : Pool :=
  {| pool_id := pool_id p; dex := dex p; tokenA := tokenA p;
     tokenB := tokenB p; estimatedOutput := Some e; minAmountOut := Some m;
     fee := fee p; token_a := token_a p; token_b := token_b p;
     token_x := token_x p; token_y := token_y p;
     fa_coin_x_metadata := fa_coin_x_metadata p;
     fa_coin_y_metadata := fa_coin_y_metadata p;
     fa_coin_x_address := fa_coin_x_address p;
     fa_coin_y_address := fa_coin_y_address p;
     routeType := routeType p; routePath := routePath p;
     routers := routers p |}.

(** [pool.estimatedOutput || 0] *)
Definition outputOf (p : Pool) : num :=
  match estimatedOutput p with
  | Some e => Num.or_else e (ofZ 0)
  | None => ofZ 0
  end.

Record AmountEstimation : Type := {
  est_estimatedOutput : num;
  est_minAmountOut : num;
  est_slippage : num
}.

Record PoolSearchParams : Type := {
  sp_dex : DexInfo;
  sp_faAddressIn : string;
  sp_faAddressOut : string;
  sp_tokenAddressIn : option string;
  sp_tokenAddressOut : option string
}.

Record Account : Type := {
  accountAddress : string;
  publicKey : string
}.

Record SwapParams : Type := {
  sw_account : Account;
  sw_faAddressIn : string;
  sw_faAddressOut : string;
  sw_tokenAddressIn : option string;
  sw_tokenAddressOut : option string;
  sw_amountIn : num;
  sw_slippage : num;
  sw_toAddress : string
}.

Record SwapResult (Txn : Type) : Type := {
  transaction : Txn;
  sr_estimatedOutput : num;
  sr_minAmountOut : num
}.

Record Wallet : Type := {
  privateKey : string
}.

(** One row of [getAccountCoinsData]. *)
Record CoinData : Type := {
  amount : option num;
  cd_decimals : option nat;
  token_standard : option string;
  cd_name : option string;
  cd_symbol : option string
}.

Record SimulationResult : Type := {
  gas_unit_price : string;
  gas_used : string;
  max_gas_amount : string
}.

Record GasEstimation : Type := {
  totalGasCostInAPT : num;
  maxGasCostInAPT : num
}.

(** Arguments of the ledger calls the core issues itself. *)
Inductive arg : Type :=
| AStr (s : option string)
| ATok (t : option tokref)
| ANum (n : num)
| ANumString (n : num)
| AStrs (l : list string)
| ABools (l : list bool).

Record Payload : Type := {
  pl_function : string;
  pl_typeArguments : list string;
  pl_functionArguments : list arg
}.

Record BuildRequest : Type := {
  br_sender : string;
  br_data : Payload;
  br_options : option (num * num)
}.

Record TransferCoinRequest : Type := {
  tc_sender : string;
  tc_recipient : string;
  tc_amount : num;
  tc_coinType : string;
  tc_options : num * num
}.

Record ExecutedTransaction : Type := {
  tx_hash : string;
  tx_gas_used : string;
  tx_gas_unit_price : string
}.

(** *** Swap workflow state *)

Inductive SwapPhase : Type :=
| preparing | findPool | executing | completed | error.

Record SwapRequest : Type := {
  faAddressIn : string;
  faAddressOut : string;
  tokenAddressIn : option string;
  tokenAddressOut : option string;
  amountIn : string + num;
  address : string;
  slippage : option num
}.

Record PreparedSwapTransaction : Type := {
  swapAmount : num;
  ps_accountAddress : string;
  ps_decimals : nat;
  ps_tokenData : CoinData;
  ps_gasEstimation : GasEstimation
}.

(** The tool call that started the swap ([args] plays no part). *)
Record ToolCall : Type := {
  tc_name : string;
  tc_id : string
}.

(** The [result] of a swap: the success record of [executeSwapNode] or
    its failure record ([success: false]).  The display text and the
    explorer link are renderings of the fields kept here. *)
Inductive SwapOutcome : Type :=
| SwapSucceeded (transactionHash : string) (fromAddress : string)
    (tokenIn tokenOut : option string) (amountIn : string + num)
    (amountOut minOut : num) (assetType : option string) (pool : Pool)
    (slip : num) (gas : GasEstimation)
| SwapFailed (err : message).

Definition swap_success (r : SwapOutcome) : bool :=
  match r with
  | SwapSucceeded _ _ _ _ _ _ _ _ _ _ _ => true
  | SwapFailed _ => false
  end.

Record SwapState : Type := {
  phase : SwapPhase;
  request : option SwapRequest;
  preparedTransaction : option PreparedSwapTransaction;
  pools : option (list Pool);
  selectedPool : option Pool;
  result : option SwapOutcome;
  error_ : option message;
  swapTool : option ToolCall
}.

(** [{ ...s, phase: "error", error: m }] *)
Definition with_error (s : SwapState) (m : message) : SwapState :=
  {| phase := error; request := request s;
     preparedTransaction := preparedTransaction s; pools := pools s;
     selectedPool := selectedPool s; result := result s;
     error_ := Some m; swapTool := swapTool s |}.

(** *** Host integration: answers, messages, suspension *)

(** The two properties the workflow reads from an answer object. *)
Record Answer : Type := {
  cancelled : jsval;
  selectedPoolIndex : jsval
}.

(** What [JSON.parse] returned: a falsy value, or a truthy one seen
    through the two properties read from it. *)
Inductive parsed : Type :=
| PFalsy
| PTruthy (a : Answer).

(** A string travels with the result of [JSON.parse] on it ([None] when
    parsing throws). *)
Inductive Content : Type :=
| CAbsent
| COther
| CStr (s : string) (p : option parsed).

Record ToolCallMsg : Type := {
  tcm_name : string;
  tcm_args : option (option parsed)
}.

Record Message : Type := {
  getType : option string;
  content : Content;
  additionalContent : option (option parsed);
  toolCalls : option (list ToolCallMsg);
  tool_call_id : option string
}.

Record RunnableConfig : Type := {
  configurable_user_id : option string;
  metadata_user_id : option string;
  configurable_selectedPoolIndex : jsval;
  configurable_interrupt_response : option Answer;
  configurable_response : option Answer
}.

(** What is attached to [accept]: nothing, a JSON string, or an object. *)
Inductive ResponseArgs : Type :=
| ArgsAbsent
| ArgsString (p : option parsed)
| ArgsObject (a : Answer).

Record HumanResponse : Type := {
  hr_type : string;
  hr_args : ResponseArgs
}.

(** What [interrupt] is called with: the action and its arguments.  The
    human-readable description is a rendering of the same data and is
    left out. *)
Inductive InterruptRequest : Type :=
| SelectPool (candidates : list Pool) (slippageValue : num)
| TransferConfirmation (toAddress amount : string) (assetType : string)
    (gasEstimate : GasEstimation) (fromAddress : string).

(** What a node can throw: an [Error], or the host's suspension signal. *)
Inductive exn : Type :=
| Error (m : message)
| GraphInterrupt (r : InterruptRequest).

(** *** What the ledger returns for the single-pool adapter's pool list *)

Record RawPool : Type := {
  rp_token_a : option tokref;
  rp_token_b : option tokref;
  rp_pool : option tokref;
  rp_pool_address : option string;
  rp_fee_rate : option (num + string);
  rp_token_x : option tokref;
  rp_token_y : option tokref;
  rp_fa_coin_x_metadata : option tokref;
  rp_fa_coin_y_metadata : option tokref;
  rp_fa_coin_x_address : option string;
  rp_fa_coin_y_address : option string
}.

Record Reserves : Type := {
  reserve_in : num;
  reserve_out : num
}.

Inductive Service : Type := Hyperion | PancakeSwap | Cellana.

(** ** The environment

    Everything the core calls and the repository does not define under
    [src/]: built-ins, the [DexName] and [FunctionType] enumerations
    (types/function-type.enum.ts), the wallet service, the ledger client,
    the DEX catalogue, the HTTP services behind the path-routed and the
    external-router adapters, the adapters' transaction builders, and the
    host's [interrupt]. *)

Record Env : Type := {
  World : Type;
  Txn : Type;
  (* built-ins *)
  parseInt : string -> num;
  parseFloat : string -> num;
  Number_of_string : string -> num;
  (* enumerations *)
  HYPERION : string;
  PANCAKESWAP : string;
  CELLANA : string;
  FIND_POOLS : string;
  (* wallet service and key handling *)
  ext_getWallet : num -> M World string (option Wallet);
  ext_accountFromPrivateKey : string -> outcome string Account;
  (* ledger client *)
  ext_getAccountCoinsData :
    string -> option string -> M World string (list CoinData);
  ext_build_simple : BuildRequest -> M World string Txn;
  ext_transferCoinTransaction : TransferCoinRequest -> M World string Txn;
  ext_simulate_simple : string -> Txn -> M World string (list SimulationResult);
  ext_signAndSubmitTransaction : Account -> Txn -> M World string string;
  ext_waitForTransaction : string -> M World string ExecutedTransaction;
  (* [aptosClient.view]: the result, when it is an array *)
  ext_view : Payload -> M World string (option (list jsval));
  (* [aptosClient.view] of a pool list: [result[0]], when it is an array *)
  ext_view_pools : Payload -> M World string (option (list RawPool));
  (* DEX catalogue *)
  ext_getDexes : M World string (list DexInfo);
  (* adapter operations kept abstract: pool discovery of the path-routed
     and of the external-router adapter, the reserve lookup (cache and
     HTTP fetch) of the path-routed one, and the three transaction
     builders *)
  ext_pancake_findPools : PoolSearchParams -> M World string (list Pool);
  ext_cellana_findPools : PoolSearchParams -> M World string (list Pool);
  ext_pancake_getReserves :
    string -> option tokref -> option tokref -> M World string Reserves;
  ext_createSwapTransaction :
    Service -> SwapParams -> Pool -> M World string (SwapResult Txn);
  (* host: [interrupt] returns the answer on resumption and throws the
     suspension signal before *)
  interrupt : InterruptRequest -> M World exn (list HumanResponse)
}.

(** An external call fails with a text of its own, which reaches the
    workflow as the message of the error thrown. *)
Definition external {W A} (c : M W string A) : M W message A :=
  fun w => match c w with
           | (Ok a, w') => (Ok a, w')
           | (Throw s, w') => (Throw (External s), w')
           end.

Definition getWallet (E : Env) (userId : num)
  : M (World E) message (option Wallet) :=
  external (ext_getWallet E userId).

Definition accountFromPrivateKey (E : Env) (key : string)
  : outcome message Account :=
  match ext_accountFromPrivateKey E key with
  | Ok a => Ok a
  | Throw s => Throw (External s)
  end.

Definition getAccountCoinsData (E : Env) (accountAddress : string)
  (asset_type : option string) : M (World E) message (list CoinData) :=
  external (ext_getAccountCoinsData E accountAddress asset_type).

Definition build_simple (E : Env) (r : BuildRequest)
  : M (World E) message (Txn E) :=
  external (ext_build_simple E r).

Definition transferCoinTransaction (E : Env) (r : TransferCoinRequest)
  : M (World E) message (Txn E) :=
  external (ext_transferCoinTransaction E r).

Definition simulate_simple (E : Env) (signerPublicKey : string)
  (transaction : Txn E) : M (World E) message (list SimulationResult) :=
  external (ext_simulate_simple E signerPublicKey transaction).

Definition signAndSubmitTransaction (E : Env) (signer : Account)
  (transaction : Txn E) : M (World E) message string :=
  external (ext_signAndSubmitTransaction E signer transaction).

Definition waitForTransaction (E : Env) (transactionHash : string)
  : M (World E) message ExecutedTransaction :=
  external (ext_waitForTransaction E transactionHash).

Definition view (E : Env) (payload : Payload)
  : M (World E) message (option (list jsval)) :=
  external (ext_view E payload).

Definition view_pools (E : Env) (payload : Payload)
  : M (World E) message (option (list RawPool)) :=
  external (ext_view_pools E payload).

Definition getDexes (E : Env) : M (World E) message (list DexInfo) :=
  external (ext_getDexes E).

Definition pancake_findPools (E : Env) (params : PoolSearchParams)
  : M (World E) message (list Pool) :=
  external (ext_pancake_findPools E params).

Definition cellana_findPools (E : Env) (params : PoolSearchParams)
  : M (World E) message (list Pool) :=
  external (ext_cellana_findPools E params).

Definition pancake_getReserves (E : Env) (resourceAccount : string)
  (tokenA tokenB : option tokref) : M (World E) message Reserves :=
  external (ext_pancake_getReserves E resourceAccount tokenA tokenB).

Definition createSwapTransaction (E : Env) (s : Service)
  (params : SwapParams) (pool : Pool)
  : M (World E) message (SwapResult (Txn E)) :=
  external (ext_createSwapTransaction E s params pool).

(** An [Error]-only computation used where suspension can also occur. *)
Definition up {W A} (c : M W message A) : M W exn A :=
  fun w => match c w with
           | (Ok a, w') => (Ok a, w')
           | (Throw m, w') => (Throw (Error m), w')
           end.

(** [Number(v)] *)
Definition toNumber (E : Env) (v : jsval) : num :=
  match v with
  | VUndefined => NaN
  | VNull => ofZ 0
  | VBool b => if b then ofZ 1 else ofZ 0
  | VNum n => n
  | VStr s => Number_of_string E s
  | VObj => NaN
  end.

(** [parseInt(configurable.uid || metadata.uid || "0")] *)
Definition extractUserId (E : Env) (config : RunnableConfig) : num :=
  parseInt E
    (if Str.truthy_opt (configurable_user_id config)
     then Str.or_empty (configurable_user_id config)
     else if Str.truthy_opt (metadata_user_id config)
     then Str.or_empty (metadata_user_id config)
     else "0").

(** ** Gas estimator (swap.subgraph.ts) *)

Definition OCTAS_PER_APT : num := ofZ 100000000.

Definition getNetworkGasEstimation (E : Env) (account : Account)
  : M (World E) message GasEstimation :=
  try_catch
    (simpleTransaction <-
       build_simple E
         {| br_sender := accountAddress account;
            br_data :=
              {| pl_function := "0x1::aptos_account::transfer";
                 pl_typeArguments := [];
                 pl_functionArguments :=
                   [AStr (Some (accountAddress account)); ANum (ofZ 1)] |};
            br_options := None |} ;;
     sims <- simulate_simple E (publicKey account) simpleTransaction ;;
     match sims with
     | [] => throw (TypeError "simulationResult is undefined")
     | simulationResult :: _ =>
         let gasUnitPrice := parseInt E (gas_unit_price simulationResult) in
         let maxGasAmount := parseInt E (max_gas_amount simulationResult) in
         let estimatedGasUsed := parseInt E (gas_used simulationResult) in
         let estimatedMaxGas :=
           Num.min (Num.ceil (maxGasAmount * Fin 1.2)%num) (ofZ 50000) in
         let totalGasCost := (gasUnitPrice * estimatedGasUsed)%num in
         let maxGasCost := (gasUnitPrice * estimatedMaxGas)%num in
         let totalGasCostInAPT := (totalGasCost / OCTAS_PER_APT)%num in
         let maxGasCostInAPT := (maxGasCost / OCTAS_PER_APT)%num in
         let cappedTotalGas := Num.min totalGasCostInAPT (Fin 0.05) in
         let cappedMaxGas := Num.min maxGasCostInAPT (Fin 0.1) in
         ret {| totalGasCostInAPT := cappedTotalGas;
                maxGasCostInAPT := cappedMaxGas |}
     end)
    (fun _ => ret {| totalGasCostInAPT := Fin 0.005;
                     maxGasCostInAPT := Fin 0.01 |}).

(** [DEXFactory.getService]: the adapter registered under a name. *)
Definition getService (E : Env) (dexName : string) : outcome message Service :=
  if (dexName =? HYPERION E)%string then Ok Hyperion
  else if (dexName =? PANCAKESWAP E)%string then Ok PancakeSwap
  else if (dexName =? CELLANA E)%string then Ok Cellana
  else Throw (UnsupportedDex dexName).

(** [DEXFactory.isSupported] *)
Definition isSupported (E : Env) (dexName : string) : bool :=
  (dexName =? HYPERION E)%string || (dexName =? PANCAKESWAP E)%string
  || (dexName =? CELLANA E)%string.

Definition estimateSwapGas (E : Env) (account : Account)
  (faAddressIn faAddressOut : string)
  (tokenAddressIn tokenAddressOut : string) (swapAmount : num)
  (pools : list Pool) : M (World E) message GasEstimation :=
  match pools with
  | [] => getNetworkGasEstimation E account
  | simulationPool :: _ =>
      try_catch
        (dexService <- lift (getService E (name (dex simulationPool))) ;;
         let swapParams :=
           {| sw_account := account;
              sw_faAddressIn := faAddressIn;
              sw_faAddressOut := faAddressOut;
              sw_tokenAddressIn :=
                if (name (dex simulationPool) =? PANCAKESWAP E)%string
                then Some tokenAddressIn else None;
              sw_tokenAddressOut :=
                if (name (dex simulationPool) =? PANCAKESWAP E)%string
                then Some tokenAddressOut else None;
              sw_amountIn := swapAmount;
              sw_slippage := Fin 0.5;
              sw_toAddress := accountAddress account |} in
         swapResult <-
           createSwapTransaction E dexService swapParams simulationPool ;;
         sims <- simulate_simple E (publicKey account)
                   (transaction _ swapResult) ;;
         match sims with
         | [] => throw (TypeError "simulationResult is undefined")
         | simulationResult :: _ =>
             let gasUnitPrice := parseInt E (gas_unit_price simulationResult) in
             let gasUsed := parseInt E (gas_used simulationResult) in
             let maxGasAmount := parseInt E (max_gas_amount simulationResult) in
             let totalGasCost := (gasUnitPrice * gasUsed)%num in
             let maxGasCost := (gasUnitPrice * maxGasAmount)%num in
             let totalGasCostInAPT := (totalGasCost / OCTAS_PER_APT)%num in
             let maxGasCostInAPT := (maxGasCost / OCTAS_PER_APT)%num in
             let cappedTotalGas := Num.min totalGasCostInAPT (Fin 0.05) in
             let cappedMaxGas := Num.min maxGasCostInAPT (Fin 0.1) in
             ret {| totalGasCostInAPT := cappedTotalGas;
                    maxGasCostInAPT := cappedMaxGas |}
         end)
        (fun _ => getNetworkGasEstimation E account)
  end.

(** ** Swap preparation ([SwapPreparationService], [prepareSwapNode]) *)

Record TokenValidationResult : Type := {
  balance : num;
  decimals : nat;
  tokenData : CoinData
}.

Definition default_decimals (o : option nat) (d : nat) : nat :=
  match o with
  | Some n => n
  | None => d
  end.

(** [!inputTokenData.amount] *)
Definition amount_truthy (c : CoinData) : bool :=
  match amount c with
  | Some a => Num.truthy a
  | None => false
  end.

(** [Number(tokenData.amount)] once the amount is known to be present *)
Definition amount_number (c : CoinData) : num :=
  match amount c with
  | Some a => a
  | None => ofZ 0
  end.

Definition validateTokenBalance (E : Env) (account : Account)
  (tokenAddressIn : option string)
  : M (World E) message TokenValidationResult :=
  inputResources <-
    getAccountCoinsData E (accountAddress account) tokenAddressIn ;;
  match inputResources with
  | [] => throw (InputTokenNotFound tokenAddressIn)
  | inputTokenData :: _ =>
      if negb (amount_truthy inputTokenData)
      then throw (InputTokenNotFound tokenAddressIn)
      else ret {| balance := amount_number inputTokenData;
                  decimals := default_decimals (cd_decimals inputTokenData) 8;
                  tokenData := inputTokenData |}
  end.

Definition validateSwapAmount (E : Env) (amountIn : string + num)
  (tokenBalance : TokenValidationResult) : outcome message num :=
  let amountInNumber :=
    match amountIn with
    | inl s => parseFloat E s
    | inr n => n
    end in
  if Num.isNaN amountInNumber || (amountInNumber <=? ofZ 0)%num
  then Throw (Msg "Invalid swap amount")
  else
    let swapAmount :=
      Num.round (F64.mul amountInNumber (pow10 (decimals tokenBalance))) in
    if (swapAmount >? balance tokenBalance)%num
    then Throw (InsufficientBalanceSwap (balance tokenBalance)
                  (decimals tokenBalance) amountInNumber)
    else Ok swapAmount.

(** The account of the calling user, as [prepareSwap] derives it. *)
Definition accountOf (E : Env) (wallet : option Wallet)
  : outcome message Account :=
  match wallet with
  | None => Throw (TypeError "wallet is undefined")
  | Some w => accountFromPrivateKey E (privateKey w)
  end.

(** The asset whose balance is checked. *)
Definition balanceTokenAddress (request : SwapRequest) : option string :=
  let a := tokenAddressIn request in
  let a := if negb (Str.truthy_opt a) then Some (faAddressIn request) else a in
  match a with
  | Some s => if (s =? APT_ALIAS)%string then Some APT_COIN else a
  | None => a
  end.

Definition prepareSwap (E : Env) (swapState : SwapState)
  (config : RunnableConfig) : M (World E) message SwapState :=
  match request swapState with
  | None => throw (Msg "No swap request found")
  | Some request =>
      let userId := extractUserId E config in
      wallet <- getWallet E userId ;;
      account <- lift (accountOf E wallet) ;;
      tokenBalance <-
        validateTokenBalance E account (balanceTokenAddress request) ;;
      swapAmount <-
        lift (validateSwapAmount E (amountIn request) tokenBalance) ;;
      gasEstimation <- getNetworkGasEstimation E account ;;
      ret {| phase := findPool;
             request := Some request;
             preparedTransaction :=
               Some {| swapAmount := swapAmount;
                       ps_accountAddress := accountAddress account;
                       ps_decimals := decimals tokenBalance;
                       ps_tokenData := tokenData tokenBalance;
                       ps_gasEstimation := gasEstimation |};
             pools := None;
             selectedPool := None;
             result := None;
             error_ := None;
             swapTool := swapTool swapState |}
  end.

Definition DEFAULT_SWAP_TOOL : ToolCall :=
  {| tc_name := "swap_tokens"; tc_id := "" |}.

Definition prepareSwapNode (E : Env) (swapState : SwapState)
  (config : RunnableConfig) : M (World E) message SwapState :=
  try_catch (prepareSwap E swapState config)
    (fun err =>
       ret {| phase := error;
              request := None;
              preparedTransaction := None;
              pools := None;
              selectedPool := None;
              result := None;
              error_ := Some err;
              swapTool := Some DEFAULT_SWAP_TOOL |}).

(** ** Token references *)

Definition tokref_truthy (r : option tokref) : bool :=
  match r with
  | None => false
  | Some (TRStr s) => Str.truthy s
  | Some (TRObj _) => true
  end.

(** [a || b] *)
Definition orRef (a b : option tokref) : option tokref :=
  if tokref_truthy a then a else b.

(** [r?.inner] *)
Definition innerOf (r : option tokref) : option tokref :=
  match r with
  | Some (TRObj (Some s)) => Some (TRStr s)
  | _ => None
  end.

(** [r?.inner || r] *)
Definition innerOrSelf (r : option tokref) : option tokref :=
  orRef (innerOf r) r.

Definition ofString (o : option string) : option tokref :=
  option_map TRStr o.

(** [a === b] between a token reference and a request address. *)
Definition strict_eq (a : option tokref) (b : option string) : bool :=
  match a, b with
  | Some (TRStr s), Some t => (s =? t)%string
  | _, _ => false
  end.

(** [result[0]] of a view call *)
Definition firstOf (r : option (list jsval)) : jsval :=
  match r with
  | Some (v :: _) => v
  | _ => VUndefined
  end.

Definition DEFAULT_SLIPPAGE : num := Fin 0.5.

(** [Math.floor(estimatedOutput * (1 - slippage / 100))] *)
Definition applySlippage (estimatedOutput slippage : num) : num :=
  Num.floor
    (F64.mul estimatedOutput
       (F64.sub (ofZ 1) (F64.div slippage (ofZ 100)))).

(** The fallback every adapter names: [Math.floor(amountIn * 0.9)] with
    the default slippage. *)
Definition fallbackEstimation (amountIn : num) : AmountEstimation :=
  let estimatedOutput := Num.floor (amountIn * Fin 0.9)%num in
  let slippage := DEFAULT_SLIPPAGE in
  let minAmountOut := applySlippage estimatedOutput slippage in
  {| est_estimatedOutput := estimatedOutput;
     est_minAmountOut := minAmountOut;
     est_slippage := slippage |}.

(** ** Ranking

    [Array.prototype.sort] is stable: with the comparator
    [(a, b) => key(b) - key(a)] an element moves behind a later one only
    when the later one has the strictly greater key. *)

Fixpoint insertDesc (key : Pool -> num) (x : Pool) (l : list Pool)
  : list Pool :=
  match l with
  | [] => [x]
  | y :: l' =>
      if (key y >? key x)%num then y :: insertDesc key x l'
      else x :: y :: l'
  end.

Definition sortDesc (key : Pool -> num) (l : list Pool) : list Pool :=
  fold_right (insertDesc key) [] l.

(** [pool.estimatedOutput] read as a number *)
Definition rawOutput (p : Pool) : num :=
  match estimatedOutput p with
  | Some e => e
  | None => NaN
  end.

(** ** The single-pool adapter (hyperion.service.ts) *)

Module HyperionService.

Definition estimateAmountOut (E : Env) (pool : Pool) (amountIn : num)
  : M (World E) message AmountEstimation :=
  let poolId := pool_id pool in
  let methodAddress := methodAddress (dex pool) in
  let tokenIn := tokenA pool in
  try_catch
    (result <-
       view E
         {| pl_function := methodAddress ++ "::pool_v3::get_amount_out";
            pl_typeArguments := [];
            pl_functionArguments :=
              [ATok poolId; ATok tokenIn; ANumString amountIn] |} ;;
     let estimatedOutput := toNumber E (firstOf result) in
     let slippage := DEFAULT_SLIPPAGE in
     let minAmountOut := applySlippage estimatedOutput slippage in
     ret {| est_estimatedOutput := estimatedOutput;
            est_minAmountOut := minAmountOut;
            est_slippage := slippage |})
    (fun _ => ret (fallbackEstimation amountIn)).

(** [functionName.split("::")] *)
Fixpoint splitColons (s : string) (acc : string) : list string :=
  match s with
  | EmptyString => [acc]
  | String c rest =>
      match rest with
      | String c' rest' =>
          if (Ascii.eqb c ":" && Ascii.eqb c' ":")%bool
          then acc :: splitColons rest' ""
          else splitColons rest (acc ++ String c "")
      | EmptyString => [acc ++ String c ""]
      end
  end.

(** [dex.functions.find(f => f.functionType === FIND_POOLS && f.isActive)] *)
Definition findPoolsFunction (E : Env) (d : DexInfo) : option DexFunction :=
  find (fun f => (functionType f =? FIND_POOLS E)%string && isActive f)
    (functions d).

(** The pair test of the pool filter. *)
Definition isMatch (params : PoolSearchParams) (pool : RawPool) : bool :=
  let poolTokenA := innerOrSelf (rp_token_a pool) in
  let poolTokenB := innerOrSelf (rp_token_b pool) in
  let tokenIn :=
    if Str.truthy (sp_faAddressIn params)
    then Some (sp_faAddressIn params) else sp_tokenAddressIn params in
  let tokenOut :=
    if Str.truthy (sp_faAddressOut params)
    then Some (sp_faAddressOut params) else sp_tokenAddressOut params in
  (strict_eq poolTokenA tokenIn && strict_eq poolTokenB tokenOut)
  || (strict_eq poolTokenA tokenOut && strict_eq poolTokenB tokenIn).

(** [pool.fee_rate || 0], then divided by 10000 *)
Definition feeRatePercentage (E : Env) (pool : RawPool) : num :=
  match rp_fee_rate pool with
  | Some (inl n) =>
      if Num.truthy n then (n / ofZ 10000)%num
      else (ofZ 0 / ofZ 10000)%num
  | Some (inr s) =>
      if Str.truthy s then (parseFloat E s / ofZ 10000)%num
      else (ofZ 0 / ofZ 10000)%num
  | None => (ofZ 0 / ofZ 10000)%num
  end.

Definition mappedPool (E : Env) (d : DexInfo) (pool : RawPool) : Pool :=
  {| pool_id :=
       orRef (innerOrSelf (rp_pool pool)) (ofString (rp_pool_address pool));
     dex := d;
     tokenA := innerOrSelf (rp_token_a pool);
     tokenB := innerOrSelf (rp_token_b pool);
     estimatedOutput := None;
     minAmountOut := None;
     fee := Some (feeRatePercentage E pool);
     token_a := rp_token_a pool;
     token_b := rp_token_b pool;
     token_x := rp_token_x pool;
     token_y := rp_token_y pool;
     fa_coin_x_metadata := rp_fa_coin_x_metadata pool;
     fa_coin_y_metadata := rp_fa_coin_y_metadata pool;
     fa_coin_x_address := rp_fa_coin_x_address pool;
     fa_coin_y_address := rp_fa_coin_y_address pool;
     routeType := None;
     routePath := None;
     routers := None |}.

(** The discovery-time quote of one pool, for a placeholder amount.
    The source maps this over the pools under [Promise.all]; the calls
    are issued in list order, which is the order [mapM] runs them in. *)
Definition withEstimation (E : Env) (d : DexInfo) (pool : RawPool)
  : M (World E) message Pool :=
  let mapped := mappedPool E d pool in
  try_catch
    (let testAmountIn := ofZ 1000000 in
     estimation <- estimateAmountOut E mapped testAmountIn ;;
     ret (set_estimate mapped (est_estimatedOutput estimation)
            (est_minAmountOut estimation)))
    (fun _ => ret (set_estimate mapped (ofZ 0) (ofZ 0))).

(** The guarded part of [findPools]: what runs inside its [try]. *)
Definition findPools_try (E : Env) (params : PoolSearchParams)
  (fn : DexFunction) : M (World E) message (list Pool) :=
  let d := sp_dex params in
  let methodAddress := methodAddress d in
  let functionName := functionName fn in
  if negb (Str.includes functionName "::")
  then throw (HyperionBadFunctionName functionName)
  else
    let parts := splitColons functionName "" in
    let module := nth 0 parts "" in
    let func := nth 1 parts "" in
    if negb (Str.truthy module) || negb (Str.truthy func)
    then throw (HyperionBadFunctionFormat functionName)
    else
      let functionString :=
        methodAddress ++ "::" ++ module ++ "::" ++ func in
      result <-
        view_pools E
          {| pl_function := functionString;
             pl_typeArguments := [];
             pl_functionArguments :=
               [AStr (Some "0"); AStr (Some "20")] |} ;;
      let pools :=
        match result with
        | Some l => l
        | None => []
        end in
      let filteredPools := filter (isMatch params) pools in
      poolsWithEstimation <-
        mapM (withEstimation E d) filteredPools ;;
      let sortedPools :=
        firstn 5
          (sortDesc rawOutput
             (filter (fun pool => (rawOutput pool >? ofZ 0)%num)
                poolsWithEstimation)) in
      ret sortedPools.

Definition findPools (E : Env) (params : PoolSearchParams)
  : M (World E) message (list Pool) :=
  let d := sp_dex params in
  match findPoolsFunction E d with
  | None => ret []
  | Some fn =>
      if negb (Str.truthy (methodAddress d))
         || negb (Str.truthy (functionName fn))
      then ret []
      else try_catch (findPools_try E params fn) (fun _ => ret [])
  end.

End HyperionService.

(** ** The path-routed adapter (pancakeswap.service.ts) *)

Module PancakeSwapService.

Definition getReservesOf (E : Env) (resourceAccount : string)
  (a b : option tokref) : M (World E) message Reserves :=
  pancake_getReserves E resourceAccount a b.

(** The guarded part of [estimateAmountOut]: what runs inside its [try]. *)
Definition estimateAmountOut_try (E : Env) (pool : Pool) (amountIn : num)
  : M (World E) message AmountEstimation :=
  let resourceAccount := methodAddress (dex pool) in
  estimatedOutput <-
    match routeType pool, routePath pool with
    | Some routeType, Some routePath =>
        if Str.truthy routeType then
          if (routeType =? "direct")%string then
            r <- getReservesOf E resourceAccount
                   (ofString (nth_error routePath 0))
                   (ofString (nth_error routePath 1)) ;;
            lift (PancakeMath.getAmountOut amountIn
                    (reserve_in r) (reserve_out r))
          else if (routeType =? "doublehop")%string then
            r1 <- getReservesOf E resourceAccount
                    (ofString (nth_error routePath 0))
                    (ofString (nth_error routePath 1)) ;;
            intermediateOutput <-
              lift (PancakeMath.getAmountOut amountIn
                      (reserve_in r1) (reserve_out r1)) ;;
            r2 <- getReservesOf E resourceAccount
                    (ofString (nth_error routePath 1))
                    (ofString (nth_error routePath 2)) ;;
            lift (PancakeMath.getAmountOut intermediateOutput
                    (reserve_in r2) (reserve_out r2))
          else ret (Num.floor (amountIn * Fin 0.9)%num)
        else
          r <- getReservesOf E resourceAccount (tokenA pool) (tokenB pool) ;;
          lift (PancakeMath.getAmountOut amountIn
                  (reserve_in r) (reserve_out r))
    | _, _ =>
        r <- getReservesOf E resourceAccount (tokenA pool) (tokenB pool) ;;
        lift (PancakeMath.getAmountOut amountIn
                (reserve_in r) (reserve_out r))
    end ;;
  let slippage := DEFAULT_SLIPPAGE in
  let minAmountOut := applySlippage estimatedOutput slippage in
  ret {| est_estimatedOutput := estimatedOutput;
         est_minAmountOut := minAmountOut;
         est_slippage := slippage |}.

Definition estimateAmountOut (E : Env) (pool : Pool) (amountIn : num)
  : M (World E) message AmountEstimation :=
  try_catch (estimateAmountOut_try E pool amountIn)
    (fun _ => ret (fallbackEstimation amountIn)).

End PancakeSwapService.

(** ** The external-router adapter (cellana.service.ts) *)

Module CellanaService.

Definition U64_MAX : Z := 18446744073709551615.

(** [BigInt(amountIn)] succeeds on integers only. *)
Definition toBigInt (amountIn : num) : outcome message Z :=
  match amountIn with
  | Fin x =>
      if Qeq_bool x (inject_Z (Qfloor x)) then Ok (Qfloor x)
      else Throw (AmountNotInteger amountIn)
  | NaN => Throw (AmountNotInteger amountIn)
  end.

Definition getCellanaAmountOut (E : Env) (routerAddress : string)
  (amountIn : num) (wrapFrom : string) (wrapToAddresses : list string)
  (stableFlags : list bool) : M (World E) message num :=
  amountInBigInt <- lift (toBigInt amountIn) ;;
  if (amountInBigInt >? U64_MAX)%Z
  then throw (AmountExceedsU64 amountIn)
  else if (amountInBigInt <=? 0)%Z
  then throw (AmountNotPositive amountIn)
  else
    result <-
      view E
        {| pl_function := routerAddress ++ "::router::get_amounts_out";
           pl_typeArguments := [];
           pl_functionArguments :=
             [ANumString amountIn; AStr (Some wrapFrom);
              AStrs wrapToAddresses; ABools stableFlags] |} ;;
    match result with
    | Some (v :: _) => ret (toNumber E v)
    | _ => throw (Msg "Invalid response from get_amounts_out")
    end.

Definition estimateAmountOut (E : Env) (pool : Pool) (amountIn : num)
  : M (World E) message AmountEstimation :=
  let routers :=
    match routers pool with
    | Some l => l
    | None => []
    end in
  match routers with
  | [] => throw (Msg "No routers found for Cellana pool")
  | firstRouter :: _ =>
      let wrapToAddresses := map wrapTo routers in
      let stableFlags := map stable routers in
      estimatedOutput <-
        getCellanaAmountOut E (methodAddress (dex pool)) amountIn
          (wrapFrom firstRouter) wrapToAddresses stableFlags ;;
      ret {| est_estimatedOutput := estimatedOutput;
             est_minAmountOut := estimatedOutput;
             est_slippage := DEFAULT_SLIPPAGE |}
  end.

End CellanaService.

(** ** Adapter dispatch ([IDEXService] through [DEXFactory]) *)

Definition service_findPools (E : Env) (s : Service)
  (params : PoolSearchParams) : M (World E) message (list Pool) :=
  match s with
  | Hyperion => HyperionService.findPools E params
  | PancakeSwap => pancake_findPools E params
  | Cellana => cellana_findPools E params
  end.

Definition service_estimateAmountOut (E : Env) (s : Service)
  (pool : Pool) (amountIn : num) : M (World E) message AmountEstimation :=
  match s with
  | Hyperion => HyperionService.estimateAmountOut E pool amountIn
  | PancakeSwap => PancakeSwapService.estimateAmountOut E pool amountIn
  | Cellana => CellanaService.estimateAmountOut E pool amountIn
  end.

(** ** Pool selection answers ([findPoolNode], resume channels) *)

(** Where the search for an answer stands: the user cancelled, or the
    index found so far ([VUndefined] while none was found). *)
Inductive resolution : Type :=
| Cancelled
| Selected (v : jsval).

Definition is_undefined (v : jsval) : bool :=
  match v with VUndefined => true | _ => false end.

Definition is_number (v : jsval) : bool :=
  match v with VNum _ => true | _ => false end.

Definition is_true (v : jsval) : bool :=
  match v with VBool true => true | _ => false end.

(** Reading one answer object: cancellation first, then a numeric index. *)
Definition readAnswer (a : Answer) (current : jsval) : resolution :=
  if is_true (cancelled a) then Cancelled
  else if is_number (selectedPoolIndex a) then Selected (selectedPoolIndex a)
  else Selected current.

(** A channel is consulted only while no index was found. *)
Definition whenUndefined (current : resolution)
  (channel : jsval -> resolution) : resolution :=
  match current with
  | Cancelled => Cancelled
  | Selected v => if is_undefined v then channel v else Selected v
  end.

Definition fromObject (o : option Answer) (current : jsval) : resolution :=
  match o with
  | Some a => readAnswer a current
  | None => Selected current
  end.

Definition msgType (m : Message) : string :=
  match getType m with
  | Some t => t
  | None => "unknown"
  end.

Definition hasContent (m : Message) : bool :=
  match content m with
  | CAbsent => false
  | COther => true
  | CStr s _ => Str.truthy s
  end.

Definition hasToolCalls (m : Message) : bool :=
  match toolCalls m with
  | Some (_ :: _) => true
  | _ => false
  end.

(** [[...messages].reverse().find(p)] *)
Definition findLast (p : Message -> bool) (messages : list Message)
  : option Message :=
  find p (rev messages).

Definition lastResponseMsg (messages : list Message) : option Message :=
  match findLast (fun m => (msgType m =? "human")%string && hasContent m)
          messages with
  | Some m => Some m
  | None =>
      match findLast hasToolCalls messages with
      | Some m => Some m
      | None => findLast hasContent messages
      end
  end.

Definition truthyParsed (p : option parsed) : option Answer :=
  match p with
  | Some (PTruthy a) => Some a
  | _ => None
  end.

(** The first tool call named [n] whose arguments parse. *)
Fixpoint firstParsedCall (n : string) (calls : list ToolCallMsg)
  : option parsed :=
  match calls with
  | [] => None
  | c :: rest =>
      if (tcm_name c =? n)%string then
        match tcm_args c with
        | Some (Some p) => Some p
        | _ => firstParsedCall n rest
        end
      else firstParsedCall n rest
  end.

(** The object decoded from the last response message: its content,
    else its additional content, else a [swap] tool call. *)
Definition decodeResponse (m : Message) : option Answer :=
  let parsed :=
    match content m with
    | CStr _ (Some p) => Some p
    | _ => None
    end in
  let parsed :=
    match truthyParsed parsed, additionalContent m with
    | None, Some (Some p) => Some p
    | _, _ => parsed
    end in
  let parsed :=
    match truthyParsed parsed, toolCalls m with
    | None, Some calls =>
        match firstParsedCall "swap" calls with
        | Some p => Some p
        | None => parsed
        end
    | _, _ => parsed
    end in
  truthyParsed parsed.

Definition fromMessages (messages : list Message) (current : jsval)
  : resolution :=
  match lastResponseMsg messages with
  | Some m => fromObject (decodeResponse m) current
  | None => Selected current
  end.

(** The loop over the [swap_tokens] tool calls of the last message that
    carries tool calls. *)
Fixpoint fromSwapTokensCalls (calls : list ToolCallMsg) (current : jsval)
  : resolution :=
  match calls with
  | [] => Selected current
  | c :: rest =>
      if (tcm_name c =? "swap_tokens")%string then
        match tcm_args c with
        | Some (Some (PTruthy a)) =>
            if is_true (cancelled a) then Cancelled
            else if is_number (selectedPoolIndex a)
            then Selected (selectedPoolIndex a)
            else fromSwapTokensCalls rest current
        | _ => fromSwapTokensCalls rest current
        end
      else fromSwapTokensCalls rest current
  end.

Definition fromToolCallMessage (messages : list Message) (current : jsval)
  : resolution :=
  match findLast hasToolCalls messages with
  | Some m =>
      match toolCalls m with
      | Some calls => fromSwapTokensCalls calls current
      | None => Selected current
      end
  | None => Selected current
  end.

Definition opt_string_eqb (a b : option string) : bool :=
  match a, b with
  | Some x, Some y => (x =? y)%string
  | None, None => true
  | _, _ => false
  end.

(** The legacy channel: the last tool message answering the swap tool. *)
Definition fromLegacyToolMessage (swapToolId : option string)
  (messages : list Message) (current : jsval) : resolution :=
  match findLast
          (fun m => match getType m with
                    | Some t =>
                        (t =? "tool")%string
                        && opt_string_eqb (tool_call_id m) swapToolId
                    | None => false
                    end) messages with
  | Some m =>
      match content m with
      | CStr _ (Some (PTruthy a)) => readAnswer a current
      | _ => Selected current
      end
  | None => Selected current
  end.

(** The scan [findPoolNode] runs first, when the state already lists
    pools; only a cancellation found there has an effect. *)
Definition earlyResolution (config : RunnableConfig)
  (messages : list Message) : resolution :=
  let r := Selected (configurable_selectedPoolIndex config) in
  let r := whenUndefined r
             (fromObject (configurable_interrupt_response config)) in
  let r := whenUndefined r (fromObject (configurable_response config)) in
  let r := whenUndefined r (fromMessages messages) in
  whenUndefined r (fromToolCallMessage messages).

(** The scan that precedes a fresh suspension. *)
Definition resumeResolution (config : RunnableConfig)
  (swapToolId : option string) (messages : list Message) : resolution :=
  let r := Selected (configurable_selectedPoolIndex config) in
  let r := whenUndefined r
             (fromObject (configurable_interrupt_response config)) in
  let r := whenUndefined r (fromMessages messages) in
  whenUndefined r (fromLegacyToolMessage swapToolId messages).

(** The index carried by an accepted human response. *)
Definition acceptedIndex (args : ResponseArgs) : jsval :=
  match args with
  | ArgsString (Some (PTruthy a)) | ArgsObject a =>
      if is_number (selectedPoolIndex a) then selectedPoolIndex a
      else VUndefined
  | _ => VUndefined
  end.

(** Validation of the resolved index against the ranked candidates,
    followed by the lookup. *)
Definition validateSelection (selectedPoolIndex : jsval)
  (sortedPools : list Pool) : outcome message Pool :=
  match selectedPoolIndex with
  | VNum n =>
      if (n <? ofZ 0)%num || (n >=? ofZ (Z.of_nat (length sortedPools)))%num
      then Throw (InvalidPoolSelectionRange selectedPoolIndex
                    (Z.of_nat (length sortedPools) - 1))
      else
        match Num.toIndex n with
        | Some i =>
            match nth_error sortedPools i with
            | Some selectedPool => Ok selectedPool
            | None => Throw (Msg "Invalid pool selection: selectedPool is null")
            end
        | None => Throw (Msg "Invalid pool selection: selectedPool is null")
        end
  | _ => Throw (InvalidPoolSelectionRange selectedPoolIndex
                  (Z.of_nat (length sortedPools) - 1))
  end.

(** ** Pool aggregation ([findPoolNode]) *)

(** [(a?.inner || a || x?.inner || x || m?.inner || m || addr || "")
     .toLowerCase()]; the call fails on an object without [inner]. *)
Definition poolTokenOf (a x m : option tokref) (addr : option string)
  : outcome message string :=
  match
    orRef (innerOf a)
      (orRef a
         (orRef (innerOf x)
            (orRef x
               (orRef (innerOf m)
                  (orRef m
                     (orRef (ofString addr) (Some (TRStr ""))))))))
  with
  | Some (TRStr s) => Ok (Str.toLowerCase s)
  | _ => Throw (TypeError "toLowerCase is not a function")
  end.

Definition poolTokenA (pool : Pool) : outcome message string :=
  poolTokenOf (token_a pool) (token_x pool) (fa_coin_x_metadata pool)
    (fa_coin_x_address pool).

Definition poolTokenB (pool : Pool) : outcome message string :=
  poolTokenOf (token_b pool) (token_y pool) (fa_coin_y_metadata pool)
    (fa_coin_y_address pool).

Definition lowerOpt (o : option string) : option string :=
  option_map Str.toLowerCase o.

Definition replaceOpt (from to : string) (o : option string)
  : option string :=
  match o with
  | Some s => if (s =? from)%string then Some to else o
  | None => None
  end.

(** The strict token-pair filter. *)
Definition strictMatch (E : Env) (request : option SwapRequest)
  (pool : Pool) : outcome message bool :=
  match poolTokenA pool with
  | Throw e => Throw e
  | Ok tokenA =>
      match poolTokenB pool with
      | Throw e => Throw e
      | Ok tokenB =>
          let poolTokens := Str.sortPairJoin (Some tokenA) (Some tokenB) in
          if (name (dex pool) =? PANCAKESWAP E)%string then
            let reqTokenIn :=
              replaceOpt APT_ALIAS APT_COIN_LOWER
                (lowerOpt (match request with
                           | Some r => tokenAddressIn r
                           | None => None
                           end)) in
            let reqTokenOut :=
              replaceOpt APT_ALIAS APT_COIN_LOWER
                (lowerOpt (match request with
                           | Some r => tokenAddressOut r
                           | None => None
                           end)) in
            Ok (poolTokens =? Str.sortPairJoin reqTokenIn reqTokenOut)%string
          else
            let reqFaIn :=
              replaceOpt APT_COIN_LOWER APT_ALIAS
                (Some (Str.toLowerCase
                         (match request with
                          | Some r => faAddressIn r
                          | None => ""
                          end))) in
            let reqFaOut :=
              replaceOpt APT_COIN_LOWER APT_ALIAS
                (Some (Str.toLowerCase
                         (match request with
                          | Some r => faAddressOut r
                          | None => ""
                          end))) in
            Ok (poolTokens =? Str.sortPairJoin reqFaIn reqFaOut)%string
      end
  end.

(** The substring fallback used when the strict filter keeps nothing. *)
Definition partialMatch (request : option SwapRequest) (pool : Pool)
  : outcome message bool :=
  match poolTokenA pool with
  | Throw e => Throw e
  | Ok tokenA =>
      match poolTokenB pool with
      | Throw e => Throw e
      | Ok tokenB =>
          let requestTokens :=
            filter (fun t => negb (t =? "")%string)
              match request with
              | Some r =>
                  [Str.toLowerCase (faAddressIn r);
                   Str.toLowerCase (faAddressOut r);
                   Str.or_empty (lowerOpt (tokenAddressIn r));
                   Str.or_empty (lowerOpt (tokenAddressOut r))]
              | None => [""; ""; ""; ""]
              end in
          Ok (existsb
                (fun reqToken =>
                   Str.includes tokenA reqToken
                   || Str.includes tokenB reqToken
                   || Str.includes reqToken tokenA
                   || Str.includes reqToken tokenB)
                requestTokens)
      end
  end.

(** [xs.filter(p)] for a predicate that may throw. *)
Fixpoint filterO {A} (p : A -> outcome message bool) (xs : list A)
  : outcome message (list A) :=
  match xs with
  | [] => Ok []
  | x :: xs' =>
      match p x with
      | Throw e => Throw e
      | Ok b =>
          match filterO p xs' with
          | Throw e => Throw e
          | Ok ys => Ok (if b then x :: ys else ys)
          end
      end
  end.

Definition filterPools (E : Env) (request : option SwapRequest)
  (allPools : list Pool) : outcome message (list Pool) :=
  match filterO (strictMatch E request) allPools with
  | Throw e => Throw e
  | Ok [] => filterO (partialMatch request) allPools
  | Ok filteredPools => Ok filteredPools
  end.

(** The search parameters handed to one adapter. *)
Definition searchParams (request : SwapRequest) (d : DexInfo)
  : PoolSearchParams :=
  let isPancakeSwap := (Str.toLowerCase (name d) =? "pancakeswap")%string in
  {| sp_dex := d;
     sp_faAddressIn := faAddressIn request;
     sp_faAddressOut := faAddressOut request;
     sp_tokenAddressIn :=
       if isPancakeSwap then
         match tokenAddressIn request with
         | None => Some APT_COIN
         | Some s => Some s
         end
       else Some (Str.or_empty (tokenAddressIn request));
     sp_tokenAddressOut :=
       if isPancakeSwap then
         match tokenAddressOut request with
         | None => Some APT_COIN
         | Some s => Some s
         end
       else Some (Str.or_empty (tokenAddressOut request)) |}.

(** One turn of the discovery loop: the pools one catalogue entry
    contributes; a failing adapter contributes none. *)
Definition poolsOfDex (E : Env) (request : SwapRequest) (d : DexInfo)
  : M (World E) message (list Pool) :=
  if negb (isSupported E (name d)) then ret []
  else
    try_catch
      (dexService <- lift (getService E (name d)) ;;
       service_findPools E dexService (searchParams request d))
      (fun _ => ret []).

Definition collectPools (E : Env) (request : SwapRequest)
  (dexes : list DexInfo) : M (World E) message (list Pool) :=
  perDex <- mapM (poolsOfDex E request) dexes ;;
  ret (concat perDex).

Definition slippageValueOf (request : SwapRequest) : num :=
  match slippage request with
  | Some s => s
  | None => DEFAULT_SLIPPAGE
  end.

(** One turn of the quoting loop. *)
Definition requote (E : Env) (swapAmount slippageValue : num) (pool : Pool)
  : M (World E) message Pool :=
  try_catch
    (dexService <- lift (getService E (name (dex pool))) ;;
     estimation <- service_estimateAmountOut E dexService pool swapAmount ;;
     ret (set_estimate pool (est_estimatedOutput estimation)
            (applySlippage (est_estimatedOutput estimation) slippageValue)))
    (fun _ => ret (set_estimate pool (ofZ 0) (ofZ 0))).

(** Positive quotes, best first, five at most. *)
Definition rankPools (quoted : list Pool) : list Pool :=
  firstn 5
    (sortDesc outputOf
       (filter (fun pool => (outputOf pool >? ofZ 0)%num) quoted)).

(** Discovery, filter, quoting and ranking. *)
Definition aggregate (E : Env) (request : SwapRequest)
  (prepared : PreparedSwapTransaction) : M (World E) message (list Pool) :=
  dexes <- getDexes E ;;
  allPools <- collectPools E request dexes ;;
  filteredPools <- lift (filterPools E (Some request) allPools) ;;
  quoted <-
    mapM (requote E (swapAmount prepared) (slippageValueOf request))
      filteredPools ;;
  ret (rankPools quoted).

(** ** [findPoolNode] *)

Record GraphState : Type := {
  messages : list Message;
  swapState : SwapState
}.

Definition poolsNonEmpty (s : SwapState) : bool :=
  match pools s with
  | Some (_ :: _) => true
  | _ => false
  end.

Definition is_cancelled (r : resolution) : bool :=
  match r with Cancelled => true | Selected _ => false end.

Definition swapToolId (s : SwapState) : option string :=
  option_map tc_id (swapTool s).

(** Suspension: the ranked candidates go to the user; the answer is an
    index, or the workflow ends as cancelled. *)
Definition askUser (E : Env) (swapState : SwapState)
  (sortedPools : list Pool) (slippageValue : num)
  : M (World E) exn (SwapState + jsval) :=
  humanResponses <- interrupt E (SelectPool sortedPools slippageValue) ;;
  match humanResponses with
  | r :: _ =>
      if (hr_type r =? "accept")%string
      then ret (inr (acceptedIndex (hr_args r)))
      else ret (inl (with_error swapState
                       (Msg "User cancelled pool selection")))
  | [] => ret (inl (with_error swapState
                      (Msg "User cancelled pool selection")))
  end.

Definition resolveSelection (E : Env) (config : RunnableConfig)
  (state : GraphState) (sortedPools : list Pool) (slippageValue : num)
  : M (World E) exn (SwapState + jsval) :=
  match resumeResolution config (swapToolId (swapState state))
          (messages state) with
  | Cancelled =>
      ret (inl (with_error (swapState state) (Msg "User cancelled swap")))
  | Selected v =>
      if is_undefined v
      then askUser E (swapState state) sortedPools slippageValue
      else ret (inr v)
  end.

Definition wallet_usable (wallet : option Wallet) : bool :=
  match wallet with
  | Some w => Str.truthy (privateKey w)
  | None => false
  end.

Definition with_gas (p : PreparedSwapTransaction) (g : GasEstimation)
  : PreparedSwapTransaction :=
  {| swapAmount := swapAmount p;
     ps_accountAddress := ps_accountAddress p;
     ps_decimals := ps_decimals p;
     ps_tokenData := ps_tokenData p;
     ps_gasEstimation := g |}.

(** Validation of the index, gas re-estimation for the chosen pool, and
    the move to [executing]. *)
Definition acceptSelection (E : Env) (config : RunnableConfig)
  (swapState : SwapState) (req : SwapRequest)
  (prepared : PreparedSwapTransaction) (sortedPools : list Pool)
  (selectedPoolIndex : jsval) : M (World E) message SwapState :=
  selectedPool <- lift (validateSelection selectedPoolIndex sortedPools) ;;
  let userId := extractUserId E config in
  wallet <- getWallet E userId ;;
  if negb (wallet_usable wallet)
  then throw (Msg "Wallet not found for gas estimation")
  else
    account <- lift (accountOf E wallet) ;;
    gasEstimation <-
      estimateSwapGas E account (faAddressIn req) (faAddressOut req)
        (Str.or_empty (tokenAddressIn req))
        (Str.or_empty (tokenAddressOut req))
        (swapAmount prepared) [selectedPool] ;;
    ret {| phase := executing;
           request := request swapState;
           preparedTransaction := Some (with_gas prepared gasEstimation);
           pools := Some sortedPools;
           selectedPool := Some selectedPool;
           result := result swapState;
           error_ := error_ swapState;
           swapTool := swapTool swapState |}.

Definition findPoolBody (E : Env) (state : GraphState)
  (config : RunnableConfig) : M (World E) exn SwapState :=
  let swapState := swapState state in
  match preparedTransaction swapState, request swapState with
  | Some prepared, Some request =>
      sortedPools <- up (aggregate E request prepared) ;;
      match sortedPools with
      | [] =>
          ret (with_error swapState
                 (Msg "No pools with valid estimated output found"))
      | _ :: _ =>
          answer <-
            resolveSelection E config state sortedPools
              (slippageValueOf request) ;;
          match answer with
          | inl finalState => ret finalState
          | inr selectedPoolIndex =>
              up (acceptSelection E config swapState request prepared
                    sortedPools selectedPoolIndex)
          end
      end
  | _, _ => throw (Error (Msg "No prepared transaction found for pool search"))
  end.

Definition findPoolNode (E : Env) (state : GraphState)
  (config : RunnableConfig) : M (World E) exn SwapState :=
  if poolsNonEmpty (swapState state)
     && is_cancelled (earlyResolution config (messages state))
  then ret (with_error (swapState state) (Msg "User cancelled swap"))
  else
    try_catch (findPoolBody E state config)
      (fun e =>
         match e with
         | GraphInterrupt r => throw (GraphInterrupt r)
         | Error m => ret (with_error (swapState state) m)
         end).

(** ** [executeSwapNode] *)

Definition amountNumberOf (E : Env) (a : string + num) : num :=
  match a with
  | inl s => parseFloat E s
  | inr n => n
  end.

Definition is_apt (assetType : option string) : bool :=
  match assetType with
  | Some s => (s =? APT_ALIAS)%string || (s =? APT_COIN)%string
  | None => false
  end.

(** [{ ...s, phase: "error", error: m, result: { success: false, ... } }] *)
Definition with_failure (s : SwapState) (m : message) : SwapState :=
  {| phase := error; request := request s;
     preparedTransaction := preparedTransaction s; pools := pools s;
     selectedPool := selectedPool s; result := Some (SwapFailed m);
     error_ := Some m; swapTool := swapTool s |}.

(** [{ ...s, phase: "completed", result: r }] *)
Definition with_result (s : SwapState) (r : SwapOutcome) : SwapState :=
  {| phase := completed; request := request s;
     preparedTransaction := preparedTransaction s; pools := pools s;
     selectedPool := selectedPool s; result := Some r;
     error_ := error_ s; swapTool := swapTool s |}.

Definition executeSwap (E : Env) (swapState : SwapState)
  (config : RunnableConfig) : M (World E) message SwapState :=
  match preparedTransaction swapState, selectedPool swapState,
        request swapState with
  | Some preparedTransaction, Some selectedPool, Some request =>
      let swapAmount := swapAmount preparedTransaction in
      let slippageValue := slippageValueOf request in
      let userId := extractUserId E config in
      wallet <- getWallet E userId ;;
      if negb (wallet_usable wallet)
      then throw (Msg "Wallet not found or private key not available")
      else
        account <- lift (accountOf E wallet) ;;
        let isPancake := (name (dex selectedPool) =? PANCAKESWAP E)%string in
        let assetType :=
          if isPancake then tokenAddressIn request
          else Some (faAddressIn request) in
        resources <-
          getAccountCoinsData E (accountAddress account)
            (replaceOpt APT_ALIAS APT_COIN assetType) ;;
        let balance :=
          match resources with
          | tokenData :: _ =>
              if amount_truthy tokenData then amount_number tokenData
              else ofZ 0
          | [] => ofZ 0
          end in
        let gasEstimation := ps_gasEstimation preparedTransaction in
        let gasReserveInOctas :=
          Num.ceil (F64.mul (maxGasCostInAPT gasEstimation) OCTAS_PER_APT) in
        let maxSwappableAmount := F64.sub balance gasReserveInOctas in
        if is_apt assetType && (swapAmount >? maxSwappableAmount)%num
        then throw (InsufficientBalanceApt balance
                      (amountNumberOf E (amountIn request))
                      (totalGasCostInAPT gasEstimation)
                      (maxGasCostInAPT gasEstimation) maxSwappableAmount)
        else if negb (is_apt assetType) && (swapAmount >? balance)%num
        then throw (InsufficientBalanceToken balance
                      (amountNumberOf E (amountIn request)))
        else
          dexService <- lift (getService E (name (dex selectedPool))) ;;
          let swapParams :=
            {| sw_account := account;
               sw_faAddressIn := faAddressIn request;
               sw_faAddressOut := faAddressOut request;
               sw_tokenAddressIn :=
                 if isPancake
                 then Some (Str.or_empty (tokenAddressIn request)) else None;
               sw_tokenAddressOut :=
                 if isPancake
                 then Some (Str.or_empty (tokenAddressOut request)) else None;
               sw_amountIn := swapAmount;
               sw_slippage := slippageValue;
               sw_toAddress := accountAddress account |} in
          swapResult <-
            createSwapTransaction E dexService swapParams selectedPool ;;
          committedHash <-
            signAndSubmitTransaction E account (transaction _ swapResult) ;;
          executedTransaction <- waitForTransaction E committedHash ;;
          ret (with_result swapState
                 (SwapSucceeded (tx_hash executedTransaction)
                    (accountAddress account)
                    (if isPancake
                     then Some (Str.or_empty (tokenAddressIn request))
                     else Some (faAddressIn request))
                    (if isPancake
                     then Some (Str.or_empty (tokenAddressOut request))
                     else Some (faAddressOut request))
                    (amountIn request)
                    (sr_estimatedOutput _ swapResult)
                    (sr_minAmountOut _ swapResult)
                    assetType selectedPool slippageValue gasEstimation))
  | _, _, _ => throw (Msg "No prepared transaction or pool for execution")
  end.

Definition executeSwapNode (E : Env) (swapState : SwapState)
  (config : RunnableConfig) : M (World E) message SwapState :=
  try_catch (executeSwap E swapState config)
    (fun errorMsg => ret (with_failure swapState errorMsg)).

(** ** The swap graph *)

Inductive SwapNode : Type :=
| PrepareSwap | FindPool | ExecuteSwap | CallModel | END.

Definition routeSwapFlow (s : SwapState) : SwapNode :=
  match phase s with
  | preparing => PrepareSwap
  | findPool => FindPool
  | executing => ExecuteSwap
  | completed => CallModel
  | error => END
  end.

Definition runNode (E : Env) (n : SwapNode) (msgs : list Message)
  (s : SwapState) (config : RunnableConfig) : M (World E) exn SwapState :=
  match n with
  | PrepareSwap => up (prepareSwapNode E s config)
  | FindPool =>
      findPoolNode E {| messages := msgs; swapState := s |} config
  | ExecuteSwap => up (executeSwapNode E s config)
  | CallModel | END => ret s
  end.

(** The graph from a node on: run it, route on the phase it left, stop
    on leaving the subgraph.  [None]: the step budget ran out. *)
Fixpoint runSwapFrom (E : Env) (fuel : nat) (n : SwapNode)
  (msgs : list Message) (s : SwapState) (config : RunnableConfig)
  : M (World E) exn (option SwapState) :=
  match fuel with
  | O => ret None
  | S fuel' =>
      s' <- runNode E n msgs s config ;;
      match routeSwapFlow s' with
      | CallModel | END => ret (Some s')
      | n' => runSwapFrom E fuel' n' msgs s' config
      end
  end.

(** The graph enters at [prepareSwap]. *)
Definition runSwap (E : Env) (fuel : nat) (msgs : list Message)
  (s : SwapState) (config : RunnableConfig)
  : M (World E) exn (option SwapState) :=
  runSwapFrom E fuel PrepareSwap msgs s config.

(** ** Token registry (config/aptos.config.ts, utils/tokens.utils.ts) *)

Record TokenInfo : Type := {
  ti_assetType : string;
  ti_name : string;
  ti_symbol : string;
  ti_decimals : nat
}.

Definition LZ : string :=
  "0xf22bede237a07e121b56d91a491eb7bcdfd1f5907926a9e58338f964a01b17fa".

Definition TOKEN_REGISTRY : list TokenInfo :=
  [ {| ti_assetType := APT_COIN; ti_name := "Aptos Token";
       ti_symbol := "APT"; ti_decimals := 8 |};
    {| ti_assetType := APT_COIN; ti_name := "Aptos Token";
       ti_symbol := "APT"; ti_decimals := 8 |};
    {| ti_assetType :=
         "0xbae207659db88bea0cbead6da0ed00aac12edcdda169e591cd41c94180b46f3b";
       ti_name := "USD Coin"; ti_symbol := "USDC"; ti_decimals := 6 |};
    {| ti_assetType :=
         "0x357b0b74bc833e95a115ad22604854d6b0fca151cecd94111770e5d6ffc9dc2b";
       ti_name := "Tether USD"; ti_symbol := "USDT"; ti_decimals := 6 |};
    {| ti_assetType := LZ ++ "::asset::WETH";
       ti_name := "Wrapped Ethereum (LayerZero WETH)";
       ti_symbol := "lzWETH"; ti_decimals := 8 |};
    {| ti_assetType := LZ ++ "::asset::WBTC";
       ti_name := "Wrapped BTC (LayerZero WBTC)";
       ti_symbol := "lzWBTC"; ti_decimals := 8 |};
    {| ti_assetType := LZ ++ "::asset::BNB"; ti_name := "Binance Coin";
       ti_symbol := "BNB"; ti_decimals := 8 |};
    {| ti_assetType := LZ ++ "::asset::SOL"; ti_name := "Solana";
       ti_symbol := "SOL"; ti_decimals := 8 |} ].

Definition getTokenInfoByAssetType (assetType : string) : option TokenInfo :=
  find (fun t => (ti_assetType t =? assetType)%string) TOKEN_REGISTRY.

(** [token?.decimals || 0] *)
Definition getTokenDecimals (assetType : string) : nat :=
  match getTokenInfoByAssetType assetType with
  | Some t => ti_decimals t
  | None => 0
  end.

Definition APTOS_CONFIG_maxGasAmount : num := ofZ 20000.
Definition APTOS_CONFIG_gasUnitPrice : num := ofZ 100.

(** ** Transfer workflow (transfer.subgraph.ts) *)

Module Transfer.

Definition addressOf (a : Account) : string := accountAddress a.

Inductive Phase : Type :=
| preparing | confirming | executing | completed | error.

Record TransferRequest : Type := {
  toAddress : string;
  amount : string;
  tokenAddress : option string;
  faAddress : option string
}.

Record PreparedTransaction : Type := {
  transferAmount : num;
  accountAddress : string;
  decimals : nat;
  tokenData : CoinData;
  gasEstimation : GasEstimation;
  assetType : string
}.

(** The success record of [executeTransferNode] (token name, symbol, fee
    breakdown and display text left out) or a failure record
    ([success: false]) with its error and display text. *)
Inductive TransferResult : Type :=
| TransferSucceeded (transactionHash fromAddress toAddress amount : string)
    (assetType : string) (gasUsed : string)
| TransferFailed (err : message) (msg : string).

Definition success (r : TransferResult) : bool :=
  match r with
  | TransferSucceeded _ _ _ _ _ _ => true
  | TransferFailed _ _ => false
  end.

Record TransferState : Type := {
  phase : Phase;
  request : TransferRequest;
  preparedTransaction : option PreparedTransaction;
  result : option TransferResult;
  error_ : option message
}.

Definition tokenStandardOf (c : CoinData) : string :=
  match token_standard c with
  | Some s => if Str.truthy s then s else "v1"
  | None => "v1"
  end.

Definition createTransferTransaction (E : Env) (account : Account)
  (toAddress : string) (transferAmount : num) (assetType : string)
  (tokenStandard : string) : M (World E) message (Txn E) :=
  if (tokenStandard =? "v2")%string then
    build_simple E
      {| br_sender := addressOf account;
         br_data :=
           {| pl_function := "0x1::aptos_account::transfer_fungible_assets";
              pl_typeArguments := [];
              pl_functionArguments :=
                [AStr (Some assetType); AStr (Some toAddress);
                 ANumString transferAmount] |};
         br_options :=
           Some (APTOS_CONFIG_maxGasAmount, APTOS_CONFIG_gasUnitPrice) |}
  else
    transferCoinTransaction E
      {| tc_sender := addressOf account;
         tc_recipient := toAddress;
         tc_amount := transferAmount;
         tc_coinType := assetType;
         tc_options :=
           (APTOS_CONFIG_maxGasAmount, APTOS_CONFIG_gasUnitPrice) |}.

(** The asset a request names: fungible-asset address, else coin type,
    else the native coin. *)
Definition assetTypeOf (r : TransferRequest) : string :=
  if Str.truthy_opt (faAddress r) then Str.or_empty (faAddress r)
  else if Str.truthy_opt (tokenAddress r) then Str.or_empty (tokenAddress r)
  else APT_COIN.

Definition prepareTransfer (E : Env) (transferState : TransferState)
  (config : RunnableConfig) : M (World E) message TransferState :=
  let toAddress := toAddress (request transferState) in
  let amount := amount (request transferState) in
  let assetType := assetTypeOf (request transferState) in
  let userId := extractUserId E config in
  if negb (Num.truthy userId)
  then throw (Msg "User not authenticated - missing user identity in context")
  else if negb (Str.truthy toAddress)
  then throw (Msg "Invalid toAddress provided")
  else if negb (Str.truthy amount)
  then throw (Msg "Invalid amount provided")
  else
    wallet <- getWallet E userId ;;
    if negb (wallet_usable wallet)
    then throw (Msg "Wallet not found or private key not available")
    else
      account <- lift (accountOf E wallet) ;;
      let amountNumber := parseFloat E amount in
      resources <-
        getAccountCoinsData E (addressOf account)
          (Some assetType) ;;
      match resources with
      | [] => throw (Msg "Token not found or insufficient balance")
      | tokenData :: _ =>
          if negb (amount_truthy tokenData)
          then throw (Msg "Token not found or insufficient balance")
          else
            let decimals :=
              default_decimals (cd_decimals tokenData)
                (getTokenDecimals assetType) in
            let balance := amount_number tokenData in
            let transferAmount := (amountNumber * pow10 decimals)%num in
            if (amountNumber >? balance)%num
            then throw (InsufficientBalanceTransfer balance amountNumber)
            else
              transaction <-
                createTransferTransaction E account toAddress transferAmount
                  assetType (tokenStandardOf tokenData) ;;
              sims <- simulate_simple E (publicKey account) transaction ;;
              match sims with
              | [] => throw (TypeError "simulationResult is undefined")
              | simulationResult :: _ =>
                  let gasUnitPrice :=
                    parseInt E (gas_unit_price simulationResult) in
                  let gasUsed := parseInt E (gas_used simulationResult) in
                  let maxGasAmount :=
                    parseInt E (max_gas_amount simulationResult) in
                  let totalGasCost := (gasUnitPrice * gasUsed)%num in
                  let maxGasCost := (gasUnitPrice * maxGasAmount)%num in
                  let totalGasCostInAPT :=
                    (totalGasCost / OCTAS_PER_APT)%num in
                  let maxGasCostInAPT := (maxGasCost / OCTAS_PER_APT)%num in
                  ret {| phase := confirming;
                         request := request transferState;
                         preparedTransaction :=
                           Some {| transferAmount := transferAmount;
                                   accountAddress :=
                                     addressOf account;
                                   decimals := decimals;
                                   tokenData := tokenData;
                                   gasEstimation :=
                                     {| totalGasCostInAPT := totalGasCostInAPT;
                                        maxGasCostInAPT := maxGasCostInAPT |};
                                   assetType := assetType |};
                         result := result transferState;
                         error_ := error_ transferState |}
              end
      end.

Definition prepareTransferNode (E : Env) (transferState : TransferState)
  (config : RunnableConfig) : M (World E) message TransferState :=
  try_catch (prepareTransfer E transferState config)
    (fun err =>
       ret {| phase := error;
              request := request transferState;
              preparedTransaction := preparedTransaction transferState;
              result := Some (TransferFailed err "Transfer preparation failed");
              error_ := Some err |}).

Definition confirmTransfer (E : Env) (transferState : TransferState)
  : M (World E) exn TransferState :=
  match preparedTransaction transferState with
  | None => throw (Error (Msg "No prepared transaction found for confirmation"))
  | Some prepared =>
      humanResponses <-
        interrupt E
          (TransferConfirmation (toAddress (request transferState))
             (amount (request transferState)) (assetType prepared)
             (gasEstimation prepared) (accountAddress prepared)) ;;
      let accepted :=
        match humanResponses with
        | r :: _ => (hr_type r =? "accept")%string
        | [] => false
        end in
      if negb accepted then
        ret {| phase := error;
               request := request transferState;
               preparedTransaction := preparedTransaction transferState;
               result :=
                 Some (TransferFailed (Msg "User cancelled the transfer")
                         "Transfer cancelled by user");
               error_ := error_ transferState |}
      else
        ret {| phase := executing;
               request := request transferState;
               preparedTransaction := preparedTransaction transferState;
               result := result transferState;
               error_ := error_ transferState |}
  end.

Definition with_error (s : TransferState) (m : message) : TransferState :=
  {| phase := error; request := request s;
     preparedTransaction := preparedTransaction s;
     result := result s; error_ := Some m |}.

Definition confirmTransferNode (E : Env) (transferState : TransferState)
  (config : RunnableConfig) : M (World E) exn TransferState :=
  try_catch (confirmTransfer E transferState)
    (fun e =>
       match e with
       | GraphInterrupt r => throw (GraphInterrupt r)
       | Error m => ret (with_error transferState m)
       end).

Definition executeTransfer (E : Env) (transferState : TransferState)
  (config : RunnableConfig) : M (World E) message TransferState :=
  match preparedTransaction transferState with
  | None => throw (Msg "No prepared transaction found for execution")
  | Some prepared =>
      let req := request transferState in
      if negb (Str.truthy (toAddress req))
      then throw (Msg "To address is required")
      else
        let userId := extractUserId E config in
        wallet <- getWallet E userId ;;
        if negb (wallet_usable wallet)
        then throw (Msg "Wallet not found or private key not available")
        else
          account <- lift (accountOf E wallet) ;;
          transaction <-
            createTransferTransaction E account (toAddress req)
              (transferAmount prepared) (assetType prepared)
              (tokenStandardOf (tokenData prepared)) ;;
          committedHash <- signAndSubmitTransaction E account transaction ;;
          executedTransaction <- waitForTransaction E committedHash ;;
          ret {| phase := completed;
                 request := request transferState;
                 preparedTransaction := preparedTransaction transferState;
                 result :=
                   Some (TransferSucceeded (tx_hash executedTransaction)
                           (addressOf account) (toAddress req)
                           (amount req) (assetType prepared)
                           (tx_gas_used executedTransaction));
                 error_ := error_ transferState |}
  end.

Definition executeTransferNode (E : Env) (transferState : TransferState)
  (config : RunnableConfig) : M (World E) message TransferState :=
  try_catch (executeTransfer E transferState config)
    (fun err => ret (with_error transferState err)).

Inductive TransferNode : Type :=
| PrepareTransfer | ConfirmTransfer | ExecuteTransfer | END.

Definition routeTransferFlow (s : TransferState) : TransferNode :=
  match phase s with
  | preparing => PrepareTransfer
  | confirming => ConfirmTransfer
  | executing => ExecuteTransfer
  | error => END
  | completed => END
  end.

Definition runNode (E : Env) (n : TransferNode) (s : TransferState)
  (config : RunnableConfig) : M (World E) exn TransferState :=
  match n with
  | PrepareTransfer => up (prepareTransferNode E s config)
  | ConfirmTransfer => confirmTransferNode E s config
  | ExecuteTransfer => up (executeTransferNode E s config)
  | END => ret s
  end.

Fixpoint runTransferFrom (E : Env) (fuel : nat) (n : TransferNode)
  (s : TransferState) (config : RunnableConfig)
  : M (World E) exn (option TransferState) :=
  match fuel with
  | O => ret None
  | S fuel' =>
      s' <- runNode E n s config ;;
      match routeTransferFlow s' with
      | END => ret (Some s')
      | n' => runTransferFrom E fuel' n' s' config
      end
  end.

(** The graph enters at [prepareTransfer]. *)
Definition runTransfer (E : Env) (fuel : nat) (s : TransferState)
  (config : RunnableConfig) : M (World E) exn (option TransferState) :=
  runTransferFrom E fuel PrepareTransfer s config.

(** The state [initiateTransferTool] creates. *)
Definition initialState (r : TransferRequest) : TransferState :=
  {| phase := preparing; request := r; preparedTransaction := None;
     result := None; error_ := None |}.

End Transfer.

(** The state [initiateSwapTool] creates. *)
Definition initialSwapState (r : SwapRequest) : SwapState :=
  {| phase := preparing; request := Some r; preparedTransaction := None;
     pools := None; selectedPool := None; result := None; error_ := None;
     swapTool := None |}.

(** * Specification vocabulary *)

(** A computation that cannot throw: whatever the world, it returns. *)
Definition total {W E A} (c : M W E A) : Prop :=
  forall w, exists a w', c w = (Ok a, w').

(** [a] is the number [q] (rationals are compared by value). *)
Definition is_value (a : num) (q : Q) : Prop :=
  exists x, a = Fin x /\ (x == q)%Q.

(** A gas estimate within the defensive ceilings: each cost is at most
    its cap (a cost that is not a number is within no cap). *)
Definition within_cap (cost : num) (cap : Q) : Prop :=
  exists q, cost = Fin q /\ (q <= cap)%Q.

Definition capped (g : GasEstimation) : Prop :=
  within_cap (totalGasCostInAPT g) 0.05
  /\ within_cap (maxGasCostInAPT g) 0.1.

(** The simulator reports its three gas figures as integers. *)
Definition parses_integers (E : Env) : Prop :=
  forall s, exists z, parseInt E s = ofZ z.

(** * A concrete environment

    A stateless instance of [Env], configured by a scenario: what each
    external call answers.  It serves to run the model on examples. *)

Module Sample.

Definition digit (c : ascii) : option Z :=
  let n := Z.of_nat (nat_of_ascii c) in
  if (48 <=? n) && (n <=? 57) then Some (n - 48) else None.

(** The leading decimal digits of [s], most significant first, and what
    follows them. *)
Fixpoint leadingDigits (s : string) : list Z * string :=
  match s with
  | EmptyString => ([], EmptyString)
  | String c rest =>
      match digit c with
      | Some d => let (ds, tl) := leadingDigits rest in (d :: ds, tl)
      | None => ([], s)
      end
  end.

Definition valueOf (ds : list Z) : Z :=
  fold_left (fun acc d => 10 * acc + d) ds 0.

(** [parseInt] on unsigned decimal text. *)
Definition decimalInt (s : string) : num :=
  match leadingDigits s with
  | ([], _) => NaN
  | (ds, _) => ofZ (valueOf ds)
  end.

(** [parseFloat] on unsigned decimal text with an optional fraction. *)
Definition decimalFloat (s : string) : num :=
  match leadingDigits s with
  | ([], _) => NaN
  | (ds, String "." rest) =>
      let (fs, _) := leadingDigits rest in
      Fin (Qred (inject_Z (valueOf ds)
                 + Qmake (valueOf fs) (Pos.of_nat (Nat.pow 10 (length fs)))))
  | (ds, _) => ofZ (valueOf ds)
  end.

Record Scenario : Type := {
  wallet : option Wallet;
  coins : list CoinData;
  simulation : outcome string (list SimulationResult);
  dexes : list DexInfo;
  hyperionPools : outcome string (option (list RawPool));
  pancakePools : outcome string (list Pool);
  cellanaPools : outcome string (list Pool);
  viewAnswer : Payload -> outcome string (option (list jsval));
  reserves : outcome string Reserves;
  submission : outcome string string;
  answer : option (list HumanResponse)
}.

Definition env (sc : Scenario) : Env :=
  {| World := unit;
     Txn := unit;
     parseInt := decimalInt;
     parseFloat := decimalFloat;
     Number_of_string := decimalFloat;
     HYPERION := "hyperion";
     PANCAKESWAP := "pancakeswap";
     CELLANA := "cellana";
     FIND_POOLS := "find_pools";
     ext_getWallet := fun _ => ret (wallet sc);
     ext_accountFromPrivateKey :=
       fun k => Ok {| accountAddress := "0xcafe"; publicKey := k |};
     ext_getAccountCoinsData := fun _ _ => ret (coins sc);
     ext_build_simple := fun _ => ret tt;
     ext_transferCoinTransaction := fun _ => ret tt;
     ext_simulate_simple := fun _ _ => lift (simulation sc);
     ext_signAndSubmitTransaction := fun _ _ => lift (submission sc);
     ext_waitForTransaction :=
       fun h => ret {| tx_hash := h; tx_gas_used := "7";
                       tx_gas_unit_price := "100" |};
     ext_view := fun p => lift (viewAnswer sc p);
     ext_view_pools := fun _ => lift (hyperionPools sc);
     ext_getDexes := ret (dexes sc);
     ext_pancake_findPools := fun _ => lift (pancakePools sc);
     ext_cellana_findPools := fun _ => lift (cellanaPools sc);
     ext_pancake_getReserves := fun _ _ _ => lift (reserves sc);
     ext_createSwapTransaction :=
       fun _ p pool =>
         ret {| transaction := tt;
                sr_estimatedOutput := outputOf pool;
                sr_minAmountOut :=
                  applySlippage (outputOf pool) (sw_slippage p) |};
     interrupt :=
       fun r => match answer sc with
                | Some a => ret a
                | None => throw (GraphInterrupt r)
                end |}.

Definition aptCoin (raw : Z) : CoinData :=
  {| amount := Some (ofZ raw); cd_decimals := Some 8%nat;
     token_standard := Some "v1"; cd_name := Some "Aptos Coin";
     cd_symbol := Some "APT" |}.

Definition sim (price used maxGas : string) : SimulationResult :=
  {| gas_unit_price := price; gas_used := used; max_gas_amount := maxGas |}.

Definition config : RunnableConfig :=
  {| configurable_user_id := Some "7";
     metadata_user_id := None;
     configurable_selectedPoolIndex := VUndefined;
     configurable_interrupt_response := None;
     configurable_response := None |}.

Definition configWithIndex (v : jsval) : RunnableConfig :=
  {| configurable_user_id := Some "7";
     metadata_user_id := None;
     configurable_selectedPoolIndex := v;
     configurable_interrupt_response := None;
     configurable_response := None |}.

(** A configuration whose [interrupt_response] channel carries [a]. *)
Definition configWithResponse (a : Answer) : RunnableConfig :=
  {| configurable_user_id := Some "7";
     metadata_user_id := None;
     configurable_selectedPoolIndex := VUndefined;
     configurable_interrupt_response := Some a;
     configurable_response := None |}.

(** A quiet scenario: a wallet holding [raw] octas, a well-behaved
    simulator, no DEX. *)
Definition quiet (raw : Z) : Scenario :=
  {| wallet := Some {| privateKey := "0xkey" |};
     coins := [aptCoin raw];
     simulation := Ok [sim "100" "9" "20000"];
     dexes := [];
     hyperionPools := Ok None;
     pancakePools := Ok [];
     cellanaPools := Ok [];
     viewAnswer := fun _ => Ok None;
     reserves := Throw "no reserves";
     submission := Ok "0xhash";
     answer := None |}.

End Sample.

(** A gas cost that is a number stays under its cap. *)
Definition bounded_cost (cost : num) (cap : Q) : Prop :=
  cost = NaN \/ within_cap cost cap.

Definition bounded (g : GasEstimation) : Prop :=
  bounded_cost (totalGasCostInAPT g) 0.05
  /\ bounded_cost (maxGasCostInAPT g) 0.1.

(** The simulator of the failing transfer: unit price 1000, 6000 units
    used, 20000 units at most. *)
Definition greedySimulator : Sample.Scenario :=
  {| Sample.wallet := Some {| privateKey := "0xkey" |};
     Sample.coins := [Sample.aptCoin 1500000000];
     Sample.simulation := Ok [Sample.sim "1000" "6000" "20000"];
     Sample.dexes := [];
     Sample.hyperionPools := Ok None;
     Sample.pancakePools := Ok [];
     Sample.cellanaPools := Ok [];
     Sample.viewAnswer := fun _ => Ok None;
     Sample.reserves := Throw "no reserves";
     Sample.submission := Ok "0xhash";
     Sample.answer := None |}.

Definition sampleTransfer (amount : string) : Transfer.TransferRequest :=
  {| Transfer.toAddress := "0xbeef";
     Transfer.amount := amount;
     Transfer.tokenAddress := None;
     Transfer.faAddress := None |}.




(** The quote of a pool as a rational: [pool.estimatedOutput || 0] is
    always a number. *)
Definition outQ (p : Pool) : Q :=
  match outputOf p with
  | Fin q => q
  | NaN => 0%Q
  end.




(** A loop over [xs] that starts in world [w] and ends in world [w']:
    each turn takes the world the turn before left and yields one
    element of [ys]. *)
Inductive Threaded {W A B : Type} (R : A -> W -> B -> W -> Prop)
  : list A -> W -> list B -> W -> Prop :=
| Threaded_nil w : Threaded R [] w [] w
| Threaded_cons x xs y ys w w1 w2 :
    R x w y w1 -> Threaded R xs w1 ys w2 ->
    Threaded R (x :: xs) w (y :: ys) w2.


(** One turn of the quoting loop from world [w] to world [w']: as
    [requoted], at the worlds of the loop. *)
Definition requotedIn (E : Env) (amt sv : num) (p : Pool) (w : World E)
  (p' : Pool) (w' : World E) : Prop :=
  (exists svc est,
      getService E (name (dex p)) = Ok svc
      /\ service_estimateAmountOut E svc p amt w = (Ok est, w')
      /\ p' = set_estimate p (est_estimatedOutput est)
                (applySlippage (est_estimatedOutput est) sv))
  \/ (p' = set_estimate p (ofZ 0) (ofZ 0)
      /\ ((exists m, getService E (name (dex p)) = Throw m /\ w' = w)
          \/ exists svc m,
               getService E (name (dex p)) = Ok svc
               /\ service_estimateAmountOut E svc p amt w = (Throw m, w'))).

(** One turn of the discovery loop from world [w] to world [w']: what
    the catalogue entry [d] contributes for the request.  An entry that
    is not supported contributes nothing and asks nobody; a supported
    one contributes what its adapter's [findPools] answers for the
    request's pair, and nothing when the adapter cannot be had or its
    search throws. *)
Definition discoveredIn (E : Env) (req : SwapRequest) (d : DexInfo)
  (w : World E) (found : list Pool) (w' : World E) : Prop :=
  (isSupported E (name d) = false /\ found = [] /\ w' = w)
  \/ (isSupported E (name d) = true
      /\ ((exists svc,
             getService E (name d) = Ok svc
             /\ sp_dex (searchParams req d) = d
             /\ sp_faAddressIn (searchParams req d) = faAddressIn req
             /\ sp_faAddressOut (searchParams req d) = faAddressOut req
             /\ service_findPools E svc (searchParams req d) w
                = (Ok found, w'))
          \/ (found = []
              /\ ((exists m, getService E (name d) = Throw m /\ w' = w)
                  \/ exists svc m,
                       getService E (name d) = Ok svc
                       /\ service_findPools E svc (searchParams req d) w
                          = (Throw m, w'))))).

(** Quotes determine pools: no two distinct pools of [l] with a positive
    quote are quoted the same. *)
Definition distinct_quotes (l : list Pool) : Prop :=
  forall a b, In a l -> In b l ->
    (0 < outQ a)%Q -> (0 < outQ b)%Q -> (outQ a == outQ b)%Q -> a = b.

(** The pool is quoted [v]. *)
Definition quotedAt (v : Q) (p : Pool) : bool := Qeq_bool (outQ p) v.

(** What a filter predicate keeps when it does not throw. *)
Definition keeps {A} (p : A -> outcome message bool) (x : A) : bool :=
  match p x with
  | Ok b => b
  | Throw _ => false
  end.

(** Best first. *)
Definition descending (l : list Pool) : Prop :=
  StronglySorted (fun a b => (outQ b <= outQ a)%Q) l.

(** ** A market with two adapters

    The path-routed and the external-router adapter each know one pool
    for the pair.  The path-routed one finds no reserves and quotes its
    fallback, nine tenths of the input; the external router quotes
    [routerQuote]. *)

Module Market.

Definition pancakeDex : DexInfo :=
  {| name := "pancakeswap"; displayName := "PancakeSwap";
     methodAddress := "0xpcs"; functions := [] |}.

Definition cellanaDex : DexInfo :=
  {| name := "cellana"; displayName := "Cellana";
     methodAddress := "0xcel"; functions := [] |}.

(** The pool the path-routed adapter's discovery builds for a direct
    pair. *)
Definition pancakePool : Pool :=
  {| pool_id := Some (TRStr "0xpcs"); dex := pancakeDex;
     tokenA := Some (TRStr "0xaaa"); tokenB := Some (TRStr "0xbbb");
     estimatedOutput := Some (ofZ 0); minAmountOut := None; fee := None;
     token_a := Some (TRStr "0xaaa"); token_b := Some (TRStr "0xbbb");
     token_x := None; token_y := None;
     fa_coin_x_metadata := None; fa_coin_y_metadata := None;
     fa_coin_x_address := None; fa_coin_y_address := None;
     routeType := Some "direct"; routePath := Some ["0xaaa"; "0xbbb"];
     routers := None |}.

(** The pool the external-router adapter's discovery builds for a
    one-hop path. *)
Definition cellanaPool : Pool :=
  {| pool_id := Some (TRStr "0xpool"); dex := cellanaDex;
     tokenA := Some (TRStr "0xaaa"); tokenB := Some (TRStr "0xbbb");
     estimatedOutput := None; minAmountOut := None; fee := Some (ofZ 10);
     token_a := Some (TRStr "0xaaa"); token_b := Some (TRStr "0xbbb");
     token_x := None; token_y := None;
     fa_coin_x_metadata := None; fa_coin_y_metadata := None;
     fa_coin_x_address := None; fa_coin_y_address := None;
     routeType := Some "multi-hop"; routePath := Some ["0xaaa"; "0xbbb"];
     routers :=
       Some [{| wrapFrom := "0xaaa"; wrapTo := "0xbbb"; stable := false;
                poolAddress := "0xpool" |}] |}.

Definition scenario (catalogue : list DexInfo) (routerQuote : Z)
  (answer : option (list HumanResponse)) : Sample.Scenario :=
  {| Sample.wallet := Some {| privateKey := "0xkey" |};
     Sample.coins := [Sample.aptCoin 1500000000];
     Sample.simulation := Ok [Sample.sim "100" "9" "20000"];
     Sample.dexes := catalogue;
     Sample.hyperionPools := Ok None;
     Sample.pancakePools := Ok [pancakePool];
     Sample.cellanaPools := Ok [cellanaPool];
     Sample.viewAnswer := fun _ => Ok (Some [VNum (ofZ routerQuote)]);
     Sample.reserves := Throw "no reserves";
     Sample.submission := Ok "0xhash";
     Sample.answer := answer |}.

Definition pairRequest : SwapRequest :=
  {| faAddressIn := "0xaaa"; faAddressOut := "0xbbb";
     tokenAddressIn := Some "0xaaa"; tokenAddressOut := Some "0xbbb";
     amountIn := inl "0.01"; address := "0xcafe"; slippage := None |}.

(** The same request with a slippage tolerance of its own. *)
Definition requestWithSlippage (s : num) : SwapRequest :=
  {| faAddressIn := "0xaaa"; faAddressOut := "0xbbb";
     tokenAddressIn := Some "0xaaa"; tokenAddressOut := Some "0xbbb";
     amountIn := inl "0.01"; address := "0xcafe"; slippage := Some s |}.

Definition prepared : PreparedSwapTransaction :=
  {| swapAmount := ofZ 1000000;
     ps_accountAddress := "0xcafe";
     ps_decimals := 8;
     ps_tokenData := Sample.aptCoin 1500000000;
     ps_gasEstimation :=
       {| totalGasCostInAPT := Fin 0.005; maxGasCostInAPT := Fin 0.01 |} |}.

(** The state [prepareSwapNode] leaves for [findPoolNode]. *)
Definition found : SwapState :=
  {| phase := findPool; request := Some pairRequest;
     preparedTransaction := Some prepared; pools := None;
     selectedPool := None; result := None; error_ := None;
     swapTool := None |}.

Definition graphState : GraphState :=
  {| messages := []; swapState := found |}.

(** A human message whose content parses to an answer with index
    [i]. *)
Definition indexMessage (i : Z) : Message :=
  {| getType := Some "human";
     content :=
       CStr "{selectedPoolIndex}"
         (Some (PTruthy {| cancelled := VUndefined;
                           selectedPoolIndex := VNum (ofZ i) |}));
     additionalContent := None;
     toolCalls := None;
     tool_call_id := None |}.

(** The same state with [msgs] as the conversation so far. *)
Definition graphStateWith (msgs : list Message) : GraphState :=
  {| messages := msgs; swapState := found |}.

(** An answer whose index is the text "first". *)
Definition wordAnswer : Answer :=
  {| cancelled := VUndefined; selectedPoolIndex := VStr "first" |}.

(** The adapters of the ranked candidates, in order. *)
Definition adapters (r : outcome message (list Pool)) : list string :=
  match r with
  | Ok l => map (fun p => name (dex p)) l
  | Throw _ => []
  end.

End Market.

Module MarketRun.

(** The market with quotes 900000 and 950000, catalogue order
    path-routed first. *)
Definition env : Env :=
  Sample.env
    (Market.scenario [Market.pancakeDex; Market.cellanaDex] 950000 None).

Definition ranked : list Pool :=
  Eval vm_compute in
    match fst (aggregate env Market.pairRequest Market.prepared tt) with
    | Ok l => l
    | Throw _ => []
    end.

(** A market where nobody lists the pair. *)
Definition emptyEnv : Env := Sample.env (Sample.quiet 1500000000).

(** The same market with a user who accepts and attaches [args]. *)
Definition acceptingEnv (args : ResponseArgs) : Env :=
  Sample.env
    (Market.scenario [Market.pancakeDex; Market.cellanaDex] 950000
       (Some [{| hr_type := "accept"; hr_args := args |}])).

(** A market of the external router alone, quoting 1000000. *)
Definition routerEnv : Env :=
  Sample.env (Market.scenario [Market.cellanaDex] 1000000 None).

End MarketRun.

Module Tie.

(** The same market, both adapters quoting 900000, with the catalogue
    in one order and in the other. *)
Definition pancakeFirst : Env :=
  Sample.env
    (Market.scenario [Market.pancakeDex; Market.cellanaDex] 900000 None).

Definition cellanaFirst : Env :=
  Sample.env
    (Market.scenario [Market.cellanaDex; Market.pancakeDex] 900000 None).

(** A fixed quote per adapter. *)
Definition quoteBy (pancakeQuote cellanaQuote : Z) (p : Pool) : Pool :=
  if (name (dex p) =? "pancakeswap")%string
  then set_estimate p (ofZ pancakeQuote)
         (applySlippage (ofZ pancakeQuote) DEFAULT_SLIPPAGE)
  else set_estimate p (ofZ cellanaQuote)
         (applySlippage (ofZ cellanaQuote) DEFAULT_SLIPPAGE).

End Tie.

(** ** Pool selection *)

(** The answer [v] is the number [i]. *)
Definition denotes_index (v : jsval) (i : nat) : Prop :=
  exists q, v = VNum (Fin q) /\ (q == inject_Z (Z.of_nat i))%Q.

(** The answer is not a number, or is a number below 0 or not below
    [n]. *)
Definition out_of_range (v : jsval) (n : nat) : Prop :=
  match v with
  | VNum (Fin q) => (q < 0)%Q \/ (inject_Z (Z.of_nat n) <= q)%Q
  | VNum NaN => False
  | _ => True
  end.

(** An answer object that neither cancels nor carries a number as its
    index. *)
Definition carries_no_index (a : Answer) : Prop :=
  cancelled a <> VBool true /\ forall n, selectedPoolIndex a <> VNum n.

(** What is attached to an accepted human response carries the number
    [n] as its index: it is an object, or a text that parses to one,
    whose [selectedPoolIndex] is [n]. *)
Definition carries_index (args : ResponseArgs) (n : num) : Prop :=
  exists a,
    (args = ArgsObject a \/ args = ArgsString (Some (PTruthy a)))
    /\ selectedPoolIndex a = VNum n.

(** What is attached carries no number as its index: nothing is
    attached, or a text that does not parse or parses to a falsy value,
    or an object (given or parsed) whose [selectedPoolIndex] is not a
    number. *)
Definition carries_no_number (args : ResponseArgs) : Prop :=
  match args with
  | ArgsAbsent => True
  | ArgsString None => True
  | ArgsString (Some PFalsy) => True
  | ArgsString (Some (PTruthy a)) | ArgsObject a =>
      forall n, selectedPoolIndex a <> VNum n
  end.

(** The configuration with the [interrupt_response] channel left
    empty. *)
Definition without_interrupt_response (c : RunnableConfig)
  : RunnableConfig :=
  {| configurable_user_id := configurable_user_id c;
     metadata_user_id := metadata_user_id c;
     configurable_selectedPoolIndex := configurable_selectedPoolIndex c;
     configurable_interrupt_response := None;
     configurable_response := configurable_response c |}.

(** The two messages of the selection check. *)
Definition validation_message (v : jsval) (n : nat) (m : message) : Prop :=
  m = InvalidPoolSelectionRange v (Z.of_nat n - 1)
  \/ m = Msg "Invalid pool selection: selectedPool is null".

(** ** The single-pool adapter against a failing ledger *)

Module Outage.

Definition hyperionDex : DexInfo :=
  {| name := "hyperion"; displayName := "Hyperion";
     methodAddress := "0xhyp";
     functions :=
       [{| functionType := "find_pools";
           functionName := "pool_v3::all_pools";
           isActive := true |}] |}.

Definition params : PoolSearchParams :=
  {| sp_dex := hyperionDex;
     sp_faAddressIn := "0xaaa";
     sp_faAddressOut := "0xbbb";
     sp_tokenAddressIn := Some "";
     sp_tokenAddressOut := Some "" |}.

(** Every view call fails. *)
Definition scenario : Sample.Scenario :=
  {| Sample.wallet := Some {| privateKey := "0xkey" |};
     Sample.coins := [Sample.aptCoin 1500000000];
     Sample.simulation := Ok [Sample.sim "100" "9" "20000"];
     Sample.dexes := [hyperionDex];
     Sample.hyperionPools := Throw "view failed";
     Sample.pancakePools := Ok [];
     Sample.cellanaPools := Ok [];
     Sample.viewAnswer := fun _ => Throw "view failed";
     Sample.reserves := Throw "no reserves";
     Sample.submission := Ok "0xhash";
     Sample.answer := None |}.

Definition env : Env := Sample.env scenario.

End Outage.

(** ** Terminal states *)

(** A finished swap: a success result and no error. *)
Definition swap_completed (s : SwapState) : Prop :=
  phase s = completed
  /\ error_ s = None
  /\ exists r, result s = Some r /\ swap_success r = true.

(** A failed swap: an error message, and no result or the failure
    result built from that message. *)
Definition swap_failed (s : SwapState) : Prop :=
  phase s = error
  /\ exists m, error_ s = Some m
               /\ (result s = None \/ result s = Some (SwapFailed m)).

(** A finished transfer: a success result and no error. *)
Definition transfer_completed (s : Transfer.TransferState) : Prop :=
  Transfer.phase s = Transfer.completed
  /\ Transfer.error_ s = None
  /\ exists r, Transfer.result s = Some r /\ Transfer.success r = true.

(** A failed transfer: an error message or a failure result, possibly
    both; never a success result. *)
Definition transfer_failed (s : Transfer.TransferState) : Prop :=
  Transfer.phase s = Transfer.error
  /\ (Transfer.error_ s <> None \/ Transfer.result s <> None)
  /\ forall r, Transfer.result s = Some r -> Transfer.success r = false.

(** A state carries exactly one of result and error. *)
Definition exactly_one {A B} (result : option A) (err : option B) : Prop :=
  (result <> None /\ err = None) \/ (result = None /\ err <> None).

Module Failures.

(** No authenticated user: transfer preparation fails at once. *)
Definition anonymous : RunnableConfig :=
  {| configurable_user_id := None;
     metadata_user_id := None;
     configurable_selectedPoolIndex := VUndefined;
     configurable_interrupt_response := None;
     configurable_response := None |}.

Definition declined : list HumanResponse :=
  [{| hr_type := "ignore"; hr_args := ArgsAbsent |}].

Definition accepted : list HumanResponse :=
  [{| hr_type := "accept"; hr_args := ArgsAbsent |}].

(** A quiet ledger and a user who answers the confirmation. *)
Definition answering (a : list HumanResponse) : Sample.Scenario :=
  {| Sample.wallet := Some {| privateKey := "0xkey" |};
     Sample.coins := [Sample.aptCoin 1500000000];
     Sample.simulation := Ok [Sample.sim "100" "9" "20000"];
     Sample.dexes := [];
     Sample.hyperionPools := Ok None;
     Sample.pancakePools := Ok [];
     Sample.cellanaPools := Ok [];
     Sample.viewAnswer := fun _ => Ok None;
     Sample.reserves := Throw "no reserves";
     Sample.submission := Ok "0xhash";
     Sample.answer := Some a |}.

(** The two-adapter market with a ledger that rejects submissions. *)
Definition rejecting : Sample.Scenario :=
  {| Sample.wallet := Some {| privateKey := "0xkey" |};
     Sample.coins := [Sample.aptCoin 1500000000];
     Sample.simulation := Ok [Sample.sim "100" "9" "20000"];
     Sample.dexes := [Market.pancakeDex; Market.cellanaDex];
     Sample.hyperionPools := Ok None;
     Sample.pancakePools := Ok [Market.pancakePool];
     Sample.cellanaPools := Ok [Market.cellanaPool];
     Sample.viewAnswer := fun _ => Ok (Some [VNum (ofZ 950000)]);
     Sample.reserves := Throw "no reserves";
     Sample.submission := Throw "rejected";
     Sample.answer := None |}.

End Failures.

(** * The adapters behind the catalogue

    What the three DEX services do besides quoting: the pair cache, the
    reserve lookup, the token list and the route search of the
    path-routed adapter (pancakeswap.service.ts), path selection of the
    external-router adapter (cellana.service.ts), and the transaction
    builders and pool checks of all three. *)

(** ** The host of the adapters

    The adapters read the clock, draw random numbers and talk HTTP.  A
    [Host] is an [Env] together with these. *)

(** The [data] of a [TokenPairReserve] resource, as far as it is read. *)
Record ReserveResource : Type := {
  reserve_x : jsval;
  reserve_y : jsval
}.

(** The answer to the GET of a resource: its status and what
    [response.json()] gives, seen through [json.data] ([None] when
    [data] is absent or no object). *)
Record ResourceResponse : Type := {
  rs_status : Z;
  rs_json : outcome string (option ReserveResource)
}.

(** An entry of the token list; its [address] is the only property
    read.  The list is taken to follow the token-list format, where
    every entry carries its address. *)
Record Token : Type := {
  tk_address : string;
  tk_symbol : string
}.

(** The answer to the GET of the token list: [response.ok] and
    [tokenList.tokens || []] of its body. *)
Record TokenListResponse : Type := {
  tl_ok : bool;
  tl_json : outcome string (list Token)
}.

(** One path of the external router's answer. *)
Record RoutePath : Type := {
  path_routers : list Router
}.

(** [response.data] of the external router: [data.code] and
    [data.data?.path] ([None] when it is absent). *)
Record RouterReply : Type := {
  reply_code : Z;
  reply_path : option (list RoutePath)
}.

(** Arguments of the adapters' entry functions. *)
Inductive swap_arg : Type :=
| SPools (ids : list (option tokref))
| SToken (t : option tokref)
| SAddr (a : string)
| SNumString (n : num)
| SAddrs (l : list string)
| SFlags (l : list bool).

(** A payload; a type argument is whatever value the adapter has for a
    token, [None] standing for [undefined]. *)
Record SwapPayload : Type := {
  sp_function : string;
  sp_typeArguments : list (option tokref);
  sp_functionArguments : list swap_arg
}.

(** What the adapters hand to [transaction.build.simple]. *)
Record SwapBuildRequest : Type := {
  sb_sender : string;
  sb_data : SwapPayload;
  sb_maxGasAmount : num;
  sb_gasUnitPrice : num
}.

Record Host : Type := {
  base :> Env;
  (* [Date.now()], in milliseconds *)
  Date_now : World base -> Z * World base;
  (* [Math.random()] *)
  Math_random : World base -> Q * World base;
  encodeURIComponent : string -> string;
  (* a number inside a template literal *)
  Number_toString : num -> string;
  (* [fetch(url, { method: "GET" })] of a ledger resource *)
  ext_fetch_resource : string -> M (World base) string ResourceResponse;
  (* [fetch(url)] of the token list *)
  ext_fetch_token_list : string -> M (World base) string TokenListResponse;
  (* [axios.post(url, { address0, address1 })] *)
  ext_router_post :
    string -> string -> string -> M (World base) string RouterReply;
  (* [transaction.build.simple] at the adapters' payloads *)
  ext_build_swap : SwapBuildRequest -> M (World base) string (Txn base)
}.

Definition build_swap (H : Host) (r : SwapBuildRequest)
  : M (World H) message (Txn H) :=
  external (ext_build_swap H r).

Definition router_post (H : Host) (url address0 address1 : string)
  : M (World H) message RouterReply :=
  external (ext_router_post H url address0 address1).

(** ** The path-routed adapter: caches, reserves, routes
    (pancakeswap.service.ts) *)

Module PancakeAdapter.

(** What a cache entry holds: the reserves of a pair, or whether the
    pair exists. *)
Inductive CacheData : Type :=
| DReserves (r : Reserves)
| DExists (b : bool).

Record CacheEntry : Type := {
  ce_data : CacheData;
  ce_timestamp : Z
}.

(** [pairCache]: an object used as a map from keys to entries.  The
    entry of a key is the first pair that carries it. *)
Definition PairCache : Type := list (string * CacheEntry).

Record TokenListCache : Type := {
  tlc_tokens : list Token;
  tlc_timestamp : Z
}.

(** The module-level variables. *)
Record Memory : Type := {
  pairCache : PairCache;
  tokenListCache : option TokenListCache
}.

Definition PAIR_CACHE_DURATION : Z := 30 * 60 * 1000.
Definition CACHE_DURATION : Z := 5 * 60 * 1000.

(** [cache[key]] *)
Fixpoint lookup (key : string) (cache : PairCache) : option CacheEntry :=
  match cache with
  | [] => None
  | (k, e) :: rest => if (k =? key)%string then Some e else lookup key rest
  end.

(** [cache[key] = entry] *)
Fixpoint assign (key : string) (entry : CacheEntry) (cache : PairCache)
  : PairCache :=
  match cache with
  | [] => [(key, entry)]
  | (k, e) :: rest =>
      if (k =? key)%string then (key, entry) :: rest
      else (k, e) :: assign key entry rest
  end.

(** [delete cache[key]] *)
Definition delete (key : string) (cache : PairCache) : PairCache :=
  filter (fun p => negb (fst p =? key)%string) cache.

(** [Object.keys(cache)] *)
Definition keys (cache : PairCache) : list string :=
  nodup string_dec (map fst cache).

Definition getPairCacheKey (resourceAccount tokenA tokenB : string)
  : string :=
  let (sortedX, sortedY) :=
    if (tokenA <? tokenB)%string then (tokenA, tokenB)
    else (tokenB, tokenA) in
  resourceAccount ++ "_" ++ sortedX ++ "_" ++ sortedY.

(** Truthiness of cached data. *)
Definition truthyData (d : CacheData) : bool :=
  match d with
  | DReserves _ => true
  | DExists b => b
  end.

(** Cached data read as reserves: a boolean has neither property, and
    an absent reserve enters the arithmetic as [NaN]. *)
Definition asReserves (d : CacheData) : Reserves :=
  match d with
  | DReserves r => r
  | DExists _ => {| reserve_in := NaN; reserve_out := NaN |}
  end.

Definition canonical (token : string) : string :=
  if (token =? APT_ALIAS)%string then APT_COIN else token.

(** The resource type of a pair, tokens in canonical order. *)
Definition reserveType (resourceAccount tokenA tokenB : string) : string :=
  let canonicalTokenA := canonical tokenA in
  let canonicalTokenB := canonical tokenB in
  let (sortedX, sortedY) :=
    if (canonicalTokenA <? canonicalTokenB)%string
    then (canonicalTokenA, canonicalTokenB)
    else (canonicalTokenB, canonicalTokenA) in
  resourceAccount ++ "::swap::TokenPairReserve<" ++ sortedX ++ ", "
  ++ sortedY ++ ">".

Definition TOKEN_LIST_URL : string :=
  "https://tokens.pancakeswap.finance/pancakeswap-aptos.json".

(** The normalisation both token lookups apply to the address they are
    given. *)
Definition normalizedTokenAddress (tokenAddress : string) : string :=
  let normalized := Str.toLowerCase tokenAddress in
  if (normalized =? APT_ALIAS)%string || Str.includes normalized "::"
  then APT_COIN_LOWER else normalized.

Record RouteInfo : Type := {
  ri_type : string;
  ri_path : list string;
  ri_estimatedOutput : num
}.

Section Internals.
Variable H : Host.

(** The adapter runs on its module-level variables and on the world. *)
Record State : Type := {
  memory : Memory;
  outside : World H
}.

Definition P (A : Type) : Type := M State message A.

(** A call that leaves the adapter. *)
Definition call {A} (c : M (World H) string A) : P A :=
  fun s => match c (outside s) with
           | (Ok a, w) => (Ok a, {| memory := memory s; outside := w |})
           | (Throw e, w) =>
               (Throw (External e), {| memory := memory s; outside := w |})
           end.

Definition dateNow : P Z :=
  fun s => let (t, w) := Date_now H (outside s) in
           (Ok t, {| memory := memory s; outside := w |}).

Definition mathRandom : P Q :=
  fun s => let (r, w) := Math_random H (outside s) in
           (Ok r, {| memory := memory s; outside := w |}).

Definition readPairCache : P PairCache :=
  fun s => (Ok (pairCache (memory s)), s).

Definition writePairCache (cache : PairCache) : P unit :=
  fun s => (Ok tt,
            {| memory := {| pairCache := cache;
                            tokenListCache := tokenListCache (memory s) |};
               outside := outside s |}).

Definition readTokenListCache : P (option TokenListCache) :=
  fun s => (Ok (tokenListCache (memory s)), s).

Definition writeTokenListCache (c : option TokenListCache) : P unit :=
  fun s => (Ok tt,
            {| memory := {| pairCache := pairCache (memory s);
                            tokenListCache := c |};
               outside := outside s |}).

Definition cleanExpiredCache : P unit :=
  now_ <- dateNow ;;
  cache <- readPairCache ;;
  let expiredKeys :=
    filter (fun key =>
              match lookup key cache with
              | Some e => now_ - ce_timestamp e >=? PAIR_CACHE_DURATION
              | None => false
              end)
      (keys cache) in
  writePairCache (fold_left (fun c key => delete key c) expiredKeys cache).

Definition getCachedPairData (cacheKey : string) : P (option CacheData) :=
  r <- mathRandom ;;
  _ <- (if negb (Qle_bool 0.1 r) then cleanExpiredCache else ret tt) ;;
  cache <- readPairCache ;;
  match lookup cacheKey cache with
  | Some cached =>
      now_ <- dateNow ;;
      if now_ - ce_timestamp cached <? PAIR_CACHE_DURATION
      then ret (Some (ce_data cached))
      else ret None
  | None => ret None
  end.

Definition setCachedPairData (cacheKey : string) (data : CacheData)
  : P unit :=
  now_ <- dateNow ;;
  cache <- readPairCache ;;
  writePairCache
    (assign cacheKey {| ce_data := data; ce_timestamp := now_ |} cache).

Definition clearPairCache : P unit := writePairCache [].

(** [getCacheStats().totalEntries] *)
Definition totalEntries : P nat :=
  cache <- readPairCache ;;
  ret (length (keys cache)).

Definition resourceUrl (resourceAccount tokenA tokenB : string) : string :=
  "https://aptos-mainnet.nodereal.io/v1/6efc9017db4344dca3fa89e579f67725/v1/accounts/"
  ++ resourceAccount ++ "/resource/"
  ++ encodeURIComponent H (reserveType resourceAccount tokenA tokenB).

(** The part of [getReserves] that runs on a cache miss. *)
Definition fetchReserves (resourceAccount tokenA tokenB : string)
  : P Reserves :=
  let cacheKey := getPairCacheKey resourceAccount tokenA tokenB in
  let canonicalTokenA := canonical tokenA in
  let canonicalTokenB := canonical tokenB in
  response <-
    call (ext_fetch_resource H (resourceUrl resourceAccount tokenA tokenB)) ;;
  if rs_status response =? 404 then
    throw (Msg ("TokenPairReserve not found for " ++ canonicalTokenA
                ++ " <-> " ++ canonicalTokenB
                ++ ". This pair might not exist on PancakeSwap."))
  else if negb (rs_status response =? 200) then
    throw (Msg ("HTTP Error: "
                ++ Number_toString H (ofZ (rs_status response))))
  else
    match rs_json response with
    | Throw e => throw (External e)
    | Ok None =>
        throw (Msg "Malformed TokenPairReserve resource: missing data")
    | Ok (Some data) =>
        if is_undefined (reserve_x data) || is_undefined (reserve_y data)
        then throw (Msg "Malformed TokenPairReserve resource: missing reserve_x or reserve_y")
        else
          let isReversed := (canonicalTokenB <? canonicalTokenA)%string in
          let result :=
            if isReversed
            then {| reserve_in := toNumber H (reserve_y data);
                    reserve_out := toNumber H (reserve_x data) |}
            else {| reserve_in := toNumber H (reserve_x data);
                    reserve_out := toNumber H (reserve_y data) |} in
          _ <- setCachedPairData cacheKey (DReserves result) ;;
          ret result
    end.

Definition getReserves (resourceAccount tokenA tokenB : string)
  : P Reserves :=
  let cacheKey := getPairCacheKey resourceAccount tokenA tokenB in
  cachedData <- getCachedPairData cacheKey ;;
  match cachedData with
  | Some d =>
      if truthyData d then ret (asReserves d)
      else fetchReserves resourceAccount tokenA tokenB
  | None => fetchReserves resourceAccount tokenA tokenB
  end.

(** Whether the pair has a reserve resource.  What comes out of the
    cache is returned as it is; the callers test its truthiness. *)
Definition checkPairExists (resourceAccount tokenA tokenB : string)
  : P bool :=
  try_catch
    (let cacheKey :=
       "exists_" ++ getPairCacheKey resourceAccount tokenA tokenB in
     cachedData <- getCachedPairData cacheKey ;;
     match cachedData with
     | Some d => ret (truthyData d)
     | None =>
         response <-
           call (ext_fetch_resource H
                   (resourceUrl resourceAccount tokenA tokenB)) ;;
         let exists_ := rs_status response =? 200 in
         _ <- setCachedPairData cacheKey (DExists exists_) ;;
         ret exists_
     end)
    (fun _ => ret false).

Definition tryDirectSwap (resourceAccount tokenIn tokenOut : string)
  : P (option RouteInfo) :=
  try_catch
    (pairExists <- checkPairExists resourceAccount tokenIn tokenOut ;;
     if pairExists
     then ret (Some {| ri_type := "direct";
                       ri_path := [tokenIn; tokenOut];
                       ri_estimatedOutput := ofZ 0 |})
     else ret None)
    (fun _ => ret None).

Definition getTokenList : P (list Token) :=
  now_ <- dateNow ;;
  cached <- readTokenListCache ;;
  let refresh : P (list Token) :=
    try_catch
      (response <- call (ext_fetch_token_list H TOKEN_LIST_URL) ;;
       if negb (tl_ok response) then ret []
       else
         match tl_json response with
         | Throw e => throw (External e)
         | Ok tokens =>
             _ <- writeTokenListCache
                    (Some {| tlc_tokens := tokens;
                             tlc_timestamp := now_ |}) ;;
             ret tokens
         end)
      (fun _ => ret []) in
  match cached with
  | Some c =>
      if now_ - tlc_timestamp c <? CACHE_DURATION
      then ret (tlc_tokens c)
      else refresh
  | None => refresh
  end.

Definition exitsTokens (tokenAddress : string) : P bool :=
  try_catch
    (tokens <- getTokenList ;;
     let normalized := normalizedTokenAddress tokenAddress in
     ret (existsb
            (fun token =>
               (Str.toLowerCase (tk_address token) =? normalized)%string)
            tokens))
    (fun _ => ret false).

Definition getTokenInfo (tokenAddress : string) : P (option Token) :=
  try_catch
    (tokens <- getTokenList ;;
     let normalized := normalizedTokenAddress tokenAddress in
     ret (find
            (fun token =>
               (Str.toLowerCase (tk_address token) =? normalized)%string)
            tokens))
    (fun _ => ret None).

Definition getAllSupportedTokens : P (list Token) :=
  try_catch getTokenList (fun _ => ret []).

Definition clearCache : P unit := writeTokenListCache None.

(** The loop of [findIntermediateRoute] over the candidate tokens. *)
Fixpoint tryIntermediates (resourceAccount tokenIn tokenOut : string)
  (potentialIntermediates : list string) : P (option RouteInfo) :=
  match potentialIntermediates with
  | [] => ret None
  | intermediate :: rest =>
      bothLegs <-
        try_catch
          (leg1Exists <-
             checkPairExists resourceAccount tokenIn intermediate ;;
           leg2Exists <-
             checkPairExists resourceAccount intermediate tokenOut ;;
           ret (leg1Exists && leg2Exists))
          (fun _ => ret false) ;;
      if bothLegs
      then ret (Some {| ri_type := "doublehop";
                        ri_path := [tokenIn; intermediate; tokenOut];
                        ri_estimatedOutput := ofZ 0 |})
      else tryIntermediates resourceAccount tokenIn tokenOut rest
  end.

Definition findIntermediateRoute (resourceAccount tokenIn tokenOut : string)
  : P (option RouteInfo) :=
  try_catch
    (allSupportedTokens <- getAllSupportedTokens ;;
     let supportedAddresses := map tk_address allSupportedTokens in
     let potentialIntermediates :=
       filter (fun addr =>
                 negb (addr =? tokenIn)%string
                 && negb (addr =? tokenOut)%string)
         supportedAddresses in
     tryIntermediates resourceAccount tokenIn tokenOut
       potentialIntermediates)
    (fun _ => ret None).

Definition getRoutingPath (resourceAccount tokenIn tokenOut : string)
  : P (option RouteInfo) :=
  try_catch
    (directRoute <- tryDirectSwap resourceAccount tokenIn tokenOut ;;
     match directRoute with
     | Some r => ret (Some r)
     | None =>
         intermediateRoute <-
           findIntermediateRoute resourceAccount tokenIn tokenOut ;;
         match intermediateRoute with
         | Some r => ret (Some r)
         | None => ret None
         end
     end)
    (fun _ => ret None).

(** The pool [findPools] builds for a route. *)
Definition routedPool (d : DexInfo) (tokenAddressIn tokenAddressOut : string)
  (routeInfo : RouteInfo) : Pool :=
  {| pool_id := Some (TRStr (methodAddress d));
     dex := d;
     tokenA := Some (TRStr tokenAddressIn);
     tokenB := Some (TRStr tokenAddressOut);
     estimatedOutput := Some (ri_estimatedOutput routeInfo);
     minAmountOut := None;
     fee := None;
     token_a := Some (TRStr tokenAddressIn);
     token_b := Some (TRStr tokenAddressOut);
     token_x := None; token_y := None;
     fa_coin_x_metadata := None; fa_coin_y_metadata := None;
     fa_coin_x_address := None; fa_coin_y_address := None;
     routeType := Some (ri_type routeInfo);
     routePath := Some (ri_path routeInfo);
     routers := None |}.

Definition findPools (params : PoolSearchParams) : P (list Pool) :=
  let d := sp_dex params in
  match sp_tokenAddressIn params, sp_tokenAddressOut params with
  | Some tokenAddressIn, Some tokenAddressOut =>
      if negb (Str.truthy tokenAddressIn) || negb (Str.truthy tokenAddressOut)
      then ret []
      else
        tokenInSupported <- exitsTokens tokenAddressIn ;;
        tokenOutSupported <- exitsTokens tokenAddressOut ;;
        if negb tokenInSupported then ret []
        else if negb tokenOutSupported then ret []
        else
          routeInfo <-
            getRoutingPath (methodAddress d) tokenAddressIn tokenAddressOut ;;
          match routeInfo with
          | None => ret []
          | Some r => ret [routedPool d tokenAddressIn tokenAddressOut r]
          end
  | _, _ => ret []
  end.

End Internals.

Arguments memory {H} s.
Arguments outside {H} s.

(** [r?.toLowerCase() || ""] on a token of a pool: a string is lowered,
    an absent token counts as the empty string, an object has no such
    method. *)
Definition lowerRef (r : option tokref) : outcome message string :=
  match r with
  | None => Ok ""
  | Some (TRStr s) => Ok (Str.toLowerCase s)
  | Some (TRObj _) => Throw (TypeError "toLowerCase is not a function")
  end.

Definition validatePool (pool : Pool) (params : PoolSearchParams)
  : outcome message bool :=
  match lowerRef (tokenA pool) with
  | Throw e => Throw e
  | Ok tokenA =>
      match lowerRef (tokenB pool) with
      | Throw e => Throw e
      | Ok tokenB =>
          let poolTokens := Str.sortPairJoin (Some tokenA) (Some tokenB) in
          let requestTokens :=
            Str.sortPairJoin
              (Some (Str.or_empty (lowerOpt (sp_tokenAddressIn params))))
              (Some (Str.or_empty (lowerOpt (sp_tokenAddressOut params)))) in
          Ok (poolTokens =? requestTokens)%string
      end
  end.

(** [pool.routeType || "direct"] *)
Definition routeTypeOf (pool : Pool) : string :=
  match routeType pool with
  | Some t => if Str.truthy t then t else "direct"
  | None => "direct"
  end.

(** [pool.routePath || [tokenAddressIn, tokenAddressOut]], read by index *)
Definition routePathOf (params : SwapParams) (pool : Pool)
  : list (option tokref) :=
  match routePath pool with
  | Some path => map (fun t => Some (TRStr t)) path
  | None =>
      [ofString (sw_tokenAddressIn params);
       ofString (sw_tokenAddressOut params)]
  end.

(** [routePath[i]] *)
Definition pathAt (path : list (option tokref)) (i : nat) : option tokref :=
  nth i path None.

Definition createSwapTransaction (H : Host) (params : SwapParams)
  (pool : Pool) : M (World H) message (SwapResult (Txn H)) :=
  let amountIn := sw_amountIn params in
  let slippage := sw_slippage params in
  let resourceAccount := methodAddress (dex pool) in
  estimation <- PancakeSwapService.estimateAmountOut H pool amountIn ;;
  let expectedAmountOut := est_estimatedOutput estimation in
  let minAmountOut := applySlippage expectedAmountOut slippage in
  let routeType := routeTypeOf pool in
  let routePath := routePathOf params pool in
  payload <-
    (if (routeType =? "direct")%string then
       ret {| sp_function := resourceAccount ++ "::router::swap_exact_input";
              sp_typeArguments :=
                [ofString (sw_tokenAddressIn params);
                 ofString (sw_tokenAddressOut params)];
              sp_functionArguments :=
                [SNumString amountIn; SNumString minAmountOut] |}
     else if (routeType =? "doublehop")%string then
       ret {| sp_function :=
                resourceAccount ++ "::router::swap_exact_input_doublehop";
              sp_typeArguments :=
                [pathAt routePath 0; pathAt routePath 1; pathAt routePath 2];
              sp_functionArguments :=
                [SNumString amountIn; SNumString minAmountOut] |}
     else if (routeType =? "triplehop")%string then
       ret {| sp_function :=
                resourceAccount ++ "::router::swap_exact_input_triplehop";
              sp_typeArguments :=
                [pathAt routePath 0; pathAt routePath 1; pathAt routePath 2;
                 pathAt routePath 3];
              sp_functionArguments :=
                [SNumString amountIn; SNumString minAmountOut] |}
     else throw (Msg ("Unsupported route type: " ++ routeType))) ;;
  transaction <-
    build_swap H
      {| sb_sender := accountAddress (sw_account params);
         sb_data := payload;
         sb_maxGasAmount := APTOS_CONFIG_maxGasAmount;
         sb_gasUnitPrice := APTOS_CONFIG_gasUnitPrice |} ;;
  ret {| transaction := transaction;
         sr_estimatedOutput := expectedAmountOut;
         sr_minAmountOut := minAmountOut |}.

End PancakeAdapter.

(** ** The single-pool adapter: builder and pool check
    (hyperion.service.ts) *)

Module HyperionAdapter.

Definition createSwapTransaction (H : Host) (params : SwapParams)
  (pool : Pool) : M (World H) message (SwapResult (Txn H)) :=
  let faAddressIn := sw_faAddressIn params in
  let faAddressOut := sw_faAddressOut params in
  let amountIn := sw_amountIn params in
  let slippage := sw_slippage params in
  let toAddress := sw_toAddress params in
  let poolId := pool_id pool in
  let methodAddress := methodAddress (dex pool) in
  if negb (tokref_truthy poolId) || negb (Str.truthy methodAddress)
  then throw (Msg "Invalid pool information for Hyperion")
  else
    estimation <- HyperionService.estimateAmountOut H pool amountIn ;;
    let minAmountOut :=
      applySlippage (est_estimatedOutput estimation) slippage in
    let payload :=
      if (faAddressIn =? APT_ALIAS)%string then
        {| sp_function := methodAddress ++ "::router_v3::swap_batch_coin_entry";
           sp_typeArguments := [Some (TRStr APT_COIN)];
           sp_functionArguments :=
             [SPools [poolId]; SAddr APT_ALIAS; SAddr faAddressOut;
              SNumString amountIn; SNumString minAmountOut;
              SAddr toAddress] |}
      else if (faAddressOut =? APT_ALIAS)%string then
        {| sp_function := methodAddress ++ "::router_v3::swap_batch";
           sp_typeArguments := [];
           sp_functionArguments :=
             [SPools [poolId]; SAddr faAddressIn; SAddr APT_ALIAS;
              SNumString amountIn; SNumString minAmountOut;
              SAddr toAddress] |}
      else
        {| sp_function := methodAddress ++ "::router_v3::swap_batch";
           sp_typeArguments := [];
           sp_functionArguments :=
             [SPools [poolId]; SAddr faAddressIn; SAddr faAddressOut;
              SNumString amountIn; SNumString minAmountOut;
              SAddr toAddress] |} in
    transaction <-
      build_swap H
        {| sb_sender := accountAddress (sw_account params);
           sb_data := payload;
           sb_maxGasAmount := APTOS_CONFIG_maxGasAmount;
           sb_gasUnitPrice := APTOS_CONFIG_gasUnitPrice |} ;;
    ret {| transaction := transaction;
           sr_estimatedOutput := est_estimatedOutput estimation;
           sr_minAmountOut := minAmountOut |}.

(** [faAddress || tokenAddress] of the search parameters *)
Definition requestToken (fa : string) (token : option string)
  : option string :=
  if Str.truthy fa then Some fa else token.

Definition validatePool (pool : Pool) (params : PoolSearchParams)
  : outcome message bool :=
  let tokenIn :=
    requestToken (sp_faAddressIn params) (sp_tokenAddressIn params) in
  let tokenOut :=
    requestToken (sp_faAddressOut params) (sp_tokenAddressOut params) in
  match PancakeAdapter.lowerRef (tokenA pool) with
  | Throw e => Throw e
  | Ok poolTokenA =>
      match PancakeAdapter.lowerRef (tokenB pool) with
      | Throw e => Throw e
      | Ok poolTokenB =>
          let requestTokenIn := Str.or_empty (lowerOpt tokenIn) in
          let requestTokenOut := Str.or_empty (lowerOpt tokenOut) in
          Ok (((poolTokenA =? requestTokenIn)%string
               && (poolTokenB =? requestTokenOut)%string)
              || ((poolTokenA =? requestTokenOut)%string
                  && (poolTokenB =? requestTokenIn)%string))
      end
  end.

End HyperionAdapter.

(** ** The external-router adapter: discovery, builder and pool check
    (cellana.service.ts) *)

Module CellanaAdapter.

Definition ROUTER_URL : string :=
  "https://api-v2.cellana.finance/api/v1/pool/router".

Definition getCellanaFeeRate (H : Host) (routerAddress poolObject : string)
  : M (World H) message num :=
  result <-
    view H
      {| pl_function := routerAddress ++ "::liquidity_pool::swap_fee_bps";
         pl_typeArguments := [];
         pl_functionArguments := [AStr (Some poolObject)] |} ;;
  match result with
  | Some l => ret (toNumber H (firstOf (Some l)))
  | None => throw (Msg "Invalid response from swap_fee_bps")
  end.

(** The quote of a path for the test amount; [None] when it cannot be
    had. *)
Definition testQuote (H : Host) (routerAddress : string) (path : RoutePath)
  : M (World H) message (option num) :=
  try_catch
    (let wrapToAddresses := map wrapTo (path_routers path) in
     let stableFlags := map stable (path_routers path) in
     match path_routers path with
     | [] => throw (TypeError "routers[0] is undefined")
     | first :: _ =>
         amountOut <-
           CellanaService.getCellanaAmountOut H routerAddress (ofZ 1000000)
             (wrapFrom first) wrapToAddresses stableFlags ;;
         ret (Some amountOut)
     end)
    (fun _ => ret None).

(** The loop that looks for the path with the highest output. *)
Fixpoint selectBestPath (H : Host) (routerAddress : string)
  (paths : list RoutePath) (bestPath : RoutePath) (maxAmountOut : num)
  : M (World H) message RoutePath :=
  match paths with
  | [] => ret bestPath
  | path :: rest =>
      quote <- testQuote H routerAddress path ;;
      match quote with
      | Some amountOut =>
          if (amountOut >? maxAmountOut)%num
          then selectBestPath H routerAddress rest path amountOut
          else selectBestPath H routerAddress rest bestPath maxAmountOut
      | None => selectBestPath H routerAddress rest bestPath maxAmountOut
      end
  end.

(** The loop that adds up the fee rates of the routers. *)
Fixpoint totalFeeRateOf (H : Host) (routerAddress : string)
  (routers : list Router) (totalFeeRate : num) : M (World H) message num :=
  match routers with
  | [] => ret totalFeeRate
  | router :: rest =>
      routerFeeRate <-
        try_catch
          (getCellanaFeeRate H routerAddress (poolAddress router))
          (fun _ => ret (ofZ 10)) ;;
      totalFeeRateOf H routerAddress rest (totalFeeRate + routerFeeRate)%num
  end.

(** [faAddress || tokenAddress], the alias of the native coin replaced
    by its coin type *)
Definition searchAddress (fa : string) (token : option string)
  : option string :=
  replaceOpt APT_ALIAS APT_COIN (HyperionAdapter.requestToken fa token).

Definition findPools (H : Host) (params : PoolSearchParams)
  : M (World H) message (list Pool) :=
  let d := sp_dex params in
  let addressIn :=
    searchAddress (sp_faAddressIn params) (sp_tokenAddressIn params) in
  let addressOut :=
    searchAddress (sp_faAddressOut params) (sp_tokenAddressOut params) in
  if negb (Str.truthy_opt addressIn) || negb (Str.truthy_opt addressOut)
  then ret []
  else
    let addressIn := Str.or_empty addressIn in
    let addressOut := Str.or_empty addressOut in
    try_catch
      (data <- router_post H ROUTER_URL addressIn addressOut ;;
       match reply_path data with
       | Some (first :: others) =>
           if negb (reply_code data =? 200) then ret []
           else
             bestPath <-
               selectBestPath H (methodAddress d) (first :: others) first
                 (ofZ 0) ;;
             totalFeeRate <-
               totalFeeRateOf H (methodAddress d) (path_routers bestPath)
                 (ofZ 0) ;;
             match path_routers bestPath with
             | [] => throw (TypeError "routers[0] is undefined")
             | firstRouter :: _ =>
                 ret [{| pool_id := Some (TRStr (poolAddress firstRouter));
                         dex := d;
                         tokenA := Some (TRStr addressIn);
                         tokenB := Some (TRStr addressOut);
                         estimatedOutput := None;
                         minAmountOut := None;
                         fee := Some totalFeeRate;
                         token_a := Some (TRStr addressIn);
                         token_b := Some (TRStr addressOut);
                         token_x := None; token_y := None;
                         fa_coin_x_metadata := None;
                         fa_coin_y_metadata := None;
                         fa_coin_x_address := None;
                         fa_coin_y_address := None;
                         routeType := Some "multi-hop";
                         routePath :=
                           Some (addressIn
                                 :: map wrapTo (path_routers bestPath));
                         routers := Some (path_routers bestPath) |}]
             end
       | _ => ret []
       end)
      (fun _ => ret []).

(** The two checks of [validateSlippage]; a number always has type
    ["number"]. *)
Definition validateSlippage (H : Host) (slippage : num)
  : outcome message unit :=
  if Num.isNaN slippage
  then Throw (Msg "Invalid slippage type: number. Slippage must be a number")
  else if (slippage <? Fin 0.1)%num || (slippage >? ofZ 50)%num
  then Throw (Msg ("Invalid slippage value: " ++ Number_toString H slippage
                   ++ "%. Slippage must be between 0.1% and 50%"))
  else Ok tt.

(** [typeof token === "string" && token.includes("::")] on a truthy
    token *)
Definition isCoinAddress (token : option tokref) : bool :=
  match token with
  | Some (TRStr s) => Str.truthy s && Str.includes s "::"
  | _ => false
  end.

Definition createSwapTransaction (H : Host) (params : SwapParams)
  (pool : Pool) : M (World H) message (SwapResult (Txn H)) :=
  let amountIn := sw_amountIn params in
  let slippage := sw_slippage params in
  let toAddress := sw_toAddress params in
  _ <- lift (validateSlippage H slippage) ;;
  let routerAddress := methodAddress (dex pool) in
  let routers :=
    match routers pool with
    | Some l => l
    | None => []
    end in
  match routers with
  | [] => throw (Msg "No routers found for Cellana pool")
  | _ :: _ =>
      let finalAddressIn :=
        orRef (token_a pool) (ofString (sw_tokenAddressIn params)) in
      let finalAddressOut :=
        orRef (token_b pool) (ofString (sw_tokenAddressOut params)) in
      estimation <- CellanaService.estimateAmountOut H pool amountIn ;;
      let calculatedAmountOut := est_estimatedOutput estimation in
      let minAmountOut := applySlippage calculatedAmountOut slippage in
      let coinAddresses := map wrapTo routers in
      let transactionStableFlags := map stable routers in
      let payload :=
        if isCoinAddress finalAddressIn && isCoinAddress finalAddressOut then
          {| sp_function :=
               routerAddress ++ "::router::swap_route_entry_both_coins";
             sp_typeArguments := [finalAddressIn; finalAddressOut];
             sp_functionArguments :=
               [SNumString amountIn; SNumString minAmountOut;
                SAddrs coinAddresses; SFlags transactionStableFlags;
                SAddr toAddress] |}
        else if isCoinAddress finalAddressIn then
          {| sp_function :=
               routerAddress ++ "::router::swap_route_entry_from_coin";
             sp_typeArguments := [finalAddressIn];
             sp_functionArguments :=
               [SNumString amountIn; SNumString minAmountOut;
                SAddrs coinAddresses; SFlags transactionStableFlags;
                SAddr toAddress] |}
        else if isCoinAddress finalAddressOut then
          {| sp_function :=
               routerAddress ++ "::router::swap_route_entry_to_coin";
             sp_typeArguments := [finalAddressOut];
             sp_functionArguments :=
               [SNumString amountIn; SNumString minAmountOut;
                SToken finalAddressIn; SAddrs coinAddresses;
                SFlags transactionStableFlags; SAddr toAddress] |}
        else
          {| sp_function := routerAddress ++ "::router::swap_route_entry";
             sp_typeArguments := [];
             sp_functionArguments :=
               [SNumString amountIn; SNumString minAmountOut;
                SToken finalAddressIn; SAddrs coinAddresses;
                SFlags transactionStableFlags; SAddr toAddress] |} in
      transaction <-
        build_swap H
          {| sb_sender := accountAddress (sw_account params);
             sb_data := payload;
             sb_maxGasAmount := APTOS_CONFIG_maxGasAmount;
             sb_gasUnitPrice := APTOS_CONFIG_gasUnitPrice |} ;;
      ret {| transaction := transaction;
             sr_estimatedOutput := calculatedAmountOut;
             sr_minAmountOut := minAmountOut |}
  end.

(** [(tokenAddress || faAddress)?.toLowerCase() || ""] *)
Definition requestAddress (token : option string) (fa : string) : string :=
  Str.toLowerCase (if Str.truthy_opt token then Str.or_empty token else fa).

Definition validatePool (pool : Pool) (params : PoolSearchParams)
  : outcome message bool :=
  match routers pool with
  | None | Some [] => Ok false
  | Some (_ :: _) =>
      match PancakeAdapter.lowerRef (tokenA pool) with
      | Throw e => Throw e
      | Ok tokenA =>
          match PancakeAdapter.lowerRef (tokenB pool) with
          | Throw e => Throw e
          | Ok tokenB =>
              let addressIn :=
                requestAddress (sp_tokenAddressIn params)
                  (sp_faAddressIn params) in
              let addressOut :=
                requestAddress (sp_tokenAddressOut params)
                  (sp_faAddressOut params) in
              Ok (((tokenA =? addressIn)%string
                   && (tokenB =? addressOut)%string)
                  || ((tokenA =? addressOut)%string
                      && (tokenB =? addressIn)%string))
          end
      end
  end.

End CellanaAdapter.

(** ** Builder dispatch ([IDEXService.createSwapTransaction] through
    [DEXFactory]) *)

Definition service_createSwapTransaction (H : Host) (s : Service)
  (params : SwapParams) (pool : Pool)
  : M (World H) message (SwapResult (Txn H)) :=
  match s with
  | Hyperion => HyperionAdapter.createSwapTransaction H params pool
  | PancakeSwap => PancakeAdapter.createSwapTransaction H params pool
  | Cellana => CellanaAdapter.createSwapTransaction H params pool
  end.

Definition service_validatePool (s : Service) (pool : Pool)
  (params : PoolSearchParams) : outcome message bool :=
  match s with
  | Hyperion => HyperionAdapter.validatePool pool params
  | PancakeSwap => PancakeAdapter.validatePool pool params
  | Cellana => CellanaAdapter.validatePool pool params
  end.

(** ** Token symbols (utils/tokens.utils.ts) *)

(** [assetType.split("::").pop()] *)
Definition lastSegment (assetType : string) : string :=
  last (HyperionService.splitColons assetType "") "".

Definition getTokenSymbol (assetType : string) : string :=
  match getTokenInfoByAssetType assetType with
  | Some token => ti_symbol token
  | None =>
      if Str.truthy (lastSegment assetType) then lastSegment assetType
      else "Unknown"
  end.

(** * Vocabulary for the adapters *)

Module CacheSpec.
Import PancakeAdapter.

(** The keys a clean-up at time [t] deletes. *)
Definition expiredAt (t : Z) (c : PairCache) : list string :=
  filter (fun key =>
            match lookup key c with
            | Some e => t - ce_timestamp e >=? PAIR_CACHE_DURATION
            | None => false
            end)
    (keys c).

(** What a cache read leaves of the cache: the cache itself, or the
    cache cleaned at some reading of the clock. *)
Definition maybeCleaned (H : Host) (c c' : PairCache) : Prop :=
  c' = c
  \/ exists w, c' = fold_left (fun c k => delete k c)
                      (expiredAt (fst (Date_now H w)) c) c.

(** Every entry of [c'] is an entry of [c]. *)
Definition within (c' c : PairCache) : Prop :=
  forall key e, lookup key c' = Some e -> lookup key c = Some e.

(** The state after a call that left the adapter and came back with
    world [w]. *)
Definition landed {H : Host} (s : State H) (w : World H) : State H :=
  {| memory := memory s; outside := w |}.

(** The state after storing [data] under [key], the clock being read in
    world [w]. *)
Definition stored {H : Host} (s : State H) (key : string)
  (data : CacheData) (w : World H) : State H :=
  {| memory :=
       {| pairCache :=
            assign key {| ce_data := data;
                          ce_timestamp := fst (Date_now H w) |}
              (pairCache (memory s));
          tokenListCache := tokenListCache (memory s) |};
     outside := snd (Date_now H w) |}.

(** The same reserves seen from the other side of the pair. *)
Definition mirrored (r : Reserves) : Reserves :=
  {| reserve_in := reserve_out r; reserve_out := reserve_in r |}.

(** The messages of a failed reserve lookup. *)
Definition reserve_failure (H : Host) (tokenA tokenB : string)
  (m : message) : Prop :=
  m = Msg ("TokenPairReserve not found for " ++ canonical tokenA
           ++ " <-> " ++ canonical tokenB
           ++ ". This pair might not exist on PancakeSwap.")
  \/ (exists status, m = Msg ("HTTP Error: "
                              ++ Number_toString H (ofZ status)))
  \/ m = Msg "Malformed TokenPairReserve resource: missing data"
  \/ m = Msg "Malformed TokenPairReserve resource: missing reserve_x or reserve_y"
  \/ exists e, m = External e.

(** The key under which the existence of a pair is cached. *)
Definition existsKey (resourceAccount tokenA tokenB : string) : string :=
  "exists_" ++ getPairCacheKey resourceAccount tokenA tokenB.

(** *** The clock readings of a cache read

    A cache read that starts in world [w] draws a random number; when
    the draw is below one tenth it cleans the cache, on a reading of
    the clock; when the key has an entry it then reads the clock once
    more, to judge the entry. *)

(** The draw is below one tenth: the clean-up runs. *)
Definition cleans (H : Host) (w : World H) : bool :=
  negb (Qle_bool 0.1 (fst (Math_random H w))).

(** The reading the clean-up takes. *)
Definition cleaningTime (H : Host) (w : World H) : Z :=
  fst (Date_now H (snd (Math_random H w))).

(** The world in which the entry is judged. *)
Definition judgingWorld (H : Host) (w : World H) : World H :=
  if cleans H w then snd (Date_now H (snd (Math_random H w)))
  else snd (Math_random H w).

(** The reading on which the entry is judged. *)
Definition judgingTime (H : Host) (w : World H) : Z :=
  fst (Date_now H (judgingWorld H w)).

(** The entry is less than thirty minutes old on the readings taken by
    a cache read that starts in [w]. *)
Definition fresh_at (H : Host) (w : World H) (e : CacheEntry) : Prop :=
  (cleans H w = true ->
   cleaningTime H w - ce_timestamp e < PAIR_CACHE_DURATION)
  /\ judgingTime H w - ce_timestamp e < PAIR_CACHE_DURATION.

(** The entry is thirty minutes old or older on one of these readings. *)
Definition stale_at (H : Host) (w : World H) (e : CacheEntry) : Prop :=
  (cleans H w = true
   /\ PAIR_CACHE_DURATION <= cleaningTime H w - ce_timestamp e)
  \/ PAIR_CACHE_DURATION <= judgingTime H w - ce_timestamp e.

(** The token-list entry of the native coin. *)
Definition isNative (token : Token) : bool :=
  (Str.toLowerCase (tk_address token) =? APT_COIN_LOWER)%string.

(** The two routes the search can find. *)
Definition directRoute (tokenIn tokenOut : string) : RouteInfo :=
  {| ri_type := "direct"; ri_path := [tokenIn; tokenOut];
     ri_estimatedOutput := ofZ 0 |}.

Definition doubleHop (tokenIn intermediate tokenOut : string) : RouteInfo :=
  {| ri_type := "doublehop";
     ri_path := [tokenIn; intermediate; tokenOut];
     ri_estimatedOutput := ofZ 0 |}.

(** A route from [tokenIn] to [tokenOut] as the search builds it:
    direct, or through one intermediate token different from both. *)
Definition route_between (tokenIn tokenOut : string) (r : RouteInfo)
  : Prop :=
  r = directRoute tokenIn tokenOut
  \/ exists intermediate,
       r = doubleHop tokenIn intermediate tokenOut
       /\ intermediate <> tokenIn /\ intermediate <> tokenOut.

End CacheSpec.

(** * A concrete host

    Instances of [Host] over the sample environment: a fixed draw of
    the random source, a network that answers from a table, and a
    clock that stands still ([host]) or moves with every reading
    ([tickingHost]). *)

Module SampleHost.

Record Net : Type := {
  clock : Z;
  draw : Q;
  resource : string -> outcome string ResourceResponse;
  tokenList : outcome string TokenListResponse;
  routerReply : outcome string RouterReply
}.

(** Decimal digits of a natural number, least significant first. *)
Fixpoint digitsOf (fuel n : nat) : list ascii :=
  match fuel with
  | O => []
  | S fuel' =>
      let d := ascii_of_nat (48 + Nat.modulo n 10) in
      if (n <? 10)%nat then [d] else d :: digitsOf fuel' (Nat.div n 10)
  end.

Definition showNat (n : nat) : string :=
  string_of_list_ascii (rev (digitsOf (S n) n)).

(** Template rendering of non-negative integers; other numbers are not
    needed by the examples. *)
Definition showNumber (n : num) : string :=
  match n with
  | Fin q => showNat (Z.to_nat (Qfloor q))
  | NaN => "NaN"
  end.

Definition host (sc : Sample.Scenario) (net : Net) : Host :=
  {| base := Sample.env sc;
     Date_now := fun w => (clock net, w);
     Math_random := fun w => (draw net, w);
     encodeURIComponent := fun s => s;
     Number_toString := showNumber;
     ext_fetch_resource := fun url => lift (resource net url);
     ext_fetch_token_list := fun _ => lift (tokenList net);
     ext_router_post := fun _ _ _ => lift (routerReply net);
     ext_build_swap := fun _ => ret tt |}.

(** The sample environment over a world that is the time of day, in
    milliseconds: its calls leave the time as it is. *)
Definition timeless {E A : Type} (c : M unit E A) : M Z E A :=
  fun t => (fst (c tt), t).

Definition timedEnv (sc : Sample.Scenario) : Env :=
  {| World := Z;
     Txn := unit;
     parseInt := parseInt (Sample.env sc);
     parseFloat := parseFloat (Sample.env sc);
     Number_of_string := Number_of_string (Sample.env sc);
     HYPERION := HYPERION (Sample.env sc);
     PANCAKESWAP := PANCAKESWAP (Sample.env sc);
     CELLANA := CELLANA (Sample.env sc);
     FIND_POOLS := FIND_POOLS (Sample.env sc);
     ext_getWallet := fun n => timeless (ext_getWallet (Sample.env sc) n);
     ext_accountFromPrivateKey :=
       ext_accountFromPrivateKey (Sample.env sc);
     ext_getAccountCoinsData :=
       fun a t => timeless (ext_getAccountCoinsData (Sample.env sc) a t);
     ext_build_simple :=
       fun r => timeless (ext_build_simple (Sample.env sc) r);
     ext_transferCoinTransaction :=
       fun r => timeless (ext_transferCoinTransaction (Sample.env sc) r);
     ext_simulate_simple :=
       fun k tx => timeless (ext_simulate_simple (Sample.env sc) k tx);
     ext_signAndSubmitTransaction :=
       fun a tx =>
         timeless (ext_signAndSubmitTransaction (Sample.env sc) a tx);
     ext_waitForTransaction :=
       fun h => timeless (ext_waitForTransaction (Sample.env sc) h);
     ext_view := fun p => timeless (ext_view (Sample.env sc) p);
     ext_view_pools := fun p => timeless (ext_view_pools (Sample.env sc) p);
     ext_getDexes := timeless (ext_getDexes (Sample.env sc));
     ext_pancake_findPools :=
       fun p => timeless (ext_pancake_findPools (Sample.env sc) p);
     ext_cellana_findPools :=
       fun p => timeless (ext_cellana_findPools (Sample.env sc) p);
     ext_pancake_getReserves :=
       fun r a b =>
         timeless (ext_pancake_getReserves (Sample.env sc) r a b);
     ext_createSwapTransaction :=
       fun s p pool =>
         timeless (ext_createSwapTransaction (Sample.env sc) s p pool);
     interrupt := fun r => timeless (interrupt (Sample.env sc) r) |}.

(** A host whose clock moves: every reading of the clock advances it by
    [step] milliseconds.  The network answers as [net] does. *)
Definition tickingHost (net : Net) (step : Z) : Host :=
  {| base := timedEnv (Sample.quiet 1500000000);
     Date_now := fun t => (t, t + step);
     Math_random := fun t => (draw net, t);
     encodeURIComponent := fun s => s;
     Number_toString := showNumber;
     ext_fetch_resource := fun url => timeless (lift (resource net url));
     ext_fetch_token_list := fun _ => timeless (lift (tokenList net));
     ext_router_post := fun _ _ _ => timeless (lift (routerReply net));
     ext_build_swap := fun _ => timeless (ret tt) |}.

(** A reserve resource holding [x] and [y]. *)
Definition reserves200 (x y : Z) : ResourceResponse :=
  {| rs_status := 200;
     rs_json := Ok (Some {| reserve_x := VNum (ofZ x);
                            reserve_y := VNum (ofZ y) |}) |}.

Definition notFound : ResourceResponse :=
  {| rs_status := 404; rs_json := Throw "no body" |}.

Definition token (address : string) : Token :=
  {| tk_address := address; tk_symbol := "" |}.

(** A network that knows the native coin and two assets, serves the
    reserves 1000 and 4000 for every pair, at noon with the random
    source drawing [dice]. *)
Definition net (dice : Q) : Net :=
  {| clock := 43200000;
     draw := dice;
     resource := fun _ => Ok (reserves200 1000 4000);
     tokenList :=
       Ok {| tl_ok := true;
             tl_json := Ok [token "0x1::aptos_coin::AptosCoin";
                            token "0xAAA"; token "0xbbb"] |};
     routerReply := Throw "no router" |}.

(** The same network without any pair. *)
Definition emptyNet (dice : Q) : Net :=
  {| clock := 43200000;
     draw := dice;
     resource := fun _ => Ok notFound;
     tokenList :=
       Ok {| tl_ok := true;
             tl_json := Ok [token "0x1::aptos_coin::AptosCoin";
                            token "0xAAA"; token "0xbbb"] |};
     routerReply := Throw "no router" |}.

Definition quietHost (n : Net) : Host := host (Sample.quiet 1500000000) n.

(** The same over the market scenario, whose quoting view answers
    [routerQuote]. *)
Definition marketHost (routerQuote : Z) (n : Net) : Host :=
  host (Market.scenario [] routerQuote None) n.

(** The adapter just loaded: nothing cached. *)
Definition fresh (n : Net) : PancakeAdapter.State (quietHost n) :=
  PancakeAdapter.Build_State (quietHost n)
    {| PancakeAdapter.pairCache := [];
       PancakeAdapter.tokenListCache := None |}
    tt.

(** The adapter just loaded on the ticking host, at the time the
    network's clock shows. *)
Definition started (n : Net) (step : Z)
  : PancakeAdapter.State (tickingHost n step) :=
  PancakeAdapter.Build_State (tickingHost n step)
    {| PancakeAdapter.pairCache := [];
       PancakeAdapter.tokenListCache := None |}
    (clock n).

(** The adapter holding one entry for [key], written at time [t]. *)
Definition holding (n : Net) (key : string)
  (data : PancakeAdapter.CacheData) (t : Z)
  : PancakeAdapter.State (quietHost n) :=
  PancakeAdapter.Build_State (quietHost n)
    {| PancakeAdapter.pairCache :=
         [(key, {| PancakeAdapter.ce_data := data;
                   PancakeAdapter.ce_timestamp := t |})];
       PancakeAdapter.tokenListCache := None |}
    tt.

(** A request to swap [amountIn] units of ["0xaaa"] for ["0xbbb"] with
    [slippage] percent of tolerance. *)
Definition request (amountIn slippage : Z) : SwapParams :=
  {| sw_account := {| accountAddress := "0xsender"; publicKey := "0xpub" |};
     sw_faAddressIn := "0xaaa";
     sw_faAddressOut := "0xbbb";
     sw_tokenAddressIn := Some "0xaaa";
     sw_tokenAddressOut := Some "0xbbb";
     sw_amountIn := ofZ amountIn;
     sw_slippage := ofZ slippage;
     sw_toAddress := "0xsender" |}.

(** A search by coin types only, and one by fungible-asset addresses
    only. *)
Definition searchByToken (d : DexInfo) (tokenIn tokenOut : string)
  : PoolSearchParams :=
  {| sp_dex := d;
     sp_faAddressIn := ""; sp_faAddressOut := "";
     sp_tokenAddressIn := Some tokenIn;
     sp_tokenAddressOut := Some tokenOut |}.

Definition searchByAsset (d : DexInfo) (faIn faOut : string)
  : PoolSearchParams :=
  {| sp_dex := d;
     sp_faAddressIn := faIn; sp_faAddressOut := faOut;
     sp_tokenAddressIn := None;
     sp_tokenAddressOut := None |}.

(** The sample network with a router service that knows one path of a
    single router from [wrapFrom] to [wrapTo]. *)
Definition routerNet (wrapFrom wrapTo : string) : Net :=
  {| clock := 43200000;
     draw := 1 # 2;
     resource := fun _ => Ok notFound;
     tokenList := Throw "no list";
     routerReply :=
       Ok {| reply_code := 200;
             reply_path :=
               Some [{| path_routers :=
                          [{| wrapFrom := wrapFrom; wrapTo := wrapTo;
                              stable := false;
                              poolAddress := "0xpool" |}] |}] |} |}.

End SampleHost.

(** * Vocabulary for the external router *)

(** The router service answered [data] when asked for a path from
    [addressIn] to [addressOut]. *)
Definition router_replied (H : Host) (addressIn addressOut : string)
  (data : RouterReply) : Prop :=
  exists w1 w2,
    ext_router_post H CellanaAdapter.ROUTER_URL addressIn addressOut w1
    = (Ok data, w2).

(** * Vocabulary for the builders *)

(** The ledger client built [tx] for the request [req]. *)
Definition built_from (H : Host) (tx : Txn H) (req : SwapBuildRequest)
  : Prop :=
  exists w1 w2, ext_build_swap H req w1 = (Ok tx, w2).

(** The request is sent by [params]'s account under the configured gas
    limits. *)
Definition configured_request (params : SwapParams)
  (req : SwapBuildRequest) : Prop :=
  sb_sender req = accountAddress (sw_account params)
  /\ sb_maxGasAmount req = ofZ 20000
  /\ sb_gasUnitPrice req = ofZ 100.

(** The search parameters with input and output exchanged. *)
Definition reversed (params : PoolSearchParams) : PoolSearchParams :=
  {| sp_dex := sp_dex params;
     sp_faAddressIn := sp_faAddressOut params;
     sp_faAddressOut := sp_faAddressIn params;
     sp_tokenAddressIn := sp_tokenAddressOut params;
     sp_tokenAddressOut := sp_tokenAddressIn params |}.

(** Slippage outside the range the external-router adapter accepts. *)
Definition slippage_out_of_range (s : num) : Prop :=
  s = NaN \/ exists q, s = Fin q /\ (q < 0.1 \/ 50 < q)%Q.

(** * Vocabulary for the workflows *)

(** The balance the first row shows; nothing when there is no row or
    the row has no amount. *)
Definition heldBalance (resources : list CoinData) : num :=
  match resources with
  | tokenData :: _ =>
      if amount_truthy tokenData then amount_number tokenData else ofZ 0
  | [] => ofZ 0
  end.

(** The user was shown [request] and answered [responses]. *)
Definition user_answered (E : Env) (request : InterruptRequest)
  (responses : list HumanResponse) : Prop :=
  exists w1 w2, interrupt E request w1 = (Ok responses, w2).

(** A transfer request that is refused before anything is looked up:
    no authenticated user, no recipient or no amount. *)
Definition refused_at_once (E : Env) (r : Transfer.TransferRequest)
  (config : RunnableConfig) (m : message) : Prop :=
  (Num.truthy (extractUserId E config) = false
   /\ m = Msg "User not authenticated - missing user identity in context")
  \/ (Num.truthy (extractUserId E config) = true
      /\ Transfer.toAddress r = ""
      /\ m = Msg "Invalid toAddress provided")
  \/ (Num.truthy (extractUserId E config) = true
      /\ Transfer.toAddress r <> ""
      /\ Transfer.amount r = ""
      /\ m = Msg "Invalid amount provided").

(** * Vocabulary for token symbols *)

(** The text contains the separator [::]. *)
Fixpoint has_separator (s : string) : bool :=
  match s with
  | EmptyString => false
  | String c rest =>
      match rest with
      | EmptyString => false
      | String d _ =>
          (Ascii.eqb c ":" && Ascii.eqb d ":") || has_separator rest
      end
  end.

(** The text ends with a colon. *)
Fixpoint ends_with_colon (s : string) : bool :=
  match s with
  | EmptyString => false
  | String c rest =>
      match rest with
      | EmptyString => Ascii.eqb c ":"
      | String _ _ => ends_with_colon rest
      end
  end.

(** [pieces] and [final] are what the separators of [text], taken from
    left to right, cut it into: joined by separators they give the text
    back, no piece contains a separator, and no piece that a separator
    follows ends with a colon (the separator would have begun one
    character earlier). *)
Definition cut_at_separators (text : string) (pieces : list string)
  (final : string) : Prop :=
  text = String.concat "::" (pieces ++ [final])
  /\ Forall (fun p => has_separator p = false
                      /\ ends_with_colon p = false) pieces
  /\ has_separator final = false.

(** ** Sample states of the workflows *)

Module SampleFlow.

(** The market state after the path-routed pool was chosen. *)
Definition chosen : SwapState :=
  {| phase := executing; request := Some Market.pairRequest;
     preparedTransaction := Some Market.prepared;
     pools := Some [Market.pancakePool];
     selectedPool := Some Market.pancakePool;
     result := None; error_ := None; swapTool := None |}.

End SampleFlow.
(** * Properties *)

(** ** Numbers *)

Section NumFacts.
Local Open Scope Q_scope.

Lemma Qle_bool_false (x y : Q) : Qle_bool x y = false <-> y < x.
Proof.
  split; intro H.
  - apply Qnot_le_lt. intro Hle. apply Qle_bool_iff in Hle. congruence.
  - destruct (Qle_bool x y) eqn:Hb; [|reflexivity].
    apply Qle_bool_iff in Hb. exfalso. exact (Qlt_not_le _ _ H Hb).
Qed.

Lemma le_Fin (x y : Q) : Num.le (Fin x) (Fin y) = true <-> x <= y.
Proof. simpl. apply Qle_bool_iff. Qed.

Lemma gt_Fin (x y : Q) : Num.gt (Fin x) (Fin y) = true <-> y < x.
Proof.
  unfold Num.gt, Num.lt. rewrite negb_true_iff. apply Qle_bool_false.
Qed.

Lemma gt_Fin_false (x y : Q) : Num.gt (Fin x) (Fin y) = false <-> x <= y.
Proof.
  unfold Num.gt, Num.lt. rewrite negb_false_iff. apply Qle_bool_iff.
Qed.

Lemma lt_Fin (x y : Q) : Num.lt (Fin x) (Fin y) = true <-> x < y.
Proof. unfold Num.lt. rewrite negb_true_iff. apply Qle_bool_false. Qed.


(** [Math.min(a, c)] never exceeds the finite bound [c]. *)
Lemma min_bounded (a : num) (c : Q) :
  Num.min a (Fin c) = NaN \/ exists q, Num.min a (Fin c) = Fin q /\ q <= c.
Proof.
  destruct a as [x|]; [right|left; reflexivity].
  simpl. destruct (Qle_bool x c) eqn:Hb.
  - exists x. split; [reflexivity|]. now apply Qle_bool_iff.
  - exists c. split; [reflexivity|]. apply Qle_refl.
Qed.

Lemma min_finite (x c : Q) :
  exists q, Num.min (Fin x) (Fin c) = Fin q /\ q <= c.
Proof.
  destruct (min_bounded (Fin x) c) as [H|H]; [|exact H].
  simpl in H. destruct (Qle_bool x c); discriminate.
Qed.

End NumFacts.

(** ** Monad *)

Section MonadFacts.
Context {W E : Type}.

Lemma bind_ok {A B} (c : M W E A) (k : A -> M W E B) {w a w'} :
  c w = (Ok a, w') -> bind c k w = k a w'.
Proof. intro H. unfold bind. now rewrite H. Qed.


Lemma bind_inv {A B} (c : M W E A) (k : A -> M W E B) w b w' :
  bind c k w = (Ok b, w') ->
  exists a w1, c w = (Ok a, w1) /\ k a w1 = (Ok b, w').
Proof.
  unfold bind. destruct (c w) as [[a|e] w1]; intro H; [|discriminate].
  now exists a, w1.
Qed.

Lemma total_ret {A} (a : A) : total (W:=W) (E:=E) (ret a).
Proof. intro w. now exists a, w. Qed.

Lemma total_try_catch {A} (c : M W E A) (h : E -> M W E A) :
  (forall e, total (h e)) -> total (try_catch c h).
Proof.
  intros Hh w. unfold try_catch.
  destruct (c w) as [[a|e] w1].
  - now exists a, w1.
  - apply Hh.
Qed.

Lemma total_bind {A B} (c : M W E A) (k : A -> M W E B) :
  total c -> (forall a, total (k a)) -> total (bind c k).
Proof.
  intros Hc Hk w. destruct (Hc w) as (a & w1 & Ha).
  rewrite (bind_ok c k Ha). apply Hk.
Qed.

Lemma total_mapM {A B} (f : A -> M W E B) (xs : list A) :
  (forall x, total (f x)) -> total (mapM f xs).
Proof.
  intro Hf. induction xs as [|x xs IH]; simpl.
  - apply total_ret.
  - apply total_bind; [apply Hf|]. intro y.
    apply total_bind; [exact IH|]. intro ys. apply total_ret.
Qed.


Lemma mapM_Threaded {A B} (f : A -> M W E B)
  (R : A -> W -> B -> W -> Prop) :
  (forall x w y w', f x w = (Ok y, w') -> R x w y w') ->
  forall xs w ys w', mapM f xs w = (Ok ys, w') -> Threaded R xs w ys w'.
Proof.
  intros HR. induction xs as [|x xs IH]; intros w ys w' H.
  - cbn in H. unfold ret in H. inversion H; subst. constructor.
  - cbn [mapM] in H. apply bind_inv in H. destruct H as (y & w1 & Hy & H).
    apply bind_inv in H. destruct H as (ys' & w2 & Hys & H).
    unfold ret in H. inversion H; subst; clear H.
    econstructor; [apply HR, Hy|apply IH, Hys].
Qed.

Lemma Threaded_mapM {A B} (f : A -> M W E B)
  (R : A -> W -> B -> W -> Prop) :
  (forall x w y w', R x w y w' -> f x w = (Ok y, w')) ->
  forall xs w ys w', Threaded R xs w ys w' -> mapM f xs w = (Ok ys, w').
Proof.
  intros HR xs w ys w' H. induction H; [reflexivity|].
  cbn [mapM]. rewrite (bind_ok _ _ (HR _ _ _ _ H)).
  now rewrite (bind_ok _ _ IHThreaded).
Qed.

Lemma Threaded_Forall2 {A B} (R : A -> W -> B -> W -> Prop)
  (P : A -> B -> Prop) :
  (forall x w y w', R x w y w' -> P x y) ->
  forall xs w ys w', Threaded R xs w ys w' -> Forall2 P xs ys.
Proof.
  intros HP xs w ys w' H. induction H; constructor; eauto.
Qed.

End MonadFacts.

Section UpFacts.
Context {W A : Type}.

Lemma up_ok (c : M W message A) {w a w'} :
  c w = (Ok a, w') -> up c w = (Ok a, w').
Proof. intro H. unfold up. now rewrite H. Qed.

Lemma up_throw (c : M W message A) {w m w'} :
  c w = (Throw m, w') -> up c w = (Throw (Error m), w').
Proof. intro H. unfold up. now rewrite H. Qed.

Lemma up_inv (c : M W message A) w a w' :
  up c w = (Ok a, w') -> c w = (Ok a, w').
Proof.
  unfold up. destruct (c w) as [[x|m] w1]; intro H; inversion H; reflexivity.
Qed.

End UpFacts.

(** ** Ranking *)

Section Ranking.
Local Open Scope Q_scope.

Lemma outputOf_outQ (p : Pool) : outputOf p = Fin (outQ p).
Proof.
  unfold outQ, outputOf, Num.or_else.
  destruct (estimatedOutput p) as [[x|]|]; simpl; try reflexivity.
  destruct (negb (Qeq_bool x 0)); reflexivity.
Qed.

Lemma gt_outputOf (a b : Pool) :
  Num.gt (outputOf a) (outputOf b) = true <-> outQ b < outQ a.
Proof. rewrite !outputOf_outQ. apply gt_Fin. Qed.

Lemma gt_outputOf_false (a b : Pool) :
  Num.gt (outputOf a) (outputOf b) = false <-> outQ a <= outQ b.
Proof. rewrite !outputOf_outQ. apply gt_Fin_false. Qed.

Lemma positive_outQ (p : Pool) :
  Num.gt (outputOf p) (ofZ 0) = true <-> 0 < outQ p.
Proof. rewrite outputOf_outQ. unfold ofZ. apply gt_Fin. Qed.

Lemma insertDesc_perm key x l : Permutation (insertDesc key x l) (x :: l).
Proof.
  induction l as [|y l IH]; simpl; [reflexivity|].
  destruct (Num.gt (key y) (key x)); [|reflexivity].
  rewrite IH. apply perm_swap.
Qed.

Lemma sortDesc_perm key l : Permutation (sortDesc key l) l.
Proof.
  induction l as [|x l IH]; simpl; [reflexivity|].
  rewrite insertDesc_perm. now constructor.
Qed.

Lemma insertDesc_sorted x l :
  descending l -> descending (insertDesc outputOf x l).
Proof.
  unfold descending. induction 1 as [|y l Hs IH Hy]; simpl.
  - constructor; constructor.
  - destruct (Num.gt (outputOf y) (outputOf x)) eqn:Hg.
    + apply gt_outputOf in Hg. constructor; [exact IH|].
      rewrite (insertDesc_perm outputOf x l).
      constructor; [now apply Qlt_le_weak|exact Hy].
    + apply gt_outputOf_false in Hg.
      constructor; [constructor; assumption|].
      constructor; [exact Hg|].
      eapply Forall_impl; [|exact Hy]. intros z Hz. simpl in Hz.
      eapply Qle_trans; eassumption.
Qed.

Lemma sortDesc_sorted l : descending (sortDesc outputOf l).
Proof.
  induction l as [|x l IH]; simpl; [constructor|].
  now apply insertDesc_sorted.
Qed.

Lemma In_firstn {A} (x : A) n l : In x (firstn n l) -> In x l.
Proof.
  revert n. induction l as [|y l IH]; intros [|n]; simpl; try tauto.
  intros [H|H]; [now left|right; eauto].
Qed.

Lemma Forall_firstn {A} (P : A -> Prop) n l :
  Forall P l -> Forall P (firstn n l).
Proof.
  rewrite !Forall_forall. intros H x Hx. apply H. eapply In_firstn, Hx.
Qed.

Lemma firstn_length_le {A} n (l : list A) : (length (firstn n l) <= n)%nat.
Proof.
  revert n. induction l as [|y l IH]; intros [|n]; simpl; try lia.
  specialize (IH n). lia.
Qed.

Lemma descending_firstn n l : descending l -> descending (firstn n l).
Proof.
  unfold descending. intro H. revert n.
  induction H as [|x l Hs IH Hx]; intros [|n]; simpl; try constructor.
  - apply IH.
  - now apply Forall_firstn.
Qed.

(** What a sorted list leaves out of its first [n] elements is matched
    or beaten by each of them, and there are [n] of them. *)
Lemma firstn_dominates n l p :
  descending l -> In p l ->
  In p (firstn n l)
  \/ (length (firstn n l) = n
      /\ Forall (fun r => outQ p <= outQ r) (firstn n l)).
Proof.
  unfold descending. intro H. revert n.
  induction H as [|x l Hs IH Hx]; intros n Hin; [destruct Hin|].
  destruct n as [|n]; simpl; [right; split; [reflexivity|constructor]|].
  destruct Hin as [->|Hin]; [now left; left|].
  destruct (IH n Hin) as [Hl|[Hlen Hall]]; [now left; right|].
  right. split; [now rewrite Hlen|].
  constructor; [|exact Hall].
  rewrite Forall_forall in Hx. now apply Hx.
Qed.

Lemma filter_perm {A} (f : A -> bool) l l' :
  Permutation l l' -> Permutation (filter f l) (filter f l').
Proof.
  induction 1 as [|x l l' H IH|x y l|l l' l'' H1 IH1 H2 IH2]; simpl.
  - constructor.
  - destruct (f x); [now constructor|exact IH].
  - destruct (f x), (f y); try reflexivity. apply perm_swap.
  - now transitivity (filter f l').
Qed.

Lemma concat_perm {A} (ls ls' : list (list A)) :
  Permutation ls ls' -> Permutation (concat ls) (concat ls').
Proof.
  induction 1 as [|x l l' H IH|x y l|l l' l'' H1 IH1 H2 IH2]; simpl.
  - constructor.
  - now apply Permutation_app_head.
  - rewrite !app_assoc. apply Permutation_app_tail, Permutation_app_comm.
  - now transitivity (concat l').
Qed.

(** Two best-first lists with the same elements are the same list, as
    soon as equal quotes mean equal pools. *)
Lemma descending_unique l1 l2 :
  descending l1 -> descending l2 -> Permutation l1 l2 ->
  (forall a b, In a l1 -> In b l1 -> outQ a == outQ b -> a = b) ->
  l1 = l2.
Proof.
  unfold descending. intro H1. revert l2.
  induction H1 as [|a l1 Hs1 IH Ha]; intros l2 H2 Hp Hinj.
  - apply Permutation_nil in Hp. now subst.
  - destruct l2 as [|b l2];
      [apply Permutation_sym, Permutation_nil in Hp; discriminate|].
    apply StronglySorted_inv in H2. destruct H2 as [Hs2 Hb].
    assert (Hab : a = b).
    { assert (Hina : In a (b :: l2))
        by (eapply Permutation_in; [exact Hp|now left]).
      assert (Hinb : In b (a :: l1))
        by (eapply Permutation_in; [apply Permutation_sym, Hp|now left]).
      destruct Hina as [Heq|Hina]; [now subst|].
      destruct Hinb as [Heq|Hinb]; [now subst|].
      rewrite Forall_forall in Ha, Hb.
      apply Hinj; [now left|now right|].
      apply Qle_antisym; [apply Hb, Hina|apply Ha, Hinb]. }
    subst b. f_equal. apply IH; [exact Hs2| |].
    + eapply Permutation_cons_inv, Hp.
    + intros x y Hx Hy. apply Hinj; now right.
Qed.

(** Ranking does not depend on the order in which the quoted pools
    arrive, when quotes determine pools. *)
Lemma rankPools_perm l1 l2 :
  Permutation l1 l2 -> distinct_quotes l1 -> rankPools l1 = rankPools l2.
Proof.
  intros Hp Hd. unfold rankPools. f_equal.
  set (pos := fun pool : Pool => Num.gt (outputOf pool) (ofZ 0)).
  apply descending_unique.
  - apply sortDesc_sorted.
  - apply sortDesc_sorted.
  - rewrite !sortDesc_perm. now apply filter_perm.
  - intros a b Ha Hb. 
    apply (Permutation_in _ (sortDesc_perm outputOf _)) in Ha, Hb.
    apply filter_In in Ha, Hb. destruct Ha as [Ha Hpa], Hb as [Hb Hpb].
    apply positive_outQ in Hpa, Hpb. now apply Hd.
Qed.

Lemma rankPools_incl quoted p : In p (rankPools quoted) -> In p quoted.
Proof.
  unfold rankPools. intro H. apply In_firstn in H.
  apply (Permutation_in _ (sortDesc_perm outputOf _)) in H.
  now apply filter_In in H.
Qed.

Lemma rankPools_positive quoted :
  Forall (fun p => 0 < outQ p) (rankPools quoted).
Proof.
  unfold rankPools. apply Forall_firstn. rewrite Forall_forall. intros p H.
  apply (Permutation_in _ (sortDesc_perm outputOf _)) in H.
  apply filter_In in H. now apply positive_outQ.
Qed.

Lemma rankPools_descending quoted : descending (rankPools quoted).
Proof. apply descending_firstn, sortDesc_sorted. Qed.

Lemma rankPools_length quoted : (length (rankPools quoted) <= 5)%nat.
Proof. apply firstn_length_le. Qed.

(** A quoted pool with a positive quote is a candidate, unless five
    candidates quoted at least as well stand before it. *)
Lemma rankPools_top quoted p :
  In p quoted -> 0 < outQ p ->
  In p (rankPools quoted)
  \/ (length (rankPools quoted) = 5%nat
      /\ Forall (fun r => outQ p <= outQ r) (rankPools quoted)).
Proof.
  intros Hin Hpos. unfold rankPools. apply firstn_dominates.
  - apply sortDesc_sorted.
  - apply (Permutation_in _ (Permutation_sym (sortDesc_perm outputOf _))).
    apply filter_In. split; [exact Hin|now apply positive_outQ].
Qed.

(** The sort is stable: pools quoted alike stay in the order they had. *)
Lemma insertDesc_stable v x l :
  filter (quotedAt v) (insertDesc outputOf x l)
  = filter (quotedAt v) (x :: l).
Proof.
  induction l as [|y l IH]; [reflexivity|]. cbn [insertDesc].
  destruct (Num.gt (outputOf y) (outputOf x)) eqn:Hg; [|reflexivity].
  apply gt_outputOf in Hg. cbn [filter] in *. rewrite IH.
  unfold quotedAt.
  destruct (Qeq_bool (outQ y) v) eqn:Hy; [|reflexivity].
  destruct (Qeq_bool (outQ x) v) eqn:Hx; [|reflexivity].
  apply Qeq_bool_iff in Hy, Hx. rewrite Hy, Hx in Hg.
  now apply Qlt_irrefl in Hg.
Qed.

Lemma sortDesc_stable v l :
  filter (quotedAt v) (sortDesc outputOf l) = filter (quotedAt v) l.
Proof.
  induction l as [|x l IH]; [reflexivity|].
  cbn [sortDesc fold_right]. rewrite insertDesc_stable.
  cbn [filter]. fold (sortDesc outputOf l). now rewrite IH.
Qed.

Lemma filter_positive_quotedAt v l :
  0 < v ->
  filter (quotedAt v)
    (filter (fun pool => Num.gt (outputOf pool) (ofZ 0)) l)
  = filter (quotedAt v) l.
Proof.
  intro Hv. induction l as [|x l IH]; [reflexivity|]. cbn [filter].
  destruct (Num.gt (outputOf x) (ofZ 0)) eqn:Hg.
  - cbn [filter]. now rewrite IH.
  - rewrite IH. unfold quotedAt at 2.
    destruct (Qeq_bool (outQ x) v) eqn:Hx; [|reflexivity].
    apply Qeq_bool_iff in Hx.
    assert (Hp : Num.gt (outputOf x) (ofZ 0) = true).
    { apply positive_outQ. now rewrite Hx. }
    congruence.
Qed.

Lemma filter_firstn_prefix {A} (f : A -> bool) n l :
  exists rest, filter f l = (filter f (firstn n l) ++ rest)%list.
Proof.
  exists (filter f (skipn n l)).
  rewrite <- filter_app. now rewrite firstn_skipn.
Qed.

(** Among the pools quoted [v], the candidates are the first ones, in
    the order of the quoted list. *)
Lemma rankPools_stable v quoted :
  0 < v ->
  exists rest,
    filter (quotedAt v) quoted
    = (filter (quotedAt v) (rankPools quoted) ++ rest)%list.
Proof.
  intro Hv. unfold rankPools.
  destruct (filter_firstn_prefix (quotedAt v) 5
              (sortDesc outputOf
                 (filter (fun pool => Num.gt (outputOf pool) (ofZ 0)) quoted)))
    as [rest Hrest].
  exists rest. rewrite <- Hrest, sortDesc_stable.
  symmetry. now apply filter_positive_quotedAt.
Qed.

Lemma Forall_rankPools (P : Pool -> Prop) quoted :
  Forall P quoted -> Forall P (rankPools quoted).
Proof.
  rewrite !Forall_forall. intros H p Hp. apply H, rankPools_incl, Hp.
Qed.

End Ranking.
(** ** Constant-product quote of the path-routed adapter *)

Section ConstantProduct.
Local Open Scope Q_scope.




(** Double precision shows in the quote: 100000000 in with reserves
    239400000000 and 93639000000 is quoted 38999999, one short of the
    formula taken in exact arithmetic, whose quotient is 39000000. *)
Lemma getAmountOut_below_exact_formula :
  PancakeMath.getAmountOut (ofZ 100000000) (ofZ 239400000000)
    (ofZ 93639000000)
  = Ok (ofZ 38999999)
  /\ Qfloor (100000000 * (1 - 0.0025) * 93639000000
             / (239400000000 + 100000000 * (1 - 0.0025)))
     = 39000000%Z.
Proof. split; vm_compute; reflexivity. Qed.

End ConstantProduct.


(** ** Gas estimates *)

Section GasCaps.
Variable E : Env.

Lemma default_gas_capped :
  capped {| totalGasCostInAPT := Fin 0.005; maxGasCostInAPT := Fin 0.01 |}.
Proof. split; eexists; (split; [reflexivity|]); discriminate. Qed.

Lemma capped_bounded (g : GasEstimation) : capped g -> bounded g.
Proof. intros [H1 H2]. split; right; assumption. Qed.

Lemma min_bounded_cost (a : num) (c : Q) : bounded_cost (Num.min a (Fin c)) c.
Proof.
  destruct (min_bounded a c) as [H|H]; [left|right]; exact H.
Qed.

(** The baseline estimate never fails. *)
Lemma getNetworkGasEstimation_total (account : Account) :
  total (getNetworkGasEstimation E account).
Proof.
  apply total_try_catch. intro e. apply total_ret.
Qed.

(** The baseline estimate of the swap workflow is under the caps, whatever
    the simulator reports. *)
Lemma getNetworkGasEstimation_bounded (account : Account) w g w' :
  getNetworkGasEstimation E account w = (Ok g, w') -> bounded g.
Proof.
  unfold getNetworkGasEstimation, try_catch, bind.
  destruct (build_simple E _ w) as [[tx|e] w1].
  - destruct (simulate_simple E _ tx w1) as [[[|sim sims]|e] w2];
      unfold throw, ret; intro H; inversion H; subst; clear H.
    + apply capped_bounded, default_gas_capped.
    + split; apply min_bounded_cost.
    + apply capped_bounded, default_gas_capped.
  - unfold ret. intro H. inversion H. apply capped_bounded, default_gas_capped.
Qed.

(** The estimate for the selected pool never fails. *)
Lemma estimateSwapGas_total account fi fo ti to amt ps :
  total (estimateSwapGas E account fi fo ti to amt ps).
Proof.
  destruct ps as [|p ps]; simpl.
  - apply getNetworkGasEstimation_total.
  - apply total_try_catch. intro e. apply getNetworkGasEstimation_total.
Qed.

(** The estimate for the selected pool is under the caps as well. *)
Lemma estimateSwapGas_bounded account fi fo ti to amt ps w g w' :
  estimateSwapGas E account fi fo ti to amt ps w = (Ok g, w') -> bounded g.
Proof.
  destruct ps as [|p ps]; simpl.
  - apply getNetworkGasEstimation_bounded.
  - unfold try_catch, bind, lift.
    destruct (getService E (name (dex p))) as [svc|e].
    + destruct (createSwapTransaction E svc _ p w) as [[res|e] w1].
      * destruct (simulate_simple E _ _ w1) as [[[|sim sims]|e] w2];
          unfold throw, ret.
        -- apply getNetworkGasEstimation_bounded.
        -- intro H. inversion H. split; apply min_bounded_cost.
        -- apply getNetworkGasEstimation_bounded.
      * apply getNetworkGasEstimation_bounded.
    + apply getNetworkGasEstimation_bounded.
Qed.

(** With a simulator that reports integers, both swap estimates are
    numbers under the caps. *)
Lemma min_of_integers (x y : Z) (c : Q) :
  within_cap (Num.min ((ofZ x * ofZ y) / OCTAS_PER_APT)%num (Fin c)) c.
Proof.
  unfold ofZ, OCTAS_PER_APT, Num.mul, Num.div, Num.lift2.
  change (Qeq_bool (inject_Z 100000000) 0) with false. cbv iota.
  apply min_finite.
Qed.

Lemma min_ofZ (x y : Z) : exists z, Num.min (ofZ x) (ofZ y) = ofZ z.
Proof.
  unfold Num.min, ofZ. destruct (Qle_bool _ _); eexists; reflexivity.
Qed.

Lemma ceil_scaled (x : Z) (c : Q) : exists z, Num.ceil (ofZ x * Fin c)%num = ofZ z.
Proof. unfold ofZ, Num.mul, Num.lift2, Num.ceil. eexists. reflexivity. Qed.

Lemma getNetworkGasEstimation_capped (account : Account) w g w' :
  parses_integers E ->
  getNetworkGasEstimation E account w = (Ok g, w') -> capped g.
Proof.
  intro Hint. unfold getNetworkGasEstimation, try_catch, bind.
  destruct (build_simple E _ w) as [[tx|e] w1].
  - destruct (simulate_simple E _ tx w1) as [[[|sim sims]|e] w2];
      unfold throw, ret; intro H; inversion H; subst; clear H;
      try apply default_gas_capped.
    destruct (Hint (gas_unit_price sim)) as (p & ->).
    destruct (Hint (gas_used sim)) as (u & ->).
    destruct (Hint (max_gas_amount sim)) as (m & ->).
    split; cbn [totalGasCostInAPT maxGasCostInAPT].
    + apply min_of_integers.
    + destruct (ceil_scaled m 1.2) as (z & ->).
      destruct (min_ofZ z 50000) as (z' & ->).
      apply min_of_integers.
  - unfold ret. intro H. inversion H. apply default_gas_capped.
Qed.

Lemma estimateSwapGas_capped account fi fo ti to amt ps w g w' :
  parses_integers E ->
  estimateSwapGas E account fi fo ti to amt ps w = (Ok g, w') -> capped g.
Proof.
  intro Hint. destruct ps as [|p ps]; simpl.
  - now apply getNetworkGasEstimation_capped.
  - unfold try_catch, bind, lift.
    destruct (getService E (name (dex p))) as [svc|e].
    + destruct (createSwapTransaction E svc _ p w) as [[res|e] w1].
      * destruct (simulate_simple E _ _ w1) as [[[|sim sims]|e] w2];
          unfold throw, ret.
        -- now apply getNetworkGasEstimation_capped.
        -- intro H. inversion H.
           destruct (Hint (gas_unit_price sim)) as (pr & ->).
           destruct (Hint (gas_used sim)) as (u & ->).
           destruct (Hint (max_gas_amount sim)) as (m & ->).
           split; apply min_of_integers.
        -- now apply getNetworkGasEstimation_capped.
      * now apply getNetworkGasEstimation_capped.
    + now apply getNetworkGasEstimation_capped.
Qed.

End GasCaps.

(** The transfer workflow reports what the simulator says, unclamped. *)
Lemma prepareTransfer_gas_unclamped (E : Env) st cfg w s w' p :
  Transfer.prepareTransfer E st cfg w = (Ok s, w') ->
  Transfer.preparedTransaction s = Some p ->
  exists sim,
    totalGasCostInAPT (Transfer.gasEstimation p)
    = ((parseInt E (gas_unit_price sim) * parseInt E (gas_used sim))
       / OCTAS_PER_APT)%num
    /\ maxGasCostInAPT (Transfer.gasEstimation p)
       = ((parseInt E (gas_unit_price sim) * parseInt E (max_gas_amount sim))
          / OCTAS_PER_APT)%num.
Proof.
  unfold Transfer.prepareTransfer.
  destruct (negb (Num.truthy _)); [discriminate|].
  destruct (negb (Str.truthy _)); [discriminate|].
  destruct (negb (Str.truthy _)); [discriminate|].
  unfold bind at 1. destruct (getWallet E _ w) as [[wal|e] w1]; [|discriminate].
  destruct (negb (wallet_usable wal)); [discriminate|].
  unfold bind at 1, lift. destruct (accountOf E wal) as [acct|e]; [|discriminate].
  unfold bind at 1.
  destruct (getAccountCoinsData E _ _ w1) as [[[|coin rest]|e] w2];
    try discriminate.
  destruct (negb (amount_truthy coin)); [discriminate|].
  destruct (Num.gt _ _); [discriminate|].
  unfold bind at 1.
  destruct (Transfer.createTransferTransaction E _ _ _ _ _ w2)
    as [[tx|e] w3]; [|discriminate].
  unfold bind.
  destruct (simulate_simple E _ tx w3) as [[[|sim sims]|e] w4];
    try discriminate.
  unfold ret. intros H Hp. inversion H; subst; clear H. simpl in Hp.
  inversion Hp; subst; clear Hp. exists sim. simpl. split; reflexivity.
Qed.

(** C1.  The transfer workflow's preparation estimate is not clamped: with
    a simulator reporting unit price 1000, 6000 units used and a 20000
    unit maximum, preparation succeeds and carries a total cost of 0.06
    and a maximum cost of 0.2 native units, above the 0.05 and 0.1 caps
    that both swap estimates respect. *)
Theorem transfer_gas_estimate_exceeds_caps :
  exists s p,
    Transfer.prepareTransferNode (Sample.env greedySimulator)
      (Transfer.initialState (sampleTransfer "1")) Sample.config tt
    = (Ok s, tt)
    /\ Transfer.phase s = Transfer.confirming
    /\ Transfer.preparedTransaction s = Some p
    /\ is_value (totalGasCostInAPT (Transfer.gasEstimation p)) 0.06
    /\ is_value (maxGasCostInAPT (Transfer.gasEstimation p)) 0.2
    /\ ~ within_cap (totalGasCostInAPT (Transfer.gasEstimation p)) 0.05
    /\ ~ within_cap (maxGasCostInAPT (Transfer.gasEstimation p)) 0.1.
Proof.
  eexists. eexists.
  split; [vm_compute; reflexivity|].
  split; [reflexivity|]. split; [reflexivity|].
  split; [eexists; split; [vm_compute; reflexivity|reflexivity]|].
  split; [eexists; split; [vm_compute; reflexivity|reflexivity]|].
  split; intros (q & Hq & Hle); vm_compute in Hq; inversion Hq; subst;
    apply Hle; reflexivity.
Qed.

(** ** Swap preparation *)

Section SwapPreparation.
Variable E : Env.
Local Open Scope Q_scope.





End SwapPreparation.

(** Double precision shows in the scaled amount.  The number
    112590007572761/2^50, the double nearest to 0.100000015, at 8
    decimals is prepared as 10000002, where its exact product rounds to
    10000001; the text "0.0001245" at 6 decimals is prepared as 124,
    where the exact product of the decimal rounds to 125. *)
Lemma scaled_amount_is_not_exact_rounding :
  let x := 112590007572761 # 1125899906842624 in
  let wallet d :=
    {| balance := ofZ 1500000000; decimals := d;
       tokenData := Sample.aptCoin 1500000000 |} in
  validateSwapAmount (Sample.env (Sample.quiet 1500000000))
    (inr (Fin x)) (wallet 8%nat)
  = Ok (ofZ 10000002)
  /\ Qfloor (x * inject_Z (10 ^ 8) + (1 # 2)) = 10000001%Z
  /\ validateSwapAmount (Sample.env (Sample.quiet 1500000000))
       (inl "0.0001245") (wallet 6%nat)
     = Ok (ofZ 124)
  /\ (exists q,
        parseFloat (Sample.env (Sample.quiet 1500000000)) "0.0001245"
        = Fin q
        /\ q == 0.0001245
        /\ Qfloor (q * inject_Z (10 ^ 6) + (1 # 2)) = 125%Z).
Proof.
  split; [vm_compute; reflexivity|]. split; [vm_compute; reflexivity|].
  split; [vm_compute; reflexivity|].
  eexists. split; [vm_compute; reflexivity|].
  split; vm_compute; reflexivity.
Qed.



(** ** Transfer preparation: the balance check *)

Section ExternalErrors.
Context {W A : Type}.


End ExternalErrors.

Section TransferBalance.
Variable E : Env.



End TransferBalance.


(** In that run the prepared amount exceeds the balance it was never
    compared with. *)
Example transfer_amount_above_balance :
  ((Sample.decimalFloat "2" * pow10 8) >? ofZ 100)%num = true
  /\ (Sample.decimalFloat "2" >? ofZ 100)%num = false.
Proof. split; reflexivity. Qed.

(** ** Quoting and aggregation *)

Section Aggregation.
Variable E : Env.
Local Open Scope Q_scope.

Lemma requote_total amt sv p : total (requote E amt sv p).
Proof. apply total_try_catch. intro e. apply total_ret. Qed.


(** The same turn, at the worlds of the loop. *)
Lemma requote_requotedIn amt sv p w p' w' :
  requote E amt sv p w = (Ok p', w') -> requotedIn E amt sv p w p' w'.
Proof.
  unfold requote, try_catch, bind, lift, ret.
  destruct (getService E (name (dex p))) as [svc|m] eqn:Hsvc.
  - destruct (service_estimateAmountOut E svc p amt w) as [[est|m] w1] eqn:He;
      intro H; inversion H; subst; clear H.
    + left. exists svc, est. repeat split; assumption.
    + right. split; [reflexivity|]. right. exists svc, m. now split.
  - intro H. inversion H; subst. right. split; [reflexivity|].
    left. now exists m.
Qed.



(** A pool whose quote failed quotes nothing. *)
Lemma discoveredIn_poolsOfDex req d w found w' :
  discoveredIn E req d w found w' -> poolsOfDex E req d w = (Ok found, w').
Proof.
  unfold poolsOfDex, discoveredIn, try_catch, bind, lift, ret.
  intros [(Hs & -> & ->)|(Hs & H)]; rewrite Hs; cbn [negb]; [reflexivity|].
  destruct H as [(svc & Hsvc & _ & _ & _ & Hf)
                |(-> & [(m & Hsvc & ->)|(svc & m & Hsvc & Hf)])];
    rewrite Hsvc; [now rewrite Hf|reflexivity|now rewrite Hf].
Qed.


(** One turn of the discovery loop. *)
Lemma poolsOfDex_discoveredIn req d w found w' :
  poolsOfDex E req d w = (Ok found, w') -> discoveredIn E req d w found w'.
Proof.
  unfold poolsOfDex, discoveredIn.
  destruct (isSupported E (name d)); cbn [negb].
  - unfold try_catch, bind, lift, ret. intro H. right. split; [reflexivity|].
    destruct (getService E (name d)) as [svc|m] eqn:Hsvc.
    + destruct (service_findPools E svc (searchParams req d) w)
        as [[l|m] w1] eqn:Hf; inversion H; subst; clear H.
      * left. exists svc. repeat split. exact Hf.
      * right. split; [reflexivity|]. right. exists svc, m. now split.
    + inversion H; subst. right. split; [reflexivity|]. left. now exists m.
  - unfold ret. intro H. inversion H; subst. left. repeat split.
Qed.

Lemma aggregate_inv req prepared w ranked w' :
  aggregate E req prepared w = (Ok ranked, w') ->
  exists dexes w1 allPools w2 filtered quoted,
    getDexes E w = (Ok dexes, w1)
    /\ collectPools E req dexes w1 = (Ok allPools, w2)
    /\ filterPools E (Some req) allPools = Ok filtered
    /\ mapM (requote E (swapAmount prepared) (slippageValueOf req))
         filtered w2 = (Ok quoted, w')
    /\ ranked = rankPools quoted.
Proof.
  unfold aggregate. intro H.
  apply bind_inv in H. destruct H as (dexes & w1 & Hd & H).
  apply bind_inv in H. destruct H as (allPools & w2 & Hc & H).
  apply bind_inv in H. destruct H as (filtered & w3 & Hf & H).
  apply bind_inv in H. destruct H as (quoted & w4 & Hq & H).
  unfold ret in H. inversion H; subst; clear H.
  unfold lift in Hf.
  destruct (filterPools E (Some req) allPools) as [f|m] eqn:Hfp;
    inversion Hf; subst; clear Hf.
  exists dexes, w1, allPools, w3, filtered, quoted. repeat split; assumption.
Qed.


Lemma filterPools_nil req : filterPools E req [] = Ok [].
Proof. reflexivity. Qed.

(** The node turns every error into an [error] state: all it can throw
    is the suspension signal. *)
Lemma findPoolNode_never_crashes state cfg w m w' :
  findPoolNode E state cfg w <> (Throw (Error m), w').
Proof.
  unfold findPoolNode.
  destruct (poolsNonEmpty (swapState state) && _); [discriminate|].
  unfold try_catch.
  destruct (findPoolBody E state cfg w) as [[s|[m0|r]] w1]; discriminate.
Qed.

(** C4.  Pool aggregation reads the catalogue, asks each supported
    entry's adapter in catalogue order for the pools of the request's
    pair (an adapter that fails contributes none), and filters what was
    found by the token pair.  Every pool that survives the filter is
    quoted again, in order, by its adapter for the prepared swap amount
    (a failing quote counts as zero); the candidates are the quoted
    pools with a positive quote, best first, five at most: a pool with
    a positive quote is left out only when five candidates quoted at
    least as well stand before it.  When no candidate remains, as when
    no adapter lists the pair, the node ends in phase [error] with the
    no-pools message; it throws no error of its own. *)
Theorem aggregation_ranks_requoted_pools state cfg prepared req :
  preparedTransaction (swapState state) = Some prepared ->
  request (swapState state) = Some req ->
  (forall w ranked w',
     aggregate E req prepared w = (Ok ranked, w') ->
     exists dexes w1 found w2 filtered quoted,
       getDexes E w = (Ok dexes, w1)
       /\ Threaded (discoveredIn E req) dexes w1 found w2
       /\ filterPools E (Some req) (concat found) = Ok filtered
       /\ Threaded
            (requotedIn E (swapAmount prepared) (slippageValueOf req))
            filtered w2 quoted w'
       /\ ranked = rankPools quoted
       /\ Forall (fun p => 0 < outQ p) ranked
       /\ descending ranked
       /\ (length ranked <= 5)%nat
       /\ (forall p, In p ranked -> In p quoted)
       /\ (forall p, In p quoted -> 0 < outQ p ->
             In p ranked
             \/ (length ranked = 5%nat
                 /\ Forall (fun r => outQ p <= outQ r) ranked)))
  /\ (forall w w',
        poolsNonEmpty (swapState state)
        && is_cancelled (earlyResolution cfg (messages state)) = false ->
        aggregate E req prepared w = (Ok [], w') ->
        findPoolNode E state cfg w
        = (Ok (with_error (swapState state)
                 (Msg "No pools with valid estimated output found")), w'))
  /\ (forall w dexes w1 found w2,
        getDexes E w = (Ok dexes, w1) ->
        Threaded (discoveredIn E req) dexes w1 found w2 ->
        concat found = [] ->
        aggregate E req prepared w = (Ok [], w2))
  /\ (forall w m w', findPoolNode E state cfg w <> (Throw (Error m), w')).
Proof.
  intros Hprep Hreq. split; [|split; [|split]].
  - intros w ranked w' H. apply aggregate_inv in H.
    destruct H as (dexes & w1 & allPools & w2 & filtered & quoted
                   & Hd & Hc & Hf & Hq & ->).
    unfold collectPools in Hc. apply bind_inv in Hc.
    destruct Hc as (found & w3 & Hm & Hc). unfold ret in Hc.
    inversion Hc; subst; clear Hc.
    exists dexes, w1, found, w2, filtered, quoted.
    split; [exact Hd|]. split.
    { eapply mapM_Threaded; [|exact Hm].
      intros x w0 y w3. apply poolsOfDex_discoveredIn. }
    split; [exact Hf|]. split.
    { eapply mapM_Threaded; [|exact Hq].
      intros x w0 y w3. apply requote_requotedIn. }
    split; [reflexivity|]. split; [apply rankPools_positive|].
    split; [apply rankPools_descending|]. split; [apply rankPools_length|].
    split; [apply rankPools_incl|apply rankPools_top].
  - intros w w' Hearly Hagg. unfold findPoolNode. rewrite Hearly.
    unfold try_catch, findPoolBody. rewrite Hprep, Hreq.
    rewrite (bind_ok _ _ (up_ok _ Hagg)). reflexivity.
  - intros w dexes w1 found w2 Hd Hc Hnil. unfold aggregate, collectPools.
    apply (Threaded_mapM (poolsOfDex E req)) in Hc;
      [|intros x w0 y w3; apply discoveredIn_poolsOfDex].
    rewrite (bind_ok _ _ Hd).
    rewrite (bind_ok _ _ (bind_ok _ _ Hc)). unfold ret at 1.
    rewrite Hnil. reflexivity.
  - intros w m w'. apply findPoolNode_never_crashes.
Qed.

End Aggregation.

(** Double precision shows in the minimum: a pool quoted 1000000 under
    a tolerance of 7 carries 929999, one short of
    [floor(1000000 * (1 - 7/100))] taken in exact arithmetic, which is
    930000. *)
Lemma minAmountOut_below_exact_formula :
  exists p,
    aggregate MarketRun.routerEnv (Market.requestWithSlippage (ofZ 7))
      Market.prepared tt
    = (Ok [p], tt)
    /\ estimatedOutput p = Some (ofZ 1000000)
    /\ minAmountOut p = Some (ofZ 929999)
    /\ Num.floor (ofZ 1000000 * (ofZ 1 - ofZ 7 / ofZ 100))%num
       = ofZ 930000.
Proof.
  eexists. split; [vm_compute; reflexivity|].
  split; [reflexivity|]. split; [reflexivity|]. vm_compute. reflexivity.
Qed.


(** The theorem at work: the same market ranks its two pools, found by
    its two adapters, and an empty market ends in [error]. *)
Lemma aggregation_ranks_requoted_pools_witness :
  (exists dexes w1 found w2 filtered quoted,
      getDexes MarketRun.env tt = (Ok dexes, w1)
      /\ Threaded (discoveredIn MarketRun.env Market.pairRequest)
           dexes w1 found w2
      /\ filterPools MarketRun.env (Some Market.pairRequest) (concat found)
         = Ok filtered
      /\ Threaded (requotedIn MarketRun.env (ofZ 1000000) DEFAULT_SLIPPAGE)
           filtered w2 quoted tt
      /\ MarketRun.ranked = rankPools quoted
      /\ Forall (fun p => (0 < outQ p)%Q) MarketRun.ranked
      /\ descending MarketRun.ranked
      /\ (length MarketRun.ranked <= 5)%nat
      /\ (forall p, In p MarketRun.ranked -> In p quoted)
      /\ (forall p, In p quoted -> (0 < outQ p)%Q ->
            In p MarketRun.ranked
            \/ (length MarketRun.ranked = 5%nat
                /\ Forall (fun r => (outQ p <= outQ r)%Q) MarketRun.ranked)))
  /\ findPoolNode MarketRun.emptyEnv Market.graphState Sample.config tt
     = (Ok (with_error Market.found
              (Msg "No pools with valid estimated output found")), tt).
Proof.
  split.
  - apply (proj1 (aggregation_ranks_requoted_pools MarketRun.env
                    Market.graphState Sample.config Market.prepared
                    Market.pairRequest eq_refl eq_refl)
             tt MarketRun.ranked tt).
    reflexivity.
  - apply (proj1 (proj2 (aggregation_ranks_requoted_pools MarketRun.emptyEnv
                           Market.graphState Sample.config Market.prepared
                           Market.pairRequest eq_refl eq_refl))
             tt tt); reflexivity.
Defined.

(** ** Adapter order *)

Section AdapterOrder.
Variable E : Env.

Lemma filterO_filter {A} (p : A -> outcome message bool) l r :
  filterO p l = Ok r ->
  r = filter (keeps p) l /\ Forall (fun x => exists b, p x = Ok b) l.
Proof.
  revert r. induction l as [|x l IH]; simpl; intros r H.
  - inversion H. split; constructor.
  - unfold keeps at 1. destruct (p x) as [b|m] eqn:Hp; [|discriminate].
    destruct (filterO p l) as [ys|m]; [|discriminate].
    destruct (IH ys eq_refl) as [-> Hall]. inversion H; subst.
    split; [now destruct b|]. constructor; [now exists b|exact Hall].
Qed.

Lemma filterO_defined {A} (p : A -> outcome message bool) l :
  Forall (fun x => exists b, p x = Ok b) l ->
  filterO p l = Ok (filter (keeps p) l).
Proof.
  induction 1 as [|x l [b Hb] _ IH]; simpl; [reflexivity|].
  unfold keeps at 1. rewrite Hb, IH. now destruct b.
Qed.

Lemma filterO_perm {A} (p : A -> outcome message bool) l l' r r' :
  Permutation l l' -> filterO p l = Ok r -> filterO p l' = Ok r' ->
  Permutation r r'.
Proof.
  intros Hp H H'.
  apply filterO_filter in H, H'. destruct H as [-> _], H' as [-> _].
  now apply filter_perm.
Qed.

(** The token-pair filter keeps the same pools whatever their order. *)
Lemma filterPools_perm req l l' r r' :
  Permutation l l' ->
  filterPools E req l = Ok r -> filterPools E req l' = Ok r' ->
  Permutation r r'.
Proof.
  unfold filterPools. intros Hp H H'.
  destruct (filterO (strictMatch E req) l) as [s|m] eqn:Hs; [|discriminate].
  destruct (filterO (strictMatch E req) l') as [s'|m] eqn:Hs'; [|discriminate].
  pose proof (filterO_perm _ _ _ _ _ Hp Hs Hs') as Hss.
  destruct s as [|x s].
  - apply Permutation_nil in Hss. subst s'.
    eapply filterO_perm; eassumption.
  - destruct s' as [|x' s'].
    + apply Permutation_sym, Permutation_nil in Hss. discriminate.
    + inversion H; inversion H'; subst. exact Hss.
Qed.

(** What the token-pair filter keeps stands in the order it had. *)
Lemma filterPools_filter req l r :
  filterPools E req l = Ok r -> exists keep, r = filter keep l.
Proof.
  unfold filterPools. intro H.
  destruct (filterO (strictMatch E req) l) as [s|m] eqn:Hs; [|discriminate].
  destruct s as [|x s].
  - apply filterO_filter in H. destruct H as [-> _]. now eexists.
  - inversion H; subst. apply filterO_filter in Hs.
    destruct Hs as [-> _]. now eexists.
Qed.

(** C9 (amended).  For fixed per-adapter results and fixed quotes, the
    ranked candidates (which pools, and in which order) do not depend on
    the order in which the adapters were queried, provided no two
    distinct pools with a positive quote are quoted the same.  Pools
    that are quoted the same keep the order in which their adapters
    were queried: the filter keeps the pools in the order they were
    found, and among the pools with one positive quote the candidates
    are the first ones, in that order. *)
Theorem ranking_independent_of_adapter_order
  req (quote : Pool -> Pool) (results results' : list (list Pool))
  filtered filtered' :
  Permutation results results' ->
  filterPools E req (concat results) = Ok filtered ->
  filterPools E req (concat results') = Ok filtered' ->
  (distinct_quotes (map quote filtered) ->
   rankPools (map quote filtered) = rankPools (map quote filtered'))
  /\ (exists keep, filtered = filter keep (concat results))
  /\ (forall v, (0 < v)%Q ->
        exists rest,
          filter (quotedAt v) (map quote filtered)
          = (filter (quotedAt v) (rankPools (map quote filtered))
             ++ rest)%list).
Proof.
  intros Hp Hf Hf'. split; [|split].
  - intro Hd. apply rankPools_perm; [|exact Hd].
    apply Permutation_map.
    eapply filterPools_perm; [|exact Hf|exact Hf'].
    now apply concat_perm.
  - eapply filterPools_filter, Hf.
  - intros v Hv. now apply rankPools_stable.
Qed.

End AdapterOrder.

(** C9 as stated fails: two adapters with one pool each, both quoted
    900000.  With the catalogue listing the path-routed adapter first
    its pool is ranked first; with the catalogue in the other order the
    other pool is. *)
Lemma ranking_depends_on_adapter_order :
  Permutation [Market.pancakeDex; Market.cellanaDex]
    [Market.cellanaDex; Market.pancakeDex]
  /\ Market.adapters
       (fst (aggregate Tie.pancakeFirst Market.pairRequest Market.prepared tt))
     = ["pancakeswap"; "cellana"]
  /\ Market.adapters
       (fst (aggregate Tie.cellanaFirst Market.pairRequest Market.prepared tt))
     = ["cellana"; "pancakeswap"]
  /\ fst (aggregate Tie.pancakeFirst Market.pairRequest Market.prepared tt)
     <> fst (aggregate Tie.cellanaFirst Market.pairRequest Market.prepared tt).
Proof.
  split; [apply perm_swap|].
  split; [vm_compute; reflexivity|].
  split; [vm_compute; reflexivity|].
  intro H. apply (f_equal Market.adapters) in H. vm_compute in H.
  discriminate.
Qed.

(** The theorem at work: with quotes 900000 and 950000 the two orders
    rank alike. *)
Lemma ranking_independent_of_adapter_order_witness :
  rankPools (map (Tie.quoteBy 900000 950000)
               [Market.pancakePool; Market.cellanaPool])
  = rankPools (map (Tie.quoteBy 900000 950000)
                 [Market.cellanaPool; Market.pancakePool]).
Proof.
  apply (proj1 (ranking_independent_of_adapter_order MarketRun.env
           (Some Market.pairRequest) (Tie.quoteBy 900000 950000)
           [[Market.pancakePool]; [Market.cellanaPool]]
           [[Market.cellanaPool]; [Market.pancakePool]]
           [Market.pancakePool; Market.cellanaPool]
           [Market.cellanaPool; Market.pancakePool]
           (perm_swap _ _ _) eq_refl eq_refl)).
  - intros a b Ha Hb _ _ Hq.
    destruct Ha as [<-|[<-|[]]]; destruct Hb as [<-|[<-|[]]];
      try reflexivity; vm_compute in Hq; discriminate.
Defined.

(** ** Pool selection *)

Section Selection.
Variable E : Env.
Local Open Scope Q_scope.

Lemma toIndex_spec (q : Q) i :
  Num.toIndex (Fin q) = Some i -> q == inject_Z (Z.of_nat i).
Proof.
  unfold Num.toIndex.
  destruct (Qeq_bool q (inject_Z (Qfloor q))) eqn:Hq; [|discriminate].
  destruct (0 <=? Qfloor q)%Z eqn:Hz; [|discriminate].
  simpl. intro H. inversion H; subst. apply Qeq_bool_iff in Hq.
  apply Z.leb_le in Hz. rewrite Z2Nat.id by exact Hz. exact Hq.
Qed.

Lemma inject_Z_nat_inj (i j : nat) :
  inject_Z (Z.of_nat i) == inject_Z (Z.of_nat j) -> i = j.
Proof. unfold Qeq. simpl. lia. Qed.

(** What the selection check accepts is the index of a candidate, and
    the pool it hands over is the candidate at that index; what it
    refuses denotes no candidate. *)
Lemma validateSelection_spec v ranked :
  match validateSelection v ranked with
  | Ok p => exists i, denotes_index v i /\ nth_error ranked i = Some p
  | Throw m =>
      validation_message v (length ranked) m
      /\ forall i, denotes_index v i -> (length ranked <= i)%nat
  end.
Proof.
  unfold validateSelection.
  destruct v as [| |b|[q|]|s|];
    try (split; [now left|intros i (q' & Hq & _); discriminate]).
  - destruct (Num.lt (Fin q) (ofZ 0)) eqn:Hlt.
    + cbn [orb]. split; [now left|].
      intros i (q' & Hq & Hi). inversion Hq; subst q'.
      apply lt_Fin in Hlt. exfalso. rewrite Hi in Hlt.
      unfold Qlt in Hlt. simpl in Hlt. lia.
    + cbn [orb].
      destruct (Num.ge (Fin q) (ofZ (Z.of_nat (length ranked)))) eqn:Hge.
      * split; [now left|].
        intros i (q' & Hq & Hi). inversion Hq; subst q'.
        apply le_Fin in Hge. rewrite Hi in Hge.
        unfold Qle in Hge. simpl in Hge. lia.
      * destruct (Num.toIndex (Fin q)) as [i|] eqn:Hi.
        -- destruct (nth_error ranked i) as [p|] eqn:Hn.
           ++ exists i. split; [|exact Hn].
              exists q. split; [reflexivity|now apply toIndex_spec].
           ++ split; [now right|].
              intros j (q' & Hq & Hj). inversion Hq; subst q'.
              apply toIndex_spec in Hi.
              assert (i = j)
                by (apply inject_Z_nat_inj; rewrite <- Hi; exact Hj).
              subst j. now apply nth_error_None.
        -- split; [now right|].
           intros j (q' & Hq & Hj). inversion Hq; subst q'. exfalso.
           unfold Num.toIndex in Hi.
           assert (Hf : Qfloor q = Z.of_nat j).
           { rewrite (Qfloor_comp _ _ Hj). apply Qfloor_Z. }
           rewrite Hf in Hi.
           rewrite (proj2 (Qeq_bool_iff _ _) Hj) in Hi.
           rewrite (proj2 (Z.leb_le _ _) (Nat2Z.is_nonneg j)) in Hi.
           discriminate.
  - split; [now right|]. intros i (q' & Hq & _). discriminate.
Qed.

(** Outside the range the check answers with the range message. *)
Lemma validateSelection_out_of_range v ranked :
  out_of_range v (length ranked) ->
  validateSelection v ranked
  = Throw (InvalidPoolSelectionRange v (Z.of_nat (length ranked) - 1)).
Proof.
  unfold validateSelection, out_of_range.
  destruct v as [| |b|[q|]|s|]; try reflexivity; [|tauto].
  intros [H|H].
  - apply lt_Fin in H. change (Fin 0) with (ofZ 0) in H. now rewrite H.
  - apply le_Fin in H. unfold Num.ge, ofZ. rewrite H. now rewrite orb_true_r.
Qed.

(** A suspension that ends without an index ends in [error]. *)
Lemma resolveSelection_inl cfg state ranked sv w fs w' :
  resolveSelection E cfg state ranked sv w = (Ok (inl fs), w') ->
  phase fs = error.
Proof.
  unfold resolveSelection.
  destruct (resumeResolution _ _ _) as [|v].
  - unfold ret. intro H. inversion H. reflexivity.
  - destruct (is_undefined v); [|unfold ret; intro H; inversion H].
    unfold askUser, bind.
    destruct (interrupt E _ w) as [[[|r rs]|e] w1]; unfold ret;
      try (intro H; inversion H; reflexivity).
    destruct (hr_type r =? "accept")%string; intro H; inversion H.
    reflexivity.
Qed.

Lemma acceptSelection_inv cfg s req prepared ranked v w s' w' :
  acceptSelection E cfg s req prepared ranked v w = (Ok s', w') ->
  exists p,
    validateSelection v ranked = Ok p
    /\ phase s' = executing
    /\ pools s' = Some ranked
    /\ selectedPool s' = Some p.
Proof.
  unfold acceptSelection. intro H.
  apply bind_inv in H. destruct H as (p & w1 & Hv & H).
  unfold lift in Hv.
  destruct (validateSelection v ranked) as [p'|m] eqn:Hval;
    inversion Hv; subst; clear Hv.
  apply bind_inv in H. destruct H as (wal & w2 & _ & H).
  destruct (negb (wallet_usable wal)); [discriminate|].
  apply bind_inv in H. destruct H as (acct & w3 & _ & H).
  apply bind_inv in H. destruct H as (g & w4 & _ & H).
  unfold ret in H. inversion H; subst. exists p. repeat split.
Qed.

Lemma whenUndefined_defined v channel :
  is_undefined v = false -> whenUndefined (Selected v) channel = Selected v.
Proof. intro Hv. unfold whenUndefined. now rewrite Hv. Qed.

(** An answer object without a number is read as no answer. *)
Lemma fromObject_no_index a r :
  carries_no_index a ->
  whenUndefined r (fromObject (Some a)) = whenUndefined r (fromObject None).
Proof.
  intros [Hc Hn]. destruct r as [|v]; [reflexivity|].
  unfold whenUndefined, fromObject, readAnswer.
  assert (Hc' : is_true (cancelled a) = false)
    by (destruct (cancelled a) as [| |[|]| | |]; try reflexivity;
        now contradiction Hc).
  assert (Hn' : is_number (selectedPoolIndex a) = false)
    by (destruct (selectedPoolIndex a) as [| | |n| |]; try reflexivity;
        now contradiction (Hn n)).
  now rewrite Hc', Hn'.
Qed.

Lemma earlyResolution_no_index cfg a msgs :
  configurable_interrupt_response cfg = Some a ->
  carries_no_index a ->
  earlyResolution cfg msgs
  = earlyResolution (without_interrupt_response cfg) msgs.
Proof.
  intros Hc Ha. unfold earlyResolution. cbv zeta. rewrite Hc.
  now rewrite (fromObject_no_index a _ Ha).
Qed.

Lemma resumeResolution_no_index cfg a id msgs :
  configurable_interrupt_response cfg = Some a ->
  carries_no_index a ->
  resumeResolution cfg id msgs
  = resumeResolution (without_interrupt_response cfg) id msgs.
Proof.
  intros Hc Ha. unfold resumeResolution. cbv zeta. rewrite Hc.
  now rewrite (fromObject_no_index a _ Ha).
Qed.

Lemma findPoolBody_no_index state cfg a w :
  configurable_interrupt_response cfg = Some a ->
  carries_no_index a ->
  findPoolBody E state cfg w
  = findPoolBody E state (without_interrupt_response cfg) w.
Proof.
  intros Hc Ha. unfold findPoolBody.
  destruct (preparedTransaction (swapState state)) as [prepared|];
    [|reflexivity].
  destruct (request (swapState state)) as [req|]; [|reflexivity].
  unfold bind at 1 3.
  destruct (up (aggregate E req prepared) w) as [[ranked|e] w1];
    [|reflexivity].
  destruct ranked as [|r0 ranked0]; [reflexivity|].
  unfold bind, resolveSelection.
  rewrite (resumeResolution_no_index cfg a _ _ Hc Ha).
  reflexivity.
Qed.

(** The index of an accepted response is the number it carries, or
    nothing. *)
Lemma acceptedIndex_carried args n :
  carries_index args n -> acceptedIndex args = VNum n.
Proof.
  intros (a & [->| ->] & Hn); cbn [acceptedIndex]; now rewrite Hn.
Qed.

Lemma acceptedIndex_none args :
  carries_no_number args -> acceptedIndex args = VUndefined.
Proof.
  destruct args as [|[[|a]|]|a]; cbn [acceptedIndex carries_no_number];
    try reflexivity; intro Hn;
    destruct (selectedPoolIndex a) as [| | |n| |]; try reflexivity;
    now contradiction (Hn n).
Qed.

(** The node on an answer that reached the selection check and names
    no candidate. *)
Lemma findPoolNode_refuses state cfg prepared req w ranked w1 v w2 :
  preparedTransaction (swapState state) = Some prepared ->
  request (swapState state) = Some req ->
  poolsNonEmpty (swapState state)
  && is_cancelled (earlyResolution cfg (messages state)) = false ->
  aggregate E req prepared w = (Ok ranked, w1) ->
  ranked <> [] ->
  resolveSelection E cfg state ranked (slippageValueOf req) w1
  = (Ok (inr v), w2) ->
  (forall i, denotes_index v i -> (length ranked <= i)%nat) ->
  exists m,
    findPoolNode E state cfg w = (Ok (with_error (swapState state) m), w2)
    /\ validation_message v (length ranked) m
    /\ (out_of_range v (length ranked) ->
        m = InvalidPoolSelectionRange v (Z.of_nat (length ranked) - 1)).
Proof.
  intros Hprep Hreq Hearly Hagg Hne Hres Hno.
  pose proof (validateSelection_spec v ranked) as Hspec.
  destruct (validateSelection v ranked) as [p|m] eqn:Hval.
  { destruct Hspec as (i & Hi & Hn). exfalso.
    specialize (Hno i Hi).
    assert (nth_error ranked i = None) by now apply nth_error_None.
    congruence. }
  destruct Hspec as [Hmsg _]. exists m.
  split; [|split; [exact Hmsg|]].
  - unfold findPoolNode. rewrite Hearly.
    unfold try_catch, findPoolBody. rewrite Hprep, Hreq.
    rewrite (bind_ok _ _ (up_ok _ Hagg)).
    destruct ranked as [|r0 ranked0]; [congruence|].
    rewrite (bind_ok _ _ Hres).
    unfold up, acceptSelection, bind at 1, lift. rewrite Hval. reflexivity.
  - intro Hout. rewrite (validateSelection_out_of_range _ _ Hout) in Hval.
    now inversion Hval.
Qed.

(** C5 (amended).  When the answer to the pool selection that
    [findPoolNode] resolves, from the configuration, a resume channel
    or the accepted human response, denotes no ranked candidate (it is
    not a number, or it is a number that is not an index from 0 to the
    number of candidates minus one), the node ends in phase [error]
    with a message of the selection check, the range message whenever
    the answer is not a number or lies outside the range; no pool is
    selected.  Conversely the node reaches [executing] only with an
    answer that is the index of a candidate, and the selected pool is
    the candidate at that index.  In particular a configured index
    other than [undefined] that names no candidate is fatal, whatever
    its type; and so is, when no channel carries an index and the user
    accepts, a response that carries no number as its index, or a
    number that names no candidate.  But an answer object on the
    [interrupt_response] channel that neither cancels nor carries a
    number is not fatal: the node runs as if that channel were empty. *)
Theorem invalid_selection_is_fatal state cfg :
  (forall prepared req w ranked w1 v w2,
     preparedTransaction (swapState state) = Some prepared ->
     request (swapState state) = Some req ->
     poolsNonEmpty (swapState state)
     && is_cancelled (earlyResolution cfg (messages state)) = false ->
     aggregate E req prepared w = (Ok ranked, w1) ->
     ranked <> [] ->
     resolveSelection E cfg state ranked (slippageValueOf req) w1
     = (Ok (inr v), w2) ->
     (forall i, denotes_index v i -> (length ranked <= i)%nat) ->
     exists m,
       findPoolNode E state cfg w
       = (Ok (with_error (swapState state) m), w2)
       /\ validation_message v (length ranked) m
       /\ (out_of_range v (length ranked) ->
           m = InvalidPoolSelectionRange v (Z.of_nat (length ranked) - 1))
       /\ phase (with_error (swapState state) m) = error
       /\ selectedPool (with_error (swapState state) m)
          = selectedPool (swapState state))
  /\ (forall w s' w',
        findPoolNode E state cfg w = (Ok s', w') ->
        phase s' = executing ->
        exists ranked i p,
          pools s' = Some ranked
          /\ selectedPool s' = Some p
          /\ nth_error ranked i = Some p
          /\ exists req w1 w2 v,
               request (swapState state) = Some req
               /\ resolveSelection E cfg state ranked (slippageValueOf req) w1
                  = (Ok (inr v), w2)
               /\ denotes_index v i)
  /\ (forall prepared req w ranked w1 v,
        preparedTransaction (swapState state) = Some prepared ->
        request (swapState state) = Some req ->
        aggregate E req prepared w = (Ok ranked, w1) ->
        ranked <> [] ->
        configurable_selectedPoolIndex cfg = v ->
        v <> VUndefined ->
        (forall i, denotes_index v i -> (length ranked <= i)%nat) ->
        exists m,
          findPoolNode E state cfg w
          = (Ok (with_error (swapState state) m), w1)
          /\ validation_message v (length ranked) m
          /\ (out_of_range v (length ranked) ->
              m = InvalidPoolSelectionRange v
                    (Z.of_nat (length ranked) - 1)))
  /\ (forall prepared req w ranked w1 r rs w2,
        preparedTransaction (swapState state) = Some prepared ->
        request (swapState state) = Some req ->
        poolsNonEmpty (swapState state)
        && is_cancelled (earlyResolution cfg (messages state)) = false ->
        aggregate E req prepared w = (Ok ranked, w1) ->
        ranked <> [] ->
        resumeResolution cfg (swapToolId (swapState state))
          (messages state)
        = Selected VUndefined ->
        interrupt E (SelectPool ranked (slippageValueOf req)) w1
        = (Ok (r :: rs), w2) ->
        hr_type r = "accept" ->
        (carries_no_number (hr_args r) ->
         findPoolNode E state cfg w
         = (Ok (with_error (swapState state)
                  (InvalidPoolSelectionRange VUndefined
                     (Z.of_nat (length ranked) - 1))), w2))
        /\ (forall n,
              carries_index (hr_args r) n ->
              (forall i, denotes_index (VNum n) i ->
                         (length ranked <= i)%nat) ->
              exists m,
                findPoolNode E state cfg w
                = (Ok (with_error (swapState state) m), w2)
                /\ validation_message (VNum n) (length ranked) m
                /\ (out_of_range (VNum n) (length ranked) ->
                    m = InvalidPoolSelectionRange (VNum n)
                          (Z.of_nat (length ranked) - 1))))
  /\ (forall a w,
        configurable_interrupt_response cfg = Some a ->
        carries_no_index a ->
        findPoolNode E state cfg w
        = findPoolNode E state (without_interrupt_response cfg) w).
Proof.
  split; [|split; [|split; [|split]]].
  - intros prepared req w ranked w1 v w2 Hprep Hreq Hearly Hagg Hne Hres Hno.
    destruct (findPoolNode_refuses state cfg prepared req w ranked w1 v w2
                Hprep Hreq Hearly Hagg Hne Hres Hno) as (m & Hrun & Hm & Hr).
    exists m. repeat split; assumption.
  - intros w s' w' H Hphase. unfold findPoolNode in H.
    destruct (poolsNonEmpty (swapState state) && _).
    { unfold ret in H. inversion H; subst. discriminate. }
    unfold try_catch in H.
    destruct (findPoolBody E state cfg w) as [[s|[m|r]] w1] eqn:Hbody;
      [|unfold ret in H; inversion H; subst; discriminate|discriminate].
    inversion H; subst; clear H.
    unfold findPoolBody in Hbody.
    destruct (preparedTransaction (swapState state)) as [prepared|];
      [|discriminate].
    destruct (request (swapState state)) as [req|] eqn:Hreq; [|discriminate].
    apply bind_inv in Hbody. destruct Hbody as (ranked & w2 & Hagg & Hbody).
    destruct ranked as [|r0 ranked0].
    { unfold ret in Hbody. inversion Hbody; subst. discriminate. }
    apply bind_inv in Hbody. destruct Hbody as (answer & w3 & Hres & Hbody).
    destruct answer as [fs|v].
    { unfold ret in Hbody. inversion Hbody; subst.
      apply resolveSelection_inl in Hres. congruence. }
    apply up_inv in Hbody. apply acceptSelection_inv in Hbody.
    destruct Hbody as (p & Hval & _ & Hpools & Hsel).
    pose proof (validateSelection_spec v (r0 :: ranked0)) as Hspec.
    rewrite Hval in Hspec. destruct Hspec as (i & Hi & Hn).
    exists (r0 :: ranked0), i, p. repeat split; try assumption.
    exists req, w2, w3, v. repeat split; assumption.
  - intros prepared req w ranked w1 v Hprep Hreq Hagg Hne Hc Hv Hno.
    assert (Hu : is_undefined v = false) by now destruct v.
    apply (findPoolNode_refuses state cfg prepared req w ranked w1 v w1);
      try assumption.
    + unfold earlyResolution. cbv zeta. rewrite Hc.
      rewrite !(whenUndefined_defined _ _ Hu). apply andb_false_r.
    + unfold resolveSelection, resumeResolution. cbv zeta. rewrite Hc.
      rewrite !(whenUndefined_defined _ _ Hu). now rewrite Hu.
  - intros prepared req w ranked w1 r rs w2 Hprep Hreq Hpools Hagg Hne
      Hresume Hint Hacc.
    assert (Hres : resolveSelection E cfg state ranked (slippageValueOf req)
                     w1
                   = (Ok (inr (acceptedIndex (hr_args r))), w2)).
    { unfold resolveSelection. rewrite Hresume. cbn [is_undefined].
      unfold askUser. rewrite (bind_ok _ _ Hint).
      apply String.eqb_eq in Hacc. now rewrite Hacc. }
    split.
    + intro Hnone. rewrite (acceptedIndex_none _ Hnone) in Hres.
      destruct (findPoolNode_refuses state cfg prepared req w ranked w1
                  VUndefined w2 Hprep Hreq Hpools Hagg Hne Hres)
        as (m & Hrun & _ & Hr).
      * intros i (q & Hq & _). discriminate.
      * rewrite Hrun, (Hr I). reflexivity.
    + intros n Hn Hno. rewrite (acceptedIndex_carried _ _ Hn) in Hres.
      exact (findPoolNode_refuses state cfg prepared req w ranked w1
               (VNum n) w2 Hprep Hreq Hpools Hagg Hne Hres Hno).
  - intros a w Hc Ha. unfold findPoolNode.
    rewrite <- (earlyResolution_no_index cfg a _ Hc Ha).
    destruct (poolsNonEmpty (swapState state) && _); [reflexivity|].
    unfold try_catch.
    now rewrite (findPoolBody_no_index state cfg a w Hc Ha).
Qed.

End Selection.

(** An answer that is not a number is not always fatal.  With the text
    "first" as the index on the [interrupt_response] channel the node
    asks the user again instead of ending in [error]; with an earlier
    message that carries index 0 it goes on to [executing] with the
    first candidate. *)
Lemma non_numeric_answer_is_dropped :
  carries_no_index Market.wordAnswer
  /\ findPoolNode MarketRun.env Market.graphState
       (Sample.configWithResponse Market.wordAnswer) tt
     = (Throw (GraphInterrupt
                 (SelectPool MarketRun.ranked DEFAULT_SLIPPAGE)), tt)
  /\ exists s,
       findPoolNode MarketRun.env
         (Market.graphStateWith [Market.indexMessage 0])
         (Sample.configWithResponse Market.wordAnswer) tt
       = (Ok s, tt)
       /\ phase s = executing
       /\ selectedPool s = nth_error MarketRun.ranked 0.
Proof.
  split; [split; [discriminate|intro n; discriminate]|].
  split; [vm_compute; reflexivity|].
  eexists. split; [vm_compute; reflexivity|]. split; reflexivity.
Qed.

(** The theorem at work: index 7 against the two candidates of the
    market, and a user who accepts with the text "first" as the index. *)
Lemma invalid_selection_is_fatal_witness :
  (exists m,
     findPoolNode MarketRun.env Market.graphState
       (Sample.configWithIndex (VNum (ofZ 7))) tt
     = (Ok (with_error Market.found m), tt)
     /\ validation_message (VNum (ofZ 7)) 2 m
     /\ (out_of_range (VNum (ofZ 7)) 2 ->
         m = InvalidPoolSelectionRange (VNum (ofZ 7)) 1)
     /\ phase (with_error Market.found m) = error
     /\ selectedPool (with_error Market.found m) = None)
  /\ findPoolNode (MarketRun.acceptingEnv (ArgsObject Market.wordAnswer))
       Market.graphState Sample.config tt
     = (Ok (with_error Market.found
              (InvalidPoolSelectionRange VUndefined 1)), tt).
Proof.
  split.
  - apply (proj1 (invalid_selection_is_fatal MarketRun.env Market.graphState
                    (Sample.configWithIndex (VNum (ofZ 7))))
             Market.prepared Market.pairRequest tt MarketRun.ranked tt
             (VNum (ofZ 7)) tt eq_refl eq_refl eq_refl eq_refl
             ltac:(discriminate) eq_refl).
    intros i (q & Hq & Hi). inversion Hq; subst q.
    unfold Qeq in Hi. simpl in Hi. simpl. lia.
  - apply (proj1 (proj1 (proj2 (proj2 (proj2
             (invalid_selection_is_fatal
                (MarketRun.acceptingEnv (ArgsObject Market.wordAnswer))
                Market.graphState Sample.config))))
             Market.prepared Market.pairRequest tt MarketRun.ranked tt
             {| hr_type := "accept";
                hr_args := ArgsObject Market.wordAnswer |} [] tt
             eq_refl eq_refl eq_refl eq_refl ltac:(discriminate)
             eq_refl eq_refl eq_refl)).
    intro n. discriminate.
Defined.

(** ** Adapters recover from failures *)

Section AdaptersRecover.
Variable E : Env.







End AdaptersRecover.


(** ** Terminal states of the two workflows *)

(** One step backwards through a computation that returned. *)
Ltac unbind H :=
  match type of H with
  | bind _ _ _ = (Ok _, _) =>
      let a := fresh "a" in
      let w := fresh "w" in
      let Ha := fresh "Ha" in
      apply bind_inv in H; destruct H as (a & w & Ha & H)
  | (if ?b then _ else _) _ = (Ok _, _) => destruct b
  | throw _ _ = (Ok _, _) => discriminate H
  | (Throw _, _) = (Ok _, _) => discriminate H
  | match ?x with _ => _ end _ = (Ok _, _) => destruct x
  end.

Section SwapTerminal.
Variable E : Env.

Lemma prepareSwap_post s cfg w s' w' :
  prepareSwap E s cfg w = (Ok s', w') ->
  phase s' = findPool /\ result s' = None /\ error_ s' = None.
Proof.
  unfold prepareSwap. intro H.
  destruct (request s); [|discriminate].
  repeat unbind H. unfold ret in H. inversion H; subst. repeat split.
Qed.

Lemma prepareSwapNode_post s cfg w s' w' :
  prepareSwapNode E s cfg w = (Ok s', w') ->
  (phase s' = findPool /\ result s' = None /\ error_ s' = None)
  \/ swap_failed s'.
Proof.
  unfold prepareSwapNode, try_catch.
  destruct (prepareSwap E s cfg w) as [[s1|m] w1] eqn:Hp; intro H;
    inversion H; subst; clear H.
  - left. eapply prepareSwap_post, Hp.
  - right. split; [reflexivity|]. exists m. split; [reflexivity|now left].
Qed.

Lemma with_error_failed s m : result s = None -> swap_failed (with_error s m).
Proof.
  intro Hr. split; [reflexivity|]. exists m. split; [reflexivity|now left].
Qed.

Lemma resolveSelection_inl_state cfg state ranked sv w fs w' :
  resolveSelection E cfg state ranked sv w = (Ok (inl fs), w') ->
  exists m, fs = with_error (swapState state) m.
Proof.
  unfold resolveSelection.
  destruct (resumeResolution _ _ _) as [|v].
  - unfold ret. intro H. inversion H. eexists. reflexivity.
  - destruct (is_undefined v); [|unfold ret; intro H; inversion H].
    unfold askUser, bind.
    destruct (interrupt E _ w) as [[[|r rs]|e] w1]; unfold ret;
      try (intro H; inversion H; eexists; reflexivity).
    destruct (hr_type r =? "accept")%string; intro H; inversion H.
    eexists. reflexivity.
Qed.

Lemma acceptSelection_post cfg s req prepared ranked v w s' w' :
  acceptSelection E cfg s req prepared ranked v w = (Ok s', w') ->
  phase s' = executing /\ result s' = result s /\ error_ s' = error_ s.
Proof.
  unfold acceptSelection. intro H. repeat unbind H.
  unfold ret in H. inversion H; subst. repeat split.
Qed.

Lemma findPoolNode_post state cfg w s' w' :
  result (swapState state) = None -> error_ (swapState state) = None ->
  findPoolNode E state cfg w = (Ok s', w') ->
  (phase s' = executing /\ result s' = None /\ error_ s' = None)
  \/ swap_failed s'.
Proof.
  intros Hr He. unfold findPoolNode.
  destruct (poolsNonEmpty (swapState state) && _).
  { unfold ret. intro H. inversion H; subst. right.
    now apply with_error_failed. }
  unfold try_catch.
  destruct (findPoolBody E state cfg w) as [[s|[m|r]] w1] eqn:Hbody;
    [|unfold ret; intro H; inversion H; subst; right;
      now apply with_error_failed|discriminate].
  intro H. inversion H; subst; clear H.
  unfold findPoolBody in Hbody.
  destruct (preparedTransaction (swapState state)) as [prepared|];
    [|discriminate].
  destruct (request (swapState state)) as [req|]; [|discriminate].
  apply bind_inv in Hbody. destruct Hbody as (ranked & w2 & _ & Hbody).
  destruct ranked as [|r0 ranked0].
  { unfold ret in Hbody. inversion Hbody; subst. right.
    now apply with_error_failed. }
  apply bind_inv in Hbody. destruct Hbody as (answer & w3 & Hres & Hbody).
  destruct answer as [fs|v].
  - unfold ret in Hbody. inversion Hbody; subst.
    apply resolveSelection_inl_state in Hres. destruct Hres as (m & ->).
    right. now apply with_error_failed.
  - unfold up in Hbody.
    destruct (acceptSelection E cfg (swapState state) req prepared
                (r0 :: ranked0) v w3) as [[s1|m] w4] eqn:Hacc;
      inversion Hbody; subst.
    apply acceptSelection_post in Hacc. destruct Hacc as (Hp & Hr' & He').
    left. rewrite Hr', He'. now repeat split.
Qed.

Lemma executeSwap_post s cfg w s' w' :
  executeSwap E s cfg w = (Ok s', w') ->
  phase s' = completed /\ error_ s' = error_ s
  /\ exists r, result s' = Some r /\ swap_success r = true.
Proof.
  unfold executeSwap. intro H.
  destruct (preparedTransaction s); [|discriminate].
  destruct (selectedPool s); [|discriminate].
  destruct (request s); [|discriminate].
  repeat unbind H. unfold ret in H. inversion H; subst.
  split; [reflexivity|]. split; [reflexivity|].
  eexists. split; reflexivity.
Qed.

Lemma executeSwapNode_post s cfg w s' w' :
  error_ s = None ->
  executeSwapNode E s cfg w = (Ok s', w') ->
  swap_completed s' \/ swap_failed s'.
Proof.
  intro He. unfold executeSwapNode, try_catch.
  destruct (executeSwap E s cfg w) as [[s1|m] w1] eqn:Hx; intro H;
    inversion H; subst; clear H.
  - apply executeSwap_post in Hx. destruct Hx as (Hp & He' & Hr).
    left. split; [exact Hp|]. split; [congruence|exact Hr].
  - right. split; [reflexivity|]. exists m. split; [reflexivity|now right].
Qed.

Lemma swap_failed_route s : swap_failed s -> routeSwapFlow s = END.
Proof. intros [Hp _]. unfold routeSwapFlow. now rewrite Hp. Qed.

Lemma swap_completed_route s : swap_completed s -> routeSwapFlow s = CallModel.
Proof. intros [Hp _]. unfold routeSwapFlow. now rewrite Hp. Qed.

Lemma runSwapFrom_execute fuel msgs s cfg w s' w' :
  error_ s = None ->
  runSwapFrom E fuel ExecuteSwap msgs s cfg w = (Ok (Some s'), w') ->
  swap_completed s' \/ swap_failed s'.
Proof.
  intros He. destruct fuel as [|fuel]; [discriminate|]. simpl. intro H.
  apply bind_inv in H. destruct H as (s1 & w1 & Hn & H).
  apply up_inv in Hn. apply (executeSwapNode_post _ _ _ _ _ He) in Hn.
  destruct Hn as [Hc|Hf].
  - rewrite (swap_completed_route _ Hc) in H. inversion H; subst. now left.
  - rewrite (swap_failed_route _ Hf) in H. inversion H; subst. now right.
Qed.

Lemma runSwapFrom_find fuel msgs s cfg w s' w' :
  result s = None -> error_ s = None ->
  runSwapFrom E fuel FindPool msgs s cfg w = (Ok (Some s'), w') ->
  swap_completed s' \/ swap_failed s'.
Proof.
  intros Hr He. destruct fuel as [|fuel]; [discriminate|]. simpl. intro H.
  apply bind_inv in H. destruct H as (s1 & w1 & Hn & H).
  apply findPoolNode_post in Hn; [|exact Hr|exact He].
  destruct Hn as [(Hp & Hr1 & He1)|Hf].
  - unfold routeSwapFlow in H. rewrite Hp in H.
    eapply runSwapFrom_execute; eassumption.
  - rewrite (swap_failed_route _ Hf) in H. inversion H; subst. now right.
Qed.

(** A swap run that ends, ends completed or failed. *)
Lemma runSwap_terminal fuel msgs s cfg w s' w' :
  runSwap E fuel msgs s cfg w = (Ok (Some s'), w') ->
  swap_completed s' \/ swap_failed s'.
Proof.
  unfold runSwap. destruct fuel as [|fuel]; [discriminate|]. simpl. intro H.
  apply bind_inv in H. destruct H as (s1 & w1 & Hn & H).
  apply up_inv in Hn. apply prepareSwapNode_post in Hn.
  destruct Hn as [(Hp & Hr1 & He1)|Hf].
  - unfold routeSwapFlow in H. rewrite Hp in H.
    eapply runSwapFrom_find; eassumption.
  - rewrite (swap_failed_route _ Hf) in H. inversion H; subst. now right.
Qed.

End SwapTerminal.

Section SwapFuel.
Variable E : Env.

Lemma runSwapFrom_execute_returns n msgs s cfg w w' :
  error_ s = None ->
  runSwapFrom E (S n) ExecuteSwap msgs s cfg w <> (Ok None, w').
Proof.
  intros He. simpl. unfold bind.
  destruct (up (executeSwapNode E s cfg) w) as [[s1|e] w1] eqn:Hn;
    [|discriminate].
  apply up_inv in Hn. apply (executeSwapNode_post _ _ _ _ _ _ He) in Hn.
  destruct Hn as [Hc|Hf].
  - rewrite (swap_completed_route _ Hc). discriminate.
  - rewrite (swap_failed_route _ Hf). discriminate.
Qed.

Lemma runSwapFrom_find_returns n msgs s cfg w w' :
  result s = None -> error_ s = None ->
  runSwapFrom E (S (S n)) FindPool msgs s cfg w <> (Ok None, w').
Proof.
  intros Hr He. cbn [runSwapFrom runNode]. unfold bind at 1.
  destruct (findPoolNode E {| messages := msgs; swapState := s |} cfg w)
    as [[s1|e] w1] eqn:Hn; [|discriminate].
  apply findPoolNode_post in Hn; [|exact Hr|exact He].
  destruct Hn as [(Hp & Hr1 & He1)|Hf].
  - unfold routeSwapFlow at 1. rewrite Hp.
    now apply runSwapFrom_execute_returns.
  - rewrite (swap_failed_route _ Hf). discriminate.
Qed.

(** Three steps are enough for a swap run: it ends, or it suspends. *)
Lemma runSwap_returns n msgs s cfg w w' :
  runSwap E (3 + n) msgs s cfg w <> (Ok None, w').
Proof.
  unfold runSwap. cbn [Nat.add runSwapFrom runNode]. unfold bind at 1.
  destruct (up (prepareSwapNode E s cfg) w) as [[s1|e] w1] eqn:Hn;
    [|discriminate].
  apply up_inv in Hn. apply prepareSwapNode_post in Hn.
  destruct Hn as [(Hp & Hr1 & He1)|Hf].
  - unfold routeSwapFlow at 1. rewrite Hp.
    now apply runSwapFrom_find_returns.
  - rewrite (swap_failed_route _ Hf). discriminate.
Qed.

End SwapFuel.

Section TransferTerminal.
Variable E : Env.

Lemma prepareTransfer_post s cfg w s' w' :
  Transfer.prepareTransfer E s cfg w = (Ok s', w') ->
  Transfer.phase s' = Transfer.confirming
  /\ Transfer.result s' = Transfer.result s
  /\ Transfer.error_ s' = Transfer.error_ s.
Proof.
  unfold Transfer.prepareTransfer. intro H. repeat unbind H.
  unfold ret in H. inversion H; subst. repeat split.
Qed.

Lemma prepareTransferNode_post s cfg w s' w' :
  Transfer.result s = None -> Transfer.error_ s = None ->
  Transfer.prepareTransferNode E s cfg w = (Ok s', w') ->
  (Transfer.phase s' = Transfer.confirming
   /\ Transfer.result s' = None /\ Transfer.error_ s' = None)
  \/ transfer_failed s'.
Proof.
  intros Hr He. unfold Transfer.prepareTransferNode, try_catch.
  destruct (Transfer.prepareTransfer E s cfg w) as [[s1|m] w1] eqn:Hp;
    intro H; inversion H; subst; clear H.
  - apply prepareTransfer_post in Hp. destruct Hp as (Hp & Hr' & He').
    left. split; [exact Hp|]. split; congruence.
  - right. split; [reflexivity|]. split; [left; discriminate|].
    intros r Hres. simpl in Hres. inversion Hres. reflexivity.
Qed.

Lemma transfer_with_error_failed s m :
  Transfer.result s = None -> transfer_failed (Transfer.with_error s m).
Proof.
  intro Hr. split; [reflexivity|]. split; [left; discriminate|].
  intros r Hres. simpl in Hres. congruence.
Qed.

Lemma confirmTransferNode_post s cfg w s' w' :
  Transfer.result s = None -> Transfer.error_ s = None ->
  Transfer.confirmTransferNode E s cfg w = (Ok s', w') ->
  (Transfer.phase s' = Transfer.executing
   /\ Transfer.result s' = None /\ Transfer.error_ s' = None)
  \/ transfer_failed s'.
Proof.
  intros Hr He. unfold Transfer.confirmTransferNode, try_catch.
  destruct (Transfer.confirmTransfer E s w) as [[s1|[m|r]] w1] eqn:Hc;
    [|unfold ret; intro H; inversion H; subst; right;
      now apply transfer_with_error_failed|discriminate].
  intro H. inversion H; subst; clear H.
  unfold Transfer.confirmTransfer in Hc.
  destruct (Transfer.preparedTransaction s) as [prepared|]; [|discriminate].
  apply bind_inv in Hc. destruct Hc as (answers & w2 & _ & Hc).
  destruct (negb _); unfold ret in Hc; inversion Hc; subst; clear Hc.
  - right. split; [reflexivity|]. split; [right; discriminate|].
    intros r Hres. simpl in Hres. inversion Hres. reflexivity.
  - left. now repeat split.
Qed.

Lemma executeTransfer_post s cfg w s' w' :
  Transfer.executeTransfer E s cfg w = (Ok s', w') ->
  Transfer.phase s' = Transfer.completed
  /\ Transfer.error_ s' = Transfer.error_ s
  /\ exists r, Transfer.result s' = Some r /\ Transfer.success r = true.
Proof.
  unfold Transfer.executeTransfer. intro H.
  destruct (Transfer.preparedTransaction s); [|discriminate].
  repeat unbind H. unfold ret in H. inversion H; subst.
  split; [reflexivity|]. split; [reflexivity|].
  eexists. split; reflexivity.
Qed.

Lemma executeTransferNode_post s cfg w s' w' :
  Transfer.result s = None -> Transfer.error_ s = None ->
  Transfer.executeTransferNode E s cfg w = (Ok s', w') ->
  transfer_completed s' \/ transfer_failed s'.
Proof.
  intros Hr He. unfold Transfer.executeTransferNode, try_catch.
  destruct (Transfer.executeTransfer E s cfg w) as [[s1|m] w1] eqn:Hx;
    intro H; inversion H; subst; clear H.
  - apply executeTransfer_post in Hx. destruct Hx as (Hp & He' & Hres).
    left. split; [exact Hp|]. split; [congruence|exact Hres].
  - right. now apply transfer_with_error_failed.
Qed.

Lemma transfer_failed_route s :
  transfer_failed s -> Transfer.routeTransferFlow s = Transfer.END.
Proof. intros [Hp _]. unfold Transfer.routeTransferFlow. now rewrite Hp. Qed.

Lemma transfer_completed_route s :
  transfer_completed s -> Transfer.routeTransferFlow s = Transfer.END.
Proof. intros [Hp _]. unfold Transfer.routeTransferFlow. now rewrite Hp. Qed.

Lemma runTransferFrom_execute fuel s cfg w s' w' :
  Transfer.result s = None -> Transfer.error_ s = None ->
  Transfer.runTransferFrom E fuel Transfer.ExecuteTransfer s cfg w
  = (Ok (Some s'), w') ->
  transfer_completed s' \/ transfer_failed s'.
Proof.
  intros Hr He. destruct fuel as [|fuel]; [discriminate|]. simpl. intro H.
  apply bind_inv in H. destruct H as (s1 & w1 & Hn & H).
  apply up_inv in Hn.
  apply (executeTransferNode_post _ _ _ _ _ Hr He) in Hn.
  destruct Hn as [Hc|Hf].
  - rewrite (transfer_completed_route _ Hc) in H. inversion H; subst.
    now left.
  - rewrite (transfer_failed_route _ Hf) in H. inversion H; subst.
    now right.
Qed.

Lemma runTransferFrom_confirm fuel s cfg w s' w' :
  Transfer.result s = None -> Transfer.error_ s = None ->
  Transfer.runTransferFrom E fuel Transfer.ConfirmTransfer s cfg w
  = (Ok (Some s'), w') ->
  transfer_completed s' \/ transfer_failed s'.
Proof.
  intros Hr He. destruct fuel as [|fuel]; [discriminate|]. simpl. intro H.
  apply bind_inv in H. destruct H as (s1 & w1 & Hn & H).
  apply (confirmTransferNode_post _ _ _ _ _ Hr He) in Hn.
  destruct Hn as [(Hp & Hr1 & He1)|Hf].
  - unfold Transfer.routeTransferFlow in H. rewrite Hp in H.
    eapply runTransferFrom_execute; eassumption.
  - rewrite (transfer_failed_route _ Hf) in H. inversion H; subst.
    now right.
Qed.

(** A transfer run that ends, ends completed or failed. *)
Lemma runTransfer_terminal fuel r cfg w s' w' :
  Transfer.runTransfer E fuel (Transfer.initialState r) cfg w
  = (Ok (Some s'), w') ->
  transfer_completed s' \/ transfer_failed s'.
Proof.
  unfold Transfer.runTransfer. destruct fuel as [|fuel]; [discriminate|].
  simpl. intro H.
  apply bind_inv in H. destruct H as (s1 & w1 & Hn & H).
  apply up_inv in Hn.
  apply prepareTransferNode_post in Hn; [|reflexivity|reflexivity].
  destruct Hn as [(Hp & Hr1 & He1)|Hf].
  - unfold Transfer.routeTransferFlow in H. rewrite Hp in H.
    eapply runTransferFrom_confirm; eassumption.
  - rewrite (transfer_failed_route _ Hf) in H. inversion H; subst.
    now right.
Qed.

Lemma runTransferFrom_execute_returns n s cfg w w' :
  Transfer.result s = None -> Transfer.error_ s = None ->
  Transfer.runTransferFrom E (S n) Transfer.ExecuteTransfer s cfg w
  <> (Ok None, w').
Proof.
  intros Hr He. simpl. unfold bind.
  destruct (up (Transfer.executeTransferNode E s cfg) w)
    as [[s1|e] w1] eqn:Hn; [|discriminate].
  apply up_inv in Hn.
  apply (executeTransferNode_post _ _ _ _ _ Hr He) in Hn.
  destruct Hn as [Hc|Hf].
  - rewrite (transfer_completed_route _ Hc). discriminate.
  - rewrite (transfer_failed_route _ Hf). discriminate.
Qed.

Lemma runTransferFrom_confirm_returns n s cfg w w' :
  Transfer.result s = None -> Transfer.error_ s = None ->
  Transfer.runTransferFrom E (S (S n)) Transfer.ConfirmTransfer s cfg w
  <> (Ok None, w').
Proof.
  intros Hr He. cbn [Transfer.runTransferFrom Transfer.runNode].
  unfold bind at 1.
  destruct (Transfer.confirmTransferNode E s cfg w)
    as [[s1|e] w1] eqn:Hn; [|discriminate].
  apply (confirmTransferNode_post _ _ _ _ _ Hr He) in Hn.
  destruct Hn as [(Hp & Hr1 & He1)|Hf].
  - unfold Transfer.routeTransferFlow at 1. rewrite Hp.
    now apply runTransferFrom_execute_returns.
  - rewrite (transfer_failed_route _ Hf). discriminate.
Qed.

(** Three steps are enough for a transfer run as well. *)
Lemma runTransfer_returns n r cfg w w' :
  Transfer.runTransfer E (3 + n) (Transfer.initialState r) cfg w
  <> (Ok None, w').
Proof.
  unfold Transfer.runTransfer.
  cbn [Nat.add Transfer.runTransferFrom Transfer.runNode]. unfold bind at 1.
  destruct (up (Transfer.prepareTransferNode E (Transfer.initialState r) cfg) w)
    as [[s1|e] w1] eqn:Hn; [|discriminate].
  apply up_inv in Hn.
  apply prepareTransferNode_post in Hn; [|reflexivity|reflexivity].
  destruct Hn as [(Hp & Hr1 & He1)|Hf].
  - unfold Transfer.routeTransferFlow at 1. rewrite Hp.
    now apply runTransferFrom_confirm_returns.
  - rewrite (transfer_failed_route _ Hf). discriminate.
Qed.

End TransferTerminal.

(** C2 (amended).  A run of the swap or of the transfer workflow that
    ends, ends in [completed] or in [error], and three steps suffice for
    it to end or suspend.  A completed state has a success result and no
    error.  An error state never has a success result and has an error
    message or a failure result: a failed swap always carries an error
    message, with either no result or the failure result built from that
    message; a failed transfer carries an error message, a failure
    result, or both. *)
Theorem terminal_state_result_error (E : Env) :
  (forall fuel msgs s cfg w s' w',
     runSwap E fuel msgs s cfg w = (Ok (Some s'), w') ->
     swap_completed s' \/ swap_failed s')
  /\ (forall fuel r cfg w s' w',
        Transfer.runTransfer E fuel (Transfer.initialState r) cfg w
        = (Ok (Some s'), w') ->
        transfer_completed s' \/ transfer_failed s')
  /\ (forall n msgs s cfg w w',
        runSwap E (3 + n) msgs s cfg w <> (Ok None, w'))
  /\ (forall n r cfg w w',
        Transfer.runTransfer E (3 + n) (Transfer.initialState r) cfg w
        <> (Ok None, w')).
Proof.
  split; [apply runSwap_terminal|].
  split; [apply runTransfer_terminal|].
  split; [apply runSwap_returns|apply runTransfer_returns].
Qed.

(** C2 as stated fails.  A transfer prepared without an authenticated
    user ends in [error] with both an error message and a result; a
    transfer the user declines ends in [error] with a result and no
    error message; a swap whose submission the ledger rejects ends in
    [error] with both. *)
Lemma terminal_error_state_carries_result :
  (exists s,
      Transfer.runTransfer (Sample.env (Sample.quiet 1500000000)) 3
        (Transfer.initialState (sampleTransfer "1")) Failures.anonymous tt
      = (Ok (Some s), tt)
      /\ Transfer.phase s = Transfer.error
      /\ Transfer.error_ s <> None /\ Transfer.result s <> None
      /\ ~ exactly_one (Transfer.result s) (Transfer.error_ s))
  /\ (exists s,
        Transfer.runTransfer (Sample.env (Failures.answering Failures.declined))
          3 (Transfer.initialState (sampleTransfer "1")) Sample.config tt
        = (Ok (Some s), tt)
        /\ Transfer.phase s = Transfer.error
        /\ Transfer.error_ s = None /\ Transfer.result s <> None)
  /\ (exists s,
        runSwap (Sample.env Failures.rejecting) 3 []
          (initialSwapState Market.pairRequest)
          (Sample.configWithIndex (VNum (ofZ 0))) tt
        = (Ok (Some s), tt)
        /\ phase s = error
        /\ error_ s <> None /\ result s <> None
        /\ ~ exactly_one (result s) (error_ s)).
Proof.
  split; [|split].
  - eexists. split; [vm_compute; reflexivity|].
    split; [reflexivity|]. split; [discriminate|]. split; [discriminate|].
    intros [[_ H]|[H _]]; discriminate.
  - eexists. split; [vm_compute; reflexivity|].
    split; [reflexivity|]. split; [reflexivity|discriminate].
  - eexists. split; [vm_compute; reflexivity|].
    split; [reflexivity|]. split; [discriminate|]. split; [discriminate|].
    intros [[_ H]|[H _]]; discriminate.
Qed.

(** The theorem at work: an accepted transfer ends completed, the swap
    against the rejecting ledger ends failed. *)
Lemma terminal_state_result_error_witness :
  (exists s,
      Transfer.runTransfer (Sample.env (Failures.answering Failures.accepted))
        3 (Transfer.initialState (sampleTransfer "1")) Sample.config tt
      = (Ok (Some s), tt)
      /\ (transfer_completed s \/ transfer_failed s))
  /\ (exists s,
        runSwap (Sample.env Failures.rejecting) 3 []
          (initialSwapState Market.pairRequest)
          (Sample.configWithIndex (VNum (ofZ 0))) tt
        = (Ok (Some s), tt)
        /\ (swap_completed s \/ swap_failed s)).
Proof.
  split.
  - eexists. split; [vm_compute; reflexivity|].
    apply (proj1 (proj2 (terminal_state_result_error
                           (Sample.env (Failures.answering Failures.accepted))))
             3%nat (sampleTransfer "1") Sample.config tt _ tt).
    vm_compute. reflexivity.
  - eexists. split; [vm_compute; reflexivity|].
    apply (proj1 (terminal_state_result_error (Sample.env Failures.rejecting))
             3%nat [] (initialSwapState Market.pairRequest)
             (Sample.configWithIndex (VNum (ofZ 0))) tt _ tt).
    vm_compute. reflexivity.
Defined.
(** ** Double precision: the specification against the machine

    [F64] computes with the standard library's specification of
    binary64.  On the figures the properties above quote, the
    processor's own double-precision arithmetic gives the same doubles. *)

Section Binary64.
Import PrimFloat.
Local Open Scope float_scope.
#[local] Set Warnings "-inexact-float".

(** A decimal literal is read as the double nearest to it. *)
Example literals_binary64 :
  FloatOps.Prim2SF 0.9975 = F64.toSF (Fin 0.9975)
  /\ FloatOps.Prim2SF 0.0025 = F64.toSF (Fin 0.0025)
  /\ FloatOps.Prim2SF 0.5 = F64.toSF (Fin 0.5)
  /\ FloatOps.Prim2SF 0.0001245 = F64.toSF (Fin 0.0001245)
  /\ FloatOps.Prim2SF 0.07 = F64.toSF (Fin 0.07).
Proof. repeat split; vm_compute; reflexivity. Qed.

(** [1000000 * (1 - 0.5 / 100)] is 995000, and [1000000 * (1 - 7 / 100)]
    is the double just below 930000. *)
Example minAmountOut_binary64 :
  PrimFloat.eqb (1000000 * (1 - 0.5 / 100)) 995000 = true
  /\ F64.ofSF (FloatOps.Prim2SF (1000000 * (1 - 0.5 / 100)))
     = F64.mul (ofZ 1000000) (F64.sub (ofZ 1) (F64.div (Fin 0.5) (ofZ 100)))
  /\ F64.ofSF (FloatOps.Prim2SF (1000000 * (1 - 7 / 100)))
     = F64.mul (ofZ 1000000) (F64.sub (ofZ 1) (F64.div (ofZ 7) (ofZ 100)))
  /\ PrimFloat.ltb (1000000 * (1 - 7 / 100)) 930000 = true
  /\ PrimFloat.leb 929999 (1000000 * (1 - 7 / 100)) = true.
Proof. repeat split; vm_compute; reflexivity. Qed.

(** The constant-product quotient for 100000000 in and reserves
    239400000000 and 93639000000 is a double below 39000000. *)
Example getAmountOut_binary64 :
  let withFee := 100000000 * 0.9975 in
  let quotient := withFee * 93639000000 / (239400000000 * 1 + withFee) in
  F64.ofSF (FloatOps.Prim2SF quotient)
  = F64.div
      (F64.mul (F64.mul (ofZ 100000000) (Fin 0.9975)) (ofZ 93639000000))
      (F64.add (F64.mul (ofZ 239400000000) (ofZ 1))
         (F64.mul (ofZ 100000000) (Fin 0.9975)))
  /\ PrimFloat.ltb quotient 39000000 = true
  /\ PrimFloat.leb 38999999 quotient = true.
Proof. repeat split; vm_compute; reflexivity. Qed.

(** The unclamped transfer estimate of 1000 * 6000 octas exceeds 0.05,
    and that of 1000 * 20000 octas exceeds 0.1. *)
Example transfer_gas_binary64 :
  PrimFloat.ltb 0.05 (1000 * 6000 / 100000000) = true
  /\ PrimFloat.ltb 0.1 (1000 * 20000 / 100000000) = true.
Proof. split; reflexivity. Qed.

(** [0.01 * 10 ** 8] is 1000000 and [10 * 10 ** 8] is 1000000000;
    [0.0001245 * 10 ** 6] is a double below 124.5. *)
Example swapAmount_binary64 :
  PrimFloat.eqb (0.01 * 100000000) 1000000 = true
  /\ PrimFloat.eqb (10 * 100000000) 1000000000 = true
  /\ F64.ofSF (FloatOps.Prim2SF (0.0001245 * 1000000))
     = F64.mul (Fin 0.0001245) (pow10 6)
  /\ PrimFloat.ltb (0.0001245 * 1000000) 124.5 = true.
Proof. repeat split; vm_compute; reflexivity. Qed.

(** [0.07 * 100000000] is a double above 7000000, and the fallback
    quote [1000000 * 0.9] is 900000. *)
Example gasReserve_binary64 :
  F64.ofSF (FloatOps.Prim2SF (0.07 * 100000000))
  = F64.mul (Fin 0.07) OCTAS_PER_APT
  /\ PrimFloat.ltb 7000000 (0.07 * 100000000) = true
  /\ PrimFloat.eqb (1000000 * 0.9) 900000 = true.
Proof. repeat split; vm_compute; reflexivity. Qed.

End Binary64.

(** ** The pair cache of the path-routed adapter *)

Section StringOrder.

Lemma ltb_irrefl (s : string) : (s <? s)%string = false.
Proof.
  unfold String.ltb. pose proof (String.compare_antisym s s) as H.
  destruct (s ?= s)%string; simpl in H; congruence.
Qed.

Lemma ltb_asym (a b : string) :
  (a <? b)%string = true -> (b <? a)%string = false.
Proof.
  unfold String.ltb. rewrite (String.compare_antisym a b).
  destruct (b ?= a)%string; simpl; congruence.
Qed.

Lemma ltb_total (a b : string) :
  (a <? b)%string = false -> (b <? a)%string = false -> a = b.
Proof.
  unfold String.ltb. rewrite (String.compare_antisym a b).
  destruct (b ?= a)%string eqn:Hc; simpl; try congruence.
  intros _ _. symmetry. now apply String.compare_eq_iff.
Qed.

(** Ordering a pair of strings forgets which came first. *)
Lemma sorted_pair_symmetric {A} (f : string -> string -> A) (a b : string) :
  (let (x, y) := if (a <? b)%string then (a, b) else (b, a) in f x y)
  = (let (x, y) := if (b <? a)%string then (b, a) else (a, b) in f x y).
Proof.
  destruct (a <? b)%string eqn:Hab, (b <? a)%string eqn:Hba; try reflexivity.
  - now rewrite (ltb_asym _ _ Hab) in Hba.
  - now rewrite (ltb_total _ _ Hab Hba).
Qed.

End StringOrder.

Section PairCacheFacts.
Import PancakeAdapter CacheSpec.

Lemma lookup_assign_same key e c : lookup key (assign key e c) = Some e.
Proof.
  induction c as [|[k e'] c IH]; simpl.
  - now rewrite String.eqb_refl.
  - destruct (k =? key)%string eqn:Hk; simpl.
    + now rewrite String.eqb_refl.
    + now rewrite Hk.
Qed.

Lemma lookup_assign_other key key' e c :
  key' <> key -> lookup key' (assign key e c) = lookup key' c.
Proof.
  intro Hne. induction c as [|[k e'] c IH]; simpl.
  - destruct (key =? key')%string eqn:Hk; [|reflexivity].
    apply String.eqb_eq in Hk. congruence.
  - destruct (k =? key)%string eqn:Hk; simpl.
    + apply String.eqb_eq in Hk. subst k.
      destruct (key =? key')%string eqn:Hk'; [|reflexivity].
      apply String.eqb_eq in Hk'. congruence.
    + now rewrite IH.
Qed.

Lemma lookup_delete_same key c : lookup key (delete key c) = None.
Proof.
  induction c as [|[k e] c IH]; simpl; [reflexivity|].
  destruct (k =? key)%string eqn:Hk; simpl; [exact IH|].
  now rewrite Hk.
Qed.

Lemma lookup_delete_other key key' c :
  key' <> key -> lookup key' (delete key c) = lookup key' c.
Proof.
  intro Hne. induction c as [|[k e] c IH]; simpl; [reflexivity|].
  destruct (k =? key)%string eqn:Hk; simpl.
  - apply String.eqb_eq in Hk. subst k.
    destruct (key =? key')%string eqn:Hk'; [|exact IH].
    apply String.eqb_eq in Hk'. congruence.
  - now rewrite IH.
Qed.

Lemma lookup_delete_all ks : forall c key,
  lookup key (fold_left (fun c k => delete k c) ks c)
  = if in_dec string_dec key ks then None else lookup key c.
Proof.
  induction ks as [|k ks IH]; intros c key; simpl; [reflexivity|].
  rewrite IH. destruct (string_dec k key) as [->|Hne].
  - destruct (in_dec string_dec key ks); [reflexivity|].
    apply lookup_delete_same.
  - destruct (in_dec string_dec key ks); [reflexivity|].
    apply lookup_delete_other. congruence.
Qed.

Lemma lookup_In_keys key c e : lookup key c = Some e -> In key (keys c).
Proof.
  intro Hl. unfold keys. apply nodup_In.
  induction c as [|[k e'] c IH]; simpl in *; [discriminate|].
  destruct (k =? key)%string eqn:Hk.
  - left. now apply String.eqb_eq.
  - right. now apply IH.
Qed.

Lemma lookup_cleaned t c key :
  lookup key (fold_left (fun c k => delete k c) (expiredAt t c) c)
  = match lookup key c with
    | Some e =>
        if t - ce_timestamp e >=? PAIR_CACHE_DURATION then None else Some e
    | None => None
    end.
Proof.
  rewrite lookup_delete_all.
  destruct (in_dec string_dec key (expiredAt t c)) as [Hin|Hnin].
  - unfold expiredAt in Hin. apply filter_In in Hin. destruct Hin as [_ Hin].
    destruct (lookup key c); [now rewrite Hin|reflexivity].
  - destruct (lookup key c) as [e|] eqn:Hl; [|reflexivity].
    destruct (t - ce_timestamp e >=? PAIR_CACHE_DURATION) eqn:Hexp;
      [|reflexivity].
    exfalso. apply Hnin. unfold expiredAt. apply filter_In.
    split; [now apply lookup_In_keys with e|]. now rewrite Hl.
Qed.

Variable H : Host.

Lemma cleanExpiredCache_run (s : State H) :
  cleanExpiredCache H s
  = (Ok tt,
     {| memory :=
          {| pairCache :=
               fold_left (fun c k => delete k c)
                 (expiredAt (fst (Date_now H (outside s)))
                    (pairCache (memory s)))
                 (pairCache (memory s));
             tokenListCache := tokenListCache (memory s) |};
        outside := snd (Date_now H (outside s)) |}).
Proof.
  unfold cleanExpiredCache, bind, dateNow, readPairCache, writePairCache.
  destruct (Date_now H (outside s)) as [t w]. reflexivity.
Qed.

(** X1.  A clean-up of the pair cache deletes exactly the entries that
    are thirty minutes old or older on the clock reading it takes: such
    a key has no entry afterwards, every other key keeps the entry it
    had, and no key gains one.  The token list cache is left alone. *)
Theorem cleanExpiredCache_removes_expired (s : State H) :
  exists s',
    cleanExpiredCache H s = (Ok tt, s')
    /\ tokenListCache (memory s') = tokenListCache (memory s)
    /\ forall key,
         lookup key (pairCache (memory s'))
         = match lookup key (pairCache (memory s)) with
           | Some e =>
               if fst (Date_now H (outside s)) - ce_timestamp e
                  >=? PAIR_CACHE_DURATION
               then None else Some e
           | None => None
           end.
Proof.
  eexists. split; [apply cleanExpiredCache_run|].
  split; [reflexivity|]. intro key. cbn [memory pairCache].
  apply lookup_cleaned.
Qed.

Lemma getCachedPairData_run key (s : State H) :
  exists s1,
    maybeCleaned H (pairCache (memory s)) (pairCache (memory s1))
    /\ tokenListCache (memory s1) = tokenListCache (memory s)
    /\ getCachedPairData H key s
       = match lookup key (pairCache (memory s1)) with
         | Some cached =>
             (Ok (if fst (Date_now H (outside s1)) - ce_timestamp cached
                     <? PAIR_CACHE_DURATION
                  then Some (ce_data cached) else None),
              {| memory := memory s1;
                 outside := snd (Date_now H (outside s1)) |})
         | None => (Ok None, s1)
         end.
Proof.
  unfold getCachedPairData, bind, mathRandom, readPairCache, ret, dateNow.
  destruct (Math_random H (outside s)) as [r w].
  destruct (negb (Qle_bool 0.1 r)).
  - rewrite cleanExpiredCache_run. cbn [memory outside pairCache].
    exists {| memory :=
                {| pairCache :=
                     fold_left (fun c k => delete k c)
                       (expiredAt (fst (Date_now H w)) (pairCache (memory s)))
                       (pairCache (memory s));
                   tokenListCache := tokenListCache (memory s) |};
              outside := snd (Date_now H w) |}.
    cbn [memory outside pairCache tokenListCache].
    split; [right; exists w; reflexivity|]. split; [reflexivity|].
    destruct (lookup key _) as [e|]; [|reflexivity]. simpl.
    destruct (Date_now H (snd (Date_now H w))) as [t w1]. cbn [fst snd].
    now destruct (t - ce_timestamp e <? PAIR_CACHE_DURATION).
  - exists {| memory := memory s; outside := w |}.
    cbn [memory outside pairCache].
    split; [now left|]. split; [reflexivity|].
    destruct (lookup key _) as [e|]; [|reflexivity]. simpl.
    destruct (Date_now H w) as [t w1]. cbn [fst snd].
    now destruct (t - ce_timestamp e <? PAIR_CACHE_DURATION).
Qed.

Lemma setCachedPairData_run key data (s : State H) :
  setCachedPairData H key data s
  = (Ok tt,
     {| memory :=
          {| pairCache :=
               assign key {| ce_data := data;
                             ce_timestamp := fst (Date_now H (outside s)) |}
                 (pairCache (memory s));
             tokenListCache := tokenListCache (memory s) |};
        outside := snd (Date_now H (outside s)) |}).
Proof.
  unfold setCachedPairData, bind, dateNow, readPairCache, writePairCache.
  destruct (Date_now H (outside s)) as [t w]. reflexivity.
Qed.

Lemma maybeCleaned_None c c' key :
  maybeCleaned H c c' -> lookup key c = None -> lookup key c' = None.
Proof.
  intros [->|[w ->]] Hl; [exact Hl|]. now rewrite lookup_cleaned, Hl.
Qed.

(** Nothing enters the cache by cleaning. *)
Lemma maybeCleaned_sub c c' key e :
  maybeCleaned H c c' -> lookup key c' = Some e -> lookup key c = Some e.
Proof.
  intros [->|[w ->]] Hl; [exact Hl|].
  rewrite lookup_cleaned in Hl. destruct (lookup key c); [|discriminate].
  now destruct (_ >=? _).
Qed.

(** A cache read is one run: its outcome and the state it leaves. *)
Lemma getCachedPairData_inv key (s : State H) :
  exists r s',
    getCachedPairData H key s = (Ok r, s')
    /\ maybeCleaned H (pairCache (memory s)) (pairCache (memory s'))
    /\ tokenListCache (memory s') = tokenListCache (memory s)
    /\ (forall d, r = Some d ->
          exists e, lookup key (pairCache (memory s')) = Some e
                    /\ ce_data e = d).
Proof.
  destruct (getCachedPairData_run key s) as (s1 & Hc & Ht & ->).
  destruct (lookup key (pairCache (memory s1))) as [e|] eqn:Hl.
  - eexists. eexists. split; [reflexivity|]. cbn [memory].
    split; [exact Hc|]. split; [exact Ht|].
    intros d Hd. exists e. split; [exact Hl|].
    destruct (_ <? _); now inversion Hd.
  - exists None, s1. split; [reflexivity|]. split; [exact Hc|].
    split; [exact Ht|]. discriminate.
Qed.

(** What a cache read answers, by the readings it takes. *)
Lemma getCachedPairData_answer key (s : State H) :
  fst (getCachedPairData H key s)
  = Ok (match lookup key (pairCache (memory s)) with
        | Some e =>
            if cleans H (outside s)
               && (cleaningTime H (outside s) - ce_timestamp e
                   >=? PAIR_CACHE_DURATION)
            then None
            else if judgingTime H (outside s) - ce_timestamp e
                    <? PAIR_CACHE_DURATION
            then Some (ce_data e) else None
        | None => None
        end).
Proof.
  unfold getCachedPairData, bind, mathRandom, readPairCache, ret, dateNow.
  unfold judgingTime, judgingWorld, cleaningTime, cleans.
  destruct (Math_random H (outside s)) as [r w]. cbn [fst snd].
  destruct (negb (Qle_bool 0.1 r)).
  - rewrite cleanExpiredCache_run. cbn [memory outside pairCache andb].
    rewrite lookup_cleaned.
    destruct (lookup key (pairCache (memory s))) as [e|]; [|reflexivity].
    destruct (fst (Date_now H w) - ce_timestamp e >=? PAIR_CACHE_DURATION);
      [reflexivity|].
    cbn [outside].
    destruct (Date_now H (snd (Date_now H w))) as [t w1]. cbn [fst snd].
    now destruct (t - ce_timestamp e <? PAIR_CACHE_DURATION).
  - cbn [memory outside pairCache andb].
    destruct (lookup key (pairCache (memory s))) as [e|]; [|reflexivity].
    cbn [outside].
    destruct (Date_now H w) as [t w1]. cbn [fst snd].
    now destruct (t - ce_timestamp e <? PAIR_CACHE_DURATION).
Qed.

Lemma getCachedPairData_fresh key (s : State H) e :
  lookup key (pairCache (memory s)) = Some e ->
  fresh_at H (outside s) e ->
  exists s',
    getCachedPairData H key s = (Ok (Some (ce_data e)), s')
    /\ maybeCleaned H (pairCache (memory s)) (pairCache (memory s'))
    /\ tokenListCache (memory s') = tokenListCache (memory s).
Proof.
  intros Hl [Hclean Hjudge].
  destruct (getCachedPairData_inv key s) as (r & s' & Hg & Hc & Ht & _).
  exists s'. split; [|split; [exact Hc|exact Ht]].
  pose proof (getCachedPairData_answer key s) as Ha.
  rewrite Hg, Hl in Ha. cbn [fst] in Ha. rewrite Hg. f_equal.
  rewrite Ha. f_equal.
  destruct (cleans H (outside s)) eqn:Hcl; cbn [andb].
  - specialize (Hclean eq_refl).
    assert (Hge : (cleaningTime H (outside s) - ce_timestamp e
                   >=? PAIR_CACHE_DURATION) = false)
      by (unfold Z.geb; destruct (Z.compare_spec
            (cleaningTime H (outside s) - ce_timestamp e)
            PAIR_CACHE_DURATION); try reflexivity; lia).
    rewrite Hge. apply Z.ltb_lt in Hjudge. now rewrite Hjudge.
  - apply Z.ltb_lt in Hjudge. now rewrite Hjudge.
Qed.

Lemma getCachedPairData_stale key (s : State H) e :
  lookup key (pairCache (memory s)) = Some e ->
  stale_at H (outside s) e ->
  exists s', getCachedPairData H key s = (Ok None, s').
Proof.
  intros Hl Hstale.
  destruct (getCachedPairData_inv key s) as (r & s' & Hg & _).
  exists s'.
  pose proof (getCachedPairData_answer key s) as Ha.
  rewrite Hg, Hl in Ha. cbn [fst] in Ha. rewrite Hg. f_equal.
  rewrite Ha. f_equal.
  destruct Hstale as [[Hcl Hge]|Hge].
  - rewrite Hcl. cbn [andb].
    assert (Hg' : (cleaningTime H (outside s) - ce_timestamp e
                   >=? PAIR_CACHE_DURATION) = true)
      by (apply Z.geb_le; lia).
    now rewrite Hg'.
  - destruct (cleans H (outside s)
              && (cleaningTime H (outside s) - ce_timestamp e
                  >=? PAIR_CACHE_DURATION)); [reflexivity|].
    assert (Hf : (judgingTime H (outside s) - ce_timestamp e
                  <? PAIR_CACHE_DURATION) = false) by (apply Z.ltb_ge; lia).
    now rewrite Hf.
Qed.

Lemma getCachedPairData_absent key (s : State H) :
  lookup key (pairCache (memory s)) = None ->
  exists s',
    getCachedPairData H key s = (Ok None, s')
    /\ maybeCleaned H (pairCache (memory s)) (pairCache (memory s'))
    /\ tokenListCache (memory s') = tokenListCache (memory s).
Proof.
  intros Hl.
  destruct (getCachedPairData_run key s) as (s1 & Hc & Ht & ->).
  rewrite (maybeCleaned_None _ _ _ Hc Hl). now exists s1.
Qed.

(** X2.  The pair cache gives back what was stored under a key for
    thirty minutes and not longer, by the clock readings the read
    itself takes: the one of the random clean-up, when it runs, and the
    one on which the entry is judged.  Data stored with
    [setCachedPairData] is returned by the next [getCachedPairData] of
    the same key when both readings lie less than thirty minutes after
    the reading taken at storage, and is not returned when one of them
    lies thirty minutes or more after it.  The same holds of any entry
    of the cache.  A key without entry yields nothing. *)
Theorem pair_cache_round_trip (key : string) (s : State H) :
  (forall data,
     let e := {| ce_data := data;
                 ce_timestamp := fst (Date_now H (outside s)) |} in
     let w1 := snd (Date_now H (outside s)) in
     exists s1,
       setCachedPairData H key data s = (Ok tt, s1)
       /\ lookup key (pairCache (memory s1)) = Some e
       /\ outside s1 = w1
       /\ (fresh_at H w1 e ->
           exists s2, getCachedPairData H key s1 = (Ok (Some data), s2))
       /\ (stale_at H w1 e ->
           exists s2, getCachedPairData H key s1 = (Ok None, s2)))
  /\ (forall e,
        lookup key (pairCache (memory s)) = Some e ->
        (fresh_at H (outside s) e ->
         exists s',
           getCachedPairData H key s = (Ok (Some (ce_data e)), s'))
        /\ (stale_at H (outside s) e ->
            exists s', getCachedPairData H key s = (Ok None, s')))
  /\ (lookup key (pairCache (memory s)) = None ->
      exists s', getCachedPairData H key s = (Ok None, s')).
Proof.
  split; [|split].
  - intros data e w1. eexists.
    split; [apply setCachedPairData_run|].
    cbn [memory pairCache outside].
    split; [apply lookup_assign_same|]. split; [reflexivity|]. split.
    + intro Hfresh.
      match goal with
      | |- exists s2, getCachedPairData H key ?s1 = _ =>
          destruct (getCachedPairData_fresh key s1 e) as (s2 & Hget & _)
      end; [apply lookup_assign_same|exact Hfresh|].
      now exists s2.
    + intro Hstale.
      match goal with
      | |- exists s2, getCachedPairData H key ?s1 = _ =>
          apply (getCachedPairData_stale key s1 e)
      end; [apply lookup_assign_same|exact Hstale].
  - intros e Hl. split.
    + intro Hfresh.
      destruct (getCachedPairData_fresh key s e Hl Hfresh) as (s' & Hg & _).
      now exists s'.
    + intro Hstale. now apply (getCachedPairData_stale key s e).
  - intro Hl. destruct (getCachedPairData_absent key s Hl) as (s' & Hg & _).
    now exists s'.
Qed.

End PairCacheFacts.

(** The theorem at work on a clock that moves with every reading.  With
    one second between readings, and the clean-up running, what was
    stored is read back one and two seconds old.  With thirty minutes
    between readings, and no clean-up, the entry is judged when it is
    exactly thirty minutes old and is not returned. *)
Lemma pair_cache_round_trip_witness :
  (exists s1 s2,
     PancakeAdapter.setCachedPairData
       (SampleHost.tickingHost (SampleHost.net (1 # 20)) 1000) "0xpair"
       (PancakeAdapter.DExists true)
       (SampleHost.started (SampleHost.net (1 # 20)) 1000)
     = (Ok tt, s1)
     /\ PancakeAdapter.getCachedPairData
          (SampleHost.tickingHost (SampleHost.net (1 # 20)) 1000) "0xpair" s1
        = (Ok (Some (PancakeAdapter.DExists true)), s2))
  /\ (exists s1 s2,
        PancakeAdapter.setCachedPairData
          (SampleHost.tickingHost (SampleHost.net (1 # 2)) 1800000) "0xpair"
          (PancakeAdapter.DExists true)
          (SampleHost.started (SampleHost.net (1 # 2)) 1800000)
        = (Ok tt, s1)
        /\ PancakeAdapter.getCachedPairData
             (SampleHost.tickingHost (SampleHost.net (1 # 2)) 1800000)
             "0xpair" s1
           = (Ok None, s2)).
Proof.
  split.
  - destruct (proj1 (pair_cache_round_trip
                       (SampleHost.tickingHost (SampleHost.net (1 # 20)) 1000)
                       "0xpair"
                       (SampleHost.started (SampleHost.net (1 # 20)) 1000))
                (PancakeAdapter.DExists true))
      as (s1 & Hset & _ & _ & Hfresh & _).
    destruct Hfresh as [s2 Hget].
    + split; [intros _|]; vm_compute; reflexivity.
    + exists s1, s2. split; assumption.
  - destruct (proj1 (pair_cache_round_trip
                       (SampleHost.tickingHost (SampleHost.net (1 # 2))
                          1800000)
                       "0xpair"
                       (SampleHost.started (SampleHost.net (1 # 2)) 1800000))
                (PancakeAdapter.DExists true))
      as (s1 & Hset & _ & _ & _ & Hstale).
    destruct Hstale as [s2 Hget].
    + right. vm_compute. discriminate.
    + exists s1, s2. split; assumption.
Defined.

(** X3.  The cache key of a pair, the resource type of its reserves and
    the URL the reserves are fetched from do not depend on the order in
    which the two tokens are given. *)
Theorem getPairCacheKey_symmetric (H : Host)
  (resourceAccount tokenA tokenB : string) :
  PancakeAdapter.getPairCacheKey resourceAccount tokenA tokenB
  = PancakeAdapter.getPairCacheKey resourceAccount tokenB tokenA
  /\ PancakeAdapter.reserveType resourceAccount tokenA tokenB
     = PancakeAdapter.reserveType resourceAccount tokenB tokenA
  /\ PancakeAdapter.resourceUrl H resourceAccount tokenA tokenB
     = PancakeAdapter.resourceUrl H resourceAccount tokenB tokenA.
Proof.
  assert (Ht : PancakeAdapter.reserveType resourceAccount tokenA tokenB
               = PancakeAdapter.reserveType resourceAccount tokenB tokenA).
  { unfold PancakeAdapter.reserveType. cbv zeta.
    apply (sorted_pair_symmetric
             (fun x y => resourceAccount ++ "::swap::TokenPairReserve<" ++ x
                         ++ ", " ++ y ++ ">")). }
  split; [|split; [exact Ht|]].
  - unfold PancakeAdapter.getPairCacheKey.
    apply (sorted_pair_symmetric
             (fun x y => resourceAccount ++ "_" ++ x ++ "_" ++ y)).
  - unfold PancakeAdapter.resourceUrl. now rewrite Ht.
Qed.
(** A run is its outcome paired with the state it leaves. *)
Lemma run_from_fst {W E A : Type} (r : outcome E A * W) (o : outcome E A) :
  fst r = o -> r = (o, snd r).
Proof. destruct r as [o' w]. simpl. now intros ->. Qed.


(** ** The reserve lookup of the path-routed adapter *)

Section ReserveFacts.
Import PancakeAdapter CacheSpec.
Variable H : Host.

Lemma getPairCacheKey_sym (resourceAccount tokenA tokenB : string) :
  getPairCacheKey resourceAccount tokenA tokenB
  = getPairCacheKey resourceAccount tokenB tokenA.
Proof.
  unfold getPairCacheKey.
  apply (sorted_pair_symmetric
           (fun x y => resourceAccount ++ "_" ++ x ++ "_" ++ y)).
Qed.

Lemma reserveType_sym (resourceAccount tokenA tokenB : string) :
  reserveType resourceAccount tokenA tokenB
  = reserveType resourceAccount tokenB tokenA.
Proof.
  unfold reserveType. cbv zeta.
  apply (sorted_pair_symmetric
           (fun x y => resourceAccount ++ "::swap::TokenPairReserve<" ++ x
                       ++ ", " ++ y ++ ">")).
Qed.

Lemma resourceUrl_sym (resourceAccount tokenA tokenB : string) :
  resourceUrl H resourceAccount tokenA tokenB
  = resourceUrl H resourceAccount tokenB tokenA.
Proof. unfold resourceUrl. now rewrite reserveType_sym. Qed.

Lemma call_ok {A} (c : M (World H) string A) (s : State H) a w :
  c (outside s) = (Ok a, w) -> call H c s = (Ok a, landed s w).
Proof. intro Hc. unfold call. now rewrite Hc. Qed.

Lemma call_throw {A} (c : M (World H) string A) (s : State H) e w :
  c (outside s) = (Throw e, w) ->
  call H c s = (Throw (External e), landed s w).
Proof. intro Hc. unfold call. now rewrite Hc. Qed.

Lemma setCachedPairData_stored key data (s : State H) :
  setCachedPairData H key data s = (Ok tt, stored s key data (outside s)).
Proof. apply setCachedPairData_run. Qed.

(** The reserves a resource gives for the direction asked. *)
Lemma fetchReserves_inv r a b (s : State H) res s1 :
  fetchReserves H r a b s = (Ok res, s1) ->
  exists resp w data,
    ext_fetch_resource H (resourceUrl H r a b) (outside s) = (Ok resp, w)
    /\ rs_status resp = 200
    /\ rs_json resp = Ok (Some data)
    /\ is_undefined (reserve_x data) = false
    /\ is_undefined (reserve_y data) = false
    /\ res = (if (canonical b <? canonical a)%string
              then {| reserve_in := toNumber H (reserve_y data);
                      reserve_out := toNumber H (reserve_x data) |}
              else {| reserve_in := toNumber H (reserve_x data);
                      reserve_out := toNumber H (reserve_y data) |})
    /\ s1 = stored (landed s w) (getPairCacheKey r a b) (DReserves res) w.
Proof.
  unfold fetchReserves. cbv zeta. unfold bind at 1, call.
  destruct (ext_fetch_resource H (resourceUrl H r a b) (outside s))
    as [[resp|e] w] eqn:Hf; [|discriminate].
  destruct (rs_status resp =? 404) eqn:H404; [discriminate|].
  destruct (rs_status resp =? 200) eqn:H200; [|discriminate]. cbn [negb].
  destruct (rs_json resp) as [[data|]|e] eqn:Hj; try discriminate.
  destruct (is_undefined (reserve_x data)) eqn:Hx; [discriminate|].
  destruct (is_undefined (reserve_y data)) eqn:Hy; [discriminate|].
  cbn [orb]. unfold bind. rewrite setCachedPairData_run. unfold ret.
  intro Heq. inversion Heq; subst. clear Heq.
  exists resp, w, data. apply Z.eqb_eq in H200.
  repeat split; try assumption; reflexivity.
Qed.

Lemma fetchReserves_fails r a b (s : State H) m s1 :
  fetchReserves H r a b s = (Throw m, s1) ->
  memory s1 = memory s /\ reserve_failure H a b m.
Proof.
  unfold fetchReserves, reserve_failure. cbv zeta. unfold bind at 1, call.
  destruct (ext_fetch_resource H (resourceUrl H r a b) (outside s))
    as [[resp|e] w] eqn:Hf.
  2:{ intro Heq. inversion Heq; subst. split; [reflexivity|].
      do 4 right. now exists e. }
  destruct (rs_status resp =? 404) eqn:H404.
  { unfold throw. intro Heq. inversion Heq; subst.
    split; [reflexivity|]. now left. }
  destruct (rs_status resp =? 200) eqn:H200; cbn [negb].
  2:{ unfold throw. intro Heq. inversion Heq; subst.
      split; [reflexivity|]. right. left. now exists (rs_status resp). }
  destruct (rs_json resp) as [[data|]|e] eqn:Hj.
  - destruct (is_undefined (reserve_x data) || is_undefined (reserve_y data)).
    + unfold throw. intro Heq. inversion Heq; subst.
      split; [reflexivity|]. do 3 right. now left.
    + unfold bind. rewrite setCachedPairData_run. discriminate.
  - unfold throw. intro Heq. inversion Heq; subst.
    split; [reflexivity|]. do 2 right. now left.
  - unfold throw. intro Heq. inversion Heq; subst.
    split; [reflexivity|]. do 4 right. now exists e.
Qed.

Lemma fetchReserves_served r a b (s : State H) resp w data :
  ext_fetch_resource H (resourceUrl H r a b) (outside s) = (Ok resp, w) ->
  rs_status resp = 200 ->
  rs_json resp = Ok (Some data) ->
  is_undefined (reserve_x data) = false ->
  is_undefined (reserve_y data) = false ->
  let res := if (canonical b <? canonical a)%string
             then {| reserve_in := toNumber H (reserve_y data);
                     reserve_out := toNumber H (reserve_x data) |}
             else {| reserve_in := toNumber H (reserve_x data);
                     reserve_out := toNumber H (reserve_y data) |} in
  fetchReserves H r a b s
  = (Ok res, stored (landed s w) (getPairCacheKey r a b) (DReserves res) w).
Proof.
  intros Hf Hs Hj Hx Hy res.
  unfold fetchReserves. cbv zeta. unfold bind at 1, call.
  rewrite Hf, Hs. cbn [Z.eqb Pos.eqb negb]. rewrite Hj, Hx, Hy. cbn [orb].
  unfold bind. rewrite setCachedPairData_run. reflexivity.
Qed.

(** What [getReserves] does after the cache was read. *)
Lemma getReserves_inv r a b (s : State H) o s1 :
  getReserves H r a b s = (o, s1) ->
  exists s',
    maybeCleaned H (pairCache (memory s)) (pairCache (memory s'))
    /\ tokenListCache (memory s') = tokenListCache (memory s)
    /\ ((exists e,
           lookup (getPairCacheKey r a b) (pairCache (memory s')) = Some e
           /\ truthyData (ce_data e) = true
           /\ o = Ok (asReserves (ce_data e)) /\ s1 = s')
        \/ fetchReserves H r a b s' = (o, s1)).
Proof.
  unfold getReserves. cbv zeta. unfold bind at 1.
  destruct (getCachedPairData_inv H (getPairCacheKey r a b) s)
    as (c & s' & Hg & Hc & Ht & Hd).
  rewrite Hg. intro Hrest. exists s'. split; [exact Hc|]. split; [exact Ht|].
  destruct c as [d|]; [|now right].
  destruct (truthyData d) eqn:Htr; [|now right].
  left. destruct (Hd d eq_refl) as (e & He & <-).
  exists e. unfold ret in Hrest. inversion Hrest; subst. now repeat split.
Qed.

Lemma getReserves_hit r a b (s : State H) e :
  lookup (getPairCacheKey r a b) (pairCache (memory s)) = Some e ->
  truthyData (ce_data e) = true ->
  fresh_at H (outside s) e ->
  exists s', getReserves H r a b s = (Ok (asReserves (ce_data e)), s').
Proof.
  intros Hl Htr Hfresh.
  destruct (getCachedPairData_fresh H _ s e Hl Hfresh) as (s' & Hg & _).
  exists s'. unfold getReserves. cbv zeta. rewrite (bind_ok _ _ Hg).
  now rewrite Htr.
Qed.

(** X4.  A successful reserve lookup leaves, under the key of the pair,
    a cache entry that holds its result.  When that entry is less than
    thirty minutes old on the clock readings the next lookup takes, a
    lookup for the same two tokens in the opposite order returns the
    same reserves as they stand, input side and output side not
    exchanged, whatever the network would answer now. *)
Theorem getReserves_cache_ignores_direction
  (resourceAccount tokenA tokenB : string) (s : State H) res s1 :
  getReserves H resourceAccount tokenA tokenB s = (Ok res, s1) ->
  exists e,
    lookup (getPairCacheKey resourceAccount tokenA tokenB)
      (pairCache (memory s1)) = Some e
    /\ asReserves (ce_data e) = res
    /\ (fresh_at H (outside s1) e ->
        exists s2,
          getReserves H resourceAccount tokenB tokenA s1 = (Ok res, s2)).
Proof.
  intro Hrun.
  assert (He : exists e,
             lookup (getPairCacheKey resourceAccount tokenA tokenB)
               (pairCache (memory s1)) = Some e
             /\ truthyData (ce_data e) = true
             /\ asReserves (ce_data e) = res).
  { apply getReserves_inv in Hrun.
    destruct Hrun as (s' & _ & _ & [(e & He & Htr & Ho & ->)|Hfetch]).
    - exists e. inversion Ho. now repeat split.
    - apply fetchReserves_inv in Hfetch.
      destruct Hfetch as (resp & w & data & _ & _ & _ & _ & _ & _ & ->).
      eexists. split; [apply lookup_assign_same|]. now split. }
  destruct He as (e & He & Htr & Hres). exists e.
  split; [exact He|]. split; [exact Hres|]. intro Hfresh.
  rewrite getPairCacheKey_sym in He.
  destruct (getReserves_hit _ _ _ _ _ He Htr Hfresh) as (s2 & Hhit).
  exists s2. now rewrite Hhit, Hres.
Qed.

Lemma ltb_flip (a b : string) :
  a <> b -> (b <? a)%string = negb (a <? b)%string.
Proof.
  intro Hne. destruct (a <? b)%string eqn:Hab; simpl.
  - now apply ltb_asym.
  - destruct (b <? a)%string eqn:Hba; [reflexivity|].
    exfalso. apply Hne. now apply ltb_total.
Qed.

(** X5.  On a cache miss the reserves are oriented by the direction
    asked: when the cache holds nothing for the pair and the network
    serves the pair's resource, the lookups for the two orders of two
    different tokens, started from the same state, return the same two
    reserves with input side and output side exchanged. *)
Theorem fresh_reserves_follow_direction
  (resourceAccount tokenA tokenB : string) (s : State H) resp :
  canonical tokenA <> canonical tokenB ->
  lookup (getPairCacheKey resourceAccount tokenA tokenB)
    (pairCache (memory s)) = None ->
  (forall w, exists w',
      ext_fetch_resource H (resourceUrl H resourceAccount tokenA tokenB) w
      = (Ok resp, w')) ->
  forall res s1,
    getReserves H resourceAccount tokenA tokenB s = (Ok res, s1) ->
    exists s2,
      getReserves H resourceAccount tokenB tokenA s
      = (Ok (mirrored res), s2).
Proof.
  intros Hne Hcold Hnet res s1 Hrun.
  destruct (getCachedPairData_absent H _ s Hcold) as (s' & Hg & _).
  unfold getReserves in Hrun. cbv zeta in Hrun.
  rewrite (bind_ok _ _ Hg) in Hrun.
  apply fetchReserves_inv in Hrun.
  destruct Hrun as (resp' & w & data & Hf & Hs & Hj & Hx & Hy & Hres & _).
  destruct (Hnet (outside s')) as (w' & Hf').
  rewrite Hf' in Hf. inversion Hf; subst resp' w'. clear Hf.
  unfold getReserves. cbv zeta.
  rewrite <- (getPairCacheKey_sym resourceAccount tokenA tokenB).
  rewrite (bind_ok _ _ Hg).
  rewrite (resourceUrl_sym resourceAccount tokenA tokenB) in Hf'.
  eexists.
  rewrite (fetchReserves_served resourceAccount tokenB tokenA s' resp w data
             Hf' Hs Hj Hx Hy).
  f_equal. f_equal. rewrite Hres. unfold mirrored.
  rewrite (ltb_flip _ _ Hne).
  now destruct (canonical tokenA <? canonical tokenB)%string.
Qed.

(** X6.  A reserve lookup that fails stores nothing: every entry the
    pair cache holds afterwards was there before, and the token list
    cache is as it was.  It fails with one of five errors: the pair's
    resource was not found, another HTTP status, a resource without
    data, a resource without one of the two reserves, or the error of
    the network call itself. *)
Theorem failed_getReserves_caches_nothing
  (resourceAccount tokenA tokenB : string) (s : State H) m s1 :
  getReserves H resourceAccount tokenA tokenB s = (Throw m, s1) ->
  reserve_failure H tokenA tokenB m
  /\ within (pairCache (memory s1)) (pairCache (memory s))
  /\ tokenListCache (memory s1) = tokenListCache (memory s).
Proof.
  intro Hrun. apply getReserves_inv in Hrun.
  destruct Hrun as (s' & Hc & Ht & [(e & _ & _ & Ho & _)|Hfetch]);
    [discriminate|].
  apply fetchReserves_fails in Hfetch. destruct Hfetch as [Hm Hf].
  split; [exact Hf|]. rewrite Hm. split; [|exact Ht].
  intros key e. apply (maybeCleaned_sub H). exact Hc.
Qed.

End ReserveFacts.

(** The theorems at work on the sample network, which serves the
    reserves 1000 and 4000 for the pair, with a clock that moves one
    second at every reading and a random source that makes every cache
    read clean up.  Asked for [0xaaa] into [0xbbb] the adapter fetches
    and answers 1000 against 4000; asked right after for [0xbbb] into
    [0xaaa] it finds the entry one and two seconds old and answers from
    the cache, again 1000 against 4000. *)
Lemma getReserves_cache_ignores_direction_witness :
  let H := SampleHost.tickingHost (SampleHost.net (1 # 20)) 1000 in
  let s := SampleHost.started (SampleHost.net (1 # 20)) 1000 in
  let res := {| reserve_in := ofZ 1000; reserve_out := ofZ 4000 |} in
  PancakeAdapter.getReserves H "0xpcs" "0xaaa" "0xbbb" s
  = (Ok res, snd (PancakeAdapter.getReserves H "0xpcs" "0xaaa" "0xbbb" s))
  /\ exists s2,
       PancakeAdapter.getReserves H "0xpcs" "0xbbb" "0xaaa"
         (snd (PancakeAdapter.getReserves H "0xpcs" "0xaaa" "0xbbb" s))
       = (Ok res, s2).
Proof.
  intros H s res.
  assert (Hrun : PancakeAdapter.getReserves H "0xpcs" "0xaaa" "0xbbb" s
                 = (Ok res,
                    snd (PancakeAdapter.getReserves H "0xpcs" "0xaaa"
                           "0xbbb" s)))
    by (apply run_from_fst; vm_compute; reflexivity).
  split; [exact Hrun|].
  destruct (getReserves_cache_ignores_direction H "0xpcs" "0xaaa" "0xbbb"
              s res _ Hrun) as (e & He & _ & Hnext).
  apply Hnext. vm_compute in He. inversion He.
  split; [intros _|]; vm_compute; reflexivity.
Defined.

(** From a cold cache the opposite direction is fetched and answers
    4000 against 1000. *)
Lemma fresh_reserves_follow_direction_witness :
  let H := SampleHost.quietHost (SampleHost.net (1 # 2)) in
  let s := SampleHost.fresh (SampleHost.net (1 # 2)) in
  exists s2,
    PancakeAdapter.getReserves H "0xpcs" "0xbbb" "0xaaa" s
    = (Ok {| reserve_in := ofZ 4000; reserve_out := ofZ 1000 |}, s2).
Proof.
  intros H s.
  apply (fresh_reserves_follow_direction H "0xpcs" "0xaaa" "0xbbb" s
           (SampleHost.reserves200 1000 4000))
    with (res := {| reserve_in := ofZ 1000; reserve_out := ofZ 4000 |})
         (s1 := snd (PancakeAdapter.getReserves H "0xpcs" "0xaaa" "0xbbb" s)).
  - vm_compute. discriminate.
  - reflexivity.
  - intro w. exists w. reflexivity.
  - apply run_from_fst. vm_compute. reflexivity.
Defined.

(** On the network without pairs the lookup fails with the not-found
    error and the cache stays empty. *)
Lemma failed_getReserves_caches_nothing_witness :
  let H := SampleHost.quietHost (SampleHost.emptyNet (1 # 2)) in
  let s := SampleHost.fresh (SampleHost.emptyNet (1 # 2)) in
  let m := Msg "TokenPairReserve not found for 0xaaa <-> 0xbbb. This pair might not exist on PancakeSwap." in
  let s1 := snd (PancakeAdapter.getReserves H "0xpcs" "0xaaa" "0xbbb" s) in
  PancakeAdapter.getReserves H "0xpcs" "0xaaa" "0xbbb" s = (Throw m, s1)
  /\ CacheSpec.within
       (PancakeAdapter.pairCache (PancakeAdapter.memory s1))
       (PancakeAdapter.pairCache (PancakeAdapter.memory s)).
Proof.
  intros H s m s1.
  assert (Hrun : PancakeAdapter.getReserves H "0xpcs" "0xaaa" "0xbbb" s
                 = (Throw m, s1))
    by (apply run_from_fst; vm_compute; reflexivity).
  split; [exact Hrun|].
  exact (proj1 (proj2 (failed_getReserves_caches_nothing H "0xpcs" "0xaaa"
                         "0xbbb" s m s1 Hrun))).
Defined.

(** ** Pair existence, token list and route search of the path-routed
    adapter *)

Section TryCatch.
Context {W E A : Type}.

Lemma try_catch_inv (c : M W E A) (h : E -> M W E A) w o w' :
  try_catch c h w = (o, w') ->
  c w = (o, w') /\ (exists a, o = Ok a)
  \/ exists e w1, c w = (Throw e, w1) /\ h e w1 = (o, w').
Proof.
  unfold try_catch. destruct (c w) as [[a|e] w1]; intro Hr.
  - left. inversion Hr; subst. split; [reflexivity|now exists a].
  - right. now exists e, w1.
Qed.

Lemma try_catch_ok (c : M W E A) (h : E -> M W E A) w a w' :
  c w = (Ok a, w') -> try_catch c h w = (Ok a, w').
Proof. intro Hc. unfold try_catch. now rewrite Hc. Qed.

End TryCatch.

Section RouteFacts.
Import PancakeAdapter CacheSpec.
Variable H : Host.

Lemma existsKey_sym r a b : existsKey r a b = existsKey r b a.
Proof. unfold existsKey. now rewrite getPairCacheKey_sym. Qed.

Lemma checkPairExists_total r a b : total (checkPairExists H r a b).
Proof. apply total_try_catch. intro e. apply total_ret. Qed.

(** Where an answer of [checkPairExists] comes from: an entry of the
    cache, found there or just written, or a failed network call. *)
Lemma checkPairExists_inv r a b (s : State H) v s1 :
  checkPairExists H r a b s = (Ok v, s1) ->
  tokenListCache (memory s1) = tokenListCache (memory s)
  /\ ((exists e,
         lookup (existsKey r a b) (pairCache (memory s1)) = Some e
         /\ truthyData (ce_data e) = v)
      \/ (v = false
          /\ within (pairCache (memory s1)) (pairCache (memory s)))).
Proof.
  unfold checkPairExists. cbv zeta. fold (existsKey r a b).
  destruct (getCachedPairData_inv H (existsKey r a b) s)
    as (c & s' & Hg & Hc & Ht & Hd).
  unfold try_catch, bind at 1. rewrite Hg.
  destruct c as [d|].
  - unfold ret. intro Hr. inversion Hr; subst. split; [exact Ht|]. left.
    destruct (Hd d eq_refl) as (e & He & <-). now exists e.
  - unfold bind at 1, call.
    destruct (ext_fetch_resource H (resourceUrl H r a b) (outside s'))
      as [[resp|e] w].
    + unfold bind. rewrite setCachedPairData_run. unfold ret.
      intro Hr. inversion Hr; subst. split; [exact Ht|]. left.
      eexists. split; [apply lookup_assign_same|reflexivity].
    + unfold ret. intro Hr. inversion Hr; subst. split; [exact Ht|].
      right. split; [reflexivity|]. intros key e0.
      apply (maybeCleaned_sub H). exact Hc.
Qed.

Lemma checkPairExists_hit r a b (s : State H) e :
  lookup (existsKey r a b) (pairCache (memory s)) = Some e ->
  fresh_at H (outside s) e ->
  exists s', checkPairExists H r a b s = (Ok (truthyData (ce_data e)), s').
Proof.
  intros Hl Hfresh.
  destruct (getCachedPairData_fresh H _ s e Hl Hfresh) as (s' & Hg & _).
  exists s'. unfold checkPairExists. cbv zeta. fold (existsKey r a b).
  apply try_catch_ok. now rewrite (bind_ok _ _ Hg).
Qed.

(** X7.  [checkPairExists] never throws, and what it answers it
    remembers, the negative answers as well: its answer is the
    truthiness of the entry it leaves under the pair's key, and when
    that entry is less than thirty minutes old on the clock readings
    the next question takes, the question for the same pair, in either
    order of the tokens, gets the same answer without regard to the
    network.  The one exception is a network call that fails: the
    answer is then [false] and nothing is stored.  A positive answer is
    therefore always a cached one. *)
Theorem checkPairExists_answers_are_cached
  (resourceAccount tokenA tokenB : string) :
  total (checkPairExists H resourceAccount tokenA tokenB)
  /\ forall (s : State H) v s1,
       checkPairExists H resourceAccount tokenA tokenB s = (Ok v, s1) ->
       (exists e,
          lookup (existsKey resourceAccount tokenA tokenB)
            (pairCache (memory s1)) = Some e
          /\ truthyData (ce_data e) = v
          /\ (fresh_at H (outside s1) e ->
              (exists s2,
                 checkPairExists H resourceAccount tokenA tokenB s1
                 = (Ok v, s2))
              /\ exists s2,
                   checkPairExists H resourceAccount tokenB tokenA s1
                   = (Ok v, s2)))
       \/ (v = false
           /\ within (pairCache (memory s1)) (pairCache (memory s))).
Proof.
  split; [apply checkPairExists_total|].
  intros s v s1 Hrun. apply checkPairExists_inv in Hrun.
  destruct Hrun as [_ [(e & He & Hv)|Hfail]]; [left|now right].
  exists e. split; [exact He|]. split; [exact Hv|]. intro Hfresh.
  split.
  - destruct (checkPairExists_hit _ _ _ _ _ He Hfresh) as (s2 & Hhit).
    exists s2. now rewrite Hhit, Hv.
  - rewrite existsKey_sym in He.
    destruct (checkPairExists_hit _ _ _ _ _ He Hfresh) as (s2 & Hhit).
    exists s2. now rewrite Hhit, Hv.
Qed.

(** *** The token list *)

Lemma refresh_total (t : Z) :
  total
    (try_catch
       (response <- call H (ext_fetch_token_list H TOKEN_LIST_URL) ;;
        if negb (tl_ok response) then ret []
        else
          match tl_json response with
          | Throw e => throw (External e)
          | Ok tokens =>
              _ <- writeTokenListCache H
                     (Some {| tlc_tokens := tokens; tlc_timestamp := t |}) ;;
              ret tokens
          end)
       (fun _ : message => ret [])).
Proof. apply total_try_catch. intro e. apply total_ret. Qed.

Lemma getTokenList_total : total (getTokenList H).
Proof.
  intro s. unfold getTokenList, bind at 1, dateNow.
  destruct (Date_now H (outside s)) as [t w].
  unfold bind at 1, readTokenListCache. cbn [memory].
  destruct (tokenListCache (memory s)) as [c|].
  - destruct (t - tlc_timestamp c <? CACHE_DURATION).
    + unfold ret. eauto.
    + apply refresh_total.
  - apply refresh_total.
Qed.

Lemma getTokenList_hit (s : State H) c :
  tokenListCache (memory s) = Some c ->
  fst (Date_now H (outside s)) - tlc_timestamp c < CACHE_DURATION ->
  getTokenList H s
  = (Ok (tlc_tokens c), landed s (snd (Date_now H (outside s)))).
Proof.
  intros Hc Hfresh. unfold getTokenList, bind at 1, dateNow.
  destruct (Date_now H (outside s)) as [t w]. cbn [fst snd] in *.
  unfold bind at 1, readTokenListCache. cbn [memory]. rewrite Hc.
  apply Z.ltb_lt in Hfresh. now rewrite Hfresh.
Qed.

(** What a refresh of the token list does. *)
Lemma refresh_inv (t : Z) (s : State H) tokens s1 :
  try_catch
    (response <- call H (ext_fetch_token_list H TOKEN_LIST_URL) ;;
     if negb (tl_ok response) then ret []
     else
       match tl_json response with
       | Throw e => throw (External e)
       | Ok tokens =>
           _ <- writeTokenListCache H
                  (Some {| tlc_tokens := tokens; tlc_timestamp := t |}) ;;
           ret tokens
       end)
    (fun _ : message => ret []) s = (Ok tokens, s1) ->
  pairCache (memory s1) = pairCache (memory s)
  /\ (tokenListCache (memory s1)
      = Some {| tlc_tokens := tokens; tlc_timestamp := t |}
      \/ (tokens = []
          /\ tokenListCache (memory s1) = tokenListCache (memory s))).
Proof.
  unfold try_catch, bind at 1, call.
  destruct (ext_fetch_token_list H TOKEN_LIST_URL (outside s))
    as [[resp|e] w].
  - destruct (tl_ok resp); cbn [negb].
    + destruct (tl_json resp) as [l|e].
      * unfold bind, writeTokenListCache, ret. intro Hr.
        inversion Hr; subst. split; [reflexivity|now left].
      * unfold throw, ret. intro Hr. inversion Hr; subst.
        split; [reflexivity|now right].
    + unfold ret. intro Hr. inversion Hr; subst.
      split; [reflexivity|now right].
  - unfold ret. intro Hr. inversion Hr; subst.
    split; [reflexivity|now right].
Qed.

Lemma getTokenList_inv (s : State H) tokens s1 :
  getTokenList H s = (Ok tokens, s1) ->
  pairCache (memory s1) = pairCache (memory s)
  /\ (tokenListCache (memory s1)
      = Some {| tlc_tokens := tokens;
                tlc_timestamp := fst (Date_now H (outside s)) |}
      \/ (tokenListCache (memory s1) = tokenListCache (memory s)
          /\ (tokens = []
              \/ exists c,
                   tokenListCache (memory s) = Some c
                   /\ tokens = tlc_tokens c
                   /\ fst (Date_now H (outside s)) - tlc_timestamp c
                      < CACHE_DURATION))).
Proof.
  unfold getTokenList, bind at 1, dateNow.
  destruct (Date_now H (outside s)) as [t w]. cbn [fst].
  unfold bind at 1, readTokenListCache. cbn [memory].
  assert (Hrefresh : forall r,
             r = (Ok tokens, s1) ->
             r = try_catch
                   (response <-
                      call H (ext_fetch_token_list H TOKEN_LIST_URL) ;;
                    if negb (tl_ok response) then ret []
                    else
                      match tl_json response with
                      | Throw e => throw (External e)
                      | Ok tokens =>
                          _ <- writeTokenListCache H
                                 (Some {| tlc_tokens := tokens;
                                          tlc_timestamp := t |}) ;;
                          ret tokens
                      end)
                   (fun _ : message => ret [])
                   {| memory := memory s; outside := w |} ->
             pairCache (memory s1) = pairCache (memory s)
             /\ (tokenListCache (memory s1)
                 = Some {| tlc_tokens := tokens; tlc_timestamp := t |}
                 \/ (tokenListCache (memory s1) = tokenListCache (memory s)
                     /\ (tokens = []
                         \/ exists c,
                              tokenListCache (memory s) = Some c
                              /\ tokens = tlc_tokens c
                              /\ t - tlc_timestamp c < CACHE_DURATION)))).
  { intros r Hr Heq. rewrite Hr in Heq. symmetry in Heq.
    apply refresh_inv in Heq. cbn [memory] in Heq.
    destruct Heq as [Hp [Hnew|[Hnil Hsame]]].
    - split; [exact Hp|now left].
    - split; [exact Hp|]. right. split; [exact Hsame|now left]. }
  destruct (tokenListCache (memory s)) as [c|] eqn:Hc.
  - destruct (t - tlc_timestamp c <? CACHE_DURATION) eqn:Hf.
    + unfold ret. intro Hr. inversion Hr; subst. cbn [memory].
      split; [reflexivity|]. right. split; [exact Hc|]. right.
      exists c. apply Z.ltb_lt in Hf. now repeat split.
    + intro Hr. now apply (Hrefresh _ Hr).
  - intro Hr. now apply (Hrefresh _ Hr).
Qed.

(** X8.  The token list is fetched at most once in five minutes and a
    failure yields the empty list.  [getTokenList] never throws.  While
    the cached list is less than five minutes old it is returned as it
    is and the memory of the adapter does not change.  Otherwise the
    list is fetched: what is returned is then the list just stored in
    the cache with the time of the call, or, the fetch failing, the
    empty list with the cache left as it was; a list that is in the
    cache but too old is not returned in place of a failed fetch.  The
    pair cache is never touched. *)
Theorem getTokenList_cached_five_minutes :
  total (getTokenList H)
  /\ (forall (s : State H) c,
        tokenListCache (memory s) = Some c ->
        fst (Date_now H (outside s)) - tlc_timestamp c < CACHE_DURATION ->
        exists s1,
          getTokenList H s = (Ok (tlc_tokens c), s1)
          /\ memory s1 = memory s)
  /\ (forall (s : State H) tokens s1,
        getTokenList H s = (Ok tokens, s1) ->
        pairCache (memory s1) = pairCache (memory s)
        /\ (tokenListCache (memory s1)
            = Some {| tlc_tokens := tokens;
                      tlc_timestamp := fst (Date_now H (outside s)) |}
            \/ (tokenListCache (memory s1) = tokenListCache (memory s)
                /\ (tokens = []
                    \/ exists c,
                         tokenListCache (memory s) = Some c
                         /\ tokens = tlc_tokens c
                         /\ fst (Date_now H (outside s)) - tlc_timestamp c
                            < CACHE_DURATION)))).
Proof.
  split; [apply getTokenList_total|]. split.
  - intros s c Hc Hfresh. eexists.
    split; [apply (getTokenList_hit s c Hc Hfresh)|reflexivity].
  - apply getTokenList_inv.
Qed.

(** *** Token support *)

Lemma exitsTokens_run tokenAddress (s : State H) tokens s1 :
  getTokenList H s = (Ok tokens, s1) ->
  exitsTokens H tokenAddress s
  = (Ok (existsb
           (fun token =>
              (Str.toLowerCase (tk_address token)
               =? normalizedTokenAddress tokenAddress)%string) tokens), s1).
Proof.
  intro Hl. unfold exitsTokens. apply try_catch_ok.
  now rewrite (bind_ok _ _ Hl).
Qed.

Lemma getTokenInfo_run tokenAddress (s : State H) tokens s1 :
  getTokenList H s = (Ok tokens, s1) ->
  getTokenInfo H tokenAddress s
  = (Ok (find
           (fun token =>
              (Str.toLowerCase (tk_address token)
               =? normalizedTokenAddress tokenAddress)%string) tokens), s1).
Proof.
  intro Hl. unfold getTokenInfo. apply try_catch_ok.
  now rewrite (bind_ok _ _ Hl).
Qed.

Lemma normalized_coin_type tokenAddress :
  Str.includes (Str.toLowerCase tokenAddress) "::" = true ->
  normalizedTokenAddress tokenAddress = APT_COIN_LOWER.
Proof.
  intro Hi. unfold normalizedTokenAddress. cbv zeta. rewrite Hi.
  now rewrite orb_true_r.
Qed.

(** X9.  Every address that contains [::], that is every coin type, is
    looked up in the token list as the native coin.  Whatever coin type
    is asked for, [exitsTokens] answers whether the native coin is on
    the list and [getTokenInfo] returns the native coin's entry; the
    token named by the address plays no part. *)
Theorem coin_types_are_looked_up_as_native_coin (tokenAddress : string) :
  Str.includes (Str.toLowerCase tokenAddress) "::" = true ->
  forall s : State H,
  exists tokens s1,
    getTokenList H s = (Ok tokens, s1)
    /\ exitsTokens H tokenAddress s = (Ok (existsb isNative tokens), s1)
    /\ getTokenInfo H tokenAddress s = (Ok (find isNative tokens), s1).
Proof.
  intros Hi s. destruct (getTokenList_total s) as (tokens & s1 & Hl).
  exists tokens, s1. split; [exact Hl|].
  rewrite (exitsTokens_run tokenAddress s tokens s1 Hl).
  rewrite (getTokenInfo_run tokenAddress s tokens s1 Hl).
  rewrite (normalized_coin_type _ Hi). split; reflexivity.
Qed.

(** *** Route search *)

Lemma exitsTokens_total tokenAddress : total (exitsTokens H tokenAddress).
Proof. apply total_try_catch. intro e. apply total_ret. Qed.

Lemma getRoutingPath_total r a b : total (getRoutingPath H r a b).
Proof. apply total_try_catch. intro e. apply total_ret. Qed.

Lemma tryDirectSwap_inv r tokenIn tokenOut (s : State H) o s1 :
  tryDirectSwap H r tokenIn tokenOut s = (Ok o, s1) ->
  o = None \/ o = Some (directRoute tokenIn tokenOut).
Proof.
  intro Hr. apply try_catch_inv in Hr.
  destruct Hr as [[Hr _]|(e & w1 & _ & Hr)].
  - apply bind_inv in Hr. destruct Hr as (v & s' & _ & Hr).
    destruct v; unfold ret in Hr; inversion Hr; [now right|now left].
  - unfold ret in Hr. inversion Hr. now left.
Qed.

Lemma tryIntermediates_inv r tokenIn tokenOut candidates :
  forall (s : State H) o s1,
    tryIntermediates H r tokenIn tokenOut candidates s = (Ok o, s1) ->
    o = None
    \/ exists intermediate,
         In intermediate candidates
         /\ o = Some (doubleHop tokenIn intermediate tokenOut).
Proof.
  induction candidates as [|c rest IH]; intros s o s1 Hr; simpl in Hr.
  - unfold ret in Hr. inversion Hr. now left.
  - apply bind_inv in Hr. destruct Hr as (both & s' & _ & Hr).
    destruct both.
    + unfold ret in Hr. inversion Hr. right. exists c.
      split; [now left|reflexivity].
    + apply IH in Hr. destruct Hr as [->|(m & Hin & ->)]; [now left|].
      right. exists m. split; [now right|reflexivity].
Qed.

Lemma findIntermediateRoute_inv r tokenIn tokenOut (s : State H) o s1 :
  findIntermediateRoute H r tokenIn tokenOut s = (Ok o, s1) ->
  o = None
  \/ exists intermediate,
       o = Some (doubleHop tokenIn intermediate tokenOut)
       /\ intermediate <> tokenIn /\ intermediate <> tokenOut.
Proof.
  intro Hr. apply try_catch_inv in Hr.
  destruct Hr as [[Hr _]|(e & w1 & _ & Hr)].
  - apply bind_inv in Hr. destruct Hr as (tokens & s' & _ & Hr).
    apply tryIntermediates_inv in Hr.
    destruct Hr as [->|(m & Hin & ->)]; [now left|]. right. exists m.
    split; [reflexivity|]. apply filter_In in Hin. destruct Hin as [_ Hf].
    apply andb_true_iff in Hf. destruct Hf as [Hi Ho].
    apply negb_true_iff in Hi, Ho.
    apply String.eqb_neq in Hi, Ho. now split.
  - unfold ret in Hr. inversion Hr. now left.
Qed.

Lemma getRoutingPath_inv r tokenIn tokenOut (s : State H) o s1 :
  getRoutingPath H r tokenIn tokenOut s = (Ok o, s1) ->
  o = None \/ exists route, o = Some route
                            /\ route_between tokenIn tokenOut route.
Proof.
  intro Hr. apply try_catch_inv in Hr.
  destruct Hr as [[Hr _]|(e & w1 & _ & Hr)].
  - apply bind_inv in Hr. destruct Hr as (d & s' & Hd & Hr).
    apply tryDirectSwap_inv in Hd. destruct Hd as [->| ->].
    + apply bind_inv in Hr. destruct Hr as (i & s'' & Hi & Hr).
      apply findIntermediateRoute_inv in Hi.
      destruct Hi as [->|(m & -> & Hm)].
      * unfold ret in Hr. inversion Hr. now left.
      * unfold ret in Hr. inversion Hr. right. eexists.
        split; [reflexivity|]. right. now exists m.
    + unfold ret in Hr. inversion Hr. right. eexists.
      split; [reflexivity|]. now left.
  - unfold ret in Hr. inversion Hr. now left.
Qed.

Lemma findPools_total params : total (findPools H params).
Proof.
  unfold findPools. cbv zeta.
  destruct (sp_tokenAddressIn params) as [tin|]; [|apply total_ret].
  destruct (sp_tokenAddressOut params) as [tout|]; [|apply total_ret].
  destruct (negb (Str.truthy tin) || negb (Str.truthy tout));
    [apply total_ret|].
  apply total_bind; [apply exitsTokens_total|]. intro a.
  apply total_bind; [apply exitsTokens_total|]. intro b.
  destruct (negb a); [apply total_ret|].
  destruct (negb b); [apply total_ret|].
  apply total_bind; [apply getRoutingPath_total|]. intros [ri|];
    apply total_ret.
Qed.

Lemma findPools_inv (params : PoolSearchParams) (s : State H) pools s1 :
  findPools H params s = (Ok pools, s1) ->
  pools = []
  \/ exists tokenIn tokenOut route,
       sp_tokenAddressIn params = Some tokenIn
       /\ sp_tokenAddressOut params = Some tokenOut
       /\ tokenIn <> "" /\ tokenOut <> ""
       /\ route_between tokenIn tokenOut route
       /\ pools = [routedPool (sp_dex params) tokenIn tokenOut route].
Proof.
  unfold findPools. cbv zeta.
  destruct (sp_tokenAddressIn params) as [tin|];
    [|unfold ret; intro Hr; inversion Hr; now left].
  destruct (sp_tokenAddressOut params) as [tout|];
    [|unfold ret; intro Hr; inversion Hr; now left].
  destruct (negb (Str.truthy tin) || negb (Str.truthy tout)) eqn:Hne;
    [unfold ret; intro Hr; inversion Hr; now left|].
  apply orb_false_iff in Hne. destruct Hne as [Hti Hto].
  apply negb_false_iff in Hti, Hto. unfold Str.truthy in Hti, Hto.
  apply negb_true_iff in Hti, Hto. apply String.eqb_neq in Hti, Hto.
  intro Hr. apply bind_inv in Hr. destruct Hr as (a & s' & _ & Hr).
  apply bind_inv in Hr. destruct Hr as (b & s'' & _ & Hr).
  destruct a; cbn [negb] in Hr;
    [|unfold ret in Hr; inversion Hr; now left].
  destruct b; cbn [negb] in Hr;
    [|unfold ret in Hr; inversion Hr; now left].
  apply bind_inv in Hr. destruct Hr as (ri & s3 & Hri & Hr).
  apply getRoutingPath_inv in Hri.
  destruct Hri as [->|(route & -> & Hroute)].
  - unfold ret in Hr. inversion Hr. now left.
  - unfold ret in Hr. inversion Hr. right.
    exists tin, tout, route. now repeat split.
Qed.

(** X10.  Pool discovery of the path-routed adapter never throws and
    returns no pool or exactly one.  The pool it returns carries the two
    token addresses of the request as its tokens, the adapter's method
    address as its id, a zero estimate, and a route from the input
    token to the output token that is either direct or leads through
    one intermediate token different from both; both request addresses
    were non-empty.  A three-hop route is never produced. *)
Theorem pancake_findPools_one_routed_pool (params : PoolSearchParams) :
  total (findPools H params)
  /\ forall (s : State H) pools s1,
       findPools H params s = (Ok pools, s1) ->
       pools = []
       \/ exists tokenIn tokenOut route,
            sp_tokenAddressIn params = Some tokenIn
            /\ sp_tokenAddressOut params = Some tokenOut
            /\ tokenIn <> "" /\ tokenOut <> ""
            /\ route_between tokenIn tokenOut route
            /\ pools = [routedPool (sp_dex params) tokenIn tokenOut route].
Proof.
  split; [apply findPools_total|]. intros s pools s1.
  apply findPools_inv.
Qed.

(** X11.  Every pool that pool discovery of the path-routed adapter
    returns passes the adapter's own [validatePool] for the search
    parameters it was found with. *)
Theorem pancake_discovered_pool_validates (params : PoolSearchParams) :
  forall (s : State H) pools s1 p,
    findPools H params s = (Ok pools, s1) ->
    In p pools ->
    PancakeAdapter.validatePool p params = Ok true.
Proof.
  intros s pools s1 p Hr Hin. apply findPools_inv in Hr.
  destruct Hr as [->|(tin & tout & route & Hi & Ho & _ & _ & _ & ->)];
    [contradiction|].
  destruct Hin as [<-|[]].
  unfold PancakeAdapter.validatePool, routedPool.
  cbn [tokenA tokenB lowerRef]. rewrite Hi, Ho.
  cbn [lowerOpt option_map Str.or_empty]. now rewrite String.eqb_refl.
Qed.

End RouteFacts.

(** The theorem at work: the sample list carries the native coin and no
    wrapped ether, and wrapped ether is reported as supported. *)
Lemma coin_types_are_looked_up_as_native_coin_witness :
  let H := SampleHost.quietHost (SampleHost.net (1 # 2)) in
  exists tokens s1,
    PancakeAdapter.getTokenList H (SampleHost.fresh _) = (Ok tokens, s1)
    /\ PancakeAdapter.exitsTokens H "0xf22b::asset::WETH" (SampleHost.fresh _)
       = (Ok (existsb CacheSpec.isNative tokens), s1)
    /\ PancakeAdapter.getTokenInfo H "0xf22b::asset::WETH" (SampleHost.fresh _)
       = (Ok (find CacheSpec.isNative tokens), s1).
Proof.
  intro H.
  apply (coin_types_are_looked_up_as_native_coin H "0xf22b::asset::WETH").
  vm_compute. reflexivity.
Defined.

Example wrapped_ether_counts_as_supported :
  fst (PancakeAdapter.exitsTokens (SampleHost.quietHost (SampleHost.net (1 # 2)))
         "0xf22b::asset::WETH" (SampleHost.fresh _)) = Ok true
  /\ fst (PancakeAdapter.exitsTokens
            (SampleHost.quietHost (SampleHost.net (1 # 2)))
            "0xccc" (SampleHost.fresh _)) = Ok false.
Proof. split; vm_compute; reflexivity. Qed.

(** On the sample network the pair has reserves, discovery returns the
    direct pool, and the pool passes the check. *)
Lemma pancake_discovered_pool_validates_witness :
  let H := SampleHost.quietHost (SampleHost.net (1 # 2)) in
  let params := SampleHost.searchByToken Market.pancakeDex "0xaaa" "0xbbb" in
  let p := PancakeAdapter.routedPool Market.pancakeDex "0xaaa" "0xbbb"
             (CacheSpec.directRoute "0xaaa" "0xbbb") in
  fst (PancakeAdapter.findPools H params (SampleHost.fresh _)) = Ok [p]
  /\ PancakeAdapter.validatePool p params = Ok true.
Proof.
  intros H params p.
  assert (Hrun : PancakeAdapter.findPools H params (SampleHost.fresh _)
                 = (Ok [p],
                    snd (PancakeAdapter.findPools H params
                           (SampleHost.fresh _))))
    by (apply run_from_fst; vm_compute; reflexivity).
  split; [now rewrite Hrun|].
  exact (pancake_discovered_pool_validates H params _ _ _ p Hrun
           (or_introl eq_refl)).
Defined.
Lemma string_app_nil_r (s : string) : (s ++ "")%string = s.
Proof. induction s as [|c s IH]; cbn; [reflexivity|now rewrite IH]. Qed.


(** ** Transaction builders *)

Section SlippageFacts.

(** The minimum is [floor(estimate * (1 - slippage / 100))] in double
    precision. *)
Lemma applySlippage_value (e s : num) :
  applySlippage e s
  = Num.floor (F64.mul e (F64.sub (ofZ 1) (F64.div s (ofZ 100)))).
Proof. reflexivity. Qed.

(** What is rounded down is an integer, when it is a number. *)
Lemma floor_integer (a : num) (q : Q) :
  Num.floor a = Fin q -> exists m : Z, q = inject_Z m.
Proof.
  destruct a as [x|]; cbn [Num.floor]; [|discriminate].
  unfold ofZ. intro Hq. inversion Hq. now exists (Qfloor x).
Qed.

End SlippageFacts.

Section ExternalFacts.
Context {W A : Type}.

Lemma external_ok_inv (c : M W string A) w a w' :
  external c w = (Ok a, w') -> c w = (Ok a, w').
Proof.
  unfold external. destruct (c w) as [[x|e] w1]; intro Hr;
    inversion Hr; reflexivity.
Qed.

Lemma external_throw_inv (c : M W string A) w m w' :
  external c w = (Throw m, w') -> exists e, m = External e.
Proof.
  unfold external. destruct (c w) as [[x|e] w1]; intro Hr;
    inversion Hr. now exists e.
Qed.

End ExternalFacts.

Section LiftFacts.
Context {W E A : Type}.

Lemma lift_inv (o : outcome E A) (w : W) r w' :
  lift o w = (r, w') -> r = o /\ w' = w.
Proof. unfold lift. intro Hr. inversion Hr. now split. Qed.

End LiftFacts.

Section BuilderFacts.
Variable H : Host.

Lemma build_swap_inv req w tx w' :
  build_swap H req w = (Ok tx, w') -> built_from H tx req.
Proof. intro Hb. apply external_ok_inv in Hb. now exists w, w'. Qed.

Lemma hyperion_estimate_total pool amountIn :
  total (HyperionService.estimateAmountOut H pool amountIn).
Proof. apply total_try_catch. intro e. apply total_ret. Qed.

(** X12.  The single-pool adapter refuses a pool without id or without
    method address before it contacts anything.  Otherwise the
    transaction it returns was built by the ledger client, under the
    configured gas limits and for the account of the parameters, from a
    payload whose arguments are the pool, the input and the output
    asset, the amount, the minimum output returned with it and the
    recipient; the three branches of the source give two entry
    functions only: the coin entry, with the native coin as its type
    argument, when the input asset is the native coin's alias, and the
    plain batch entry otherwise. *)
Theorem hyperion_swap_payload (params : SwapParams) (pool : Pool) :
  (forall w,
     tokref_truthy (pool_id pool) = false
     \/ methodAddress (dex pool) = "" ->
     HyperionAdapter.createSwapTransaction H params pool w
     = (Throw (Msg "Invalid pool information for Hyperion"), w))
  /\ forall w r w',
       HyperionAdapter.createSwapTransaction H params pool w = (Ok r, w') ->
       exists req,
         built_from H (transaction _ r) req
         /\ configured_request params req
         /\ sp_function (sb_data req)
            = (methodAddress (dex pool)
               ++ if (sw_faAddressIn params =? APT_ALIAS)%string
                  then "::router_v3::swap_batch_coin_entry"
                  else "::router_v3::swap_batch")
         /\ sp_typeArguments (sb_data req)
            = (if (sw_faAddressIn params =? APT_ALIAS)%string
               then [Some (TRStr APT_COIN)] else [])
         /\ sp_functionArguments (sb_data req)
            = [SPools [pool_id pool];
               SAddr (sw_faAddressIn params);
               SAddr (sw_faAddressOut params);
               SNumString (sw_amountIn params);
               SNumString (sr_minAmountOut _ r);
               SAddr (sw_toAddress params)].
Proof.
  split.
  - intros w Hbad. unfold HyperionAdapter.createSwapTransaction. cbv zeta.
    destruct Hbad as [Hid|Hm].
    + now rewrite Hid.
    + rewrite Hm. cbn. now rewrite orb_true_r.
  - intros w r w'. unfold HyperionAdapter.createSwapTransaction. cbv zeta.
    destruct (negb (tokref_truthy (pool_id pool))
              || negb (Str.truthy (methodAddress (dex pool))));
      [discriminate|].
    intro Hr. apply bind_inv in Hr. destruct Hr as (est & w1 & _ & Hr).
    apply bind_inv in Hr. destruct Hr as (tx & w2 & Hb & Hr).
    unfold ret in Hr. inversion Hr; subst. clear Hr. cbn [transaction
      sr_minAmountOut]. apply build_swap_inv in Hb.
    eexists. split; [exact Hb|]. split; [now repeat split|].
    cbn [sb_data].
    destruct (sw_faAddressIn params =? APT_ALIAS)%string eqn:Hin.
    + apply String.eqb_eq in Hin. cbn [sp_function sp_typeArguments
        sp_functionArguments]. rewrite Hin. now repeat split.
    + destruct (sw_faAddressOut params =? APT_ALIAS)%string eqn:Hout.
      * apply String.eqb_eq in Hout. cbn [sp_function sp_typeArguments
          sp_functionArguments]. rewrite Hout. now repeat split.
      * now repeat split.
Qed.

(** *** The minimum output *)

Lemma hyperion_create_minimum params pool w r w' :
  HyperionAdapter.createSwapTransaction H params pool w = (Ok r, w') ->
  sr_minAmountOut _ r
  = applySlippage (sr_estimatedOutput _ r) (sw_slippage params)
  /\ exists req,
       built_from H (transaction _ r) req
       /\ configured_request params req
       /\ In (SNumString (sr_minAmountOut _ r))
            (sp_functionArguments (sb_data req)).
Proof.
  unfold HyperionAdapter.createSwapTransaction. cbv zeta.
  destruct (negb (tokref_truthy (pool_id pool))
            || negb (Str.truthy (methodAddress (dex pool))));
    [discriminate|].
  intro Hr. apply bind_inv in Hr. destruct Hr as (est & w1 & _ & Hr).
  apply bind_inv in Hr. destruct Hr as (tx & w2 & Hb & Hr).
  unfold ret in Hr. inversion Hr; subst. clear Hr.
  cbn [transaction sr_minAmountOut sr_estimatedOutput].
  split; [reflexivity|]. apply build_swap_inv in Hb.
  eexists. split; [exact Hb|]. split; [now repeat split|].
  cbn [sb_data].
  destruct (sw_faAddressIn params =? APT_ALIAS)%string;
    [|destruct (sw_faAddressOut params =? APT_ALIAS)%string];
    cbn [sp_functionArguments]; simpl; tauto.
Qed.

Lemma pancake_create_inv params pool w r w' :
  PancakeAdapter.createSwapTransaction H params pool w = (Ok r, w') ->
  sr_minAmountOut _ r
  = applySlippage (sr_estimatedOutput _ r) (sw_slippage params)
  /\ exists req,
       built_from H (transaction _ r) req
       /\ configured_request params req
       /\ sp_functionArguments (sb_data req)
          = [SNumString (sw_amountIn params);
             SNumString (sr_minAmountOut _ r)]
       /\ sp_function (sb_data req)
          = methodAddress (dex pool) ++ "::router::swap_exact_input"
            ++ (if (PancakeAdapter.routeTypeOf pool =? "direct")%string
                then "" else "_" ++ PancakeAdapter.routeTypeOf pool)
       /\ ((PancakeAdapter.routeTypeOf pool = "direct"
            /\ sp_typeArguments (sb_data req)
               = [ofString (sw_tokenAddressIn params);
                  ofString (sw_tokenAddressOut params)])
           \/ (PancakeAdapter.routeTypeOf pool = "doublehop"
               /\ sp_typeArguments (sb_data req)
                  = map (PancakeAdapter.pathAt
                           (PancakeAdapter.routePathOf params pool))
                      [0; 1; 2]%nat)
           \/ (PancakeAdapter.routeTypeOf pool = "triplehop"
               /\ sp_typeArguments (sb_data req)
                  = map (PancakeAdapter.pathAt
                           (PancakeAdapter.routePathOf params pool))
                      [0; 1; 2; 3]%nat)).
Proof.
  unfold PancakeAdapter.createSwapTransaction. cbv zeta.
  intro Hr. apply bind_inv in Hr. destruct Hr as (est & w1 & _ & Hr).
  apply bind_inv in Hr. destruct Hr as (payload & w2 & Hp & Hr).
  apply bind_inv in Hr. destruct Hr as (tx & w3 & Hb & Hr).
  unfold ret in Hr. inversion Hr; subst. clear Hr.
  cbn [transaction sr_minAmountOut sr_estimatedOutput].
  split; [reflexivity|]. apply build_swap_inv in Hb.
  eexists. split; [exact Hb|]. split; [now repeat split|].
  cbn [sb_data].
  destruct (PancakeAdapter.routeTypeOf pool =? "direct")%string eqn:Hd.
  { apply String.eqb_eq in Hd. unfold ret in Hp. inversion Hp; subst.
    cbn [sp_function sp_functionArguments sp_typeArguments].
    split; [reflexivity|]. split; [now rewrite string_app_nil_r|].
    left. now split. }
  destruct (PancakeAdapter.routeTypeOf pool =? "doublehop")%string eqn:Hh.
  { apply String.eqb_eq in Hh. unfold ret in Hp. inversion Hp; subst.
    cbn [sp_function sp_functionArguments sp_typeArguments].
    split; [reflexivity|]. split; [|right; left; now split].
    rewrite Hh. f_equal. }
  destruct (PancakeAdapter.routeTypeOf pool =? "triplehop")%string eqn:Ht.
  { apply String.eqb_eq in Ht. unfold ret in Hp. inversion Hp; subst.
    cbn [sp_function sp_functionArguments sp_typeArguments].
    split; [reflexivity|]. split; [|right; right; now split].
    rewrite Ht. f_equal. }
  discriminate.
Qed.

Lemma cellana_create_inv params pool w r w' :
  CellanaAdapter.createSwapTransaction H params pool w = (Ok r, w') ->
  CellanaAdapter.validateSlippage H (sw_slippage params) = Ok tt
  /\ sr_minAmountOut _ r
     = applySlippage (sr_estimatedOutput _ r) (sw_slippage params)
  /\ exists req rs,
       routers pool = Some rs /\ rs <> []
       /\ built_from H (transaction _ r) req
       /\ configured_request params req
       /\ let finalAddressIn :=
            orRef (token_a pool) (ofString (sw_tokenAddressIn params)) in
          let finalAddressOut :=
            orRef (token_b pool) (ofString (sw_tokenAddressOut params)) in
          sp_typeArguments (sb_data req)
          = filter CellanaAdapter.isCoinAddress
              [finalAddressIn; finalAddressOut]
          /\ sp_functionArguments (sb_data req)
             = ([SNumString (sw_amountIn params);
                 SNumString (sr_minAmountOut _ r)]
                ++ (if CellanaAdapter.isCoinAddress finalAddressIn then []
                    else [SToken finalAddressIn])
                ++ [SAddrs (map wrapTo rs);
                    SFlags (map stable rs);
                    SAddr (sw_toAddress params)])%list
          /\ sp_function (sb_data req)
             = methodAddress (dex pool)
               ++ (if CellanaAdapter.isCoinAddress finalAddressIn
                   then if CellanaAdapter.isCoinAddress finalAddressOut
                        then "::router::swap_route_entry_both_coins"
                        else "::router::swap_route_entry_from_coin"
                   else if CellanaAdapter.isCoinAddress finalAddressOut
                        then "::router::swap_route_entry_to_coin"
                        else "::router::swap_route_entry").
Proof.
  unfold CellanaAdapter.createSwapTransaction. cbv zeta.
  intro Hr. apply bind_inv in Hr. destruct Hr as ([] & w0 & Hv & Hr).
  apply lift_inv in Hv. destruct Hv as [Hv ->].
  split; [now symmetry|].
  destruct (routers pool) as [[|r0 rs]|] eqn:Hrs; try discriminate.
  apply bind_inv in Hr. destruct Hr as (est & w1 & _ & Hr).
  apply bind_inv in Hr. destruct Hr as (tx & w2 & Hb & Hr).
  unfold ret in Hr. inversion Hr; subst. clear Hr.
  cbn [transaction sr_minAmountOut sr_estimatedOutput].
  split; [reflexivity|]. apply build_swap_inv in Hb.
  eexists. exists (r0 :: rs). split; [reflexivity|].
  split; [discriminate|]. split; [exact Hb|].
  split; [now repeat split|]. cbv zeta. cbn [sb_data].
  destruct (CellanaAdapter.isCoinAddress
              (orRef (token_a pool) (ofString (sw_tokenAddressIn params))))
    eqn:Hi,
    (CellanaAdapter.isCoinAddress
       (orRef (token_b pool) (ofString (sw_tokenAddressOut params))))
    eqn:Ho;
    cbn [andb sp_typeArguments sp_functionArguments sp_function filter app];
    rewrite ?Hi, ?Ho; now repeat split.
Qed.

(** X13.  Whichever adapter builds the swap, the minimum output it
    returns is the estimate it returns reduced by the caller's slippage
    tolerance and rounded down, [floor(estimate * (1 - slippage/100))]
    with the quotient, the difference and the product taken in double
    precision, not by the default tolerance of the estimators; when it
    is a number it is an integer.  The transaction returned with it was
    built by the ledger client, for the caller's account and under the
    configured gas limits, from a payload that carries this minimum
    among its arguments. *)
Theorem swap_minimum_follows_slippage
  (svc : Service) (params : SwapParams) (pool : Pool) w r w' :
  service_createSwapTransaction H svc params pool w = (Ok r, w') ->
  sr_minAmountOut _ r
  = Num.floor
      (F64.mul (sr_estimatedOutput _ r)
         (F64.sub (ofZ 1) (F64.div (sw_slippage params) (ofZ 100))))
  /\ (exists req,
        built_from H (transaction _ r) req
        /\ configured_request params req
        /\ In (SNumString (sr_minAmountOut _ r))
             (sp_functionArguments (sb_data req)))
  /\ forall q : Q,
       sr_minAmountOut _ r = Fin q -> exists m : Z, q = inject_Z m.
Proof.
  intro Hr.
  assert (Hmin : sr_minAmountOut _ r
                 = applySlippage (sr_estimatedOutput _ r)
                     (sw_slippage params)
                 /\ exists req,
                      built_from H (transaction _ r) req
                      /\ configured_request params req
                      /\ In (SNumString (sr_minAmountOut _ r))
                           (sp_functionArguments (sb_data req))).
  { destruct svc; cbn [service_createSwapTransaction] in Hr.
    - now apply hyperion_create_minimum in Hr.
    - apply pancake_create_inv in Hr.
      destruct Hr as (Hm & req & Hb & Hc & Ha & _).
      split; [exact Hm|]. exists req. split; [exact Hb|].
      split; [exact Hc|]. rewrite Ha. simpl. tauto.
    - apply cellana_create_inv in Hr.
      destruct Hr as (_ & Hm & req & rs & _ & _ & Hb & Hc & _ & Ha & _).
      split; [exact Hm|]. exists req. split; [exact Hb|].
      split; [exact Hc|]. rewrite Ha. simpl. tauto. }
  destruct Hmin as [Hm Hreq]. rewrite applySlippage_value in Hm.
  split; [exact Hm|]. split; [exact Hreq|].
  intros q Hq. rewrite Hm in Hq. now apply floor_integer in Hq.
Qed.

(** *** The external-router adapter *)

Lemma validateSlippage_spec (slippage : num) :
  (slippage_out_of_range slippage ->
   exists m, CellanaAdapter.validateSlippage H slippage = Throw (Msg m))
  /\ (CellanaAdapter.validateSlippage H slippage = Ok tt ->
      exists q, slippage = Fin q /\ (0.1 <= q)%Q /\ (q <= 50)%Q).
Proof.
  unfold CellanaAdapter.validateSlippage. split.
  - intros [->|(q & -> & Hq)]; [now eexists|]. cbn [Num.isNaN].
    assert (Hb : ((Fin q <? Fin 0.1)%num || (Fin q >? ofZ 50)%num) = true).
    { apply orb_true_iff. destruct Hq as [Hq|Hq].
      - left. now apply lt_Fin.
      - right. unfold ofZ. now apply gt_Fin. }
    rewrite Hb. now eexists.
  - destruct slippage as [q|]; cbn [Num.isNaN]; [|discriminate].
    destruct ((Fin q <? Fin 0.1)%num || (Fin q >? ofZ 50)%num) eqn:Hb;
      [discriminate|].
    intros _. exists q. split; [reflexivity|].
    apply orb_false_iff in Hb. destruct Hb as [Hlo Hhi]. split.
    + unfold Num.lt in Hlo. apply negb_false_iff in Hlo.
      now apply Qle_bool_iff in Hlo.
    + unfold ofZ in Hhi. now apply gt_Fin_false in Hhi.
Qed.

(** X14.  The external-router adapter checks the slippage tolerance
    before anything else: a tolerance that is not a number, below 0.1
    or above 50 makes [createSwapTransaction] throw at once, nothing
    having been estimated or built, and a transaction is only ever
    returned for a tolerance between 0.1 and 50 percent.  A pool
    without routers is refused as well. *)
Theorem cellana_checks_slippage (params : SwapParams) (pool : Pool) :
  (forall w,
     slippage_out_of_range (sw_slippage params) ->
     exists m,
       CellanaAdapter.createSwapTransaction H params pool w
       = (Throw (Msg m), w))
  /\ (forall w,
        CellanaAdapter.validateSlippage H (sw_slippage params) = Ok tt ->
        routers pool = None \/ routers pool = Some [] ->
        CellanaAdapter.createSwapTransaction H params pool w
        = (Throw (Msg "No routers found for Cellana pool"), w))
  /\ forall w r w',
       CellanaAdapter.createSwapTransaction H params pool w = (Ok r, w') ->
       exists q,
         sw_slippage params = Fin q /\ (0.1 <= q)%Q /\ (q <= 50)%Q.
Proof.
  split; [|split].
  - intros w Hout.
    destruct (proj1 (validateSlippage_spec _) Hout) as (m & Hm).
    exists m. unfold CellanaAdapter.createSwapTransaction. cbv zeta.
    unfold bind, lift. now rewrite Hm.
  - intros w Hv Hrs. unfold CellanaAdapter.createSwapTransaction.
    cbv zeta. unfold bind at 1, lift. rewrite Hv.
    now destruct Hrs as [-> | ->].
  - intros w r w' Hr. apply cellana_create_inv in Hr.
    destruct Hr as [Hv _]. now apply validateSlippage_spec.
Qed.

(** X15.  The entry function the external-router adapter calls is
    chosen by which of the two assets are coin types, that is strings
    containing [::]; the pool's own tokens take precedence over the
    addresses of the parameters.  The type arguments of the payload are
    exactly the coin types among input and output asset, in this
    order, and the input asset is passed as a value argument exactly
    when it is no coin type; the route, its stability flags and the
    recipient always are.  The transaction returned was built from this
    payload. *)
Theorem cellana_swap_payload (params : SwapParams) (pool : Pool) w r w' :
  CellanaAdapter.createSwapTransaction H params pool w = (Ok r, w') ->
  exists req rs,
    routers pool = Some rs /\ rs <> []
    /\ built_from H (transaction _ r) req
    /\ configured_request params req
    /\ let finalAddressIn :=
         orRef (token_a pool) (ofString (sw_tokenAddressIn params)) in
       let finalAddressOut :=
         orRef (token_b pool) (ofString (sw_tokenAddressOut params)) in
       sp_typeArguments (sb_data req)
       = filter CellanaAdapter.isCoinAddress
           [finalAddressIn; finalAddressOut]
       /\ sp_functionArguments (sb_data req)
          = ([SNumString (sw_amountIn params);
              SNumString (sr_minAmountOut _ r)]
             ++ (if CellanaAdapter.isCoinAddress finalAddressIn then []
                 else [SToken finalAddressIn])
             ++ [SAddrs (map wrapTo rs);
                 SFlags (map stable rs);
                 SAddr (sw_toAddress params)])%list
       /\ sp_function (sb_data req)
          = methodAddress (dex pool)
            ++ (if CellanaAdapter.isCoinAddress finalAddressIn
                then if CellanaAdapter.isCoinAddress finalAddressOut
                     then "::router::swap_route_entry_both_coins"
                     else "::router::swap_route_entry_from_coin"
                else if CellanaAdapter.isCoinAddress finalAddressOut
                     then "::router::swap_route_entry_to_coin"
                     else "::router::swap_route_entry").
Proof.
  intro Hr. apply cellana_create_inv in Hr.
  destruct Hr as (_ & _ & req & rs & Hrs & Hne & Hb & Hc & Hp).
  exists req, rs.
  split; [exact Hrs|]. split; [exact Hne|]. split; [exact Hb|].
  split; [exact Hc|]. exact Hp.
Qed.

(** *** The path-routed adapter *)

Lemma pancake_estimate_total pool amountIn :
  total (PancakeSwapService.estimateAmountOut H pool amountIn).
Proof. apply total_try_catch. intro e. apply total_ret. Qed.

Lemma routeTypeOf_routed d tin tout route :
  CacheSpec.route_between tin tout route ->
  PancakeAdapter.routeTypeOf (PancakeAdapter.routedPool d tin tout route)
  = PancakeAdapter.ri_type route.
Proof. intros [->|(mid & -> & _)]; reflexivity. Qed.

(** X16.  For a pool that pool discovery of the path-routed adapter
    built, the builder never stops at the route type: it fails only
    when the ledger client fails to build.  For a direct route the
    type arguments of the payload are the two token addresses of the
    swap parameters, the route of the pool not being consulted; for a
    route over an intermediate token they are the three tokens of the
    pool's route. *)
Theorem pancake_builds_discovered_routes
  (params : SwapParams) (d : DexInfo) (tokenIn tokenOut : string)
  (route : PancakeAdapter.RouteInfo) :
  CacheSpec.route_between tokenIn tokenOut route ->
  let pool := PancakeAdapter.routedPool d tokenIn tokenOut route in
  (forall w m w',
     PancakeAdapter.createSwapTransaction H params pool w = (Throw m, w') ->
     exists e, m = External e)
  /\ forall w r w',
       PancakeAdapter.createSwapTransaction H params pool w = (Ok r, w') ->
       exists req,
         built_from H (transaction _ r) req
         /\ configured_request params req
         /\ ((route = CacheSpec.directRoute tokenIn tokenOut
              /\ sp_function (sb_data req)
                 = methodAddress d ++ "::router::swap_exact_input"
              /\ sp_typeArguments (sb_data req)
                 = [ofString (sw_tokenAddressIn params);
                    ofString (sw_tokenAddressOut params)])
             \/ exists intermediate,
                  route = CacheSpec.doubleHop tokenIn intermediate tokenOut
                  /\ sp_function (sb_data req)
                     = methodAddress d
                       ++ "::router::swap_exact_input_doublehop"
                  /\ sp_typeArguments (sb_data req)
                     = [Some (TRStr tokenIn); Some (TRStr intermediate);
                        Some (TRStr tokenOut)]).
Proof.
  intros Hroute pool. split.
  - intros w m w' Hr.
    unfold PancakeAdapter.createSwapTransaction in Hr. cbv zeta in Hr.
    destruct (pancake_estimate_total pool (sw_amountIn params) w)
      as (est & w1 & Hest).
    rewrite (bind_ok _ _ Hest) in Hr.
    unfold pool in Hr at 1 2 3.
    rewrite (routeTypeOf_routed _ _ _ _ Hroute) in Hr.
    assert (Hkind : ((PancakeAdapter.ri_type route =? "direct")%string
                     || (PancakeAdapter.ri_type route =? "doublehop")%string)
                    = true)
      by (destruct Hroute as [->|(mid & -> & _)]; reflexivity).
    unfold bind in Hr.
    destruct (PancakeAdapter.ri_type route =? "direct")%string;
      [|destruct (PancakeAdapter.ri_type route =? "doublehop")%string;
        [|discriminate]];
      unfold ret in Hr;
      match type of Hr with
      | context [build_swap H ?p w1] =>
          destruct (build_swap H p w1) as [[tx|e] w2] eqn:Hb
      end;
      try discriminate; inversion Hr; subst;
      now apply external_throw_inv in Hb.
  - intros w r w' Hr. apply pancake_create_inv in Hr.
    destruct Hr as (_ & req & Hb & Hc & _ & Hf & Ht).
    exists req. split; [exact Hb|]. split; [exact Hc|].
    unfold pool in Hf, Ht. rewrite (routeTypeOf_routed _ _ _ _ Hroute) in *.
    destruct Hroute as [->|(mid & -> & _)].
    + left. split; [reflexivity|].
      destruct Ht as [[_ Ht]|[[Ht _]|[Ht _]]]; try discriminate.
      split; [|exact Ht]. rewrite Hf. reflexivity.
    + right. exists mid. split; [reflexivity|].
      destruct Ht as [[Ht _]|[[_ Ht]|[Ht _]]]; try discriminate.
      split; [|exact Ht]. rewrite Hf. reflexivity.
Qed.

End BuilderFacts.
(** On the sample host the path-routed builder estimates 900 for 1000
    units by its fallback, and a tolerance of one percent gives the
    minimum 891. *)
Lemma swap_minimum_follows_slippage_witness :
  let H := SampleHost.quietHost (SampleHost.net (1 # 2)) in
  let params := SampleHost.request 1000 1 in
  exists r,
    service_createSwapTransaction H PancakeSwap params Market.pancakePool tt
    = (Ok r, tt)
    /\ sr_estimatedOutput _ r = ofZ 900
    /\ sr_minAmountOut _ r = ofZ 891
    /\ sr_minAmountOut _ r
       = Num.floor
           (F64.mul (sr_estimatedOutput _ r)
              (F64.sub (ofZ 1) (F64.div (sw_slippage params) (ofZ 100)))).
Proof.
  intros H params.
  exists {| transaction := tt : Txn H; sr_estimatedOutput := ofZ 900;
            sr_minAmountOut := ofZ 891 |}.
  assert (Hrun : service_createSwapTransaction H PancakeSwap params
                   Market.pancakePool tt
                 = (Ok {| transaction := tt : Txn H;
                          sr_estimatedOutput := ofZ 900;
                          sr_minAmountOut := ofZ 891 |}, tt))
    by (vm_compute; reflexivity).
  split; [exact Hrun|]. split; [reflexivity|]. split; [reflexivity|].
  exact (proj1 (swap_minimum_follows_slippage H PancakeSwap params
                  Market.pancakePool tt _ tt Hrun)).
Defined.

(** On the market host the external-router builder, given two
    fungible-asset addresses, calls the plain entry function without
    type arguments and passes the input asset as a value. *)
Lemma cellana_swap_payload_witness :
  let H := SampleHost.marketHost 950 (SampleHost.net (1 # 2)) in
  let params := SampleHost.request 1000 1 in
  exists r req,
    CellanaAdapter.createSwapTransaction H params Market.cellanaPool tt
    = (Ok r, tt)
    /\ built_from H (transaction _ r) req
    /\ sp_typeArguments (sb_data req) = []
    /\ sp_function (sb_data req)
       = (methodAddress Market.cellanaDex ++ "::router::swap_route_entry")%string.
Proof.
  intros H params.
  assert (Hrun : CellanaAdapter.createSwapTransaction H params
                   Market.cellanaPool tt
                 = (Ok {| transaction := tt : Txn H;
                          sr_estimatedOutput := ofZ 950;
                          sr_minAmountOut := ofZ 940 |}, tt))
    by (vm_compute; reflexivity).
  destruct (cellana_swap_payload H params Market.cellanaPool tt _ tt Hrun)
    as (req & rs & _ & _ & Hb & _ & Ht & _ & Hf).
  eexists. exists req. split; [exact Hrun|]. split; [exact Hb|].
  split; [exact Ht|exact Hf].
Defined.

(** A route over an intermediate token found for the sample request:
    the builder succeeds and the type arguments are the three tokens of
    the route. *)
Lemma pancake_builds_discovered_routes_witness :
  let H := SampleHost.quietHost (SampleHost.net (1 # 2)) in
  let params := SampleHost.request 1000 1 in
  let route := CacheSpec.doubleHop "0xaaa" "0xmid" "0xbbb" in
  let pool := PancakeAdapter.routedPool Market.pancakeDex "0xaaa" "0xbbb"
                route in
  CacheSpec.route_between "0xaaa" "0xbbb" route
  /\ exists r req,
       PancakeAdapter.createSwapTransaction H params pool tt = (Ok r, tt)
       /\ built_from H (transaction _ r) req
       /\ sp_typeArguments (sb_data req)
          = [Some (TRStr "0xaaa"); Some (TRStr "0xmid"); Some (TRStr "0xbbb")].
Proof.
  intros H params route pool.
  assert (Hroute : CacheSpec.route_between "0xaaa" "0xbbb" route).
  { right. exists "0xmid". split; [reflexivity|]. split; discriminate. }
  split; [exact Hroute|].
  assert (Hrun : PancakeAdapter.createSwapTransaction H params pool tt
                 = (Ok {| transaction := tt : Txn H;
                          sr_estimatedOutput := ofZ 900;
                          sr_minAmountOut := ofZ 891 |}, tt))
    by (vm_compute; reflexivity).
  destruct (proj2 (pancake_builds_discovered_routes H params
                     Market.pancakeDex "0xaaa" "0xbbb" route Hroute)
              tt _ tt Hrun)
    as (req & Hb & _ & [(Hd & _)|(mid & Hm & _ & Ht)]).
  - discriminate Hd.
  - eexists. exists req. split; [exact Hrun|]. split; [exact Hb|].
    injection Hm as <-. exact Ht.
Defined.
(** ** The pool checks of the adapters *)

Section ValidateFacts.

Lemma sortPairJoin_comm (a b : string) :
  Str.sortPairJoin (Some a) (Some b) = Str.sortPairJoin (Some b) (Some a).
Proof.
  unfold Str.sortPairJoin.
  destruct (b <? a)%string eqn:Hba, (a <? b)%string eqn:Hab; try reflexivity.
  - now rewrite (ltb_asym _ _ Hba) in Hab.
  - now rewrite (ltb_total _ _ Hab Hba).
Qed.

Lemma either_way_comm (a b x y : string) :
  (((a =? x)%string && (b =? y)%string)
   || ((a =? y)%string && (b =? x)%string))
  = (((a =? y)%string && (b =? x)%string)
     || ((a =? x)%string && (b =? y)%string)).
Proof. apply orb_comm. Qed.

(** X17.  The pool check of every adapter ignores the direction of the
    request: a pool is accepted for a swap from one asset to another
    exactly when it is accepted for the swap back, and where the check
    fails on a token that is no string it fails the same way. *)
Theorem validatePool_ignores_direction
  (svc : Service) (pool : Pool) (params : PoolSearchParams) :
  service_validatePool svc pool (reversed params)
  = service_validatePool svc pool params.
Proof.
  destruct svc; cbn [service_validatePool].
  - unfold HyperionAdapter.validatePool, reversed.
    cbn [sp_faAddressIn sp_faAddressOut sp_tokenAddressIn
         sp_tokenAddressOut].
    destruct (PancakeAdapter.lowerRef (tokenA pool)); [|reflexivity].
    destruct (PancakeAdapter.lowerRef (tokenB pool)); [|reflexivity].
    f_equal. apply either_way_comm.
  - unfold PancakeAdapter.validatePool, reversed.
    cbn [sp_tokenAddressIn sp_tokenAddressOut].
    destruct (PancakeAdapter.lowerRef (tokenA pool)); [|reflexivity].
    destruct (PancakeAdapter.lowerRef (tokenB pool)); [|reflexivity].
    do 2 f_equal. apply sortPairJoin_comm.
  - unfold CellanaAdapter.validatePool, reversed.
    cbn [sp_faAddressIn sp_faAddressOut sp_tokenAddressIn
         sp_tokenAddressOut].
    destruct (routers pool) as [[|r rs]|]; try reflexivity.
    destruct (PancakeAdapter.lowerRef (tokenA pool)); [|reflexivity].
    destruct (PancakeAdapter.lowerRef (tokenB pool)); [|reflexivity].
    f_equal. apply either_way_comm.
Qed.

End ValidateFacts.
(** ** Pool discovery of the external-router adapter *)

Section CellanaFacts.
Import CellanaAdapter.
Variable H : Host.

Lemma testQuote_total routerAddress path :
  total (testQuote H routerAddress path).
Proof. apply total_try_catch. intro e. apply total_ret. Qed.

Lemma selectBestPath_total routerAddress paths :
  forall bestPath maxAmountOut,
    total (selectBestPath H routerAddress paths bestPath maxAmountOut).
Proof.
  induction paths as [|path rest IH]; intros bestPath maxAmountOut;
    cbn [selectBestPath].
  - apply total_ret.
  - apply total_bind; [apply testQuote_total|].
    intros [amountOut|]; [|apply IH].
    destruct (amountOut >? maxAmountOut)%num; apply IH.
Qed.

(** The loop answers the path it started from or one of the paths it
    went through. *)
Lemma selectBestPath_inv routerAddress paths :
  forall bestPath maxAmountOut w best w',
    selectBestPath H routerAddress paths bestPath maxAmountOut w
    = (Ok best, w') ->
    best = bestPath \/ In best paths.
Proof.
  induction paths as [|path rest IH];
    intros bestPath maxAmountOut w best w'; cbn [selectBestPath].
  - unfold ret. intro Hr. inversion Hr. now left.
  - intro Hr. apply bind_inv in Hr. destruct Hr as (quote & w1 & _ & Hr).
    assert (Hcases :
              (exists m, selectBestPath H routerAddress rest path m w1
                         = (Ok best, w'))
              \/ exists m, selectBestPath H routerAddress rest bestPath m w1
                           = (Ok best, w')).
    { destruct quote as [amountOut|]; [|right; eauto].
      destruct (amountOut >? maxAmountOut)%num; [left|right]; eauto. }
    destruct Hcases as [(m & Hm)|(m & Hm)]; apply IH in Hm.
    + destruct Hm as [->|Hin]; right; [now left|now right].
    + destruct Hm as [->|Hin]; [now left|right; now right].
Qed.

Lemma totalFeeRateOf_total routerAddress rs :
  forall totalFeeRate,
    total (totalFeeRateOf H routerAddress rs totalFeeRate).
Proof.
  induction rs as [|router rest IH]; intro totalFeeRate;
    cbn [totalFeeRateOf].
  - apply total_ret.
  - apply total_bind; [|intro fee; apply IH].
    apply total_try_catch. intro e. apply total_ret.
Qed.

Lemma cellana_findPools_total params : total (findPools H params).
Proof.
  unfold findPools. cbv zeta.
  destruct (negb _ || negb _); [apply total_ret|].
  apply total_try_catch. intro e. apply total_ret.
Qed.

Lemma searchAddress_inv fa token a :
  searchAddress fa token = Some a -> a <> APT_ALIAS.
Proof.
  unfold searchAddress, replaceOpt.
  destruct (HyperionAdapter.requestToken fa token) as [s|]; [|discriminate].
  destruct (s =? APT_ALIAS)%string eqn:Hs; intro Hr; inversion Hr; subst.
  - discriminate.
  - now apply String.eqb_neq.
Qed.

Lemma cellana_findPools_inv params w pools w' :
  findPools H params w = (Ok pools, w') ->
  pools = []
  \/ exists addressIn addressOut data paths path first rest fee,
       searchAddress (sp_faAddressIn params) (sp_tokenAddressIn params)
       = Some addressIn
       /\ searchAddress (sp_faAddressOut params) (sp_tokenAddressOut params)
          = Some addressOut
       /\ addressIn <> "" /\ addressOut <> ""
       /\ router_replied H addressIn addressOut data
       /\ reply_code data = 200
       /\ reply_path data = Some paths
       /\ In path paths
       /\ path_routers path = first :: rest
       /\ pools
          = [{| pool_id := Some (TRStr (poolAddress first));
                dex := sp_dex params;
                tokenA := Some (TRStr addressIn);
                tokenB := Some (TRStr addressOut);
                estimatedOutput := None;
                minAmountOut := None;
                fee := Some fee;
                token_a := Some (TRStr addressIn);
                token_b := Some (TRStr addressOut);
                token_x := None; token_y := None;
                fa_coin_x_metadata := None;
                fa_coin_y_metadata := None;
                fa_coin_x_address := None;
                fa_coin_y_address := None;
                routeType := Some "multi-hop";
                routePath :=
                  Some (addressIn :: map wrapTo (first :: rest));
                routers := Some (first :: rest) |}].
Proof.
  unfold findPools. cbv zeta.
  destruct (searchAddress (sp_faAddressIn params) (sp_tokenAddressIn params))
    as [addressIn|] eqn:Hin;
    [|cbn; unfold ret; intro Hr; inversion Hr; now left].
  destruct (searchAddress (sp_faAddressOut params) (sp_tokenAddressOut params))
    as [addressOut|] eqn:Hout;
    [|cbn [Str.truthy_opt Str.or_empty Str.truthy String.eqb negb];
      rewrite orb_true_r; unfold ret; intro Hr; inversion Hr; now left].
  destruct (negb (Str.truthy_opt (Some addressIn))
            || negb (Str.truthy_opt (Some addressOut))) eqn:Hne;
    [unfold ret; intro Hr; inversion Hr; now left|].
  apply orb_false_iff in Hne. destruct Hne as [Hti Hto].
  apply negb_false_iff in Hti, Hto.
  unfold Str.truthy_opt, Str.truthy in Hti, Hto. cbn [Str.or_empty] in *.
  apply negb_true_iff in Hti, Hto. apply String.eqb_neq in Hti, Hto.
  intro Hr. apply try_catch_inv in Hr.
  destruct Hr as [[Hr _]|(e & w1 & _ & Hr)];
    [|unfold ret in Hr; inversion Hr; now left].
  apply bind_inv in Hr. destruct Hr as (data & w1 & Hpost & Hr).
  unfold router_post in Hpost. apply external_ok_inv in Hpost.
  destruct (reply_path data) as [[|first others]|] eqn:Hpath;
    try (unfold ret in Hr; inversion Hr; now left).
  destruct (reply_code data =? 200) eqn:Hcode; cbn [negb] in Hr;
    [|unfold ret in Hr; inversion Hr; now left].
  apply Z.eqb_eq in Hcode.
  apply bind_inv in Hr. destruct Hr as (best & w2 & Hbest & Hr).
  apply bind_inv in Hr. destruct Hr as (fee & w3 & _ & Hr).
  apply selectBestPath_inv in Hbest.
  assert (Hmem : In best (first :: others))
    by (destruct Hbest as [->|Hb]; [now left|exact Hb]).
  destruct (path_routers best) as [|r0 rs] eqn:Hrs; [discriminate|].
  unfold ret in Hr. inversion Hr. right.
  exists addressIn, addressOut, data, (first :: others), best, r0, rs, fee.
  repeat split; try assumption; try reflexivity.
  now exists w, w1.
Qed.

(** X18.  Pool discovery of the external-router adapter never throws
    and returns no pool or exactly one.  The pool it returns was built
    from a reply of the router service with code 200: its routers are
    the non-empty router list of one of the paths of that reply, its
    id is the pool address of the first router, and its route starts
    at the input address and continues with the target of every
    router.  Its tokens are the addresses searched for, fungible-asset
    address before coin type, and never the alias [0xa] of the native
    coin, which is replaced by the coin type. *)
Theorem cellana_findPools_one_routed_pool (params : PoolSearchParams) :
  total (findPools H params)
  /\ forall w pools w',
       findPools H params w = (Ok pools, w') ->
       pools = []
       \/ exists p addressIn addressOut data paths path rs,
            pools = [p]
            /\ searchAddress (sp_faAddressIn params)
                 (sp_tokenAddressIn params) = Some addressIn
            /\ searchAddress (sp_faAddressOut params)
                 (sp_tokenAddressOut params) = Some addressOut
            /\ addressIn <> APT_ALIAS /\ addressOut <> APT_ALIAS
            /\ router_replied H addressIn addressOut data
            /\ reply_code data = 200
            /\ reply_path data = Some paths
            /\ In path paths
            /\ path_routers path = rs /\ rs <> []
            /\ dex p = sp_dex params
            /\ tokenA p = Some (TRStr addressIn)
            /\ tokenB p = Some (TRStr addressOut)
            /\ token_a p = tokenA p /\ token_b p = tokenB p
            /\ routers p = Some rs
            /\ routePath p = Some (addressIn :: map wrapTo rs)
            /\ pool_id p = option_map (fun r => TRStr (poolAddress r))
                             (hd_error rs).
Proof.
  split; [apply cellana_findPools_total|].
  intros w pools w' Hr. apply cellana_findPools_inv in Hr.
  destruct Hr as [->|(addressIn & addressOut & data & paths & path & first
                      & rest & fee & Hin & Hout & _ & _ & Hrep & Hcode
                      & Hpath & Hmem & Hrs & ->)]; [now left|].
  right. eexists. exists addressIn, addressOut, data, paths, path,
    (first :: rest).
  split; [reflexivity|].
  repeat split; try assumption; try reflexivity.
  - now apply searchAddress_inv in Hin.
  - now apply searchAddress_inv in Hout.
  - discriminate.
Qed.

Lemma lower_coin_not_alias :
  (Str.toLowerCase APT_COIN =? APT_ALIAS)%string = false.
Proof. reflexivity. Qed.

Lemma eqb_chain_false (a b c : string) :
  (a =? c)%string = false ->
  ((a =? b)%string && (b =? c)%string) = false.
Proof.
  intro Hac. destruct (a =? b)%string eqn:Hab; [|reflexivity].
  apply String.eqb_eq in Hab. subst b. now rewrite Hac.
Qed.

(** X19.  When the search names fungible-asset addresses only, a pool
    that the external-router adapter discovered passes the adapter's
    own [validatePool] for the same search exactly when neither address
    is the alias [0xa] of the native coin: discovery replaces the alias
    by the coin type, the check compares with the alias as given. *)
Theorem cellana_discovered_pool_validation
  (params : PoolSearchParams) w pools w' p :
  sp_tokenAddressIn params = None ->
  sp_tokenAddressOut params = None ->
  findPools H params w = (Ok pools, w') ->
  In p pools ->
  validatePool p params
  = Ok (negb (sp_faAddressIn params =? APT_ALIAS)%string
        && negb (sp_faAddressOut params =? APT_ALIAS)%string).
Proof.
  intros Hti Hto Hr Hp. apply cellana_findPools_inv in Hr.
  destruct Hr as [->|(addressIn & addressOut & data & paths & path & first
                      & rest & fee & Hin & Hout & _ & _ & _ & _
                      & _ & _ & _ & ->)]; [contradiction|].
  destruct Hp as [<-|[]].
  unfold validatePool. cbn [routers tokenA tokenB PancakeAdapter.lowerRef].
  rewrite Hti, Hto. unfold requestAddress.
  cbn [Str.truthy_opt Str.or_empty Str.truthy String.eqb negb].
  rewrite Hti in Hin. rewrite Hto in Hout.
  unfold searchAddress, HyperionAdapter.requestToken, replaceOpt in Hin, Hout.
  destruct (Str.truthy (sp_faAddressIn params)); [|discriminate].
  destruct (Str.truthy (sp_faAddressOut params)); [|discriminate].
  pose proof lower_coin_not_alias as Hca.
  destruct (sp_faAddressIn params =? APT_ALIAS)%string eqn:Ha;
    destruct (sp_faAddressOut params =? APT_ALIAS)%string eqn:Hb;
    inversion Hin; inversion Hout; subst addressIn addressOut;
    cbn [negb andb]; f_equal.
  - apply String.eqb_eq in Ha, Hb. rewrite Ha, Hb.
    change (Str.toLowerCase APT_ALIAS) with APT_ALIAS.
    now rewrite Hca.
  - apply String.eqb_eq in Ha. rewrite Ha.
    change (Str.toLowerCase APT_ALIAS) with APT_ALIAS.
    rewrite Hca. cbn [andb orb].
    now apply eqb_chain_false.
  - apply String.eqb_eq in Hb. rewrite Hb.
    change (Str.toLowerCase APT_ALIAS) with APT_ALIAS.
    rewrite Hca, andb_false_r. cbn [orb].
    rewrite andb_comm. apply eqb_chain_false. exact Hca.
  - now rewrite !String.eqb_refl.
Qed.

End CellanaFacts.

Section CellanaQuote.
Variable E : Env.
Import CellanaService.

(** X20.  The external-router adapter asks the ledger for a quote only
    for a whole amount between 1 and the largest 64-bit unsigned
    integer.  An amount that is not a whole number, not positive or
    above that bound makes [getCellanaAmountOut] throw its own error
    before any call is made, so that every quote returned was asked
    for an amount in range. *)
Theorem cellana_quote_amount_bounds
  (routerAddress : string) (amountIn : num) (wrapFrom : string)
  (wrapToAddresses : list string) (stableFlags : list bool) :
  let quote :=
    getCellanaAmountOut E routerAddress amountIn wrapFrom wrapToAddresses
      stableFlags in
  (forall w r w',
     quote w = (Ok r, w') ->
     exists x,
       amountIn = Fin x /\ (x == inject_Z (Qfloor x))%Q
       /\ 1 <= Qfloor x <= U64_MAX)
  /\ (forall w,
        amountIn = NaN
        \/ (exists x, amountIn = Fin x /\ ~ (x == inject_Z (Qfloor x))%Q) ->
        quote w = (Throw (AmountNotInteger amountIn), w))
  /\ (forall w x,
        amountIn = Fin x -> (x == inject_Z (Qfloor x))%Q ->
        U64_MAX < Qfloor x ->
        quote w = (Throw (AmountExceedsU64 amountIn), w))
  /\ (forall w x,
        amountIn = Fin x -> (x == inject_Z (Qfloor x))%Q ->
        Qfloor x <= 0 ->
        quote w = (Throw (AmountNotPositive amountIn), w)).
Proof.
  intro quote. unfold quote, getCellanaAmountOut.
  split; [|split; [|split]].
  - intros w r w' Hr. apply bind_inv in Hr.
    destruct Hr as (n & w1 & Hn & Hr). apply lift_inv in Hn.
    destruct Hn as [Hn ->]. unfold toBigInt in Hn.
    destruct amountIn as [x|]; [|discriminate].
    destruct (Qeq_bool x (inject_Z (Qfloor x))) eqn:Hint; [|discriminate].
    inversion Hn; subst n. apply Qeq_bool_iff in Hint.
    destruct (Qfloor x >? U64_MAX) eqn:Hmax; [discriminate|].
    destruct (Qfloor x <=? 0) eqn:Hpos; [discriminate|].
    exists x. split; [reflexivity|]. split; [exact Hint|]. lia.
  - intros w [->|(x & -> & Hx)]; unfold bind, lift, toBigInt.
    + reflexivity.
    + destruct (Qeq_bool x (inject_Z (Qfloor x))) eqn:Hint; [|reflexivity].
      apply Qeq_bool_iff in Hint. contradiction.
  - intros w x -> Hx Hmax. unfold bind, lift, toBigInt.
    apply Qeq_bool_iff in Hx. rewrite Hx.
    destruct (Qfloor x >? U64_MAX) eqn:Hgt; [reflexivity|lia].
  - intros w x -> Hx Hpos. unfold bind, lift, toBigInt.
    apply Qeq_bool_iff in Hx. rewrite Hx.
    assert (Hle : Qfloor x <= U64_MAX) by (unfold U64_MAX; lia).
    destruct (Qfloor x >? U64_MAX) eqn:Hgt; [lia|].
    destruct (Qfloor x <=? 0) eqn:Hz; [reflexivity|lia].
Qed.

End CellanaQuote.
(** The native coin searched for by its alias: the router service knows
    a path, discovery returns its pool under the coin type, and the
    pool fails the check of the search it came from. *)
Lemma cellana_discovered_pool_validation_witness :
  let H := SampleHost.marketHost 950
             (SampleHost.routerNet APT_COIN "0xbbb") in
  let params := SampleHost.searchByAsset Market.cellanaDex APT_ALIAS "0xbbb" in
  exists p,
    CellanaAdapter.findPools H params tt = (Ok [p], tt)
    /\ tokenA p = Some (TRStr APT_COIN)
    /\ CellanaAdapter.validatePool p params = Ok false.
Proof.
  intros H params.
  destruct (CellanaAdapter.findPools H params tt) as [[[|p [|q l]]|e] []] eqn:Hrun;
    try (vm_compute in Hrun; discriminate Hrun).
  exists p. split; [reflexivity|].
  split; [vm_compute in Hrun; now inversion Hrun|].
  exact (cellana_discovered_pool_validation H params tt [p] tt p
           eq_refl eq_refl Hrun (or_introl eq_refl)).
Defined.
(** ** The workflows *)

Section SwapExecution.
Variable E : Env.

(** X21.  A swap is only built and submitted after the balance was read
    again from the ledger and covers the amount.  Whenever
    [executeSwap] completes, it has, in this order: obtained the wallet
    of the configured user, with a private key that is not empty;
    derived the account from that key; asked the ledger for the balance
    rows of that account's address and the input asset, the alias of
    the native coin replaced by its coin type; found that the prepared
    amount does not exceed the balance of the first row, and for the
    native coin that it does not exceed that balance less the gas
    reserve, the maximal gas cost in octas (a double-precision product)
    rounded up; had the selected pool's adapter build the swap of the
    prepared amount for that account; and submitted what was built,
    signed by that account.  The asset looked up is the coin type of
    the request for the path-routed exchange and its fungible-asset
    address otherwise. *)
Theorem executeSwap_rechecks_balance
  (s : SwapState) (config : RunnableConfig) w s' w' :
  executeSwap E s config w = (Ok s', w') ->
  exists prepared pool req wallet w1 account resources w2 svc params built
         w3 hash w4,
    preparedTransaction s = Some prepared
    /\ selectedPool s = Some pool
    /\ request s = Some req
    /\ phase s' = completed
    /\ ext_getWallet E (extractUserId E config) w = (Ok (Some wallet), w1)
    /\ privateKey wallet <> ""
    /\ ext_accountFromPrivateKey E (privateKey wallet) = Ok account
    /\ (let asset :=
          if (name (dex pool) =? PANCAKESWAP E)%string
          then tokenAddressIn req else Some (faAddressIn req) in
        let reserve :=
          Num.ceil (F64.mul (maxGasCostInAPT (ps_gasEstimation prepared))
                      (ofZ 100000000)) in
        ext_getAccountCoinsData E (accountAddress account)
          (replaceOpt APT_ALIAS APT_COIN asset) w1
        = (Ok resources, w2)
        /\ (if is_apt asset
            then (swapAmount prepared
                  >? F64.sub (heldBalance resources) reserve)%num
            else (swapAmount prepared >? heldBalance resources)%num)
           = false)
    /\ getService E (name (dex pool)) = Ok svc
    /\ sw_account params = account
    /\ sw_amountIn params = swapAmount prepared
    /\ ext_createSwapTransaction E svc params pool w2 = (Ok built, w3)
    /\ ext_signAndSubmitTransaction E account (transaction _ built) w3
       = (Ok hash, w4).
Proof.
  unfold executeSwap. intro Hr.
  destruct (preparedTransaction s) as [prepared|]; [|discriminate].
  destruct (selectedPool s) as [pool|]; [|discriminate].
  destruct (request s) as [req|]; [|discriminate].
  cbv zeta in Hr.
  apply bind_inv in Hr. destruct Hr as (wallet & w1 & Hwal & Hr).
  unfold getWallet in Hwal. apply external_ok_inv in Hwal.
  destruct (wallet_usable wallet) eqn:Huse; cbn [negb] in Hr;
    [|discriminate].
  destruct wallet as [wal|]; [|discriminate].
  cbn [wallet_usable] in Huse. unfold Str.truthy in Huse.
  apply negb_true_iff, String.eqb_neq in Huse.
  apply bind_inv in Hr. destruct Hr as (account & w2 & Hacc & Hr).
  unfold lift, accountOf, accountFromPrivateKey in Hacc.
  destruct (ext_accountFromPrivateKey E (privateKey wal)) as [acct|e]
    eqn:Hkey; inversion Hacc; subst acct w2; clear Hacc.
  apply bind_inv in Hr. destruct Hr as (resources & w3 & Hres & Hr).
  unfold getAccountCoinsData in Hres. apply external_ok_inv in Hres.
  fold (heldBalance resources) in Hr.
  set (asset := if (name (dex pool) =? PANCAKESWAP E)%string
                then tokenAddressIn req else Some (faAddressIn req)) in *.
  destruct (is_apt asset) eqn:Hapt; cbn [andb negb] in Hr.
  - destruct (swapAmount prepared >? _)%num eqn:Hgt; [discriminate|].
    apply bind_inv in Hr. destruct Hr as (svc & w4 & Hsvc & Hr).
    unfold lift in Hsvc.
    destruct (getService E (name (dex pool))) as [svc'|m] eqn:Hget;
      inversion Hsvc; subst svc' w4; clear Hsvc.
    apply bind_inv in Hr. destruct Hr as (built & w5 & Hbuilt & Hr).
    unfold createSwapTransaction in Hbuilt. apply external_ok_inv in Hbuilt.
    apply bind_inv in Hr. destruct Hr as (h & w6 & Hsub & Hr).
    unfold signAndSubmitTransaction in Hsub. apply external_ok_inv in Hsub.
    apply bind_inv in Hr. destruct Hr as (tx & w7 & _ & Hr).
    unfold ret in Hr. inversion Hr; subst.
    eexists prepared, pool, req, wal, w1, account, resources, w3, svc, _,
      built, w5, h, w6.
    do 4 (split; [reflexivity|]). split; [exact Hwal|].
    split; [exact Huse|]. split; [exact Hkey|].
    split; [cbv zeta; fold asset; rewrite Hapt; split;
            [exact Hres|exact Hgt]|].
    split; [exact Hget|].
    refine (conj _ (conj _ (conj Hbuilt Hsub))); reflexivity.
  - destruct (swapAmount prepared >? heldBalance resources)%num eqn:Hgt;
      [discriminate|].
    apply bind_inv in Hr. destruct Hr as (svc & w4 & Hsvc & Hr).
    unfold lift in Hsvc.
    destruct (getService E (name (dex pool))) as [svc'|m] eqn:Hget;
      inversion Hsvc; subst svc' w4; clear Hsvc.
    apply bind_inv in Hr. destruct Hr as (built & w5 & Hbuilt & Hr).
    unfold createSwapTransaction in Hbuilt. apply external_ok_inv in Hbuilt.
    apply bind_inv in Hr. destruct Hr as (h & w6 & Hsub & Hr).
    unfold signAndSubmitTransaction in Hsub. apply external_ok_inv in Hsub.
    apply bind_inv in Hr. destruct Hr as (tx & w7 & _ & Hr).
    unfold ret in Hr. inversion Hr; subst.
    eexists prepared, pool, req, wal, w1, account, resources, w3, svc, _,
      built, w5, h, w6.
    do 4 (split; [reflexivity|]). split; [exact Hwal|].
    split; [exact Huse|]. split; [exact Hkey|].
    split; [cbv zeta; fold asset; rewrite Hapt; split;
            [exact Hres|exact Hgt]|].
    split; [exact Hget|].
    refine (conj _ (conj _ (conj Hbuilt Hsub))); reflexivity.
Qed.

End SwapExecution.

Section SelectionPriority.

(** X22.  An index given in the configuration decides the selection
    alone: whatever the messages and the other answer channels carry,
    cancellations included, both scans resolve to that index, and the
    user is not asked. *)
Theorem configured_index_decides (config : RunnableConfig) (v : jsval) :
  configurable_selectedPoolIndex config = v ->
  is_undefined v = false ->
  (forall messages, earlyResolution config messages = Selected v)
  /\ (forall swapToolId messages,
        resumeResolution config swapToolId messages = Selected v)
  /\ forall (E : Env) (state : GraphState) sortedPools slippageValue w,
       resolveSelection E config state sortedPools slippageValue w
       = (Ok (inr v), w).
Proof.
  intros Hc Hv.
  assert (Hresume : forall swapToolId messages,
             resumeResolution config swapToolId messages = Selected v).
  { intros id msgs. unfold resumeResolution. cbv zeta. rewrite Hc.
    now rewrite !(whenUndefined_defined _ _ Hv). }
  split; [|split; [exact Hresume|]].
  - intro msgs. unfold earlyResolution. cbv zeta. rewrite Hc.
    now rewrite !(whenUndefined_defined _ _ Hv).
  - intros E state sortedPools slippageValue w. unfold resolveSelection.
    rewrite Hresume, Hv. reflexivity.
Qed.

End SelectionPriority.

Section TransferFlow.
Variable E : Env.
Import Transfer.

Lemma prepareTransfer_refused (s : TransferState) config w m :
  refused_at_once E (request s) config m ->
  prepareTransfer E s config w = (Throw m, w).
Proof.
  unfold prepareTransfer. cbv zeta.
  intros [(Hu & ->)|[(Hu & Ht & ->)|(Hu & Ht & Ha & ->)]]; rewrite Hu;
    cbn [negb].
  - reflexivity.
  - now rewrite Ht.
  - apply String.eqb_neq in Ht. unfold Str.truthy at 1. rewrite Ht.
    cbn [negb]. now rewrite Ha.
Qed.

(** X23.  A transfer without an authenticated user, without a recipient
    or without an amount is refused before anything is looked up: the
    preparing step ends in phase [error] with the matching message in
    both [error] and the failure result, the whole workflow ends there,
    and no call to the wallet service, the ledger or the user has been
    made, the outside world being left as it was. *)
Theorem refused_transfer_touches_nothing
  (r : TransferRequest) (config : RunnableConfig) (m : message) :
  refused_at_once E r config m ->
  let failed :=
    {| phase := error; request := r; preparedTransaction := None;
       result := Some (TransferFailed m "Transfer preparation failed");
       error_ := Some m |} in
  forall w,
    prepareTransferNode E (initialState r) config w = (Ok failed, w)
    /\ forall n,
         runTransfer E (S n) (initialState r) config w
         = (Ok (Some failed), w).
Proof.
  intros Href failed w.
  assert (Hnode : prepareTransferNode E (initialState r) config w
                  = (Ok failed, w)).
  { unfold prepareTransferNode, try_catch.
    now rewrite (prepareTransfer_refused (initialState r) config w m Href). }
  split; [exact Hnode|]. intro n.
  unfold runTransfer. cbn [runTransferFrom runNode].
  rewrite (bind_ok _ _ (up_ok _ Hnode)). reflexivity.
Qed.

Lemma prepareTransfer_prepared s config w s1 w1 :
  prepareTransfer E s config w = (Ok s1, w1) ->
  phase s1 = confirming /\ request s1 = request s
  /\ exists prepared,
       preparedTransaction s1 = Some prepared
       /\ assetType prepared = assetTypeOf (request s).
Proof.
  unfold prepareTransfer. cbv zeta. intro Hr.
  destruct (negb (Num.truthy _)); [discriminate|].
  destruct (negb (Str.truthy (toAddress _))); [discriminate|].
  destruct (negb (Str.truthy (amount _))); [discriminate|].
  apply bind_inv in Hr. destruct Hr as (wallet & w2 & _ & Hr).
  destruct (negb (wallet_usable wallet)); [discriminate|].
  apply bind_inv in Hr. destruct Hr as (account & w3 & _ & Hr).
  apply bind_inv in Hr. destruct Hr as (resources & w4 & _ & Hr).
  destruct resources as [|tokenData rest]; [discriminate|].
  destruct (negb (amount_truthy tokenData)); [discriminate|].
  destruct (_ >? _)%num; [discriminate|].
  apply bind_inv in Hr. destruct Hr as (tx & w5 & _ & Hr).
  apply bind_inv in Hr. destruct Hr as (sims & w6 & _ & Hr).
  destruct sims as [|sim sims]; [discriminate|].
  unfold ret in Hr. inversion Hr; subst. cbn.
  split; [reflexivity|]. split; [reflexivity|].
  eexists. split; reflexivity.
Qed.

Lemma confirmTransferNode_inv s config w s2 w2 :
  confirmTransferNode E s config w = (Ok s2, w2) ->
  phase s2 = error
  \/ (phase s2 = executing
      /\ request s2 = request s
      /\ preparedTransaction s2 = preparedTransaction s
      /\ exists prepared first rest,
           preparedTransaction s = Some prepared
           /\ user_answered E
                (TransferConfirmation (toAddress (request s))
                   (amount (request s)) (assetType prepared)
                   (gasEstimation prepared) (accountAddress prepared))
                (first :: rest)
           /\ hr_type first = "accept").
Proof.
  unfold confirmTransferNode, try_catch.
  destruct (confirmTransfer E s w) as [[s1|[m|r]] w1] eqn:Hc;
    [|unfold ret; intro Hr; inversion Hr; now left|discriminate].
  intro Hr. inversion Hr; subst; clear Hr.
  unfold confirmTransfer in Hc.
  destruct (preparedTransaction s) as [prepared|] eqn:Hp; [|discriminate].
  apply bind_inv in Hc. destruct Hc as (answers & w3 & Hans & Hc).
  destruct answers as [|first rest]; cbn [negb] in Hc.
  - unfold ret in Hc. inversion Hc. now left.
  - destruct (hr_type first =? "accept")%string eqn:Hacc; cbn [negb] in Hc;
      unfold ret in Hc; inversion Hc; [|now left].
    right. cbn. rewrite ?Hp. do 3 (split; [reflexivity|]).
    exists prepared, first, rest. split; [reflexivity|].
    split; [now exists w, w3|now apply String.eqb_eq].
Qed.

Lemma executeTransferNode_inv s config w s3 w3 :
  executeTransferNode E s config w = (Ok s3, w3) ->
  phase s3 = error
  \/ (phase s3 = completed
      /\ request s3 = request s
      /\ preparedTransaction s3 = preparedTransaction s).
Proof.
  unfold executeTransferNode, try_catch.
  destruct (executeTransfer E s config w) as [[s1|m] w1] eqn:Hx;
    [|unfold ret; intro Hr; inversion Hr; now left].
  intro Hr. inversion Hr; subst; clear Hr.
  unfold executeTransfer in Hx.
  destruct (preparedTransaction s) as [prepared|] eqn:Hp; [|discriminate].
  cbv zeta in Hx.
  destruct (negb (Str.truthy _)); [discriminate|].
  apply bind_inv in Hx. destruct Hx as (wallet & w2 & _ & Hx).
  destruct (negb (wallet_usable wallet)); [discriminate|].
  apply bind_inv in Hx. destruct Hx as (account & w4 & _ & Hx).
  apply bind_inv in Hx. destruct Hx as (tx & w5 & _ & Hx).
  apply bind_inv in Hx. destruct Hx as (h & w6 & _ & Hx).
  apply bind_inv in Hx. destruct Hx as (ex & w7 & _ & Hx).
  unfold ret in Hx. inversion Hx. right. cbn. rewrite ?Hp.
  now repeat split.
Qed.

(** X24.  A transfer completes only after the user accepted it: a run
    of the transfer workflow that ends in phase [completed] has shown
    the user a confirmation with the recipient and the amount of the
    request, the asset and the gas estimate of the prepared
    transaction and the sender, and the first response to it was of
    type [accept].  The asset confirmed is the fungible-asset address
    of the request, else its coin type, else the native coin. *)
Theorem transfer_completes_only_after_accept
  (fuel : nat) (r : TransferRequest) (config : RunnableConfig) w s' w' :
  runTransfer E fuel (initialState r) config w = (Ok (Some s'), w') ->
  phase s' = completed ->
  exists prepared first rest,
    preparedTransaction s' = Some prepared
    /\ assetType prepared = assetTypeOf r
    /\ user_answered E
         (TransferConfirmation (toAddress r) (amount r) (assetType prepared)
            (gasEstimation prepared) (accountAddress prepared))
         (first :: rest)
    /\ hr_type first = "accept".
Proof.
  unfold runTransfer. intros Hrun Hdone.
  destruct fuel as [|f1]; [discriminate|].
  cbn [runTransferFrom runNode] in Hrun.
  apply bind_inv in Hrun. destruct Hrun as (s1 & w1 & Hprep & Hrun).
  apply up_inv in Hprep.
  unfold prepareTransferNode, try_catch in Hprep.
  destruct (prepareTransfer E (initialState r) config w)
    as [[s1'|m] w1'] eqn:Hp.
  2:{ unfold ret in Hprep. inversion Hprep; subst.
      cbn in Hrun. unfold ret in Hrun. inversion Hrun; subst.
      discriminate Hdone. }
  inversion Hprep; subst; clear Hprep.
  apply prepareTransfer_prepared in Hp.
  destruct Hp as (Hph1 & Hreq1 & prepared & Hprep1 & Hasset).
  cbn [initialState request] in Hreq1, Hasset.
  unfold routeTransferFlow in Hrun at 1. rewrite Hph1 in Hrun.
  destruct f1 as [|f2]; [discriminate|].
  cbn [runTransferFrom runNode] in Hrun.
  apply bind_inv in Hrun. destruct Hrun as (s2 & w2 & Hconf & Hrun).
  apply confirmTransferNode_inv in Hconf.
  destruct Hconf as [Herr|(Hph2 & Hreq2 & Hprep2 & p & first & rest
                            & Hp & Hans & Hacc)].
  { unfold routeTransferFlow in Hrun. rewrite Herr in Hrun.
    unfold ret in Hrun. inversion Hrun; subst. congruence. }
  unfold routeTransferFlow in Hrun at 1. rewrite Hph2 in Hrun.
  destruct f2 as [|f3]; [discriminate|].
  cbn [runTransferFrom runNode] in Hrun.
  apply bind_inv in Hrun. destruct Hrun as (s3 & w3 & Hexec & Hrun).
  apply up_inv in Hexec. apply executeTransferNode_inv in Hexec.
  destruct Hexec as [Herr|(Hph3 & Hreq3 & Hprep3)].
  { unfold routeTransferFlow in Hrun. rewrite Herr in Hrun.
    unfold ret in Hrun. inversion Hrun; subst. congruence. }
  unfold routeTransferFlow in Hrun. rewrite Hph3 in Hrun.
  unfold ret in Hrun. inversion Hrun; subst s3 w3.
  rewrite Hp in Hprep1. inversion Hprep1; subst p.
  exists prepared, first, rest.
  split; [congruence|]. split; [exact Hasset|].
  rewrite Hreq1 in Hans. split; [exact Hans|exact Hacc].
Qed.

End TransferFlow.
(** The market state with the path-routed pool chosen: the wallet holds
    1500000000 units and the swap of 1000000 goes through, after the
    ledger was asked for the rows of the account derived from the
    wallet's key. *)
Lemma executeSwap_rechecks_balance_witness :
  exists s' account resources,
    executeSwap MarketRun.env SampleFlow.chosen Sample.config tt
    = (Ok s', tt)
    /\ phase s' = completed
    /\ ext_accountFromPrivateKey MarketRun.env "0xkey" = Ok account
    /\ ext_getAccountCoinsData MarketRun.env (accountAddress account)
         (Some "0xaaa") tt
       = (Ok resources, tt)
    /\ (swapAmount Market.prepared >? heldBalance resources)%num = false.
Proof.
  destruct (executeSwap MarketRun.env SampleFlow.chosen Sample.config tt)
    as [[s'|m] []] eqn:Hrun; [|vm_compute in Hrun; discriminate Hrun].
  destruct (executeSwap_rechecks_balance MarketRun.env SampleFlow.chosen
              Sample.config tt s' tt Hrun)
    as (prepared & pool & req & wallet & w1 & account & resources & w2
        & svc & params & built & w3 & hash & w4
        & Hp & Hs & Hq & Hph & Hwal & _ & Hkey & [Hrep Hgt] & _).
  injection Hp as <-. injection Hs as <-. injection Hq as <-.
  injection Hwal as <-. destruct w1, w2.
  exists s', account, resources. split; [reflexivity|].
  split; [exact Hph|]. split; [exact Hkey|].
  split; [exact Hrep|exact Hgt].
Defined.

(** A configured index 0 outweighs a cancellation in the resume
    channel. *)
Lemma configured_index_decides_witness :
  let config :=
    {| configurable_user_id := Some "7";
       metadata_user_id := None;
       configurable_selectedPoolIndex := VNum (ofZ 0);
       configurable_interrupt_response :=
         Some {| cancelled := VBool true;
                 selectedPoolIndex := VUndefined |};
       configurable_response := None |} in
  earlyResolution config [] = Selected (VNum (ofZ 0))
  /\ resumeResolution config None [] = Selected (VNum (ofZ 0)).
Proof.
  intro config.
  destruct (configured_index_decides config (VNum (ofZ 0)) eq_refl eq_refl)
    as (Hearly & Hresume & _).
  split; [apply Hearly|apply Hresume].
Defined.

(** Without an authenticated user the transfer of the sample request
    ends at once. *)
Lemma refused_transfer_touches_nothing_witness :
  let E := Sample.env (Sample.quiet 1500000000) in
  let m := Msg "User not authenticated - missing user identity in context" in
  Transfer.runTransfer E 3 (Transfer.initialState (sampleTransfer "1"))
    Failures.anonymous tt
  = (Ok (Some {| Transfer.phase := Transfer.error;
                 Transfer.request := sampleTransfer "1";
                 Transfer.preparedTransaction := None;
                 Transfer.result :=
                   Some (Transfer.TransferFailed m
                           "Transfer preparation failed");
                 Transfer.error_ := Some m |}), tt).
Proof.
  intros E m.
  refine (proj2 (refused_transfer_touches_nothing E (sampleTransfer "1")
                   Failures.anonymous m _ tt) 2%nat).
  left. split; [vm_compute; reflexivity|reflexivity].
Defined.

(** The sample transfer, accepted by the user, completes; the
    confirmation named the native coin. *)
Lemma transfer_completes_only_after_accept_witness :
  let E := Sample.env (Failures.answering Failures.accepted) in
  exists s' prepared first rest,
    Transfer.runTransfer E 3 (Transfer.initialState (sampleTransfer "1"))
      Sample.config tt = (Ok (Some s'), tt)
    /\ Transfer.phase s' = Transfer.completed
    /\ Transfer.assetType prepared = APT_COIN
    /\ user_answered E
         (TransferConfirmation "0xbeef" "1" (Transfer.assetType prepared)
            (Transfer.gasEstimation prepared)
            (Transfer.accountAddress prepared))
         (first :: rest)
    /\ hr_type first = "accept".
Proof.
  intro E.
  destruct (Transfer.runTransfer E 3
              (Transfer.initialState (sampleTransfer "1")) Sample.config tt)
    as [[[s'|]|e] []] eqn:Hrun; try (vm_compute in Hrun; discriminate Hrun).
  assert (Hdone : Transfer.phase s' = Transfer.completed)
    by (vm_compute in Hrun; inversion Hrun; reflexivity).
  destruct (transfer_completes_only_after_accept E 3 (sampleTransfer "1")
              Sample.config tt s' tt Hrun Hdone)
    as (prepared & first & rest & _ & Hasset & Hans & Hacc).
  exists s', prepared, first, rest.
  split; [reflexivity|]. split; [exact Hdone|]. split; [exact Hasset|].
  split; [exact Hans|exact Hacc].
Defined.
(** ** Token symbols *)

Section TokenSymbols.

Lemma app_string_assoc (a b c : string) :
  ((a ++ b) ++ c)%string = (a ++ b ++ c)%string.
Proof. induction a as [|x a IH]; cbn; [reflexivity|now rewrite IH]. Qed.

Lemma splitColons_step (c d : ascii) (s acc : string) :
  HyperionService.splitColons (String c (String d s)) acc
  = if (Ascii.eqb c ":" && Ascii.eqb d ":")%bool
    then acc :: HyperionService.splitColons s ""
    else HyperionService.splitColons (String d s) (acc ++ String c "").
Proof. reflexivity. Qed.

(** Splitting at the separator loses nothing: there is at least one
    piece, and the pieces joined by the separator give the text back. *)
Lemma splitColons_join_step (s : string) :
  (forall acc,
     HyperionService.splitColons s acc <> []
     /\ String.concat "::" (HyperionService.splitColons s acc)
        = (acc ++ s)%string)
  /\ forall c acc,
       HyperionService.splitColons (String c s) acc <> []
       /\ String.concat "::" (HyperionService.splitColons (String c s) acc)
          = (acc ++ String c s)%string.
Proof.
  induction s as [|d s IH].
  - split; intros; cbn; (split; [discriminate|]).
    + now rewrite string_app_nil_r.
    + reflexivity.
  - destruct IH as [IH1 IH2]. split; [intro acc; apply IH2|].
    intros c acc. rewrite splitColons_step.
    destruct (Ascii.eqb c ":" && Ascii.eqb d ":")%bool eqn:Hsep.
    + apply andb_true_iff in Hsep. destruct Hsep as [Hc Hd].
      apply Ascii.eqb_eq in Hc, Hd. subst c d.
      split; [discriminate|].
      destruct (IH1 "") as [Hne Hjoin].
      destruct (HyperionService.splitColons s "") as [|p ps];
        [contradiction|].
      cbn [String.concat]. cbn [String.concat] in Hjoin.
      rewrite Hjoin. reflexivity.
    + destruct (IH2 d (acc ++ String c "")%string) as [Hne Hjoin].
      split; [exact Hne|]. rewrite Hjoin.
      now rewrite app_string_assoc.
Qed.

Lemma splitColons_join (s : string) :
  HyperionService.splitColons s "" <> []
  /\ String.concat "::" (HyperionService.splitColons s "") = s.
Proof. apply (proj1 (splitColons_join_step s) ""). Qed.

Lemma has_separator_snoc (acc : string) (c : ascii) :
  has_separator (acc ++ String c "")
  = (has_separator acc || (ends_with_colon acc && Ascii.eqb c ":"))%bool.
Proof.
  induction acc as [|a acc IH]; [reflexivity|].
  destruct acc as [|b acc].
  - cbn. now rewrite orb_false_r.
  - change (has_separator ((String a (String b acc)) ++ String c ""))
      with ((Ascii.eqb a ":" && Ascii.eqb b ":")
            || has_separator (String b acc ++ String c ""))%bool.
    rewrite IH.
    change (has_separator (String a (String b acc)))
      with ((Ascii.eqb a ":" && Ascii.eqb b ":")
            || has_separator (String b acc))%bool.
    change (ends_with_colon (String a (String b acc)))
      with (ends_with_colon (String b acc)).
    now rewrite orb_assoc.
Qed.

Lemma ends_with_colon_snoc (acc : string) (c : ascii) :
  ends_with_colon (acc ++ String c "") = Ascii.eqb c ":".
Proof.
  induction acc as [|a acc IH]; [reflexivity|].
  destruct acc as [|b acc]; [reflexivity|]. exact IH.
Qed.

(** The pieces of a split: none contains the separator, and none but
    the last ends with a colon. *)
Lemma splitColons_pieces_step (s : string) :
  (forall acc,
     has_separator acc = false ->
     (ends_with_colon acc
      && match s with String c _ => Ascii.eqb c ":" | _ => false end)%bool
     = false ->
     exists pieces final,
       HyperionService.splitColons s acc = (pieces ++ [final])%list
       /\ Forall (fun p => has_separator p = false
                           /\ ends_with_colon p = false) pieces
       /\ has_separator final = false)
  /\ forall c acc,
       has_separator acc = false ->
       (ends_with_colon acc && Ascii.eqb c ":")%bool = false ->
       exists pieces final,
         HyperionService.splitColons (String c s) acc
         = (pieces ++ [final])%list
         /\ Forall (fun p => has_separator p = false
                             /\ ends_with_colon p = false) pieces
         /\ has_separator final = false.
Proof.
  induction s as [|d s IH].
  - split.
    + intros acc Hacc _. exists [], acc. now repeat split.
    + intros c acc Hacc Hend. exists [], (acc ++ String c "")%string.
      split; [reflexivity|]. split; [constructor|].
      now rewrite has_separator_snoc, Hacc, Hend.
  - destruct IH as [IH1 IH2]. split; [intros acc; apply IH2|].
    intros c acc Hacc Hend. rewrite splitColons_step.
    destruct (Ascii.eqb c ":" && Ascii.eqb d ":")%bool eqn:Hsep.
    + apply andb_true_iff in Hsep. destruct Hsep as [Hc Hd].
      rewrite Hc, andb_true_r in Hend.
      destruct (IH1 "") as (pieces & final & Hsplit & Hall & Hfinal);
        [reflexivity|reflexivity|].
      exists (acc :: pieces), final. rewrite Hsplit.
      split; [reflexivity|]. split; [|exact Hfinal].
      constructor; [now split|exact Hall].
    + apply (IH2 d (acc ++ String c "")%string).
      * now rewrite has_separator_snoc, Hacc, Hend.
      * now rewrite ends_with_colon_snoc.
Qed.

Lemma splitColons_cut (s : string) :
  exists pieces final,
    HyperionService.splitColons s "" = (pieces ++ [final])%list
    /\ cut_at_separators s pieces final.
Proof.
  destruct (proj1 (splitColons_pieces_step s) "" eq_refl eq_refl)
    as (pieces & final & Hsplit & Hall & Hfinal).
  exists pieces, final. split; [exact Hsplit|].
  split; [|split; assumption].
  rewrite <- Hsplit. symmetry. apply splitColons_join.
Qed.

(** A text without separator is one piece. *)
Lemma splitColons_whole (s acc : string) :
  has_separator s = false ->
  HyperionService.splitColons s acc = [(acc ++ s)%string].
Proof.
  revert acc. induction s as [|c s IH]; intros acc Hs.
  - cbn. now rewrite string_app_nil_r.
  - destruct s as [|d s]; [reflexivity|].
    rewrite splitColons_step.
    change (has_separator (String c (String d s)))
      with ((Ascii.eqb c ":" && Ascii.eqb d ":")
            || has_separator (String d s))%bool in Hs.
    apply orb_false_iff in Hs. destruct Hs as [Hcd Hrest].
    rewrite Hcd, (IH _ Hrest). now rewrite app_string_assoc.
Qed.

(** A piece that a separator follows is split off as it stands. *)
Lemma splitColons_piece (p rest acc : string) :
  has_separator p = false -> ends_with_colon p = false ->
  HyperionService.splitColons (p ++ "::" ++ rest) acc
  = (acc ++ p)%string :: HyperionService.splitColons rest "".
Proof.
  revert acc. induction p as [|c p IH]; intros acc Hs He.
  - cbn [append]. change ("::" ++ rest)%string
      with (String ":" (String ":" rest)).
    rewrite splitColons_step. cbn [Ascii.eqb Bool.eqb andb].
    now rewrite string_app_nil_r.
  - destruct p as [|d p].
    + change (String c "" ++ "::" ++ rest)%string
        with (String c (String ":" (String ":" rest))).
      rewrite splitColons_step.
      change (ends_with_colon (String c "")) with (Ascii.eqb c ":") in He.
      rewrite He. cbn [andb].
      change (String ":" (String ":" rest)) with ("" ++ "::" ++ rest)%string.
      rewrite (IH _ eq_refl eq_refl). now rewrite string_app_nil_r.
    + change (String c (String d p) ++ "::" ++ rest)%string
        with (String c (String d (p ++ "::" ++ rest))).
      rewrite splitColons_step.
      change (has_separator (String c (String d p)))
        with ((Ascii.eqb c ":" && Ascii.eqb d ":")
              || has_separator (String d p))%bool in Hs.
      apply orb_false_iff in Hs. destruct Hs as [Hcd Hrest].
      rewrite Hcd.
      change (String d (p ++ "::" ++ rest))
        with (String d p ++ "::" ++ rest)%string.
      change (ends_with_colon (String c (String d p)))
        with (ends_with_colon (String d p)) in He.
      rewrite (IH _ Hrest He). now rewrite app_string_assoc.
Qed.

(** The cut is the split: there is no other way to cut a text at its
    separators. *)
Lemma cut_is_split (s : string) (pieces : list string) (final : string) :
  cut_at_separators s pieces final ->
  HyperionService.splitColons s "" = (pieces ++ [final])%list.
Proof.
  intros (Htext & Hall & Hfinal). subst s.
  induction Hall as [|p pieces [Hp He] Hall IH].
  - cbn [app String.concat]. now apply splitColons_whole.
  - assert (Hjoin : String.concat "::" ((p :: pieces) ++ [final])
                    = (p ++ "::"
                       ++ String.concat "::" (pieces ++ [final]))%string).
    { destruct pieces; reflexivity. }
    rewrite Hjoin, (splitColons_piece _ _ _ Hp He), IH. reflexivity.
Qed.

Lemma registry_symbols (token : TokenInfo) :
  In token TOKEN_REGISTRY -> ti_symbol token <> "".
Proof.
  unfold TOKEN_REGISTRY. cbn [In].
  intros Hin.
  repeat (destruct Hin as [<-|Hin]; [discriminate|]). contradiction.
Qed.

(** X25.  [getTokenSymbol] never answers with an empty symbol.  For an
    asset type of the registry it answers the registered symbol.  For
    any other it answers the last of the pieces into which the
    separators [::], taken from left to right, cut the asset type, so
    the whole asset type when it has no separator, and [Unknown] when
    that piece is empty, as when nothing follows the last separator or
    the asset type is empty.  There is such a cut, and only one. *)
Theorem getTokenSymbol_never_empty (assetType : string) :
  getTokenSymbol assetType <> ""
  /\ (forall token,
        getTokenInfoByAssetType assetType = Some token ->
        In token TOKEN_REGISTRY
        /\ ti_assetType token = assetType
        /\ getTokenSymbol assetType = ti_symbol token)
  /\ (exists pieces final, cut_at_separators assetType pieces final)
  /\ (forall pieces final,
        getTokenInfoByAssetType assetType = None ->
        cut_at_separators assetType pieces final ->
        getTokenSymbol assetType
        = if (final =? "")%string then "Unknown" else final)
  /\ (getTokenInfoByAssetType assetType = None ->
      has_separator assetType = false ->
      getTokenSymbol assetType
      = if (assetType =? "")%string then "Unknown" else assetType).
Proof.
  assert (Hcutting : forall pieces final,
            getTokenInfoByAssetType assetType = None ->
            cut_at_separators assetType pieces final ->
            getTokenSymbol assetType
            = if (final =? "")%string then "Unknown" else final).
  { intros pieces final Hreg Hcut. unfold getTokenSymbol. rewrite Hreg.
    assert (Hlast : lastSegment assetType = final).
    { unfold lastSegment. rewrite (cut_is_split _ _ _ Hcut).
      apply last_last. }
    rewrite Hlast. unfold Str.truthy.
    now destruct (final =? "")%string. }
  destruct (splitColons_cut assetType) as (pieces & final & _ & Hcut).
  split; [|split; [|split; [|split]]].
  - destruct (getTokenInfoByAssetType assetType) as [token|] eqn:Hreg.
    + unfold getTokenSymbol. rewrite Hreg.
      unfold getTokenInfoByAssetType in Hreg. apply find_some in Hreg.
      now apply registry_symbols.
    + rewrite (Hcutting pieces final eq_refl Hcut).
      destruct (final =? "")%string eqn:Hempty;
        [discriminate|now apply String.eqb_neq].
  - intros token Hreg. unfold getTokenSymbol. rewrite Hreg.
    unfold getTokenInfoByAssetType in Hreg. apply find_some in Hreg.
    destruct Hreg as [Hin Heq]. apply String.eqb_eq in Heq.
    now repeat split.
  - now exists pieces, final.
  - exact Hcutting.
  - intros Hreg Hnone.
    apply (Hcutting [] assetType Hreg).
    split; [reflexivity|]. split; [constructor|exact Hnone].
Qed.

End TokenSymbols.
